(** * DataGuard: field classification, consent ledger, obligation resolver
      and field-level encryption

    A shallow embedding of [lib/core/RuleEngine.js], of the [DataEncryptor]
    and [ConsentManager] classes of [lib/processors/], of the entry points
    of [lib/core/DataGuard.js], of the decisions the Express and database
    adapters take, and of the parts of the JavaScript run time they rely
    on, followed by the properties of the engine that were checked against
    it.

    Conventions of the embedding.
    - JavaScript objects live in a store ([world]); a value of object type
      is a reference into it, so that aliasing and in-place mutation are
      visible.
    - A string is held as the bytes of its UTF-8 encoding (a surrogate
      without its pair as the three bytes of its code); [Str.length]
      counts UTF-16 code units, as [.length] does. A buffer is held as its
      bytes.
    - A number is an IEEE 754 double: an integer ([VNum]), or a number
      that is not an integer ([VReal]); [Num] rounds decimal literals to
      doubles and prints doubles as [Number.prototype.toString] does.
    - The clock, the random source and the cryptographic primitives of
      Node's [crypto] module are parameters ([Platform]). *)

From Stdlib Require Import ZArith String Ascii List Bool Lia DecimalString.
From Stdlib Require Import DecimalFacts DecimalPos DecimalN.
From stdpp Require Import base tactics option list strings.

Local Open Scope string_scope.
Local Open Scope Z_scope.
Local Open Scope list_scope.
#[local] Set Warnings "-register-all".

(** ** Strings and byte buffers *)

Module Str.

Definition is_lower (c : ascii) : bool :=
  let n := nat_of_ascii c in (97 <=? n)%nat && (n <=? 122)%nat.

Definition is_upper (c : ascii) : bool :=
  let n := nat_of_ascii c in (65 <=? n)%nat && (n <=? 90)%nat.

Definition is_digit (c : ascii) : bool :=
  let n := nat_of_ascii c in (48 <=? n)%nat && (n <=? 57)%nat.

Definition upper_char (c : ascii) : ascii :=
  if is_lower c then ascii_of_nat (nat_of_ascii c - 32) else c.

Definition lower_char (c : ascii) : ascii :=
  if is_upper c then ascii_of_nat (nat_of_ascii c + 32) else c.

Fixpoint map_chars (f : ascii -> ascii) (s : string) : string :=
  match s with
  | EmptyString => EmptyString
  | String c r => String (f c) (map_chars f r)
  end.

(** The bytes of a character after its first one. *)
Definition is_continuation (c : ascii) : bool :=
  let n := nat_of_ascii c in (128 <=? n)%nat && (n <? 192)%nat.

(** The first byte of a character outside the basic plane, which takes
    four bytes and two UTF-16 code units. *)
Definition is_astral (c : ascii) : bool := (240 <=? nat_of_ascii c)%nat.

(** [s.length], in UTF-16 code units. *)
Fixpoint length (s : string) : nat :=
  match s with
  | EmptyString => 0
  | String c r =>
      ((if is_continuation c then 0 else if is_astral c then 2 else 1)
       + length r)%nat
  end.

(** The first surrogate of the pair of the character [a b c d], in three
    bytes. *)
Definition high_surrogate (a b c d : ascii) : string :=
  let cp := (N_of_ascii a mod 8 * 262144 + N_of_ascii b mod 64 * 4096
             + N_of_ascii c mod 64 * 64 + N_of_ascii d mod 64)%N in
  let hs := (55296 + (cp - 65536) / 1024)%N in
  String (ascii_of_nat 237)
    (String (ascii_of_N (128 + hs / 64 mod 64))
       (String (ascii_of_N (128 + hs mod 64)) EmptyString)).

(** [s.substring(0, n)]: the first [n] code units. A character of two
    code units that [n] cuts leaves its first surrogate. *)
Fixpoint substring0 (n : nat) (s : string) : string :=
  match s with
  | EmptyString => EmptyString
  | String a r =>
      if is_continuation a then String a (substring0 n r)
      else
        match n with
        | O => EmptyString
        | S O =>
            if is_astral a then
              match r with
              | String b (String c (String d _)) => high_surrogate a b c d
              | _ => EmptyString
              end
            else String a (substring0 0 r)
        | S (S m as n') =>
            String a (substring0 (if is_astral a then m else n') r)
        end
  end.

(** The characters outside ASCII whose upper case is ASCII text: dotless
    i, long s and sharp s, of two bytes, and the Latin ligatures ff, fi,
    fl, ffi, ffl, long s t and st, of three. *)
Definition upper_of_two (a b : ascii) : option string :=
  let x := nat_of_ascii a in
  let y := nat_of_ascii b in
  if (x =? 196)%nat && (y =? 177)%nat then Some "I"
  else if (x =? 197)%nat && (y =? 191)%nat then Some "S"
  else if (x =? 195)%nat && (y =? 159)%nat then Some "SS"
  else None.

Definition upper_of_three (a b c : ascii) : option string :=
  let z := nat_of_ascii c in
  if (nat_of_ascii a =? 239)%nat && (nat_of_ascii b =? 172)%nat then
    if (z =? 128)%nat then Some "FF"
    else if (z =? 129)%nat then Some "FI"
    else if (z =? 130)%nat then Some "FL"
    else if (z =? 131)%nat then Some "FFI"
    else if (z =? 132)%nat then Some "FFL"
    else if (z =? 133)%nat || (z =? 134)%nat then Some "ST"
    else None
  else None.

(** [String.prototype.toUpperCase]. The letters of ASCII, and the
    characters whose upper case is ASCII text, are mapped; every other
    character has an upper case outside ASCII and is kept as it is, so
    that the result is the one of JavaScript wherever either is ASCII
    text, which is what the program compares it with. *)
Fixpoint toUpperCase (s : string) : string :=
  match s with
  | EmptyString => EmptyString
  | String a r =>
      match r with
      | String b r1 =>
          match upper_of_two a b with
          | Some u => u +:+ toUpperCase r1
          | None =>
              match r1 with
              | String c r2 =>
                  match upper_of_three a b c with
                  | Some u => u +:+ toUpperCase r2
                  | None => String (upper_char a) (toUpperCase r)
                  end
              | EmptyString => String (upper_char a) (toUpperCase r)
              end
          end
      | EmptyString => String (upper_char a) EmptyString
      end
  end.

(** [String.prototype.toLowerCase], in the same way: the letters of
    ASCII are mapped, and the two characters outside ASCII whose lower
    case has an ASCII letter, the capital I with a dot (an i and a
    combining dot) and the Kelvin sign (k). *)
Fixpoint toLowerCase (s : string) : string :=
  match s with
  | EmptyString => EmptyString
  | String a r =>
      match r with
      | String b r1 =>
          if (nat_of_ascii a =? 196)%nat && (nat_of_ascii b =? 176)%nat
          then String "i" (String (ascii_of_nat 204)
                             (String (ascii_of_nat 135) (toLowerCase r1)))
          else
            match r1 with
            | String c r2 =>
                if (nat_of_ascii a =? 226)%nat && (nat_of_ascii b =? 132)%nat
                   && (nat_of_ascii c =? 170)%nat
                then String "k" (toLowerCase r2)
                else String (lower_char a) (toLowerCase r)
            | EmptyString => String (lower_char a) (toLowerCase r)
            end
      | EmptyString => String (lower_char a) EmptyString
      end
  end.

(** [hay.includes(needle)]. *)
Fixpoint includes (hay needle : string) : bool :=
  String.prefix needle hay ||
  match hay with
  | EmptyString => false
  | String _ r => includes r needle
  end.

(** Decimal rendering of an integer, as [Number.prototype.toString] and
    [JSON.stringify] print it. *)
Definition of_Z (z : Z) : string := NilZero.string_of_int (Z.to_int z).
Definition of_nat (n : nat) : string := of_Z (Z.of_nat n).

(** Hexadecimal text of a buffer, [buf.toString('hex')]: two lower-case
    digits per byte. *)
Definition hex_digit (n : nat) : ascii :=
  nth n (list_ascii_of_string "0123456789abcdef") "0"%char.

Fixpoint to_hex (b : string) : string :=
  match b with
  | EmptyString => EmptyString
  | String c r =>
      String (hex_digit (nat_of_ascii c / 16))
        (String (hex_digit (nat_of_ascii c mod 16)) (to_hex r))
  end.

Definition hex_value (c : ascii) : option nat :=
  let n := nat_of_ascii c in
  if (48 <=? n)%nat && (n <=? 57)%nat then Some (n - 48)%nat
  else if (97 <=? n)%nat && (n <=? 102)%nat then Some (n - 87)%nat
  else if (65 <=? n)%nat && (n <=? 70)%nat then Some (n - 55)%nat
  else None.

(** [Buffer.from(s, 'hex')]: digits are read in pairs, in either case;
    decoding stops at the first pair that is not two hexadecimal digits. *)
Fixpoint of_hex (s : string) : string :=
  match s with
  | String a (String b r) =>
      match hex_value a, hex_value b with
      | Some x, Some y => String (ascii_of_nat (16 * x + y)) (of_hex r)
      | _, _ => EmptyString
      end
  | _ => EmptyString
  end.

(** Is [s] ASCII text? *)
Fixpoint is_ascii (s : string) : bool :=
  match s with
  | EmptyString => true
  | String c r => (nat_of_ascii c <? 128)%nat && is_ascii r
  end.

(** [s] with its byte [n] replaced by [c]. *)
Fixpoint set_char (n : nat) (c : ascii) (s : string) : string :=
  match s, n with
  | EmptyString, _ => EmptyString
  | String _ r, O => String c r
  | String a r, S m => String a (set_char m c r)
  end.

(** The first [n] bytes, and the others. *)
Fixpoint take (n : nat) (s : string) : string :=
  match n, s with
  | S m, String c r => String c (take m r)
  | _, _ => EmptyString
  end.

Fixpoint drop (n : nat) (s : string) : string :=
  match n, s with
  | S m, String c r => drop m r
  | _, _ => s
  end.

End Str.

(** ** Numbers *)

Module Num.

(** A number that is not an integer: an odd multiple [m / 2 ^ e] of a
    negative power of two, or an infinity. *)
Inductive real :=
  | Dyadic (m : Z) (e : positive)
  | Infinity (negative : bool).

Definition real_eqb (x y : real) : bool :=
  match x, y with
  | Dyadic m e, Dyadic n f => (m =? n) && (e =? f)%positive
  | Infinity a, Infinity b => Bool.eqb a b
  | _, _ => false
  end.

(** [x < n]. *)
Definition real_ltb (x : real) (n : Z) : bool :=
  match x with
  | Dyadic m e => m <? n * 2 ^ Zpos e
  | Infinity negative => negative
  end.

(** [a / b / 2 ^ e] as a fraction. *)
Definition scaled (a b e : Z) : Z * Z :=
  if 0 <=? e then (a, b * 2 ^ e) else (a * 2 ^ (- e), b).

(** The integer nearest to [a / b], the even one of two. *)
Definition nearest_even (a b : Z) : Z :=
  let q := a / b in
  match 2 * (a mod b) ?= b with
  | Lt => q
  | Gt => q + 1
  | Eq => if Z.even q then q else q + 1
  end.

(** The [k] with [2 ^ k <= a / b < 2 ^ (k + 1)]. *)
Definition binade (a b : Z) : Z :=
  let k := Z.log2 a - Z.log2 b in
  if fst (scaled a b k) <? snd (scaled a b k) then k - 1 else k.

(** [m / 2 ^ e] in lowest terms. *)
Fixpoint lowest (m : positive) (e : nat) : positive * nat :=
  match m, e with
  | xO m', S e' => lowest m' e'
  | _, _ => (m, e)
  end.

(** The double nearest to [a / b], for [0 < a] and [0 < b]: 53 significant
    bits, no exponent below that of the subnormal numbers, ties to the
    even significand, and an infinity from [2 ^ 1024] on. An integer is
    returned as such. *)
Definition nearest (a b : Z) : Z + real :=
  let e := Z.max (binade a b - 52) (- 1074) in
  let m := nearest_even (fst (scaled a b e)) (snd (scaled a b e)) in
  if (971 <? e) || ((e =? 971) && (2 ^ 53 <=? m)) then inr (Infinity false)
  else if 0 <=? e then inl (m * 2 ^ e)
  else
    match m with
    | Zpos p =>
        match lowest p (Z.to_nat (- e)) with
        | (p', O) => inl (Zpos p')
        | (p', S n) => inr (Dyadic (Zpos p') (Pos.of_succ_nat n))
        end
    | _ => inl 0
    end.

Definition negated (x : Z + real) : Z + real :=
  match x with
  | inl n => inl (- n)
  | inr (Dyadic m e) => inr (Dyadic (- m) e)
  | inr (Infinity s) => inr (Infinity (negb s))
  end.

(** [s * 10 ^ x] as a fraction. *)
Definition decimal (s x : Z) : Z * Z :=
  if 0 <=? x then (s * 10 ^ x, 1) else (s, 10 ^ (- x)).

(** The number a decimal literal [digits * 10 ^ exponent] stands for;
    [-0] is not told from [0]. *)
Definition of_decimal (negative : bool) (digits exponent : Z) : Z + real :=
  let x :=
    if digits =? 0 then inl 0
    else nearest (fst (decimal digits exponent))
                 (snd (decimal digits exponent)) in
  if negative then negated x else x.

(** *** [Number.prototype.toString] *)

(** [a / b < 10 ^ n]. *)
Definition below (a b n : Z) : bool :=
  a * snd (decimal 1 n) <? b * fst (decimal 1 n).

(** The [n] with [10 ^ (n - 1) <= a / b < 10 ^ n], looked for from [n]
    on. *)
Fixpoint magnitude (fuel : nat) (a b n : Z) : Z :=
  match fuel with
  | O => n
  | S f =>
      if below a b (n - 1) then magnitude f a b (n - 1)
      else if below a b n then n
      else magnitude f a b (n + 1)
  end.

(** Does [s * 10 ^ x] round to the double [a / b]? *)
Definition rounds_to (a b s x : Z) : bool :=
  match nearest (fst (decimal s x)) (snd (decimal s x)), nearest a b with
  | inl n, inl m => n =? m
  | inr u, inr v => real_eqb u v
  | _, _ => false
  end.

(** Of [s * 10 ^ x] and [(s + 1) * 10 ^ x], around [a / b], is the first
    one to be taken: the nearer one, the even one of two as near? *)
Definition nearer (a b s x : Z) : bool :=
  match 2 * a * snd (decimal 1 x) ?= (2 * s + 1) * fst (decimal 1 x) * b with
  | Lt => true
  | Gt => false
  | Eq => Z.even s
  end.

(** The digits of the double [a / b], with [10 ^ (n - 1) <= a / b <
    10 ^ n]: the least number [k] of digits, and the digits [s], such
    that [s * 10 ^ (n - k)] rounds to the double. *)
Fixpoint shortest (fuel : nat) (a b n k : Z) : Z * Z :=
  match fuel with
  | O => (0, k)
  | S f =>
      let x := n - k in
      let s := fst (decimal a (- x)) / (b * snd (decimal a (- x))) in
      let low := rounds_to a b s x in
      let high := rounds_to a b (s + 1) x in
      if low && (negb high || nearer a b s x) then (s, k)
      else if high then (s + 1, k)
      else shortest f a b n (k + 1)
  end.

Fixpoint zeros (n : nat) : string :=
  match n with
  | O => EmptyString
  | S m => String "0" (zeros m)
  end.

(** The text of the positive double [a / b]: its digits, with the point
    or the exponent where [Number::toString] puts them. *)
Definition positive_text (a b : Z) : string :=
  let n0 := magnitude 700 a b 0 in
  let found := shortest 17 a b n0 1 in
  let carried := fst found =? 10 ^ snd found in
  let s := if carried then fst found / 10 else fst found in
  let n := if carried then n0 + 1 else n0 in
  let ds := Str.of_Z s in
  let k := Z.of_nat (String.length ds) in
  if (k <=? n) && (n <=? 21) then ds +:+ zeros (Z.to_nat (n - k))
  else if (0 <? n) && (n <=? 21)
  then Str.take (Z.to_nat n) ds +:+ "." +:+ Str.drop (Z.to_nat n) ds
  else if (-6 <? n) && (n <=? 0) then "0." +:+ zeros (Z.to_nat (- n)) +:+ ds
  else
    (if k =? 1 then ds else Str.take 1 ds +:+ "." +:+ Str.drop 1 ds)
    +:+ "e" +:+ (if 0 <=? n - 1 then "+" else "-") +:+ Str.of_Z (Z.abs (n - 1)).

(** [String(n)] for an integer: all its digits below [2 ^ 53], where
    every integer is a double. *)
Definition integer_text (n : Z) : string :=
  if Z.abs n <? 2 ^ 53 then Str.of_Z n
  else if n <? 0 then "-" +:+ positive_text (- n) 1
  else positive_text n 1.

(** [String(x)] for a number that is not an integer; an infinity has no
    digits. *)
Definition real_text (x : real) : option string :=
  match x with
  | Dyadic m e =>
      Some (if m <? 0 then "-" +:+ positive_text (- m) (2 ^ Zpos e)
            else positive_text m (2 ^ Zpos e))
  | Infinity _ => None
  end.

End Num.

(** ** JavaScript values, objects and the store *)

Module JS.

Abbreviation loc := nat.

Inductive value :=
  | VUndef
  | VNull
  | VBool (b : bool)
  | VNum (n : Z)
  | VReal (x : Num.real)
  | VStr (s : string)
  | VDate (t : Z)
  | VRef (l : loc).

Arguments VRef l%_nat_scope.

Definition props := list (string * value).

(** A plain object holds its own enumerable properties in insertion order
    and, apart, the properties made non-enumerable by
    [Object.defineProperty]; an array holds its elements. *)
Inductive obj :=
  | OObj (fields hidden : props)
  | OArr (elems : list value).

(** The store, with the number of clock readings and of random draws made
    so far. *)
Record world := World {
  heap : list obj;
  ticks : nat;
  draws : nat
}.

Arguments World heap%_list_scope (ticks draws)%_nat_scope.

Definition value_eqb (a b : value) : bool :=
  match a, b with
  | VUndef, VUndef | VNull, VNull => true
  | VBool x, VBool y => Bool.eqb x y
  | VNum x, VNum y => Z.eqb x y
  | VReal x, VReal y => Num.real_eqb x y
  | VStr x, VStr y => String.eqb x y
  | VDate x, VDate y => false
  | VRef x, VRef y => Nat.eqb x y
  | _, _ => false
  end.

(** [a === true]. *)
Definition is_true (a : value) : bool :=
  match a with VBool true => true | _ => false end.

(** [!!a]. *)
Definition truthy (a : value) : bool :=
  match a with
  | VUndef | VNull | VBool false | VStr EmptyString => false
  | VNum n => negb (n =? 0)
  | _ => true
  end.

(** [a || b]. *)
Definition or_else (a b : value) : value := if truthy a then a else b.

Fixpoint lookup_prop (k : string) (ps : props) : option value :=
  match ps with
  | [] => None
  | (k', v) :: r => if String.eqb k k' then Some v else lookup_prop k r
  end.

Definition has_key (k : string) (ps : props) : bool :=
  match lookup_prop k ps with Some _ => true | None => false end.

(** Assignment keeps the position of an existing key and appends a new
    one. *)
Fixpoint assign (k : string) (v : value) (ps : props) : props :=
  match ps with
  | [] => [(k, v)]
  | (k', v') :: r =>
      if String.eqb k k' then (k, v) :: r else (k', v') :: assign k v r
  end.

Fixpoint remove_key (k : string) (ps : props) : props :=
  match ps with
  | [] => []
  | (k', v') :: r =>
      if String.eqb k k' then remove_key k r else (k', v') :: remove_key k r
  end.

Definition keys (ps : props) : list string := map fst ps.

(** A canonical array index. *)
Definition index_of (k : string) : option nat :=
  match NilZero.uint_of_string k with
  | Some u =>
      let n := Nat.of_uint u in
      if String.eqb (Str.of_nat n) k then Some n else None
  | None => None
  end.

Fixpoint index_props (i : nat) (vs : list value) : props :=
  match vs with
  | [] => []
  | v :: r => (Str.of_nat i, v) :: index_props (S i) r
  end.

Fixpoint char_values (s : string) : list value :=
  match s with
  | EmptyString => []
  | String c r => VStr (String c EmptyString) :: char_values r
  end.

(** The own property [k] of a stored object. *)
Definition own (o : obj) (k : string) : option value :=
  match o with
  | OObj fs hs =>
      match lookup_prop k fs with
      | Some v => Some v
      | None => lookup_prop k hs
      end
  | OArr vs =>
      if String.eqb k "length" then Some (VNum (Z.of_nat (length vs)))
      else match index_of k with
           | Some i => vs !! i
           | None => None
           end
  end.

(** The properties copied by a spread, [{...v}]: the own enumerable ones. *)
Definition spread_props (h : list obj) (v : value) : props :=
  match v with
  | VRef l =>
      match h !! l with
      | Some (OObj fs _) => fs
      | Some (OArr vs) => index_props 0 vs
      | None => []
      end
  | VStr s => index_props 0 (char_values s)
  | _ => []
  end.

(** *** Computations: store passing with exceptions *)

Inductive outcome (A : Type) :=
  | Ok (a : A) (w : world)
  | Throw (message : string) (w : world).
Arguments Ok {A} a w.
Arguments Throw {A} message w.

Definition M (A : Type) := world -> outcome A.

Definition ret {A} (a : A) : M A := fun w => Ok a w.

Definition bind {A B} (m : M A) (k : A -> M B) : M B :=
  fun w => match m w with
           | Ok a w' => k a w'
           | Throw e w' => Throw e w'
           end.

Definition throw {A} (e : string) : M A := fun w => Throw e w.

(** [try { m } catch (error) { handler(error.message) }]. *)
Definition try_catch {A} (m : M A) (handler : string -> M A) : M A :=
  fun w => match m w with
           | Ok a w' => Ok a w'
           | Throw e w' => handler e w'
           end.

Notation "'let!' x ':=' m 'in' k" := (bind m (fun x => k))
  (at level 10, x pattern, m at level 100, k at level 200).
Notation "'do!' m 'in' k" := (bind m (fun _ => k))
  (at level 10, m at level 100, k at level 200).

Section Iteration.
Context {A B : Type}.

(** [for (const a of l) { b = f(b, a) }]. *)
Definition foldM (f : B -> A -> M B) : list A -> B -> M B :=
  fix go l b :=
    match l with
    | [] => ret b
    | a :: r => let! b' := f b a in go r b'
    end.

Definition mapM (f : A -> M B) : list A -> M (list B) :=
  fix go l :=
    match l with
    | [] => ret []
    | a :: r => let! b := f a in let! bs := go r in ret (b :: bs)
    end.

(** [l.forEach(f)]. *)
Definition forM_ (f : A -> M unit) : list A -> M unit :=
  fix go l :=
    match l with
    | [] => ret tt
    | a :: r => do! f a in go r
    end.
End Iteration.

Definition alloc (o : obj) : M value :=
  fun w => Ok (VRef (length (heap w)))
              (World (heap w ++ [o]) (ticks w) (draws w)).

(** [{ k1: v1, ... }] and [[v1, ...]]. *)
Definition new_object (ps : props) : M value := alloc (OObj ps []).
Definition new_array (vs : list value) : M value := alloc (OArr vs).

(** [{...v}]. *)
Definition spread (v : value) : M value :=
  fun w => new_object (spread_props (heap w) v) w.

(** [Object.entries(v)] of an object. *)
Definition entries (v : value) : M props :=
  fun w => Ok (spread_props (heap w) v) w.

(** [v.k] and [v[k]]. Reading a property of [undefined] or [null] is a
    [TypeError]; other primitives have none of the properties read by this
    program, except the [length] of a string. *)
Definition get (v : value) (k : string) : M value :=
  match v with
  | VUndef | VNull => throw "TypeError: cannot read properties"
  | VStr s =>
      ret (if String.eqb k "length" then VNum (Z.of_nat (Str.length s))
           else VUndef)
  | VRef l =>
      fun w => match heap w !! l with
               | Some o => Ok (default VUndef (own o k)) w
               | None => Ok VUndef w
               end
  | _ => ret VUndef
  end.

(** [k in v], for an object [v]. *)
Definition has (v : value) (k : string) : M bool :=
  match v with
  | VRef l =>
      fun w => match heap w !! l with
               | Some o => Ok (bool_decide (is_Some (own o k))) w
               | None => Ok false w
               end
  | _ => throw "TypeError: right-hand side of 'in' is not an object"
  end.

Definition store (l : loc) (o : obj) : M unit :=
  fun w => Ok tt (World (<[l := o]> (heap w)) (ticks w) (draws w)).

(** [v.k = x], in strict mode (class bodies are strict): assigning to a
    property of a primitive is a [TypeError]. On an array only an existing
    index is modelled. *)
Definition set (v : value) (k : string) (x : value) : M unit :=
  match v with
  | VRef l =>
      fun w => match heap w !! l with
               | Some (OObj fs hs) =>
                   if has_key k fs || negb (has_key k hs)
                   then store l (OObj (assign k x fs) hs) w
                   else store l (OObj fs (assign k x hs)) w
               | Some (OArr vs) =>
                   match index_of k with
                   | Some i =>
                       if (i <? length vs)%nat
                       then store l (OArr (<[i := x]> vs)) w
                       else Throw "array growth is not modelled" w
                   | None => Throw "array properties are not modelled" w
                   end
               | None => Throw "dangling reference" w
               end
  | _ => throw "TypeError: cannot set properties"
  end.

(** [delete v.k]. *)
Definition delete (v : value) (k : string) : M unit :=
  match v with
  | VRef l =>
      fun w => match heap w !! l with
               | Some (OObj fs hs) =>
                   store l (OObj (remove_key k fs) (remove_key k hs)) w
               | _ => Ok tt w
               end
  | _ => ret tt
  end.

(** [Object.defineProperty(v, k, { value: x, enumerable: false,
    configurable: true })]. *)
Definition define_hidden (v : value) (k : string) (x : value) : M unit :=
  match v with
  | VRef l =>
      fun w => match heap w !! l with
               | Some (OObj fs hs) =>
                   store l (OObj (remove_key k fs) (assign k x hs)) w
               | _ => Throw "TypeError: defineProperty" w
               end
  | _ => throw "TypeError: Object.defineProperty called on non-object"
  end.

(** [v.push(x)]. *)
Definition push (v : value) (x : value) : M unit :=
  match v with
  | VRef l =>
      fun w => match heap w !! l with
               | Some (OArr vs) => store l (OArr (vs ++ [x])) w
               | _ => Throw "TypeError: push is not a function" w
               end
  | _ => throw "TypeError: push is not a function"
  end.

(** [typeof v === 'object']. *)
Definition is_object_type (v : value) : bool :=
  match v with
  | VNull | VDate _ | VRef _ => true
  | _ => false
  end.

End JS.

(** ** The platform: clock, random source and Node's [crypto] *)

(** [gcm_seal key iv text] stands for [createCipheriv('aes-256-gcm', key,
    iv)] followed by [update(text, 'utf8')], [final()] and [getAuthTag()];
    [gcm_open key iv data tag] for [createDecipheriv], [setAuthTag(tag)],
    [update(data)] and [final('utf8')], [None] being any exception raised
    on the way (bad tag, bad length). Three laws are assumed. Opening
    what was sealed under the same key and IV gives the text back. The
    tag of [getAuthTag()] has 16 bytes. And, the decipher being created
    without [authTagLength], [setAuthTag] takes a tag of 4, 8 or 12 to
    16 bytes and [final()] compares that many bytes: the first bytes of a
    tag that is accepted are accepted. *)
Definition tag_lengths : list nat := [4; 8; 12; 13; 14; 15; 16]%nat.

Class Platform := {
  clock : nat -> Z;
  toISOString : Z -> string;
  randomBytes : nat -> nat -> string;
  pbkdf2Sync : string -> string -> Z -> nat -> string;
  gcm_seal : string -> string -> string -> string * string;
  gcm_open : string -> string -> string -> string -> option string;
  gcm_open_seal : forall key iv text,
    gcm_open key iv (fst (gcm_seal key iv text)) (snd (gcm_seal key iv text))
    = Some text;
  gcm_seal_tag : forall key iv text,
    String.length (snd (gcm_seal key iv text)) = 16%nat;
  gcm_open_short : forall key iv data tag text n,
    In n tag_lengths -> (n <= String.length tag)%nat ->
    gcm_open key iv data tag = Some text ->
    gcm_open key iv data (Str.take n tag) = Some text
}.

Module Sys.
Import JS.
Section Effects.
Context `{Platform}.

(** [Date.now()]. *)
Definition Date_now : M Z :=
  fun w => Ok (clock (ticks w)) (World (heap w) (S (ticks w)) (draws w)).

(** [new Date()]. *)
Definition new_Date : M value := let! t := Date_now in ret (VDate t).

(** [new Date().toISOString()]. *)
Definition now_iso : M string := let! t := Date_now in ret (toISOString t).

(** [crypto.randomBytes(n)]. *)
Definition random (n : nat) : M string :=
  fun w => Ok (randomBytes (draws w) n)
              (World (heap w) (ticks w) (S (draws w))).
End Effects.
End Sys.

(** ** [JSON.stringify] and [JSON.parse] *)

Module JSON.
Import JS.

Inductive res (A : Type) :=
  | Fuel
  | Cycle
  | Val (a : A).
Arguments Fuel {A}.
Arguments Cycle {A}.
Arguments Val {A} a.

Definition res_map {A B} (f : A -> B) (r : res A) : res B :=
  match r with Fuel => Fuel | Cycle => Cycle | Val a => Val (f a) end.

(** The results of the parts, up to the first one that failed. *)
Fixpoint sequence {A} (l : list (res A)) : res (list A) :=
  match l with
  | [] => Val []
  | Fuel :: _ => Fuel
  | Cycle :: _ => Cycle
  | Val a :: r => res_map (cons a) (sequence r)
  end.

Definition dquote : ascii := ascii_of_nat 34.
Definition backslash : ascii := ascii_of_nat 92.

Definition one (c : ascii) : string := String c EmptyString.

Definition escape_char (c : ascii) : string :=
  let n := nat_of_ascii c in
  if (n =? 34)%nat then String backslash (one dquote)
  else if (n =? 92)%nat then String backslash (one backslash)
  else if (n =? 8)%nat then String backslash "b"
  else if (n =? 9)%nat then String backslash "t"
  else if (n =? 10)%nat then String backslash "n"
  else if (n =? 12)%nat then String backslash "f"
  else if (n =? 13)%nat then String backslash "r"
  else if (n <? 32)%nat then
    String backslash "u00" +:+ String (Str.hex_digit (n / 16))
                                (one (Str.hex_digit (n mod 16)))
  else one c.

(** The escape of the surrogate held in the bytes [237], [d] and [e]. *)
Definition escape_surrogate (d e : ascii) : string :=
  let code := (nat_of_ascii d mod 64 * 64 + nat_of_ascii e mod 64)%nat in
  String backslash "ud"
  +:+ String (Str.hex_digit (code / 256 mod 16))
        (String (Str.hex_digit (code / 16 mod 16))
           (one (Str.hex_digit (code mod 16)))).

(** A surrogate without its pair is written as an escape. *)
Fixpoint escape (s : string) : string :=
  match s with
  | EmptyString => EmptyString
  | String c r =>
      match r with
      | String d (String e r') =>
          if (nat_of_ascii c =? 237)%nat && (160 <=? nat_of_ascii d)%nat
          then escape_surrogate d e +:+ escape r'
          else escape_char c +:+ escape r
      | _ => escape_char c +:+ escape r
      end
  end.

Definition quote (s : string) : string :=
  String dquote (escape s) +:+ one dquote.

Fixpoint join (sep : string) (l : list string) : string :=
  match l with
  | [] => EmptyString
  | [x] => x
  | x :: r => x +:+ sep +:+ join sep r
  end.

Definition member_text (m : string * option string) : option string :=
  match snd m with
  | Some t => Some (quote (fst m) +:+ ":" +:+ t)
  | None => None
  end.

Section Stringify.
Context `{Platform}.

(** The text of a value, [None] where [JSON.stringify] gives
    [undefined]. [stack] holds the objects being printed: meeting one of
    them again is the circular structure [JSON.stringify] rejects.
    A property whose value has no text is left out of an object and
    printed [null] in an array. *)
Fixpoint stringify (fuel : nat) (h : list obj) (stack : list loc)
    (v : value) : res (option string) :=
  match v with
  | VUndef => Val None
  | VNull => Val (Some "null")
  | VBool true => Val (Some "true")
  | VBool false => Val (Some "false")
  | VNum n => Val (Some (Num.integer_text n))
  | VReal x => Val (Some (default "null" (Num.real_text x)))
  | VStr s => Val (Some (quote s))
  | VDate t => Val (Some (quote (toISOString t)))
  | VRef l =>
      match fuel with
      | O => Fuel
      | S f =>
          if bool_decide (l ∈ stack) then Cycle
          else match h !! l with
               | Some (OObj fs _) =>
                   res_map
                     (fun ms => Some ("{" +:+ join "," (omap member_text ms)
                                      +:+ "}"))
                     (sequence
                        (map (fun kv =>
                                res_map (pair (fst kv))
                                  (stringify f h (l :: stack) (snd kv)))
                             fs))
               | Some (OArr vs) =>
                   res_map
                     (fun ts => Some ("[" +:+ join "," (map (default "null") ts)
                                      +:+ "]"))
                     (sequence (map (stringify f h (l :: stack)) vs))
               | None => Val None
               end
      end
  end.

(** [JSON.stringify(v)] where a string is required next: a circular
    structure throws, and so does handing [undefined] to the cipher. *)
Definition JSON_stringify (v : value) : M string :=
  fun w =>
    match stringify (S (length (heap w))) (heap w) [] v with
    | Val (Some s) => Ok s w
    | Val None => Throw "TypeError: data must be a string" w
    | Cycle => Throw "TypeError: Converting circular structure to JSON" w
    | Fuel => Throw "out of fuel" w
    end.
End Stringify.

(** *** Parsing *)

Inductive json :=
  | JNull
  | JBool (b : bool)
  | JNum (n : Z)
  | JReal (x : Num.real)
  | JStr (s : string)
  | JArr (elems : list json)
  | JObj (members : list (string * json)).

Definition is_ws (c : ascii) : bool :=
  let n := nat_of_ascii c in
  (n =? 32)%nat || (n =? 9)%nat || (n =? 10)%nat || (n =? 13)%nat.

Fixpoint skip_ws (s : string) : string :=
  match s with
  | String c r => if is_ws c then skip_ws r else s
  | EmptyString => EmptyString
  end.

Fixpoint expect (word s : string) : option string :=
  match word, s with
  | EmptyString, _ => Some s
  | String a w, String b r => if Ascii.eqb a b then expect w r else None
  | _, EmptyString => None
  end.

(** Is [c] the character written [t]? *)
Definition is_char (c : ascii) (t : string) : bool := String.eqb (one c) t.

(** The rest of [s] after the character [t], past white space. *)
Definition after (t : string) (s : string) : option string :=
  match skip_ws s with
  | String c r => if is_char c t then Some r else None
  | EmptyString => None
  end.

Fixpoint digits (acc : Z) (s : string) : Z * string :=
  match s with
  | String c r =>
      if Str.is_digit c
      then digits (10 * acc + Z.of_nat (nat_of_ascii c - 48)) r
      else (acc, s)
  | EmptyString => (acc, s)
  end.

(** The integer part of a number: [0], or digits that do not start with
    [0]. *)
Definition natural (s : string) : option (Z * string) :=
  match s with
  | String c r =>
      if is_char c "0" then Some (0, r)
      else if Str.is_digit c then Some (digits 0 s)
      else None
  | EmptyString => None
  end.

(** The digits of a fraction after those of the integer part, with their
    number. *)
Fixpoint decimals (acc places : Z) (s : string) : Z * Z * string :=
  match s with
  | String c r =>
      if Str.is_digit c
      then decimals (10 * acc + Z.of_nat (nat_of_ascii c - 48)) (places + 1) r
      else (acc, places, s)
  | EmptyString => (acc, places, s)
  end.

Definition starts_with_digit (s : string) : bool :=
  match s with
  | String c _ => Str.is_digit c
  | EmptyString => false
  end.

(** The fraction, if there is a point: at least one digit. *)
Definition fraction (n : Z) (s : string) : option (Z * Z * string) :=
  match s with
  | String c r =>
      if is_char c "."
      then if starts_with_digit r then Some (decimals n 0 r) else None
      else Some (n, 0, s)
  | EmptyString => Some (n, 0, s)
  end.

(** The exponent, if there is an [e]: a sign or none, and at least one
    digit. *)
Definition exponent (s : string) : option (Z * string) :=
  match s with
  | String c r =>
      if is_char c "e" || is_char c "E" then
        match r with
        | String d r' =>
            if is_char d "-" then
              if starts_with_digit r'
              then Some (- fst (digits 0 r'), snd (digits 0 r'))
              else None
            else if is_char d "+" then
              if starts_with_digit r' then Some (digits 0 r') else None
            else if Str.is_digit d then Some (digits 0 r)
            else None
        | EmptyString => None
        end
      else Some (0, s)
  | EmptyString => Some (0, s)
  end.

(** The digits of a number without its sign: all of them as one integer,
    and the power of ten to multiply it with. *)
Definition unsigned (s : string) : option (Z * Z * string) :=
  match natural s with
  | Some (n, r) =>
      match fraction n r with
      | Some (m, places, r') =>
          match exponent r' with
          | Some (x, r'') => Some (m, x - places, r'')
          | None => None
          end
      | None => None
      end
  | None => None
  end.

Definition number (s : string) : option ((Z + Num.real) * string) :=
  match s with
  | String c r =>
      if is_char c "-"
      then match unsigned r with
           | Some (m, x, r') => Some (Num.of_decimal true m x, r')
           | None => None
           end
      else match unsigned s with
           | Some (m, x, r') => Some (Num.of_decimal false m x, r')
           | None => None
           end
  | EmptyString => None
  end.

Definition of_number (x : Z + Num.real) : json :=
  match x with
  | inl n => JNum n
  | inr x => JReal x
  end.

(** UTF-8 bytes of a code point. *)
Definition utf8 (cp : N) : string :=
  if (cp <? 128)%N then one (ascii_of_N cp)
  else if (cp <? 2048)%N then
    String (ascii_of_N (192 + cp / 64)) (one (ascii_of_N (128 + cp mod 64)))
  else if (cp <? 65536)%N then
    String (ascii_of_N (224 + cp / 4096))
      (String (ascii_of_N (128 + (cp / 64) mod 64))
         (one (ascii_of_N (128 + cp mod 64))))
  else
    String (ascii_of_N (240 + cp / 262144))
      (String (ascii_of_N (128 + (cp / 4096) mod 64))
         (String (ascii_of_N (128 + (cp / 64) mod 64))
            (one (ascii_of_N (128 + cp mod 64))))).

Definition hex4 (s : string) : option (N * string) :=
  match s with
  | String a (String b (String c (String d r))) =>
      match Str.hex_value a, Str.hex_value b, Str.hex_value c,
            Str.hex_value d with
      | Some x, Some y, Some z, Some t =>
          Some (4096 * N.of_nat x + 256 * N.of_nat y + 16 * N.of_nat z
                + N.of_nat t, r)%N
      | _, _, _, _ => None
      end
  | _ => None
  end.

(** The escape of a second surrogate at the head of [s], for the first
    surrogate [hi]: the code point of the pair and the rest. *)
Definition paired (hi : N) (s : string) : option (N * string) :=
  match s with
  | String a (String b r) =>
      if (nat_of_ascii a =? 92)%nat && is_char b "u"
         && (55296 <=? hi)%N && (hi <? 56320)%N
      then match hex4 r with
           | Some (lo, r') =>
               if (56320 <=? lo)%N && (lo <? 57344)%N
               then Some (65536 + (hi - 55296) * 1024 + (lo - 56320), r')%N
               else None
           | None => None
           end
      else None
  | _ => None
  end.

(** The character an escape letter stands for. *)
Definition escaped (e : ascii) : option ascii :=
  let n := nat_of_ascii e in
  if (n =? 34)%nat || (n =? 92)%nat || (n =? 47)%nat then Some e
  else if is_char e "b" then Some (ascii_of_nat 8)
  else if is_char e "f" then Some (ascii_of_nat 12)
  else if is_char e "n" then Some (ascii_of_nat 10)
  else if is_char e "r" then Some (ascii_of_nat 13)
  else if is_char e "t" then Some (ascii_of_nat 9)
  else None.

(** The characters of a string literal, after its opening quote. *)
Fixpoint string_body (fuel : nat) (s : string) : option (string * string) :=
  match fuel with
  | O => None
  | S f =>
      match s with
      | EmptyString => None
      | String c r =>
          let n := nat_of_ascii c in
          if (n =? 34)%nat then Some (EmptyString, r)
          else if (n <? 32)%nat then None
          else if (n =? 92)%nat then
            match r with
            | String e r' =>
                if is_char e "u" then
                  match hex4 r' with
                  | Some (cp, r'') =>
                      let char := default (cp, r'') (paired cp r'') in
                      match string_body f (snd char) with
                      | Some (b, r3) => Some (utf8 (fst char) +:+ b, r3)
                      | None => None
                      end
                  | None => None
                  end
                else
                  match escaped e with
                  | Some x =>
                      match string_body f r' with
                      | Some (b, r'') => Some (String x b, r'')
                      | None => None
                      end
                  | None => None
                  end
            | EmptyString => None
            end
          else
            match string_body f r with
            | Some (b, r') => Some (String c b, r')
            | None => None
            end
      end
  end.

Definition string_lit (s : string) : option (string * string) :=
  string_body (S (String.length s)) s.

Fixpoint value_ (fuel : nat) (s : string) : option (json * string) :=
  match fuel with
  | O => None
  | S f =>
      match skip_ws s with
      | EmptyString => None
      | String c r =>
          if is_char c "n" then option_map (pair JNull) (expect "ull" r)
          else if is_char c "t" then option_map (pair (JBool true)) (expect "rue" r)
          else if is_char c "f"
          then option_map (pair (JBool false)) (expect "alse" r)
          else if Ascii.eqb c dquote
          then match string_lit r with
               | Some (t, r') => Some (JStr t, r')
               | None => None
               end
          else if is_char c "["
          then match after "]" r with
               | Some r' => Some (JArr [], r')
               | None => match elements_ f r with
                         | Some (vs, r') => Some (JArr vs, r')
                         | None => None
                         end
               end
          else if is_char c "{"
          then match after "}" r with
               | Some r' => Some (JObj [], r')
               | None => match members_ f r with
                         | Some (ms, r') => Some (JObj ms, r')
                         | None => None
                         end
               end
          else match number (String c r) with
               | Some (n, r') => Some (of_number n, r')
               | None => None
               end
      end
  end
with elements_ (fuel : nat) (s : string) : option (list json * string) :=
  match fuel with
  | O => None
  | S f =>
      match value_ f s with
      | Some (v, r) =>
          match after "," r, after "]" r with
          | Some r', _ =>
              match elements_ f r' with
              | Some (vs, r'') => Some (v :: vs, r'')
              | None => None
              end
          | None, Some r' => Some ([v], r')
          | None, None => None
          end
      | None => None
      end
  end
with members_ (fuel : nat) (s : string)
    : option (list (string * json) * string) :=
  match fuel with
  | O => None
  | S f =>
      match after (one dquote) s with
      | Some r =>
          match string_lit r with
          | Some (k, r1) =>
              match after ":" r1 with
              | Some r2 =>
                  match value_ f r2 with
                  | Some (v, r3) =>
                      match after "," r3, after "}" r3 with
                      | Some r4, _ =>
                          match members_ f r4 with
                          | Some (ms, r5) => Some ((k, v) :: ms, r5)
                          | None => None
                          end
                      | None, Some r4 => Some ([(k, v)], r4)
                      | None, None => None
                      end
                  | None => None
                  end
              | None => None
              end
          | None => None
          end
      | None => None
      end
  end.

(** The tree of a JSON text, [None] on a [SyntaxError]. Every call of the
    parser consumes a character, so this much fuel is never used up. *)
Definition parse_text (s : string) : option json :=
  match value_ (2 * String.length s + 2) s with
  | Some (t, r) =>
      match skip_ws r with
      | EmptyString => Some t
      | _ => None
      end
  | None => None
  end.

(** The objects of a parsed text are fresh; of several members with one
    key the last gives the value. *)
Fixpoint build (t : json) : M value :=
  match t with
  | JNull => ret VNull
  | JBool b => ret (VBool b)
  | JNum n => ret (VNum n)
  | JReal x => ret (VReal x)
  | JStr s => ret (VStr s)
  | JArr ts => let! vs := mapM build ts in new_array vs
  | JObj ms =>
      let! ps := mapM (fun m => let! v := build (snd m) in ret (fst m, v)) ms in
      new_object (fold_left (fun acc p => assign (fst p) (snd p) acc) ps [])
  end.

Definition JSON_parse (s : string) : M value :=
  match parse_text s with
  | Some t => build t
  | None => throw "SyntaxError: not valid JSON"
  end.

End JSON.

(** ** Configuration *)

(** The options read by the classes below, after [ConfigManager] and the
    constructors have merged the defaults: [autoEncrypt] is
    [config.autoEncrypt !== false], [encryptionKey] the master secret
    resolved by the [DataEncryptor] constructor. *)
Record config := Config {
  autoEncrypt : bool;
  encryptionKey : string;
  defaultConsentVersion : string
}.

(** ** [DataEncryptor] *)

Module DataEncryptor.
Import JS Sys JSON.

(** An entry of the list produced by [RuleEngine.classifyData]; a field
    absent in JavaScript is [None]. [masked_value] is its [value], the
    masked copy kept for reports. *)
Record classification := Classification {
  field : string;
  masked_value : JS.value;
  type : option string;
  sensitivity : option string;
  laws : option (list string);
  recommendation : option string;
  encryptionRequired : option bool;
  retentionDays : option Z
}.

Definition algorithm : string := "aes-256-gcm".
Definition keyLength : nat := 32.
Definition ivLength : nat := 16.
Definition saltLength : nat := 16.

Section Encryptor.
Context `{Platform} (cfg : config).

(** [Buffer.from(v, 'hex')] of a string; the arrays and buffers that
    [Buffer.from] takes as well are not modelled. *)
Definition Buffer_from_hex (v : JS.value) : M string :=
  match v with
  | VStr s => ret (Str.of_hex s)
  | _ => throw "TypeError: the first argument must be of type string"
  end.

Definition encrypt (value : JS.value) (fieldName : string) : M JS.value :=
  match value with
  | VNull | VUndef => ret value
  | _ =>
      try_catch
        (let! stringValue :=
           match value with
           | VStr s => ret s
           | _ => JSON_stringify value
           end in
         let! iv := random ivLength in
         let! salt := random saltLength in
         let key := pbkdf2Sync (encryptionKey cfg) salt 100000 keyLength in
         let sealed := gcm_seal key iv stringValue in
         let! encryptedAt := now_iso in
         new_object
           [("_encrypted", VBool true);
            ("version", VStr "1.0");
            ("algorithm", VStr algorithm);
            ("data", VStr (Str.to_hex (fst sealed)));
            ("iv", VStr (Str.to_hex iv));
            ("salt", VStr (Str.to_hex salt));
            ("authTag", VStr (Str.to_hex (snd sealed)));
            ("field", VStr fieldName);
            ("encryptedAt", VStr encryptedAt)])
        (fun _ => ret value)
  end.

(** [decipher.update(data, 'hex', 'utf8')] takes a string of an even
    number of code units, and decodes it as [Buffer.from] does. *)
Definition update_hex (v : JS.value) : M string :=
  match v with
  | VStr s =>
      if Nat.even (Str.length s) then ret (Str.of_hex s)
      else throw ("The argument 'encoding' is invalid for data of length "
                  +:+ Str.of_nat (Str.length s) +:+ ". Received 'hex'")
  | _ => throw "TypeError: the data argument must be of type string"
  end.

Definition decrypt (encryptedData : JS.value) : M JS.value :=
  if negb (truthy encryptedData) then ret encryptedData
  else
    let! flag := get encryptedData "_encrypted" in
    if negb (truthy flag) then ret encryptedData
    else
      try_catch
        (let! data := get encryptedData "data" in
         let! iv := get encryptedData "iv" in
         let! salt := get encryptedData "salt" in
         let! authTag := get encryptedData "authTag" in
         let! saltBytes := Buffer_from_hex salt in
         let key :=
           pbkdf2Sync (encryptionKey cfg) saltBytes 100000 keyLength in
         let! ivBytes := Buffer_from_hex iv in
         let! tagBytes := Buffer_from_hex authTag in
         let! dataBytes := update_hex data in
         match gcm_open key ivBytes dataBytes tagBytes with
         | Some decrypted =>
             try_catch (JSON_parse decrypted)
                       (fun _ => ret (VStr decrypted))
         | None =>
             throw "Unsupported state or unable to authenticate data"
         end)
        (fun message => throw ("Failed to decrypt field: " +:+ message)).

Definition isEncrypted (value : JS.value) : M bool :=
  if truthy value && is_object_type value
  then let! flag := get value "_encrypted" in ret (is_true flag)
  else ret false.

Definition autoEncryptSensitiveFields (data : JS.value)
    (classifications : list classification) : M JS.value :=
  let! encryptedData := spread data in
  do! forM_
        (fun c =>
           if default false (encryptionRequired c) then
             let! current := get encryptedData (field c) in
             if truthy current then
               let! already := isEncrypted current in
               if negb already then
                 let! sealed := encrypt current (field c) in
                 set encryptedData (field c) sealed
               else ret tt
             else ret tt
           else ret tt)
        classifications in
  ret encryptedData.

Definition autoDecryptSensitiveFields (data : JS.value) : M JS.value :=
  let! decryptedData := spread data in
  let! fields := entries decryptedData in
  do! forM_
        (fun kv =>
           let! sealed := isEncrypted (snd kv) in
           if sealed then
             try_catch
               (let! plain := decrypt (snd kv) in
                set decryptedData (fst kv) plain)
               (fun _ => ret tt)
           else ret tt)
        fields in
  ret decryptedData.
End Encryptor.
End DataEncryptor.

(** ** [ConsentManager] *)

Module ConsentManager.
Import JS Sys.

(** The [consentOptions] argument; an option left out is [VUndef]. *)
Record consentOptions := ConsentOptions {
  purpose : value;
  specific : value;
  informed : value;
  unambiguous : value;
  marketing : value;
  analytics : value;
  personalization : value;
  thirdPartySharing : value;
  internationalTransfer : value
}.

(** The [context] argument of the ledger. *)
Record requestContext := RequestContext {
  ipAddress : value;
  userAgent : value
}.

(** [v !== false]. *)
Definition not_false (v : value) : value :=
  VBool (negb (value_eqb v (VBool false))).

Section Ledger.
Context `{Platform} (cfg : config).

Definition recordConsent (userData : value) (options : consentOptions)
    (context : requestContext) : M value :=
  let! recordedAt := now_iso in
  let! preferences :=
    new_object
      [("necessary", VBool true);
       ("marketing", or_else (marketing options) (VBool false));
       ("analytics",
        match analytics options with
        | VUndef => VBool true
        | v => v
        end);
       ("personalization", or_else (personalization options) (VBool false));
       ("thirdPartySharing",
        or_else (thirdPartySharing options) (VBool false));
       ("internationalTransfer",
        or_else (internationalTransfer options) (VBool false))] in
  let! consentRecord :=
    new_object
      [("version", VStr (defaultConsentVersion cfg));
       ("recordedAt", VStr recordedAt);
       ("ipAddress", ipAddress context);
       ("userAgent", userAgent context);
       ("lawfulBasis", VStr "consent");
       ("purpose", or_else (purpose options) (VStr "general_processing"));
       ("specific", not_false (specific options));
       ("informed", not_false (informed options));
       ("unambiguous", not_false (unambiguous options));
       ("preferences", preferences);
       ("regulation", VStr "GDPR");
       ("article", VStr "Article_7");
       ("requiresExplicitAction", VBool true);
       ("canWithdraw", VBool true);
       ("withdrawalMethod", VStr "same_as_consent_method");
       ("withdrawalRecorded", VBool false)] in
  let! consent := get userData "_consent" in
  if negb (truthy consent) then
    let! history := new_array [] in
    let! ledger :=
      new_object [("current", consentRecord); ("history", history)] in
    do! set userData "_consent" ledger in
    ret userData
  else
    let! history := get consent "history" in
    let! current := get consent "current" in
    do! push history current in
    do! set consent "current" consentRecord in
    ret userData.

Definition withdrawConsent (userData : value) (consentType : string)
    (context : requestContext) : M value :=
  let! consent := get userData "_consent" in
  if negb (truthy consent) then throw "No consent records found for user"
  else
    let! withdrawnAt := now_iso in
    let! current := get consent "current" in
    let! previousConsent := spread current in
    let! withdrawalRecord :=
      new_object
        [("withdrawnAt", VStr withdrawnAt);
         ("withdrawnConsentType", VStr consentType);
         ("ipAddress", ipAddress context);
         ("userAgent", userAgent context);
         ("previousConsent", previousConsent)] in
    do! (if String.eqb consentType "all" then
           let! preferences :=
             new_object
               [("necessary", VBool true);
                ("marketing", VBool false);
                ("analytics", VBool false);
                ("personalization", VBool false);
                ("thirdPartySharing", VBool false);
                ("internationalTransfer", VBool false)] in
           do! set current "preferences" preferences in
           set current "withdrawn" (VBool true)
         else
           let! preferences := get current "preferences" in
           set preferences consentType (VBool false)) in
    do! set current "withdrawalRecorded" (VBool true) in
    do! set current "lastWithdrawal" withdrawalRecord in
    let! withdrawals := get consent "withdrawals" in
    do! (if negb (truthy withdrawals) then
           let! fresh := new_array [] in
           set consent "withdrawals" fresh
         else ret tt) in
    let! withdrawals := get consent "withdrawals" in
    do! push withdrawals withdrawalRecord in
    ret userData.

(** The value of the [&&] chain: the first falsy operand or the last
    one. *)
Definition isGdprCompliantConsent (consent : value) : M value :=
  if negb (truthy consent) then ret (VBool false)
  else
    let! specific := get consent "specific" in
    if negb (is_true specific) then ret (VBool false)
    else
      let! informed := get consent "informed" in
      if negb (is_true informed) then ret (VBool false)
      else
        let! unambiguous := get consent "unambiguous" in
        if negb (is_true unambiguous) then ret (VBool false)
        else
          let! recordedAt := get consent "recordedAt" in
          if negb (truthy recordedAt) then ret recordedAt
          else
            let! purpose := get consent "purpose" in
            if negb (truthy purpose) then ret purpose
            else
              let! canWithdraw := get consent "canWithdraw" in
              ret (VBool (is_true canWithdraw)).

(** The preference read for a processing type other than
    ['necessary']. *)
Definition preference_key (processingType : string) : string :=
  if String.eqb processingType "third_party_sharing"
  then "thirdPartySharing"
  else if String.eqb processingType "international_transfer"
  then "internationalTransfer"
  else processingType.

Definition hasValidConsent (userData : value) (processingType : string)
    : M bool :=
  let! ledger := get userData "_consent" in
  if negb (truthy ledger) then ret false
  else
    let! consent := get ledger "current" in
    if negb (truthy consent) then ret false
    else
      let! compliant := isGdprCompliantConsent consent in
      if negb (truthy compliant) then ret false
      else if String.eqb processingType "necessary" then ret true
      else
        let! preferences := get consent "preferences" in
        let! flag := get preferences (preference_key processingType) in
        ret (is_true flag).
End Ledger.
End ConsentManager.

(** ** [RuleEngine] *)

Module RuleEngine.
Import JS Sys.
Export DataEncryptor.

(** The processing context, with the types of its declaration
    ([ComplianceContext]); a field left out is [None]. *)
Record context := Context {
  country : option string;
  action : option string;
  ipAddress : option string;
  userAgent : option string;
  marketingConsent : option bool;
  analyticsConsent : option bool;
  personalizationConsent : option bool
}.

Record warning := Warning {
  level : string;
  message : string;
  warned_field : option string;
  advice : string
}.

Record complianceMeta := ComplianceMeta {
  processedAt : Z;
  applicableLaws : list string;
  actions : list string;
  dataRights : list string
}.

(** What [process] returns. *)
Record result := Result {
  data : value;
  compliance : complianceMeta;
  warnings : list warning;
  processingTime : Z
}.

Definition of_string (o : option string) : value :=
  match o with Some s => VStr s | None => VUndef end.

Definition of_bool (o : option bool) : value :=
  match o with Some b => VBool b | None => VUndef end.

(** [[...new Set(l)]]: the first occurrence of each element, in order. *)
Fixpoint unique (seen l : list string) : list string :=
  match l with
  | [] => []
  | x :: r =>
      if bool_decide (x ∈ seen) then unique seen r
      else x :: unique (x :: seen) r
  end.

Definition determineApplicableLaws (context : context) : list string :=
  let laws := ["GDPR"] in
  let laws :=
    match country context with
    | Some c =>
        if truthy (VStr c) then
          let country := Str.toUpperCase c in
          let laws :=
            if String.eqb country "US" || String.eqb country "CA"
            then laws ++ ["CCPA"] else laws in
          let laws :=
            if String.eqb country "BR" then laws ++ ["LGPD"] else laws in
          if String.eqb country "CA" then laws ++ ["PIPEDA"] else laws
        else laws
    | None => laws
    end in
  unique [] laws.

Definition rights_of (law : string) : list string :=
  if String.eqb law "GDPR" then
    ["right_to_access"; "right_to_rectification"; "right_to_erasure";
     "right_to_restrict_processing"; "right_to_data_portability";
     "right_to_object"]
  else if String.eqb law "CCPA" then
    ["right_to_know"; "right_to_delete"; "right_to_opt_out";
     "right_to_non_discrimination"]
  else [].

Definition getDataRights (laws : list string) : list string :=
  unique [] (concat (map rights_of laws)).

(** A classification as the table and the inference give it. *)
Definition entry (type sensitivity : string) (laws : list string)
    (recommendation : option string) (encryptionRequired : option bool)
    (retentionDays : option Z) : classification :=
  Classification EmptyString VUndef (Some type) (Some sensitivity) (Some laws)
    recommendation encryptionRequired retentionDays.

Definition loadFieldClassifications : list (string * classification) :=
  [("email", entry "direct_identifier" "high" ["GDPR"; "CCPA"; "LGPD"]
               (Some "encrypt_at_rest") (Some true) (Some 365));
   ("phone", entry "direct_identifier" "high" ["GDPR"; "CCPA"]
               (Some "encrypt_at_rest") (Some true) (Some 365));
   ("phoneNumber", entry "direct_identifier" "high" ["GDPR"; "CCPA"]
               (Some "encrypt_at_rest") (Some true) (Some 365));
   ("birthdate", entry "demographic" "medium" ["GDPR"; "COPPA"]
               (Some "store_age_range_instead") (Some false) (Some 365));
   ("age", entry "demographic" "low" ["GDPR"]
               (Some "store_age_range") (Some false) (Some 365));
   ("location", entry "geolocation" "high" ["GDPR"]
               (Some "store_region_instead_of_precise") (Some true) (Some 90));
   ("gps", entry "geolocation" "high" ["GDPR"]
               (Some "avoid_storage_use_ephemeral") (Some true) (Some 7));
   ("creditCard", entry "financial" "critical" ["GDPR"; "PCI_DSS"]
               (Some "never_store_use_tokenization") (Some true) (Some 0));
   ("password", entry "credential" "critical" ["GDPR"]
               (Some "hash_with_salt") (Some true) (Some 0));
   ("interests", entry "behavioral" "low" ["GDPR"]
               (Some "anonymous_aggregation_ok") (Some false) (Some 730));
   ("preferences", entry "behavioral" "low" ["GDPR"]
               (Some "can_be_stored_anonymously") (Some false) (Some 730))].

(** The names every object inherits from [Object.prototype]: looking one
    of them up in the table finds the inherited member, which has none of
    the fields of a classification. *)
Definition inherited_names : list string :=
  ["constructor"; "__defineGetter__"; "__defineSetter__"; "hasOwnProperty";
   "__lookupGetter__"; "__lookupSetter__"; "isPrototypeOf";
   "propertyIsEnumerable"; "toString"; "valueOf"; "__proto__";
   "toLocaleString"].

Definition inherited_member : classification :=
  Classification EmptyString VUndef None None None None None None.

Definition inferClassification (fieldName : string) : classification :=
  let lowerField := Str.toLowerCase fieldName in
  if Str.includes lowerField "email" then
    entry "direct_identifier" "high" ["GDPR"; "CCPA"] None None None
  else if Str.includes lowerField "phone" || Str.includes lowerField "mobile"
  then entry "direct_identifier" "high" ["GDPR"; "CCPA"] None None None
  else if Str.includes lowerField "birth" || Str.includes lowerField "dob"
  then entry "demographic" "medium" ["GDPR"] None None None
  else if Str.includes lowerField "location" || Str.includes lowerField "gps"
          || Str.includes lowerField "coord"
  then entry "geolocation" "high" ["GDPR"] None None None
  else if Str.includes lowerField "pass" || Str.includes lowerField "pwd"
  then entry "credential" "critical" ["GDPR"] None None None
  else entry "general" "low" ["GDPR"] (Some "standard_handling") (Some false)
         (Some 365).

Fixpoint table_lookup (k : string) (t : list (string * classification))
    : option classification :=
  match t with
  | [] => None
  | (k', c) :: r => if String.eqb k k' then Some c else table_lookup k r
  end.

Definition classifyField (fieldName : string) : classification :=
  match table_lookup fieldName loadFieldClassifications with
  | Some c => c
  | None =>
      if bool_decide (fieldName ∈ inherited_names) then inherited_member
      else inferClassification fieldName
  end.

(** [value.split('@')], first two parts. *)
Fixpoint until_at (s : string) : string * option string :=
  match s with
  | EmptyString => (EmptyString, None)
  | String c r =>
      if Ascii.eqb c "@"%char then (EmptyString, Some r)
      else let p := until_at r in (String c (fst p), snd p)
  end.

Definition four_digits (s : string) : bool :=
  match s with
  | String a (String b (String c (String d _))) =>
      Str.is_digit a && Str.is_digit b && Str.is_digit c && Str.is_digit d
  | _ => false
  end.

(** [value.replace(/\d(?=\d{4})/g, '*')]. *)
Fixpoint mask_digits (s : string) : string :=
  match s with
  | EmptyString => EmptyString
  | String c r =>
      String (if Str.is_digit c && four_digits r then "*"%char else c)
             (mask_digits r)
  end.

Definition maskSensitiveValue (fieldName : string) (v : value) : value :=
  match v with
  | VStr s =>
      if String.eqb fieldName "email" then
        let parts := until_at s in
        let domain :=
          match snd parts with
          | Some rest => fst (until_at rest)
          | None => "undefined"
          end in
        VStr (Str.substring0 2 (fst parts) +:+ "***@" +:+ domain)
      else if String.eqb fieldName "phone" || String.eqb fieldName "phoneNumber"
      then VStr (mask_digits s)
      else if String.eqb fieldName "password" then VStr "********"
      else v
  | _ => v
  end.

Definition is_nullish (v : value) : bool :=
  match v with VUndef | VNull => true | _ => false end.

Definition classify_entry (kv : string * value) : classification :=
  let c := classifyField (fst kv) in
  Classification (fst kv) (maskSensitiveValue (fst kv) (snd kv))
    (type c) (sensitivity c) (laws c) (recommendation c)
    (encryptionRequired c) (retentionDays c).

Definition classify_props (ps : props) : list classification :=
  map classify_entry (List.filter (fun kv => negb (is_nullish (snd kv))) ps).

Definition classifyData (data : value) : M (list classification) :=
  let! fields := entries data in
  ret (classify_props fields).

(** [l.some(field => field in data)]. *)
Definition some_in (data : value) : list string -> M bool :=
  fix go l :=
    match l with
    | [] => ret false
    | k :: r => let! found := has data k in if found then ret true else go r
    end.

Definition hasExcessiveData (data : value) : M bool :=
  some_in data ["socialSecurity"; "driversLicense"; "passportNumber"].

Definition minimizeData (data : value) (context : context) : M value :=
  let! minimized := spread data in
  do! (if bool_decide (action context = Some "registration") then
         let! gps := get minimized "gps" in
         if truthy gps then delete minimized "gps" else ret tt
       else ret tt) in
  ret minimized.

Definition canBeDeleted (data : value) : M bool :=
  let! critical := some_in data ["email"; "phone"; "userId"] in
  ret (negb critical).

(** [c.retentionDays || 365]. *)
Definition retention_or_default (c : classification) : Z :=
  match retentionDays c with
  | Some n => if n =? 0 then 365 else n
  | None => 365
  end.

(** [Math.max(...l)]; of no argument it is [-Infinity], which has no
    integer: [None]. *)
Definition maximum (l : list Z) : option Z :=
  match l with
  | [] => None
  | x :: r => Some (fold_left Z.max r x)
  end.

Definition calculateRetentionPeriod (data : value) : M (option Z) :=
  let! classifications := classifyData data in
  ret (maximum (map retention_or_default classifications)).

Definition of_retention (r : option Z) : value :=
  match r with Some n => VNum n | None => VUndef end.

(** [v < n] for the values a [length] takes here: a number is compared,
    [undefined] (no [length]) compares false. Other values convert to a
    number first, [null] and booleans to 0 or 1. *)
Definition less_than (v : value) (n : Z) : bool :=
  match v with
  | VNum m => m <? n
  | VReal x => Num.real_ltb x n
  | VDate t => t <? n
  | VNull => 0 <? n
  | VBool b => (if b then 1 else 0) <? n
  | _ => false
  end.

Definition is_high (c : classification) : bool :=
  match sensitivity c with
  | Some s => String.eqb s "high" || String.eqb s "critical"
  | None => false
  end.

Definition weak_password : warning :=
  Warning "high" "Password is too weak (minimum 12 characters recommended)"
    (Some "password") "enforce_stronger_password_policy".

Definition missing_consent : warning :=
  Warning "medium" "No explicit consent recorded for data processing"
    (Some "_complianceConsent") "capture_explicit_consent_with_timestamp".

Definition excessive_pii (piiCount : nat) : warning :=
  Warning "medium"
    ("Collecting " +:+ Str.of_nat piiCount
     +:+ " high-sensitivity fields - consider data minimization")
    None "review_data_collection_practices".

Definition checkForWarnings (data : value) : M (list warning) :=
  let warnings := [] in
  let! password := get data "password" in
  let! warnings :=
    if truthy password then
      let! len := get password "length" in
      if less_than len 12 then ret (warnings ++ [weak_password])
      else ret warnings
    else ret warnings in
  let! consent := get data "_complianceConsent" in
  let warnings :=
    if negb (truthy consent) then warnings ++ [missing_consent]
    else warnings in
  let! classifications := classifyData data in
  let piiCount := length (List.filter (fun c => is_high c) classifications) in
  let warnings :=
    if (3 <? piiCount)%nat then warnings ++ [excessive_pii piiCount]
    else warnings in
  ret warnings.

Section Engine.
Context `{Platform} (cfg : config).

Definition applyLaw (data : value) (law : string) (context : context)
    : M (value * list string) :=
  let actions := [] in
  let! processedData := spread data in
  if String.eqb law "GDPR" then
    let! consent := get processedData "_consent" in
    let! (processedData, actions) :=
      if negb (truthy consent) then
        let! recorded :=
          ConsentManager.recordConsent cfg processedData
            (ConsentManager.ConsentOptions
               (or_else (of_string (action context))
                        (VStr "general_processing"))
               VUndef VUndef VUndef
               (or_else (of_bool (marketingConsent context)) (VBool false))
               (ConsentManager.not_false
                  (of_bool (analyticsConsent context)))
               (or_else (of_bool (personalizationConsent context))
                        (VBool false))
               VUndef VUndef)
            (ConsentManager.RequestContext
               (of_string (ipAddress context))
               (of_string (userAgent context))) in
        ret (recorded, actions ++ ["gdpr_consent_recorded"])
      else ret (processedData, actions) in
    let! excessive := hasExcessiveData data in
    let! (processedData, actions) :=
      if excessive then
        let! minimized := minimizeData processedData context in
        ret (minimized, actions ++ ["gdpr_data_minimization_applied"])
      else ret (processedData, actions) in
    let! deletion := get processedData "_deletionMetadata" in
    let! actions :=
      if negb (truthy deletion) then
        let! deletable := canBeDeleted processedData in
        let! retention := calculateRetentionPeriod processedData in
        let! metadata :=
          new_object
            [("canBeDeleted", VBool deletable);
             ("retentionPeriod", of_retention retention);
             ("deletionProcedure",
              VStr "anonymize_sensitive_keep_anonymous");
             ("consentWithdrawalImpact",
              VStr "stop_processing_immediately")] in
        do! set processedData "_deletionMetadata" metadata in
        ret (actions ++ ["gdpr_deletion_metadata_added"])
      else ret actions in
    ret (processedData, actions)
  else if String.eqb law "CCPA" then
    let! rights := get processedData "_ccpaRights" in
    let! actions :=
      if negb (truthy rights) then
        let! lastUpdated := new_Date in
        let! block :=
          new_object
            [("optOutOfSale", VBool true);
             ("verified", VBool false);
             ("lastUpdated", lastUpdated);
             ("method", VStr "user_request")] in
        do! set processedData "_ccpaRights" block in
        ret (actions ++ ["ccpa_rights_metadata_added"])
      else ret actions in
    ret (processedData, actions)
  else ret (processedData, actions).

Definition strings (l : list string) : M value := new_array (map VStr l).

Definition classification_object (c : classification) : M value :=
  let! laws :=
    match laws c with
    | Some l => strings l
    | None => ret VUndef
    end in
  new_object
    [("field", VStr (field c));
     ("value", masked_value c);
     ("type", of_string (type c));
     ("sensitivity", of_string (sensitivity c));
     ("laws", laws);
     ("recommendation", of_string (recommendation c));
     ("encryptionRequired", of_bool (encryptionRequired c));
     ("retentionDays", of_retention (retentionDays c))].

(** The value of the [_compliance] property. *)
Definition compliance_object (meta : complianceMeta)
    (classifications : list classification) (elapsed : Z) : M value :=
  let! laws := strings (applicableLaws meta) in
  let! actions := strings (actions meta) in
  let! rights := strings (dataRights meta) in
  let! entries := mapM classification_object classifications in
  let! classifications := new_array entries in
  new_object
    [("processedAt", VDate (processedAt meta));
     ("applicableLaws", laws);
     ("actions", actions);
     ("dataRights", rights);
     ("classifications", classifications);
     ("processingTime", VNum elapsed)].

Definition process (data : value) (context : context) : M result :=
  let! startTime := Date_now in
  let applicableLaws := determineApplicableLaws context in
  let! processedAt := Date_now in
  let dataRights := getDataRights applicableLaws in
  let! processedData := spread data in
  let! (processedData, actions) :=
    foldM
      (fun state law =>
         let! (lawData, lawActions) := applyLaw (fst state) law context in
         ret (lawData, snd state ++ lawActions))
      applicableLaws (processedData, []) in
  let! classifications := classifyData processedData in
  let! (processedData, actions) :=
    if autoEncrypt cfg then
      let! encrypted :=
        autoEncryptSensitiveFields cfg processedData classifications in
      ret (encrypted,
           if value_eqb encrypted data then actions
           else actions ++ ["sensitive_fields_encrypted"])
    else ret (processedData, actions) in
  let complianceMeta :=
    ComplianceMeta processedAt applicableLaws actions dataRights in
  let! now := Date_now in
  let! attached :=
    compliance_object complianceMeta classifications (now - startTime) in
  do! define_hidden processedData "_compliance" attached in
  let! warnings := checkForWarnings processedData in
  let! finish := Date_now in
  ret (Result processedData complianceMeta warnings (finish - startTime)).
End Engine.
End RuleEngine.

(** ** Prefixes of byte strings *)

Module Bytes.

Lemma append_cons c (a b : string) : String c a +:+ b = String c (a +:+ b).
Proof. reflexivity. Qed.

Lemma append_nil (b : string) : EmptyString +:+ b = b.
Proof. reflexivity. Qed.

Lemma length_take n : forall s,
  (n <= String.length s)%nat -> String.length (Str.take n s) = n.
Proof.
  induction n as [|n IH]; intros [|c s] L; cbn in *; try lia.
  now rewrite IH by lia.
Qed.

Lemma take_take n : forall m s,
  (n <= m)%nat -> Str.take n (Str.take m s) = Str.take n s.
Proof.
  induction n as [|n IH]; intros [|m] [|c s] L; cbn; try reflexivity;
    try lia.
  now rewrite IH by lia.
Qed.

Lemma take_all s : Str.take (String.length s) s = s.
Proof. induction s as [|c s IH]; cbn; [reflexivity|now rewrite IH]. Qed.

Lemma length_append a : forall b,
  String.length (a +:+ b) = (String.length a + String.length b)%nat.
Proof.
  induction a as [|c a IH]; intros b; [reflexivity|].
  change (String c a +:+ b) with (String c (a +:+ b)).
  cbn [String.length]. now rewrite IH.
Qed.

End Bytes.

(** ** A small platform to run the model on

    The identity cipher with sixteen bytes of the text, the key and the
    IV as tag: enough to satisfy the laws of [Platform] and to evaluate
    the engine on concrete records. *)

Module Toy.
Import Bytes.

(** Sixteen bytes of the text, the key and the IV. *)
Definition mac (key iv text : string) : string :=
  Str.take 16 (text +:+ key +:+ iv +:+ "0123456789abcdef").

Definition seal (key iv text : string) : string * string :=
  (text, mac key iv text).

Definition open (key iv data tag : string) : option string :=
  if bool_decide (String.length tag ∈ tag_lengths)
     && String.eqb tag (Str.take (String.length tag) (mac key iv data))
  then Some data else None.

Lemma length_mac key iv text : String.length (mac key iv text) = 16%nat.
Proof.
  unfold mac. apply length_take.
  rewrite !length_append. cbn [String.length]. lia.
Qed.

Lemma open_seal key iv text :
  open key iv (fst (seal key iv text)) (snd (seal key iv text)) = Some text.
Proof.
  unfold open, seal. cbn [fst snd].
  rewrite take_all, String.eqb_refl, length_mac. reflexivity.
Qed.

Lemma open_short key iv data tag text n :
  In n tag_lengths -> (n <= String.length tag)%nat ->
  open key iv data tag = Some text ->
  open key iv data (Str.take n tag) = Some text.
Proof.
  intros V L. unfold open.
  destruct (bool_decide _ && String.eqb tag _) eqn:A; [|discriminate].
  intros E. apply andb_prop in A as [_ A]. apply String.eqb_eq in A.
  rewrite (length_take n tag L).
  replace (bool_decide (n ∈ tag_lengths)) with true
    by (symmetry; apply bool_decide_eq_true, list_elem_of_In, V).
  rewrite A at 1. rewrite take_take by exact L.
  now rewrite String.eqb_refl.
Qed.

Fixpoint bytes (c : ascii) (n : nat) : string :=
  match n with
  | O => EmptyString
  | S m => String c (bytes c m)
  end.

#[export] Instance platform : Platform := {|
  clock := fun n => 1700000000000 + Z.of_nat n;
  toISOString := fun t => "T" +:+ Str.of_Z t;
  randomBytes := fun i n => bytes (ascii_of_nat (171 + i)) n;
  pbkdf2Sync := fun password salt _ _ => salt +:+ password;
  gcm_seal := seal;
  gcm_open := open;
  gcm_open_seal := open_seal;
  gcm_seal_tag := length_mac;
  gcm_open_short := open_short
|}.

Definition cfg : config := Config true "master-key" "1.0".

Definition empty : JS.world := JS.World [] 0 0.

End Toy.

(** ** Vocabulary of the properties *)

Module Spec.
Import JS.

(** [v.k] read off a store, for a [v] that is neither [undefined] nor
    [null] (there [get] throws). *)
Definition read (h : list obj) (v : value) (k : string) : value :=
  match v with
  | VStr s =>
      if String.eqb k "length" then VNum (Z.of_nat (Str.length s))
      else VUndef
  | VRef l =>
      match h !! l with
      | Some o => default VUndef (own o k)
      | None => VUndef
      end
  | _ => VUndef
  end.

(** [v.k1.k2...]. *)
Definition read_path (h : list obj) (v : value) (path : list string)
    : value :=
  fold_left (read h) path v.

(** The long s, a character whose upper case is [S]. *)
Definition long_s : string :=
  String (ascii_of_nat 197) (String (ascii_of_nat 191) EmptyString).

(** The ways of writing the codes of the countries that add a law, which
    differ in the case of the letters only. *)
Definition written_US : list string :=
  ["US"; "Us"; "uS"; "us"; String "U" long_s; String "u" long_s].

Definition written_CA : list string := ["CA"; "Ca"; "cA"; "ca"].

Definition written_BR : list string := ["BR"; "Br"; "bR"; "br"].

(** Is the country of a context written in one of these ways? *)
Definition written (ways : list string) (country : option string) : bool :=
  match country with
  | Some c => bool_decide (c ∈ ways)
  | None => false
  end.

(** The compliance check in the words of the specification: [specific],
    [informed] and [unambiguous] all true, a purpose, a recorded time, and
    [canWithdraw] true. *)
Definition compliant (h : list obj) (consent : value) : bool :=
  truthy consent
  && is_true (read h consent "specific")
  && is_true (read h consent "informed")
  && is_true (read h consent "unambiguous")
  && truthy (read h consent "recordedAt")
  && truthy (read h consent "purpose")
  && is_true (read h consent "canWithdraw").

(** When the ledger of a record allows a kind of processing: the current
    consent passes the compliance check and, except for ['necessary'], the
    preference of that kind is [true]. *)
Definition valid_consent (h : list obj) (userData : value)
    (processingType : string) : bool :=
  let current := read_path h userData ["_consent"; "current"] in
  truthy (read h userData "_consent")
  && compliant h current
  && (String.eqb processingType "necessary"
      || is_true (read_path h current
                    ["preferences";
                     ConsentManager.preference_key processingType])).

(** [isEncrypted] read off a store. *)
Definition is_encrypted (h : list obj) (v : value) : bool :=
  truthy v && is_object_type v && is_true (read h v "_encrypted").

(** The text the cipher recovers from the four strings of an encrypted
    value, decoded from hexadecimal; [None] when the data has an odd
    length or the cipher rejects them. *)
Definition opened `{Platform} (cfg : config) (salt iv authTag data : string)
    : option string :=
  if Nat.even (Str.length data) then
    gcm_open
      (pbkdf2Sync (encryptionKey cfg) (Str.of_hex salt) 100000
         DataEncryptor.keyLength)
      (Str.of_hex iv) (Str.of_hex data) (Str.of_hex authTag)
  else None.

(** The same from the fields of a stored value; [None] also when one of
    them is not a string. *)
Definition plaintext `{Platform} (cfg : config) (h : list obj) (v : value)
    : option string :=
  match read h v "salt", read h v "iv", read h v "authTag", read h v "data"
  with
  | VStr salt, VStr iv, VStr authTag, VStr data => opened cfg salt iv authTag data
  | _, _, _, _ => None
  end.

(** What [decrypt] makes of a recovered text: its JSON reading where it
    has one, the text itself otherwise. *)
Definition reading (text : string) : M value :=
  try_catch (JSON.JSON_parse text) (fun _ => ret (VStr text)).

(** The message of the error [decrypt] throws. *)
Definition failed (message : string) : string :=
  "Failed to decrypt field: " +:+ message.

(** References below [n]. *)
Definition in_range (n : nat) (v : value) : Prop :=
  match v with VRef l => (l < n)%nat | _ => True end.

(** A record of the store: an object whose keys are distinct and whose
    fields refer to objects of the store. *)
Definition is_record (w : world) (data : value) : Prop :=
  NoDup (keys (spread_props (heap w) data))
  /\ Forall (fun kv => in_range (length (heap w)) (snd kv))
        (spread_props (heap w) data).

(** The field [k] of the object at [v]. *)
Definition field_of (w : world) (v : value) (k : string) : option value :=
  lookup_prop k (spread_props (heap w) v).

(** An encrypted value whose salt, IV, tag and data are strings, as
    those of an [EncryptedField] are. *)
Definition typed (h : list obj) (v : value) : bool :=
  match read h v "salt", read h v "iv", read h v "authTag", read h v "data"
  with
  | VStr _, VStr _, VStr _, VStr _ => true
  | _, _, _, _ => false
  end.





(** The objects below [n] are the same in [w'] as in [w], and no object
    was dropped. *)
Definition preserved (n : nat) (w w' : world) : Prop :=
  (length (heap w) <= length (heap w'))%nat
  /\ forall l, (l < n)%nat -> heap w' !! l = heap w !! l.

(** [m] returns from [w], with a result and a store that satisfy [Q]. *)
Definition returns {A} (m : M A) (w : world) (Q : A -> world -> Prop)
    : Prop :=
  exists a w', m w = Ok a w' /\ Q a w'.

(** Every object that [w] holds is the same in [w']. *)
Definition grows (w w' : world) : Prop := preserved (length (heap w)) w w'.

(** Of the objects that [w] holds, only the one at [l] may differ in
    [w']. *)
Definition touches (l : nat) (w w' : world) : Prop :=
  (length (heap w) <= length (heap w'))%nat
  /\ forall a, (a < length (heap w))%nat -> a <> l ->
                heap w' !! a = heap w !! a.

(** A value that is no reference. *)
Definition plain (v : value) : Prop :=
  match v with VRef _ => False | _ => True end.

(** A reference to an object allocated between [w] and [w']. *)
Definition fresh_ref (w w' : world) (v : value) : Prop :=
  exists l, v = VRef l /\ (length (heap w) <= l < length (heap w'))%nat.

(** [v[k]] for the fields [ps] of an object. *)
Definition field_value (k : string) (ps : props) : value :=
  default VUndef (lookup_prop k ps).

(** [if (!o.k) o.k = x], on the fields of [o]. *)
Definition fill (k : string) (x : value) (ps : props) : props :=
  if truthy (field_value k ps) then ps else assign k x ps.

(** The tests of [hasExcessiveData] and [canBeDeleted]. *)
Definition excessive (ps : props) : bool :=
  existsb (fun k => has_key k ps)
    ["socialSecurity"; "driversLicense"; "passportNumber"].

Definition critical (ps : props) : bool :=
  existsb (fun k => has_key k ps) ["email"; "phone"; "userId"].

(** The fields [minimizeData] keeps. *)
Definition minimized (context : RuleEngine.context) (ps : props) : props :=
  if bool_decide (RuleEngine.action context = Some "registration")
     && truthy (field_value "gps" ps)
  then remove_key "gps" ps else ps.

(** The fields of the record [applyLaw] returns, from those of its
    argument; [x] and [y] are the blocks it attaches where none is
    there. *)
Definition law_props (context : RuleEngine.context) (law : string)
    (x y : value) (ps : props) : props :=
  if String.eqb law "GDPR" then
    let consented := fill "_consent" x ps in
    fill "_deletionMetadata" y
      (if excessive ps then minimized context consented else consented)
  else if String.eqb law "CCPA" then fill "_ccpaRights" x ps
  else ps.

(** The actions [applyLaw] reports. *)
Definition law_actions (context : RuleEngine.context) (law : string)
    (x : value) (ps : props) : list string :=
  if String.eqb law "GDPR" then
    let consented := fill "_consent" x ps in
    (if truthy (field_value "_consent" ps) then [] else ["gdpr_consent_recorded"])
    ++ (if excessive ps then ["gdpr_data_minimization_applied"] else [])
    ++ (if truthy
             (field_value "_deletionMetadata"
                (if excessive ps then minimized context consented
                 else consented))
        then [] else ["gdpr_deletion_metadata_added"])
  else if String.eqb law "CCPA" then
    if truthy (field_value "_ccpaRights" ps) then []
    else ["ccpa_rights_metadata_added"]
  else [].

(** Does the classification of a field ask for encryption? *)
Definition requires_encryption (k : string) : bool :=
  default false (DataEncryptor.encryptionRequired (RuleEngine.classifyField k)).

(** Can [encrypt] seal [v]: a string as it is, another value when
    [JSON.stringify] gives it a text. *)
Definition sealable `{Platform} (h : list obj) (v : value) : bool :=
  match v with
  | VStr _ => true
  | VUndef | VNull => false
  | _ =>
      match JSON.stringify (S (length h)) h [] v with
      | JSON.Val (Some _) => true
      | _ => false
      end
  end.

(** The values an object holds. *)
Definition obj_values (o : obj) : list value :=
  match o with
  | OObj fs hs => map snd fs ++ map snd hs
  | OArr vs => vs
  end.

(** The objects below [n] refer to objects below [n] only. *)
Definition closed_below (n : nat) (h : list obj) : Prop :=
  forall l o, (l < n)%nat -> h !! l = Some o ->
              Forall (in_range n) (obj_values o).

(** A store without dangling references. *)
Definition closed (w : world) : Prop :=
  closed_below (length (heap w)) (heap w).

(** The observations of the idempotence property. *)
Definition consent_history_length (w : world) (data : value) : value :=
  read_path (heap w) data ["_consent"; "history"; "length"].

Definition encrypted_count (w : world) (data : value) : nat :=
  length (List.filter (fun kv => is_encrypted (heap w) (snd kv))
            (spread_props (heap w) data)).

Definition blocks (k : string) (w : world) (data : value) : list value :=
  map snd (List.filter (fun kv => String.eqb (fst kv) k)
             (spread_props (heap w) data)).

(** What [applyLaw] returns for a record with the fields [ps]: a fresh
    record with the fields [law_props] gives, and the store grown. *)
Definition law_outcome (context : RuleEngine.context) (law : string)
    (ps : props) (w : world) (r : value * list string) (w' : world)
    : Prop :=
  exists l' x y,
    fst r = VRef l'
    /\ (length (heap w) <= l')%nat
    /\ heap w' !! l' = Some (OObj (law_props context law x y ps) [])
    /\ truthy x = true /\ truthy y = true
    /\ snd r = law_actions context law x ps
    /\ grows w w' /\ (closed w -> closed w').

Definition value_of {A} (o : outcome A) : option A :=
  match o with Ok a _ => Some a | Throw _ _ => None end.

Definition world_of {A} (o : outcome A) : world :=
  match o with Ok _ w => w | Throw _ w => w end.

Definition raised {A} (o : outcome A) : bool :=
  match o with Ok _ _ => false | Throw _ _ => true end.

End Spec.

(** ** Properties *)

(** Closes [x ∉ l] and [NoDup l] for lists of literals. *)
Ltac not_among :=
  let H := fresh in
  intros H;
  repeat (apply elem_of_cons in H as [H|H]; [discriminate H|]);
  apply elem_of_nil in H; exact H.

Ltac distinct :=
  repeat (apply NoDup_cons; split; [not_among|]); apply NoDup_nil_2.

Module Laws.
Import JS Spec RuleEngine Bytes.

(** One step of [toUpperCase]. *)
Lemma toUpperCase_step a r :
  Str.toUpperCase (String a r)
  = match r with
    | String b r1 =>
        match Str.upper_of_two a b with
        | Some u => u +:+ Str.toUpperCase r1
        | None =>
            match r1 with
            | String c r2 =>
                match Str.upper_of_three a b c with
                | Some u => u +:+ Str.toUpperCase r2
                | None => String (Str.upper_char a) (Str.toUpperCase r)
                end
            | EmptyString => String (Str.upper_char a) (Str.toUpperCase r)
            end
        end
    | EmptyString => String (Str.upper_char a) EmptyString
    end.
Proof. destruct r as [|b [|c r2]]; reflexivity. Qed.

#[local] Opaque Str.toUpperCase.

Lemma byte_of a n : nat_of_ascii a = n -> a = ascii_of_nat n.
Proof. intros <-. now rewrite ascii_nat_embedding. Qed.

(** The dotless i, whose upper case is [I]. *)
Definition dotless_i : string :=
  String (ascii_of_nat 196) (String (ascii_of_nat 177) EmptyString).

Lemma upper_of_two_cases a b u :
  Str.upper_of_two a b = Some u ->
  (u = "I" /\ String a (String b EmptyString) = dotless_i)
  \/ u = "SS"
  \/ (u = "S" /\ String a (String b EmptyString) = long_s).
Proof.
  unfold Str.upper_of_two, dotless_i, long_s.
  destruct (Nat.eqb_spec (nat_of_ascii a) 196) as [Ea|],
           (Nat.eqb_spec (nat_of_ascii b) 177) as [Eb|]; cbn [andb];
    try (intros [= <-]; left;
         now rewrite (byte_of a 196 Ea), (byte_of b 177 Eb)).
  all: destruct (Nat.eqb_spec (nat_of_ascii a) 197) as [Fa|],
                (Nat.eqb_spec (nat_of_ascii b) 191) as [Fb|]; cbn [andb];
    try (intros [= <-]; right; right;
         now rewrite (byte_of a 197 Fa), (byte_of b 191 Fb)).
  all: destruct (Nat.eqb_spec (nat_of_ascii a) 195),
                (Nat.eqb_spec (nat_of_ascii b) 159); cbn [andb];
    try (intros [= <-]; right; now left); discriminate.
Qed.

(** The upper case of a ligature starts with [F] or [S] and has a second
    letter. *)
Lemma upper_of_three_cases a b c u :
  Str.upper_of_three a b c = Some u ->
  exists x y t, u = String x (String y t) /\ (x = "F" \/ x = "S")%char.
Proof.
  unfold Str.upper_of_three.
  destruct (_ && _); [|discriminate].
  repeat (destruct (_ =? _)%nat;
          [intros [= <-]; eexists _, _, _; split; [reflexivity|tauto]|]).
  cbn [orb]. discriminate.
Qed.

Lemma toUpperCase_empty s : Str.toUpperCase s = EmptyString -> s = EmptyString.
Proof.
  destruct s as [|a r]; [reflexivity|]. rewrite toUpperCase_step.
  destruct r as [|b r1]; [discriminate|].
  destruct (Str.upper_of_two a b) as [u|] eqn:U2.
  - apply upper_of_two_cases in U2 as [(-> & _)|[->|(-> & _)]];
      discriminate.
  - destruct r1 as [|c r2]; [discriminate|].
    destruct (Str.upper_of_three a b c) as [u|] eqn:U3; [|discriminate].
    apply upper_of_three_cases in U3 as (x & y & t & -> & _). discriminate.
Qed.

(** The texts whose upper case is one letter. *)
Lemma toUpperCase_one x s :
  Str.toUpperCase s = String x EmptyString ->
  (exists a, s = String a EmptyString /\ Str.upper_char a = x)
  \/ (x = "I"%char /\ s = dotless_i)
  \/ (x = "S"%char /\ s = long_s).
Proof.
  destruct s as [|a r]; [discriminate|].
  rewrite toUpperCase_step. destruct r as [|b r1].
  - intros [= E]. left. now exists a.
  - destruct (Str.upper_of_two a b) as [u|] eqn:U2.
    + apply upper_of_two_cases in U2 as [(-> & Ei)|[->|(-> & Es)]];
        cbv [String.append]; intros [= Ex E].
      * apply toUpperCase_empty in E as ->. right. left. now split.
      * apply toUpperCase_empty in E as ->. right. right. now split.
    + destruct r1 as [|c r2]; [discriminate|].
      destruct (Str.upper_of_three a b c) as [u|] eqn:U3.
      * apply upper_of_three_cases in U3 as (y & z & t & -> & _).
        cbv [String.append]. discriminate.
      * intros [= _ E]. now apply toUpperCase_empty in E.
Qed.

(** The texts whose upper case is two letters, the first of which is
    no [I], [S] or [F]. *)
Lemma toUpperCase_two x y s :
  x <> "I"%char -> x <> "S"%char -> x <> "F"%char ->
  Str.toUpperCase s = String x (String y EmptyString) ->
  exists a t,
    s = String a t /\ Str.upper_char a = x
    /\ Str.toUpperCase t = String y EmptyString.
Proof.
  intros NI NS NF. destruct s as [|a r]; [discriminate|].
  rewrite toUpperCase_step. destruct r as [|b r1]; [discriminate|].
  destruct (Str.upper_of_two a b) as [u|] eqn:U2.
  - apply upper_of_two_cases in U2 as [(-> & _)|[->|(-> & _)]];
      cbv [String.append]; intros [= Ex _]; now subst x.
  - assert (Step : String (Str.upper_char a)
                     (Str.toUpperCase (String b r1))
                   = String x (String y EmptyString) ->
                   exists a0 t,
                     String a (String b r1) = String a0 t
                     /\ Str.upper_char a0 = x
                     /\ Str.toUpperCase t = String y EmptyString).
    { intros [= Ex E]. now exists a, (String b r1). }
    destruct r1 as [|c r2]; [exact Step|].
    destruct (Str.upper_of_three a b c) as [u|] eqn:U3; [|exact Step].
    apply upper_of_three_cases in U3 as (x' & y' & t & -> & [->| ->]);
      cbv [String.append]; intros [= Ex _]; now subst x.
Qed.

(** The letters whose upper case is a given capital. *)
Ltac letters a :=
  destruct a as [[] [] [] [] [] [] [] []]; vm_compute; intros E;
  try discriminate E; tauto.

Lemma upper_U a : Str.upper_char a = "U"%char -> a = "U"%char \/ a = "u"%char.
Proof. letters a. Qed.

Lemma upper_S a : Str.upper_char a = "S"%char -> a = "S"%char \/ a = "s"%char.
Proof. letters a. Qed.

Lemma upper_C a : Str.upper_char a = "C"%char -> a = "C"%char \/ a = "c"%char.
Proof. letters a. Qed.

Lemma upper_A a : Str.upper_char a = "A"%char -> a = "A"%char \/ a = "a"%char.
Proof. letters a. Qed.

Lemma upper_B a : Str.upper_char a = "B"%char -> a = "B"%char \/ a = "b"%char.
Proof. letters a. Qed.

Lemma upper_R a : Str.upper_char a = "R"%char -> a = "R"%char \/ a = "r"%char.
Proof. letters a. Qed.

(** Membership in a list of literals, decided. *)
Ltac among := apply bool_decide_eq_true; repeat constructor.

Lemma toUpperCase_US s :
  String.eqb (Str.toUpperCase s) "US" = bool_decide (s ∈ written_US).
Proof.
  destruct (bool_decide (s ∈ written_US)) eqn:W.
  - apply bool_decide_eq_true in W. unfold written_US in W.
    repeat (apply elem_of_cons in W as [->|W]; [vm_compute; reflexivity|]).
    now apply elem_of_nil in W.
  - destruct (String.eqb_spec (Str.toUpperCase s) "US") as [E|];
      [|reflexivity].
    rewrite <- W. symmetry.
    apply toUpperCase_two in E as (a & t & -> & Ea & Et); try discriminate.
    apply upper_U in Ea.
    apply toUpperCase_one in Et
      as [(b & -> & Eb)|[(Ei & _)|(_ & ->)]]; [|discriminate Ei|].
    + apply upper_S in Eb. destruct Ea as [->| ->], Eb as [->| ->]; among.
    + destruct Ea as [->| ->]; among.
Qed.

Lemma toUpperCase_CA s :
  String.eqb (Str.toUpperCase s) "CA" = bool_decide (s ∈ written_CA).
Proof.
  destruct (bool_decide (s ∈ written_CA)) eqn:W.
  - apply bool_decide_eq_true in W. unfold written_CA in W.
    repeat (apply elem_of_cons in W as [->|W]; [vm_compute; reflexivity|]).
    now apply elem_of_nil in W.
  - destruct (String.eqb_spec (Str.toUpperCase s) "CA") as [E|];
      [|reflexivity].
    rewrite <- W. symmetry.
    apply toUpperCase_two in E as (a & t & -> & Ea & Et); try discriminate.
    apply upper_C in Ea.
    apply toUpperCase_one in Et
      as [(b & -> & Eb)|[(Ei & _)|(Es & _)]];
      [|discriminate Ei|discriminate Es].
    apply upper_A in Eb. destruct Ea as [->| ->], Eb as [->| ->]; among.
Qed.

Lemma toUpperCase_BR s :
  String.eqb (Str.toUpperCase s) "BR" = bool_decide (s ∈ written_BR).
Proof.
  destruct (bool_decide (s ∈ written_BR)) eqn:W.
  - apply bool_decide_eq_true in W. unfold written_BR in W.
    repeat (apply elem_of_cons in W as [->|W]; [vm_compute; reflexivity|]).
    now apply elem_of_nil in W.
  - destruct (String.eqb_spec (Str.toUpperCase s) "BR") as [E|];
      [|reflexivity].
    rewrite <- W. symmetry.
    apply toUpperCase_two in E as (a & t & -> & Ea & Et); try discriminate.
    apply upper_B in Ea.
    apply toUpperCase_one in Et
      as [(b & -> & Eb)|[(Ei & _)|(Es & _)]];
      [|discriminate Ei|discriminate Es].
    apply upper_R in Eb. destruct Ea as [->| ->], Eb as [->| ->]; among.
Qed.

(** C7. The law set is a function of [context.country] read without
    regard to the case of its letters: it is GDPR, then CCPA for US and
    CA, LGPD for BR and PIPEDA for CA, in that order and without
    repetition, however the two letters of the code are written; any
    other country, and no country, give exactly GDPR. *)
Theorem determineApplicableLaws_resolved (context : context) :
  determineApplicableLaws context
  = ["GDPR"]
    ++ (if written (written_US ++ written_CA) (country context)
        then ["CCPA"] else [])
    ++ (if written written_BR (country context) then ["LGPD"] else [])
    ++ (if written written_CA (country context) then ["PIPEDA"] else [])
  /\ NoDup (determineApplicableLaws context)
  /\ head (determineApplicableLaws context) = Some "GDPR"
  /\ (written (written_US ++ written_CA ++ written_BR) (country context)
      = false ->
      determineApplicableLaws context = ["GDPR"]).
Proof.
  assert (Or : forall (c : string) l1 l2,
            bool_decide (c ∈ l1 ++ l2)
            = bool_decide (c ∈ l1) || bool_decide (c ∈ l2)).
  { intros c l1 l2. apply eq_true_iff_eq.
    rewrite orb_true_iff, !bool_decide_eq_true. apply elem_of_app. }
  unfold determineApplicableLaws, written.
  destruct (country context) as [[|a c]|];
    try (repeat split; try reflexivity; apply NoDup_singleton).
  cbv beta iota delta [truthy].
  rewrite !Or, toUpperCase_US, toUpperCase_CA, toUpperCase_BR.
  destruct (bool_decide (String a c ∈ written_US)) eqn:E1,
           (bool_decide (String a c ∈ written_CA)) eqn:E2,
           (bool_decide (String a c ∈ written_BR)) eqn:E3;
    cbn [orb];
    try (apply bool_decide_eq_true in E1;
         apply bool_decide_eq_true in E2;
         exfalso; clear -E1 E2; unfold written_US in E1;
         repeat (apply elem_of_cons in E1 as [E1|E1];
                 [rewrite E1 in E2; now vm_compute in E2|]);
         now apply elem_of_nil in E1);
    try (apply bool_decide_eq_true in E2;
         apply bool_decide_eq_true in E3;
         exfalso; clear -E2 E3; unfold written_CA in E2;
         repeat (apply elem_of_cons in E2 as [E2|E2];
                 [rewrite E2 in E3; now vm_compute in E3|]);
         now apply elem_of_nil in E2);
    try (apply bool_decide_eq_true in E1;
         apply bool_decide_eq_true in E3;
         exfalso; clear -E1 E3; unfold written_US in E1;
         repeat (apply elem_of_cons in E1 as [E1|E1];
                 [rewrite E1 in E3; now vm_compute in E3|]);
         now apply elem_of_nil in E1);
    cbn; (repeat split; try reflexivity; try discriminate; distinct).
Qed.

End Laws.

(** *** Reading the store *)

Module Reads.
Import JS Spec.

Lemma bind_ok {A B} (m : M A) (k : A -> M B) w a w' :
  m w = Ok a w' -> bind m k w = k a w'.
Proof. unfold bind. now intros ->. Qed.

Lemma bind_throw {A B} (m : M A) (k : A -> M B) w e w' :
  m w = Throw e w' -> bind m k w = Throw e w'.
Proof. unfold bind. now intros ->. Qed.

Lemma get_read v k w :
  RuleEngine.is_nullish v = false -> get v k w = Ok (read (heap w) v k) w.
Proof.
  destruct v; simpl; try discriminate; intros _; try reflexivity.
  unfold get. destruct (heap w !! l); reflexivity.
Qed.

Lemma get_truthy v k w :
  truthy v = true -> get v k w = Ok (read (heap w) v k) w.
Proof.
  intros T. apply get_read. destruct v; simpl in *; congruence.
Qed.

Lemma get_ref l k w : get (VRef l) k w = Ok (read (heap w) (VRef l) k) w.
Proof. now apply get_read. Qed.

Lemma get_nullish v k w :
  RuleEngine.is_nullish v = true ->
  get v k w = Throw "TypeError: cannot read properties" w.
Proof. destruct v; simpl; try discriminate; reflexivity. Qed.

Lemma read_nullish h v k :
  RuleEngine.is_nullish v = true -> read h v k = VUndef.
Proof. destruct v; simpl; try discriminate; reflexivity. Qed.

(** One step of a computation that starts with a read. *)
Ltac read_step T :=
  erewrite bind_ok
    by first [apply get_truthy; exact T | apply get_read; exact T];
  cbv beta.

End Reads.

Module Ledger.
Import JS Spec Reads ConsentManager.

Lemma isGdprCompliantConsent_compliant consent w :
  exists r, isGdprCompliantConsent consent w = Ok r w
            /\ truthy r = compliant (heap w) consent.
Proof.
  unfold isGdprCompliantConsent, compliant.
  destruct (truthy consent) eqn:T; simpl; [|eexists; split; reflexivity].
  read_step T.
  destruct (is_true (read (heap w) consent "specific")); simpl;
    [|eexists; split; reflexivity].
  read_step T.
  destruct (is_true (read (heap w) consent "informed")); simpl;
    [|eexists; split; reflexivity].
  read_step T.
  destruct (is_true (read (heap w) consent "unambiguous")); simpl;
    [|eexists; split; reflexivity].
  read_step T.
  destruct (truthy (read (heap w) consent "recordedAt")) eqn:R; simpl;
    [|eexists; split; [reflexivity|exact R]].
  read_step T.
  destruct (truthy (read (heap w) consent "purpose")) eqn:U; simpl;
    [|eexists; split; [reflexivity|exact U]].
  read_step T.
  eexists; split; [reflexivity|].
  now destruct (is_true (read (heap w) consent "canWithdraw")).
Qed.

(** C8, as the code has it. [hasValidConsent] changes nothing and answers
    [true] exactly when the record has a current consent that passes the
    compliance check and, for a processing type other than ['necessary'],
    the preference of that type is [true]; in every other state of the
    record, ['necessary'] included, it answers [false] (or fails on a
    consent without preferences). *)
Theorem hasValidConsent_characterised (userData : value)
    (processingType : string) (w : world) :
  match hasValidConsent userData processingType w with
  | Ok b w' => w' = w /\ b = valid_consent (heap w) userData processingType
  | Throw _ w' =>
      w' = w /\ valid_consent (heap w) userData processingType = false
  end.
Proof.
  unfold hasValidConsent, valid_consent, read_path; simpl fold_left.
  destruct (RuleEngine.is_nullish userData) eqn:N.
  { erewrite bind_throw by (apply get_nullish; exact N).
    now rewrite read_nullish by exact N. }
  read_step N.
  set (ledger := read (heap w) userData "_consent").
  destruct (truthy ledger) eqn:TL; simpl; [|now split].
  read_step TL.
  set (consent := read (heap w) ledger "current").
  destruct (truthy consent) eqn:TC; simpl.
  2: { split; [reflexivity|]. unfold compliant. now rewrite TC. }
  destruct (isGdprCompliantConsent_compliant consent w) as (r & E & <-).
  erewrite bind_ok by exact E; cbv beta.
  destruct (truthy r); simpl; [|now split].
  destruct (String.eqb processingType "necessary"); simpl; [now split|].
  read_step TC.
  set (preferences := read (heap w) consent "preferences").
  destruct (RuleEngine.is_nullish preferences) eqn:NP.
  - erewrite bind_throw by (apply get_nullish; exact NP).
    now rewrite read_nullish by exact NP.
  - read_step NP. now split.
Qed.

(** C8, counterexample: on a record without any consent,
    [hasValidConsent(record, 'necessary')] is [false]. *)
Lemma hasValidConsent_necessary_without_consent :
  hasValidConsent (VRef 0) "necessary" (World [OObj [] []] 0 0)
  = Ok false (World [OObj [] []] 0 0).
Proof. reflexivity. Qed.

End Ledger.

(** *** Hexadecimal text *)

Module Hex.

Lemma of_hex_to_hex b : Str.of_hex (Str.to_hex b) = b.
Proof.
  induction b as [|c b IH]; [reflexivity|].
  cbn [Str.to_hex Str.of_hex]. rewrite IH. clear IH.
  destruct c as [[] [] [] [] [] [] [] []]; reflexivity.
Qed.

(** Hexadecimal text has two code units for each byte. *)
Lemma length_to_hex b :
  Str.length (Str.to_hex b) = (2 * String.length b)%nat.
Proof.
  induction b as [|c b IH]; [reflexivity|].
  cbn [Str.to_hex Str.length String.length]. rewrite IH.
  assert (D : forall n, (n < 16)%nat ->
            Str.is_continuation (Str.hex_digit n) = false
            /\ Str.is_astral (Str.hex_digit n) = false).
  { intros n L. do 16 (destruct n as [|n]; [now split|]). lia. }
  destruct (D (nat_of_ascii c / 16)%nat) as [-> ->].
  { apply Nat.Div0.div_lt_upper_bound.
    pose proof (nat_ascii_bounded c). lia. }
  destruct (D (nat_of_ascii c mod 16)%nat) as [-> ->];
    [apply Nat.mod_upper_bound; lia|]. lia.
Qed.

Lemma even_to_hex b : Nat.even (Str.length (Str.to_hex b)) = true.
Proof.
  rewrite length_to_hex. apply Nat.even_spec. now exists (String.length b).
Qed.

(** Upper-case digits decode like lower-case ones. *)
Lemma hex_value_upper c : Str.hex_value (Str.upper_char c) = Str.hex_value c.
Proof. destruct c as [[] [] [] [] [] [] [] []]; reflexivity. Qed.

Lemma of_hex_upper s :
  Str.of_hex (Str.map_chars Str.upper_char s) = Str.of_hex s.
Proof.
  revert s.
  fix IH 1. intros [|a [|b r]]; try reflexivity.
  cbn [Str.map_chars Str.of_hex]. rewrite !hex_value_upper.
  destruct (Str.hex_value a), (Str.hex_value b); try reflexivity.
  now rewrite IH.
Qed.

End Hex.

(** *** Stepping through allocations *)

Module Store.
Import JS Spec Reads.

Lemma read_fresh h o k :
  read (h ++ [o]) (VRef (length h)) k = default VUndef (own o k).
Proof. unfold read. now rewrite list_lookup_middle. Qed.

Lemma read_old h o l k :
  (l < length h)%nat -> read (h ++ [o]) (VRef l) k = read h (VRef l) k.
Proof. intros L. unfold read. now rewrite lookup_app_l. Qed.

End Store.

Module RoundTrip.
Import JS Sys JSON Spec Reads Store DataEncryptor.

Section Sealing.
Context `{Platform} (cfg : config).

(** What [encrypt] stores for a text. *)
Definition sealed_field (text fieldName : string) (w : world) : obj :=
  let iv := randomBytes (draws w) ivLength in
  let salt := randomBytes (S (draws w)) saltLength in
  let key := pbkdf2Sync (encryptionKey cfg) salt 100000 keyLength in
  OObj
    [("_encrypted", VBool true);
     ("version", VStr "1.0");
     ("algorithm", VStr algorithm);
     ("data", VStr (Str.to_hex (fst (gcm_seal key iv text))));
     ("iv", VStr (Str.to_hex iv));
     ("salt", VStr (Str.to_hex salt));
     ("authTag", VStr (Str.to_hex (snd (gcm_seal key iv text))));
     ("field", VStr fieldName);
     ("encryptedAt", VStr (toISOString (clock (ticks w))))]
    [].

Definition after_encrypt (text fieldName : string) (w : world) : world :=
  World (heap w ++ [sealed_field text fieldName w]) (S (ticks w))
        (S (S (draws w))).

Lemma encrypt_string s fieldName w :
  encrypt cfg (VStr s) fieldName w
  = Ok (VRef (length (heap w))) (after_encrypt s fieldName w).
Proof. reflexivity. Qed.

(** Decrypting what [encrypt] made of a string: the text is recovered and
    then read as JSON where it can be. *)
Lemma decrypt_encrypt_string s fieldName w :
  decrypt cfg (VRef (length (heap w))) (after_encrypt s fieldName w)
  = try_catch (JSON_parse s) (fun _ => ret (VStr s))
      (after_encrypt s fieldName w).
Proof.
  assert (R : forall k,
             get (VRef (length (heap w))) k (after_encrypt s fieldName w)
             = Ok (default VUndef (own (sealed_field s fieldName w) k))
                  (after_encrypt s fieldName w)).
  { intros k. rewrite get_ref. unfold after_encrypt at 1; cbn [heap].
    now rewrite read_fresh. }
  unfold decrypt. cbn [truthy negb].
  erewrite bind_ok by apply R. cbv beta.
  cbn [sealed_field own lookup_prop String.eqb Ascii.eqb Bool.eqb
       default id truthy negb].
  unfold try_catch at 1.
  do 4 (erewrite bind_ok by apply R; cbv beta).
  cbn [sealed_field own lookup_prop String.eqb Ascii.eqb Bool.eqb
       default id].
  unfold bind, Buffer_from_hex, update_hex, ret.
  rewrite Hex.even_to_hex, !Hex.of_hex_to_hex, gcm_open_seal.
  unfold try_catch.
  destruct (JSON_parse s (after_encrypt s fieldName w)); reflexivity.
Qed.

End Sealing.

(** C1, at the failing input. A string of digits, such as a telephone
    number, is encrypted as it stands; [decrypt] recovers the text and
    then parses it as JSON, so what comes back is the number and not the
    string. *)
Theorem decrypt_encrypt_digits `{Platform} (cfg : config) (w : world) :
  exists sealed w1,
    encrypt cfg (VStr "5551234567") "phone" w = Ok sealed w1
    /\ decrypt cfg sealed w1 = Ok (VNum 5551234567) w1.
Proof.
  eexists _, _. split; [apply encrypt_string|].
  now rewrite decrypt_encrypt_string.
Qed.




End RoundTrip.

(** *** The engine on small records *)

Module Cases.
Import JS Spec ConsentManager RuleEngine.

(** The record of the ledger's own test: a current consent with
    marketing and analytics both granted. *)
Definition granted : world :=
  World
    [OObj [("_consent", VRef 1)] [];
     OObj [("current", VRef 2)] [];
     OObj [("preferences", VRef 3); ("recordedAt", VStr "2024-01-01")] [];
     OObj [("marketing", VBool true); ("analytics", VBool true)] []]
    0 0.

Definition from_address : requestContext :=
  RequestContext (VStr "192.168.1.1") VUndef.

(** C6, at the failing input. Withdrawing marketing clears that
    preference, leaves analytics and appends one withdrawal; but the
    [previousConsent] of that withdrawal shares the preferences object of
    the current consent, so the snapshot shows marketing already
    withdrawn although it was granted before the call. *)
Theorem withdrawConsent_snapshot_aliased `{Platform} :
  let before := heap granted in
  let outcome := withdrawConsent (VRef 0) "marketing" from_address granted in
  let after := heap (world_of outcome) in
  value_of outcome = Some (VRef 0)
  /\ read_path before (VRef 0)
       ["_consent"; "current"; "preferences"; "marketing"] = VBool true
  /\ read_path after (VRef 0)
       ["_consent"; "current"; "preferences"; "marketing"] = VBool false
  /\ read_path after (VRef 0)
       ["_consent"; "current"; "preferences"; "analytics"] = VBool true
  /\ read_path after (VRef 0) ["_consent"; "withdrawals"; "length"] = VNum 1
  /\ read_path after (VRef 0)
       ["_consent"; "withdrawals"; "0"; "previousConsent"; "preferences";
        "marketing"] = VBool false.
Proof. vm_compute. repeat split; reflexivity. Qed.

(** Withdrawing everything replaces the preferences object, and there the
    snapshot keeps the state before the call. *)
Lemma withdrawConsent_all_snapshot `{Platform} :
  read_path
    (heap (world_of (withdrawConsent (VRef 0) "all" from_address granted)))
    (VRef 0)
    ["_consent"; "withdrawals"; "0"; "previousConsent"; "preferences";
     "marketing"] = VBool true.
Proof. vm_compute. reflexivity. Qed.

Definition no_context : context :=
  Context None None None None None None None.

Definition in_germany : context :=
  Context (Some "DE") None None None None None None.

Definition with_password (password : string) : world :=
  World [OObj [("password", VStr password)] []] 0 0.

Definition with_email : world :=
  World [OObj [("email", VStr "a@b.com")] []] 0 0.

(** C4, at the failing input. With auto-encryption on (the default) the
    password is an encrypted field by the time the warnings are computed,
    and an encrypted field has no [length]: [process] gives no
    weak-password warning for ["weakpass"]. With auto-encryption off the
    warning is given. *)
Theorem process_weak_password_not_warned `{Platform} (key version : string) :
  option_map warnings
    (value_of (process (Config true key version) (VRef 0) no_context
                 (with_password "weakpass")))
  = Some [missing_consent]
  /\ option_map warnings
       (value_of (process (Config false key version) (VRef 0) no_context
                    (with_password "weakpass")))
     = Some [weak_password; missing_consent].
Proof. split; vm_compute; reflexivity. Qed.

(** C5, at the failing input. The GDPR pass records a consent on the
    record, and the warning for a missing consent is given all the same:
    the check reads [_complianceConsent], a field nothing writes. *)
Theorem process_warns_despite_consent `{Platform} (cfg : config) :
  let outcome := process cfg (VRef 0) in_germany with_email in
  option_map (fun r => actions (compliance r)) (value_of outcome)
  = Some (["gdpr_consent_recorded"; "gdpr_deletion_metadata_added"]
          ++ if autoEncrypt cfg then ["sensitive_fields_encrypted"] else [])
  /\ option_map
       (fun r => truthy (read_path (heap (world_of outcome)) (data r)
                           ["_consent"; "current"]))
       (value_of outcome) = Some true
  /\ option_map warnings (value_of outcome) = Some [missing_consent].
Proof. destruct cfg as [[] key version]; vm_compute; repeat split. Qed.

End Cases.

(** *** Decryption *)

Module Decryption.
Import JS Sys JSON Spec Reads Store DataEncryptor.

Section Opening.
Context `{Platform} (cfg : config).

Lemma decrypt_not_encrypted v w :
  truthy v && truthy (read (heap w) v "_encrypted") = false ->
  decrypt cfg v w = Ok v w.
Proof.
  unfold decrypt. destruct (truthy v) eqn:T; [|reflexivity].
  cbn [andb negb]. intros F. read_step T. now rewrite F.
Qed.

(** [decrypt] on a value marked as encrypted: it throws exactly when one
    of the four fields is not a string, the data has an odd length or the
    cipher rejects the decoded fields, and otherwise returns the reading
    of the whole recovered text. *)
Lemma decrypt_marked v w :
  truthy v = true -> truthy (read (heap w) v "_encrypted") = true ->
  match plaintext cfg (heap w) v with
  | Some text => decrypt cfg v w = reading text w
  | None => exists message, decrypt cfg v w = Throw (failed message) w
  end.
Proof.
  intros T F.
  assert (E : decrypt cfg v w
              = try_catch
                  (let! saltBytes := Buffer_from_hex (read (heap w) v "salt") in
                   let key :=
                     pbkdf2Sync (encryptionKey cfg) saltBytes 100000
                       keyLength in
                   let! ivBytes := Buffer_from_hex (read (heap w) v "iv") in
                   let! tagBytes :=
                     Buffer_from_hex (read (heap w) v "authTag") in
                   let! dataBytes := update_hex (read (heap w) v "data") in
                   match gcm_open key ivBytes dataBytes tagBytes with
                   | Some decrypted => reading decrypted
                   | None =>
                       throw
                         "Unsupported state or unable to authenticate data"
                   end)
                  (fun message => throw (failed message)) w).
  { unfold decrypt. rewrite T. cbn [negb]. read_step T. rewrite F.
    cbn [negb]. unfold try_catch at 1 3. now do 4 read_step T. }
  rewrite E. clear E. unfold plaintext, opened.
  destruct (read (heap w) v "salt"); try (eexists; reflexivity).
  destruct (read (heap w) v "iv"); try (eexists; reflexivity).
  destruct (read (heap w) v "authTag"); try (eexists; reflexivity).
  destruct (read (heap w) v "data"); try (eexists; reflexivity).
  unfold try_catch at 1. unfold bind, Buffer_from_hex, update_hex, ret.
  destruct (Nat.even _); [|eexists; reflexivity].
  destruct (gcm_open _ _ _ _) as [text|]; [|eexists; reflexivity].
  unfold reading, try_catch.
  destruct (JSON_parse text w); reflexivity.
Qed.

End Opening.
End Decryption.

(** *** Framing: what a computation leaves alone *)

Module Frame.
Import JS Sys Spec Reads.

Lemma preserved_refl n w : preserved n w w.
Proof. split; [lia|reflexivity]. Qed.

Lemma preserved_trans n w1 w2 w3 :
  preserved n w1 w2 -> preserved n w2 w3 -> preserved n w1 w3.
Proof.
  intros [L1 E1] [L2 E2]. split; [lia|].
  intros l Hl. now rewrite E2, E1.
Qed.

Lemma preserved_le n m w w' :
  (m <= n)%nat -> preserved n w w' -> preserved m w w'.
Proof. intros L [L1 E1]. split; [exact L1|]. intros l Hl. apply E1. lia. Qed.

Lemma preserved_alloc n w o t d :
  (n <= length (heap w))%nat -> preserved n w (World (heap w ++ [o]) t d).
Proof.
  intros L. split; cbn [heap].
  - rewrite length_app. lia.
  - intros l Hl. apply lookup_app_l. lia.
Qed.

Lemma preserved_store n w l o t d :
  (n <= l)%nat -> preserved n w (World (<[l := o]> (heap w)) t d).
Proof.
  intros L. split; cbn [heap].
  - now rewrite length_insert.
  - intros l' Hl. apply list_lookup_insert_ne. lia.
Qed.

Lemma preserved_clock n w t d : preserved n w (World (heap w) t d).
Proof. split; [cbn; lia|reflexivity]. Qed.

Lemma read_preserved n w w' v k :
  preserved n w w' -> in_range n v ->
  read (heap w') v k = read (heap w) v k.
Proof.
  intros [_ E] R. destruct v; try reflexivity.
  cbn in R. unfold read. now rewrite E.
Qed.

Lemma spread_props_preserved n w w' v :
  preserved n w w' -> in_range n v ->
  spread_props (heap w') v = spread_props (heap w) v.
Proof.
  intros [_ E] R. destruct v; try reflexivity.
  cbn in R. unfold spread_props. now rewrite E.
Qed.

Lemma in_range_le n m v : (n <= m)%nat -> in_range n v -> in_range m v.
Proof. destruct v; cbn; try tauto. lia. Qed.

(** Rules for [returns]. *)

Lemma returns_ret {A} (a : A) w (Q : A -> world -> Prop) :
  Q a w -> returns (ret a) w Q.
Proof. intros q. now exists a, w. Qed.

Lemma returns_bind {A B} (m : M A) (k : A -> M B) w
    (Q : B -> world -> Prop) :
  returns m w (fun a w' => returns (k a) w' Q) -> returns (bind m k) w Q.
Proof.
  intros (a & w' & E & b & w'' & E' & q).
  exists b, w''. split; [|exact q]. now rewrite (bind_ok _ _ _ _ _ E).
Qed.

Lemma returns_weaken {A} (m : M A) w (Q Q' : A -> world -> Prop) :
  returns m w Q -> (forall a w', Q a w' -> Q' a w') -> returns m w Q'.
Proof. intros (a & w' & E & q) I. exists a, w'. split; [exact E|auto]. Qed.

Lemma returns_eq {A} (m : M A) w a w' (Q : A -> world -> Prop) :
  m w = Ok a w' -> Q a w' -> returns m w Q.
Proof. intros E q. now exists a, w'. Qed.

Lemma returns_inv {A} (m : M A) w a w' (Q : A -> world -> Prop) :
  returns m w Q -> m w = Ok a w' -> Q a w'.
Proof. intros (a0 & w0 & E & q) E'. rewrite E in E'. now injection E' as <- <-. Qed.

End Frame.

(** *** Reading a JSON text allocates and changes nothing else *)

Module Parsing.
Import JS Sys JSON Spec Reads Frame.

Definition json_induction (P : json -> Prop)
    (HNull : P JNull) (HBool : forall b, P (JBool b))
    (HNum : forall n, P (JNum n)) (HReal : forall x, P (JReal x))
    (HStr : forall s, P (JStr s))
    (HArr : forall ts, Forall P ts -> P (JArr ts))
    (HObj : forall ms, Forall (fun m => P (snd m)) ms -> P (JObj ms))
    : forall t, P t :=
  fix IH (t : json) : P t :=
    match t with
    | JNull => HNull
    | JBool b => HBool b
    | JNum n => HNum n
    | JReal x => HReal x
    | JStr s => HStr s
    | JArr ts =>
        HArr ts
          ((fix go (l : list json) : Forall P l :=
              match l with
              | [] => List.Forall_nil P
              | x :: r => @List.Forall_cons _ P x r (IH x) (go r)
              end) ts)
    | JObj ms =>
        HObj ms
          ((fix go (l : list (string * json))
              : Forall (fun m => P (snd m)) l :=
              match l with
              | [] => List.Forall_nil _
              | x :: r => @List.Forall_cons _ _ x r (IH (snd x)) (go r)
              end) ms)
    end.

(** A computation that only adds objects. *)
Definition allocates {A} (m : M A) : Prop :=
  forall w, returns m w (fun _ w' => preserved (length (heap w)) w w').

Lemma allocates_ret {A} (a : A) : allocates (ret a).
Proof. intros w. apply returns_ret, preserved_refl. Qed.

Lemma allocates_alloc o : allocates (alloc o).
Proof.
  intros w. eapply returns_eq; [reflexivity|].
  now apply preserved_alloc.
Qed.

Lemma allocates_bind {A B} (m : M A) (k : A -> M B) :
  allocates m -> (forall a, allocates (k a)) -> allocates (bind m k).
Proof.
  intros Hm Hk w. apply returns_bind.
  eapply returns_weaken; [apply Hm|]. intros a w' P1. cbv beta in P1.
  eapply returns_weaken; [apply Hk|]. intros b w'' P2. cbv beta in P2.
  eapply preserved_trans; [exact P1|].
  eapply preserved_le; [|exact P2]. apply P1.
Qed.

Lemma allocates_mapM {A B} (f : A -> M B) l :
  Forall (fun a => allocates (f a)) l -> allocates (mapM f l).
Proof.
  induction 1 as [|a l Ha _ IH]; cbn [mapM].
  - apply allocates_ret.
  - apply allocates_bind; [exact Ha|]. intros b.
    apply allocates_bind; [exact IH|]. intros bs. apply allocates_ret.
Qed.

Lemma allocates_build t : allocates (build t).
Proof.
  induction t as [| | | | |ts IH|ms IH] using json_induction;
    try apply allocates_ret.
  - cbn [build]. apply allocates_bind.
    + apply allocates_mapM, IH.
    + intros vs. apply allocates_alloc.
  - cbn [build]. apply allocates_bind.
    + apply allocates_mapM. eapply Forall_impl; [exact IH|].
      intros m Hm. cbv beta. apply allocates_bind; [exact Hm|].
      intros v. apply allocates_ret.
    + intros ps. apply allocates_alloc.
Qed.

Lemma allocates_reading text : allocates (reading text).
Proof.
  intros w. unfold returns, reading, try_catch, JSON_parse.
  destruct (parse_text text) as [t|].
  - destruct (allocates_build t w) as (v & w' & E & P).
    rewrite E. now exists v, w'.
  - exists (VStr text), w. split; [reflexivity|apply preserved_refl].
Qed.

End Parsing.

(** *** Properties of an object's fields *)

Module Fields.
Import JS Spec.

Lemma lookup_prop_middle k v done rest :
  k ∉ keys done -> lookup_prop k (done ++ (k, v) :: rest) = Some v.
Proof.
  induction done as [|[k' v'] done IH]; cbn [app lookup_prop keys map fst].
  - intros _. now rewrite String.eqb_refl.
  - intros N. apply not_elem_of_cons in N as [N1 N2].
    destruct (String.eqb_spec k k') as [->|_]; [congruence|]. now apply IH.
Qed.

Lemma assign_middle k x v done rest :
  k ∉ keys done ->
  assign k x (done ++ (k, v) :: rest) = done ++ (k, x) :: rest.
Proof.
  induction done as [|[k' v'] done IH]; cbn [app assign keys map fst].
  - intros _. now rewrite String.eqb_refl.
  - intros N. apply not_elem_of_cons in N as [N1 N2].
    destruct (String.eqb_spec k k') as [->|_]; [congruence|].
    now rewrite IH.
Qed.


Lemma keys_app (a b : props) : keys (a ++ b) = keys a ++ keys b.
Proof. apply map_app. Qed.

Lemma lookup_assign k' k x ps :
  lookup_prop k' (assign k x ps)
  = if String.eqb k' k then Some x else lookup_prop k' ps.
Proof.
  induction ps as [|[k0 v0] ps IH]; cbn [assign lookup_prop].
  - now destruct (String.eqb k' k).
  - destruct (String.eqb_spec k k0) as [->|N]; cbn [lookup_prop].
    + now destruct (String.eqb k' k0).
    + rewrite IH. destruct (String.eqb_spec k' k0) as [->|N'];
        [|reflexivity].
      destruct (String.eqb_spec k0 k) as [E|_]; [congruence|reflexivity].
Qed.

Lemma lookup_remove k' k ps :
  lookup_prop k' (remove_key k ps)
  = if String.eqb k' k then None else lookup_prop k' ps.
Proof.
  induction ps as [|[k0 v0] ps IH]; cbn [remove_key lookup_prop].
  - now destruct (String.eqb k' k).
  - destruct (String.eqb_spec k k0) as [->|N]; cbn [lookup_prop].
    + rewrite IH. destruct (String.eqb_spec k' k0); reflexivity.
    + rewrite IH. destruct (String.eqb_spec k' k0) as [->|N'];
        [|reflexivity].
      destruct (String.eqb_spec k0 k) as [E|_]; [congruence|reflexivity].
Qed.

Lemma has_key_elem k ps : has_key k ps = true <-> k ∈ keys ps.
Proof.
  unfold has_key.
  induction ps as [|[k0 v0] ps IH]; cbn [lookup_prop keys map fst].
  - split; [discriminate|]. intros I. now apply elem_of_nil in I.
  - rewrite elem_of_cons.
    destruct (String.eqb_spec k k0) as [->|N]; [tauto|].
    rewrite IH. unfold keys. tauto.
Qed.

Lemma keys_assign k x ps :
  keys (assign k x ps) = if has_key k ps then keys ps else keys ps ++ [k].
Proof.
  unfold has_key.
  induction ps as [|[k0 v0] ps IH]; cbn [assign lookup_prop keys map fst app].
  - reflexivity.
  - destruct (String.eqb_spec k k0) as [->|N]; cbn [keys map fst].
    + reflexivity.
    + unfold keys in IH. rewrite IH.
      now destruct (lookup_prop k ps).
Qed.

Lemma NoDup_keys_assign k x ps :
  NoDup (keys ps) -> NoDup (keys (assign k x ps)).
Proof.
  intros D. rewrite keys_assign.
  destruct (has_key k ps) eqn:E; [exact D|].
  apply NoDup_app. split; [exact D|]. split; [|apply NoDup_singleton].
  intros k' I J. apply list_elem_of_singleton in J as ->.
  apply has_key_elem in I. congruence.
Qed.

Lemma keys_remove_sub k k' ps : k' ∈ keys (remove_key k ps) -> k' ∈ keys ps.
Proof.
  induction ps as [|[k0 v0] ps IH]; cbn [remove_key keys map fst];
    [tauto|].
  destruct (String.eqb k k0); cbn [keys map fst];
    rewrite ?elem_of_cons; unfold keys in *; tauto.
Qed.

Lemma NoDup_keys_remove k ps :
  NoDup (keys ps) -> NoDup (keys (remove_key k ps)).
Proof.
  induction ps as [|[k0 v0] ps IH]; cbn [remove_key keys map fst];
    [tauto|].
  intros D. apply NoDup_cons in D as [N D].
  destruct (String.eqb k k0); cbn [keys map fst]; [now apply IH|].
  apply NoDup_cons. split; [|now apply IH].
  intros I. apply N. now apply keys_remove_sub in I.
Qed.

Lemma values_assign (P : value -> Prop) k x ps :
  P x -> Forall P (map snd ps) -> Forall P (map snd (assign k x ps)).
Proof.
  intros Px. induction ps as [|[k0 v0] ps IH]; cbn [assign map snd].
  - intros _. now repeat constructor.
  - intros F. apply Forall_cons in F as [F0 F].
    destruct (String.eqb k k0); cbn [map snd]; constructor; auto.
Qed.

Lemma values_remove (P : value -> Prop) k ps :
  Forall P (map snd ps) -> Forall P (map snd (remove_key k ps)).
Proof.
  induction ps as [|[k0 v0] ps IH]; cbn [remove_key map snd]; [tauto|].
  intros F. apply Forall_cons in F as [F0 F].
  destruct (String.eqb k k0); cbn [map snd]; [auto|constructor; auto].
Qed.

Lemma values_lookup (P : value -> Prop) k v ps :
  Forall P (map snd ps) -> lookup_prop k ps = Some v -> P v.
Proof.
  induction ps as [|[k0 v0] ps IH]; cbn [lookup_prop map snd];
    [discriminate|].
  intros F. apply Forall_cons in F as [F0 F].
  destruct (String.eqb k k0); [now intros [= <-]|auto].
Qed.

Lemma remove_absent k ps : has_key k ps = false -> remove_key k ps = ps.
Proof.
  unfold has_key.
  induction ps as [|[k0 v0] ps IH]; cbn [remove_key lookup_prop];
    [reflexivity|].
  destruct (String.eqb k k0); [discriminate|]. intros E. now rewrite IH.
Qed.

Lemma assign_same k v ps : lookup_prop k ps = Some v -> assign k v ps = ps.
Proof.
  induction ps as [|[k0 v0] ps IH]; cbn [assign lookup_prop];
    [discriminate|].
  destruct (String.eqb_spec k k0) as [->|N].
  - now intros [= ->].
  - intros E. now rewrite IH.
Qed.

End Fields.

(** *** What [JSON.parse] builds *)

Module Readings.
Import JS Sys JSON Spec Reads Frame Parsing Fields.








End Readings.

(** *** [autoDecryptSensitiveFields] *)

Module AutoDecrypt.
Import JS Sys JSON Spec Reads Frame Parsing Fields Readings Decryption.
Import DataEncryptor.

Section Loop.
Context `{Platform} (cfg : config).

Lemma isEncrypted_read v w :
  isEncrypted v w = Ok (is_encrypted (heap w) v) w.
Proof.
  unfold isEncrypted, is_encrypted.
  destruct (truthy v) eqn:T; [|reflexivity].
  destruct (is_object_type v); [|reflexivity]. cbn [andb].
  now read_step T.
Qed.


Lemma is_encrypted_preserved n w w' v :
  preserved n w w' -> in_range n v ->
  is_encrypted (heap w') v = is_encrypted (heap w) v.
Proof.
  intros P R. unfold is_encrypted. now rewrite (read_preserved n w w' v).
Qed.


(** A text is recovered from strings only. *)
Lemma plaintext_typed h v text :
  plaintext cfg h v = Some text -> typed h v = true.
Proof.
  unfold plaintext, typed.
  destruct (read h v "salt"); try discriminate.
  destruct (read h v "iv"); try discriminate.
  destruct (read h v "authTag"); try discriminate.
  destruct (read h v "data"); try discriminate. reflexivity.
Qed.

Lemma plaintext_untyped h v : typed h v = false -> plaintext cfg h v = None.
Proof.
  intros T. destruct (plaintext cfg h v) eqn:P; [|reflexivity].
  apply plaintext_typed in P. congruence.
Qed.





End Loop.


End AutoDecrypt.

(** *** Tampering *)

Module Tamper.
Import JS Sys JSON Spec Reads Frame Parsing Store Decryption DataEncryptor.
Import RoundTrip.

(** The store in which the string that the object at [l] holds under
    [k] is changed by [f]. *)
Definition tampered (l : nat) (k : string) (f : string -> string)
    (w : world) : world :=
  match heap w !! l with
  | Some (OObj fs hs) =>
      match lookup_prop k fs with
      | Some (VStr s) =>
          World (<[l := OObj (assign k (VStr (f s)) fs) hs]> (heap w))
                (ticks w) (draws w)
      | _ => w
      end
  | _ => w
  end.

(** A byte of hexadecimal text that is replaced by one that is no
    hexadecimal digit ends the bytes that [Buffer.from] decodes. *)
Lemma of_hex_cut c b : forall i,
  Str.hex_value c = None -> (i < 2 * String.length b)%nat ->
  Str.of_hex (Str.set_char i c (Str.to_hex b)) = Str.take (i / 2) b.
Proof.
  intros i Nc. revert i.
  induction b as [|a b IH]; intros i L; [cbn in L; lia|].
  assert (Hd : forall n, (n < 16)%nat ->
            Str.hex_value (Str.hex_digit n) = Some n).
  { intros n Ln. do 16 (destruct n as [|n]; [reflexivity|]). lia. }
  pose proof (nat_ascii_bounded a) as Ba.
  assert (Hi : Str.hex_value (Str.hex_digit (nat_of_ascii a / 16))
               = Some (nat_of_ascii a / 16)%nat)
    by (apply Hd, Nat.Div0.div_lt_upper_bound; lia).
  assert (Lo : Str.hex_value (Str.hex_digit (nat_of_ascii a mod 16))
               = Some (nat_of_ascii a mod 16)%nat)
    by (apply Hd, Nat.mod_upper_bound; lia).
  destruct i as [|[|i]]; cbn [Str.to_hex Str.set_char Str.of_hex].
  - now rewrite Nc.
  - now rewrite Hi, Nc.
  - rewrite Hi, Lo.
    replace (S (S i) / 2)%nat with (S (i / 2))
      by (replace (S (S i)) with (i + 1 * 2)%nat by lia;
          rewrite Nat.div_add by lia; lia).
    cbn [Str.take]. rewrite IH by (cbn [String.length] in L; lia).
    f_equal. rewrite <- (ascii_nat_embedding a) at 3. f_equal.
    rewrite (Nat.div_mod_eq (nat_of_ascii a) 16) at 3. lia.
Qed.

(** Such a change does change the text. *)
Lemma set_char_changes c b i :
  Str.hex_value c = None -> (i < 2 * String.length b)%nat ->
  Str.set_char i c (Str.to_hex b) <> Str.to_hex b.
Proof.
  intros Nc L E. apply (f_equal Str.of_hex) in E.
  rewrite (of_hex_cut c b i Nc L), Hex.of_hex_to_hex in E.
  apply (f_equal String.length) in E.
  assert (Li : (i / 2 < String.length b)%nat)
    by (apply Nat.Div0.div_lt_upper_bound; lia).
  rewrite Bytes.length_take in E by lia. lia.
Qed.

Section Cut.
Context `{Platform} (cfg : config).

(** C2, at the failing input. One byte of the hexadecimal [authTag] of
    an encrypted field is replaced by a byte that is no hexadecimal
    digit, at the ninth place or at any other place after which 4, 8 or
    12 to 15 whole bytes of the tag are left. [Buffer.from] then decodes
    the bytes before it only, the decipher takes them as a shorter tag,
    compares that many bytes and accepts: [decrypt] raises nothing and
    returns what it returns for the untouched field, the reading of the
    original text. *)
Theorem decrypt_accepts_cut_tag (s fieldName : string) (w : world)
    (i : nat) (c : ascii) :
  Str.hex_value c = None -> In (i / 2)%nat tag_lengths -> (i < 32)%nat ->
  let l := length (heap w) in
  let sealed := after_encrypt cfg s fieldName w in
  let changed := tampered l "authTag" (Str.set_char i c) sealed in
  encrypt cfg (VStr s) fieldName w = Ok (VRef l) sealed
  /\ (exists tag,
        field_of sealed (VRef l) "authTag" = Some (VStr tag)
        /\ field_of changed (VRef l) "authTag"
           = Some (VStr (Str.set_char i c tag))
        /\ Str.set_char i c tag <> tag
        /\ forall k, k <> "authTag" ->
                     field_of changed (VRef l) k = field_of sealed (VRef l) k)
  /\ decrypt cfg (VRef l) sealed = reading s sealed
  /\ decrypt cfg (VRef l) changed = reading s changed
  /\ raised (decrypt cfg (VRef l) changed) = false.
Proof.
  intros Nc Vn Li l sealed changed.
  set (iv := randomBytes (draws w) ivLength).
  set (salt := randomBytes (S (draws w)) saltLength).
  set (key := pbkdf2Sync (encryptionKey cfg) salt 100000 keyLength).
  set (tag := snd (gcm_seal key iv s)).
  assert (Lt : String.length tag = 16%nat) by apply gcm_seal_tag.
  assert (At : heap sealed !! l = Some (sealed_field cfg s fieldName w))
    by (apply list_lookup_middle; reflexivity).
  assert (Fs : spread_props (heap sealed) (VRef l)
               = [("_encrypted", VBool true); ("version", VStr "1.0");
                  ("algorithm", VStr algorithm);
                  ("data", VStr (Str.to_hex (fst (gcm_seal key iv s))));
                  ("iv", VStr (Str.to_hex iv));
                  ("salt", VStr (Str.to_hex salt));
                  ("authTag", VStr (Str.to_hex tag));
                  ("field", VStr fieldName);
                  ("encryptedAt", VStr (toISOString (clock (ticks w))))]).
  { unfold spread_props. rewrite At. reflexivity. }
  assert (Ec : changed
               = World (<[l := OObj
                            (assign "authTag"
                               (VStr (Str.set_char i c (Str.to_hex tag)))
                               (spread_props (heap sealed) (VRef l))) []]>
                          (heap sealed))
                       (ticks sealed) (draws sealed)).
  { unfold changed, tampered. rewrite At, Fs. reflexivity. }
  assert (Ac : heap changed !! l
               = Some (OObj
                         (assign "authTag"
                            (VStr (Str.set_char i c (Str.to_hex tag)))
                            (spread_props (heap sealed) (VRef l))) [])).
  { rewrite Ec. cbn [heap]. apply list_lookup_insert_eq.
    apply lookup_lt_Some in At. exact At. }
  split; [apply encrypt_string|]. split; [|split; [|split]].
  - assert (Fc : spread_props (heap changed) (VRef l)
                 = assign "authTag"
                     (VStr (Str.set_char i c (Str.to_hex tag)))
                     (spread_props (heap sealed) (VRef l))).
    { unfold spread_props at 1. now rewrite Ac. }
    exists (Str.to_hex tag). unfold field_of. rewrite Fc, Fs.
    split; [reflexivity|]. split; [reflexivity|].
    split; [apply set_char_changes; [exact Nc|lia]|].
    intros k Nk. cbn [assign lookup_prop String.eqb Ascii.eqb Bool.eqb].
    repeat (destruct (String.eqb k _) eqn:?; [reflexivity|]).
    destruct (String.eqb_spec k "authTag") as [->|_]; [now destruct Nk|].
    reflexivity.
  - apply decrypt_encrypt_string.
  - pose proof (decrypt_marked cfg (VRef l) changed eq_refl) as D.
    unfold plaintext, opened, read in D. rewrite Ac, Fs in D.
    cbn [assign own lookup_prop String.eqb Ascii.eqb Bool.eqb default id
         truthy] in D.
    rewrite Hex.even_to_hex, !Hex.of_hex_to_hex in D.
    rewrite (of_hex_cut c tag i Nc) in D by lia.
    fold key in D.
    rewrite (gcm_open_short key iv _ tag s (i / 2) Vn) in D;
      [exact (D eq_refl)| |apply gcm_open_seal].
    rewrite Lt. apply Nat.Div0.div_le_upper_bound. lia.
  - pose proof (decrypt_marked cfg (VRef l) changed eq_refl) as D.
    unfold plaintext, opened, read in D. rewrite Ac, Fs in D.
    cbn [assign own lookup_prop String.eqb Ascii.eqb Bool.eqb default id
         truthy] in D.
    rewrite Hex.even_to_hex, !Hex.of_hex_to_hex in D.
    rewrite (of_hex_cut c tag i Nc) in D by lia.
    fold key in D.
    rewrite (gcm_open_short key iv _ tag s (i / 2) Vn) in D;
      [| |apply gcm_open_seal].
    + rewrite (D eq_refl).
      destruct (allocates_reading s changed) as (p & w' & E & _).
      now rewrite E.
    + rewrite Lt. apply Nat.Div0.div_le_upper_bound. lia.
Qed.

End Cut.

(** [decrypt_accepts_cut_tag] on the small platform: the ninth byte of
    the tag of ["secret"] becomes an [x]. *)
Lemma decrypt_accepts_cut_tag_witness :
  let sealed := after_encrypt (H := Toy.platform) Toy.cfg "secret" "note"
                  Toy.empty in
  let changed := tampered 0 "authTag" (Str.set_char 8 "x") sealed in
  encrypt (H := Toy.platform) Toy.cfg (VStr "secret") "note" Toy.empty
  = Ok (VRef 0) sealed
  /\ (exists tag,
        field_of sealed (VRef 0) "authTag" = Some (VStr tag)
        /\ field_of changed (VRef 0) "authTag"
           = Some (VStr (Str.set_char 8 "x" tag))
        /\ Str.set_char 8 "x" tag <> tag
        /\ forall k, k <> "authTag" ->
                     field_of changed (VRef 0) k = field_of sealed (VRef 0) k)
  /\ decrypt (H := Toy.platform) Toy.cfg (VRef 0) sealed
     = reading "secret" sealed
  /\ decrypt (H := Toy.platform) Toy.cfg (VRef 0) changed
     = reading "secret" changed
  /\ raised (decrypt (H := Toy.platform) Toy.cfg (VRef 0) changed) = false.
Proof.
  apply (decrypt_accepts_cut_tag (H := Toy.platform) Toy.cfg "secret" "note"
           Toy.empty 8 "x").
  - reflexivity.
  - cbn. tauto.
  - lia.
Defined.

(** What [encrypt] stores on the small platform for the text ["secret"],
    and the same field with one byte of its hexadecimal [data], the case
    of one digit of its [iv], or one byte of its [authTag] changed. *)
Definition secret : world :=
  world_of (encrypt (H := Toy.platform) Toy.cfg (VStr "secret") "note" Toy.empty).

Definition with_field (k : string) (x : value) (w : world) : world :=
  World [OObj (assign k x (spread_props (heap w) (VRef 0))) []]
        (ticks w) (draws w).

Definition data_changed : world :=
  with_field "data" (VStr "736563726575") secret.

Definition data_cut : world :=
  with_field "data" (VStr "73656372657") secret.

Definition iv_case_changed : world :=
  with_field "iv" (VStr "Abababababababababababababababab") secret.

Lemma secret_fields :
  field_of secret (VRef 0) "data" = Some (VStr "736563726574")
  /\ field_of secret (VRef 0) "iv"
     = Some (VStr "abababababababababababababababab")
  /\ field_of secret (VRef 0) "authTag"
     = Some (VStr "736563726574acacacacacacacacacac").
Proof. vm_compute. repeat split. Qed.

(** A field whose data was changed: the cipher rejects it and [decrypt]
    throws. A field whose data lost a byte of its text: [update] rejects
    the odd length. *)
Lemma decrypt_rejects_changed_data :
  decrypt (H := Toy.platform) Toy.cfg (VRef 0) data_changed
  = Throw (failed "Unsupported state or unable to authenticate data")
      data_changed
  /\ decrypt (H := Toy.platform) Toy.cfg (VRef 0) data_cut
     = Throw (failed
                "The argument 'encoding' is invalid for data of length 11. Received 'hex'")
         data_cut.
Proof. split; vm_compute; reflexivity. Qed.

(** In the [iv] of an encrypted field, the byte of the first hexadecimal
    digit is changed from [a] to [A]: the decoded bytes are the same, and
    [decrypt] returns the original text without raising anything. *)
Lemma decrypt_accepts_changed_hex_case :
  decrypt (H := Toy.platform) Toy.cfg (VRef 0) secret = Ok (VStr "secret") secret
  /\ decrypt (H := Toy.platform) Toy.cfg (VRef 0) iv_case_changed
     = Ok (VStr "secret") iv_case_changed.
Proof. split; vm_compute; reflexivity. Qed.

End Tamper.

Module AutoDecryptCase.
Import JS Spec DataEncryptor.

(** A record with an encrypted field, an encrypted field that was
    tampered with, and a plain field. *)
Definition mixed : world :=
  World
    (OObj [("note", VRef 1); ("bad", VRef 2); ("name", VStr "Alice")] []
     :: heap Tamper.secret ++ heap Tamper.data_changed)
    1 2.



(** There the copy holds the text of the first field, the second field
    as it was, and the third unchanged. *)
Lemma autoDecryptSensitiveFields_mixed :
  let outcome :=
    autoDecryptSensitiveFields (H := Toy.platform) Toy.cfg (VRef 0) mixed in
  value_of outcome = Some (VRef 3)
  /\ spread_props (heap (world_of outcome)) (VRef 3)
     = [("note", VStr "secret"); ("bad", VRef 2); ("name", VStr "Alice")].
Proof. vm_compute. now split. Qed.

End AutoDecryptCase.

(** *** Stepping through the engine *)

Module Exec.
Import JS Sys Spec Reads Frame Fields.

Lemma grows_refl w : grows w w.
Proof. apply preserved_refl. Qed.

Lemma grows_trans w1 w2 w3 : grows w1 w2 -> grows w2 w3 -> grows w1 w3.
Proof.
  intros G1 G2. eapply preserved_trans; [exact G1|].
  eapply preserved_le; [|exact G2]. apply G1.
Qed.

Lemma grows_lookup w w' l o :
  grows w w' -> heap w !! l = Some o -> heap w' !! l = Some o.
Proof.
  intros [_ G] E. rewrite G; [exact E|]. now apply lookup_lt_Some in E.
Qed.

Lemma grows_length w w' : grows w w' -> (length (heap w) <= length (heap w'))%nat.
Proof. now intros [L _]. Qed.

Lemma grows_preserved n w w' :
  (n <= length (heap w))%nat -> grows w w' -> preserved n w w'.
Proof. intros L G. eapply preserved_le; [exact L|exact G]. Qed.

Lemma grows_alloc w o t d : grows w (World (heap w ++ [o]) t d).
Proof. now apply preserved_alloc. Qed.

Lemma grows_clock w t d : grows w (World (heap w) t d).
Proof. apply preserved_clock. Qed.

Lemma fresh_ref_grows w1 w2 w3 w4 v :
  grows w1 w2 -> fresh_ref w2 w3 v -> grows w3 w4 -> fresh_ref w1 w4 v.
Proof.
  intros G1 (l & -> & L) G2. exists l. split; [reflexivity|].
  apply grows_length in G1, G2. lia.
Qed.

Lemma fresh_ref_truthy w w' v : fresh_ref w w' v -> truthy v = true.
Proof. now intros (l & -> & _). Qed.

Lemma fresh_ref_in_range w w' v :
  fresh_ref w w' v -> in_range (length (heap w')) v.
Proof. intros (l & -> & L). cbn. lia. Qed.

Lemma grows_touches l w w' : grows w w' -> touches l w w'.
Proof. intros [L G]. split; [exact L|]. intros a La _. now apply G. Qed.

Lemma touches_trans l w1 w2 w3 :
  touches l w1 w2 -> touches l w2 w3 -> touches l w1 w3.
Proof.
  intros [L1 T1] [L2 T2]. split; [lia|].
  intros a La N. rewrite T2 by (try lia; exact N). now apply T1.
Qed.

Lemma touches_store l o w t d :
  touches l w (World (<[l := o]> (heap w)) t d).
Proof.
  split; cbn [heap]; [now rewrite length_insert|].
  intros a _ N. now apply list_lookup_insert_ne.
Qed.

(** Changes to an object allocated after [w] leave [w] as it was. *)
Lemma grows_through l w w1 w2 :
  grows w w1 -> (length (heap w) <= l)%nat -> touches l w1 w2 ->
  grows w w2.
Proof.
  intros [L G] Ll [L' T]. split; [lia|].
  intros a La. rewrite T by lia. now apply G.
Qed.

Lemma plain_in_range n v : plain v -> in_range n v.
Proof. now destruct v. Qed.

Lemma closed_lookup w l o :
  closed w -> heap w !! l = Some o ->
  Forall (in_range (length (heap w))) (obj_values o).
Proof. intros C E. eapply C; [|exact E]. now apply lookup_lt_Some in E. Qed.

Lemma closed_fields w l ps hs :
  closed w -> heap w !! l = Some (OObj ps hs) ->
  Forall (in_range (length (heap w))) (map snd ps).
Proof.
  intros C E. pose proof (closed_lookup w l _ C E) as F.
  cbn [obj_values] in F. now apply Forall_app in F as [F _].
Qed.

Lemma closed_alloc h o :
  closed_below (length h) h ->
  Forall (in_range (S (length h))) (obj_values o) ->
  closed_below (length (h ++ [o])) (h ++ [o]).
Proof.
  intros C F l o' L E. rewrite length_app in *.
  cbn [length] in *. replace (length h + 1)%nat with (S (length h)) in *
    by lia.
  destruct (decide (l < length h)%nat) as [Lt|Ge].
  - rewrite lookup_app_l in E by exact Lt.
    eapply Forall_impl; [exact (C l o' Lt E)|].
    intros v. apply in_range_le. lia.
  - assert (l = length h) as -> by lia.
    rewrite list_lookup_middle in E by reflexivity. now injection E as <-.
Qed.

Lemma closed_store h l o :
  closed_below (length h) h ->
  Forall (in_range (length h)) (obj_values o) ->
  closed_below (length (<[l := o]> h)) (<[l := o]> h).
Proof.
  intros C F a o' L E. rewrite length_insert in *.
  destruct (decide (l = a)) as [->|N].
  - rewrite list_lookup_insert_eq in E by exact L. now injection E as <-.
  - rewrite list_lookup_insert_ne in E by exact N. exact (C a o' L E).
Qed.

Lemma closed_clock w t d : closed w -> closed (World (heap w) t d).
Proof. intros C. exact C. Qed.

Lemma read_in_range w v k :
  closed w -> in_range (length (heap w)) (read (heap w) v k).
Proof.
  intros C. destruct v; cbn; try exact I.
  - now destruct (String.eqb k "length").
  - destruct (heap w !! l) as [o|] eqn:E; [|exact I].
    pose proof (closed_lookup w l o C E) as F.
    destruct o as [fs hs|vs]; cbn [own obj_values] in *.
    + apply Forall_app in F as [Ff Fh].
      destruct (lookup_prop k fs) as [x|] eqn:Ek.
      * exact (values_lookup _ k x fs Ff Ek).
      * destruct (lookup_prop k hs) as [x|] eqn:Eh; [|exact I].
        exact (values_lookup _ k x hs Fh Eh).
    + destruct (String.eqb k "length"); [exact I|].
      destruct (index_of k) as [i|]; [|exact I].
      destruct (vs !! i) as [x|] eqn:Ei; [|exact I].
      cbn. rewrite Forall_lookup in F. exact (F i x Ei).
Qed.

(** In a closed store every path read from an object that is there reads
    the same after the store has grown. *)
Lemma read_path_grows w w' path : forall v,
  closed w -> grows w w' -> in_range (length (heap w)) v ->
  read_path (heap w') v path = read_path (heap w) v path.
Proof.
  unfold read_path.
  induction path as [|k path IH]; intros v C G R; [reflexivity|].
  cbn [fold_left]. rewrite (read_preserved _ w w' v k G R).
  apply IH; [exact C|exact G|]. now apply read_in_range.
Qed.

(** The primitive steps at a known object. *)

Lemma get_at l o k w :
  heap w !! l = Some o -> get (VRef l) k w = Ok (default VUndef (own o k)) w.
Proof. intros E. unfold get. now rewrite E. Qed.

Lemma get_field l ps k w :
  heap w !! l = Some (OObj ps []) -> get (VRef l) k w = Ok (field_value k ps) w.
Proof.
  intros E. rewrite (get_at l _ k w E). unfold field_value, own.
  now destruct (lookup_prop k ps).
Qed.

Lemma has_field l ps k w :
  heap w !! l = Some (OObj ps []) -> has (VRef l) k w = Ok (has_key k ps) w.
Proof.
  intros E. unfold has. rewrite E. unfold own, has_key.
  now destruct (lookup_prop k ps).
Qed.

Lemma set_field l ps k x w :
  heap w !! l = Some (OObj ps []) ->
  set (VRef l) k x w
  = Ok tt (World (<[l := OObj (assign k x ps) []]> (heap w))
                 (ticks w) (draws w)).
Proof.
  intros E. unfold set. rewrite E. cbn [has_key lookup_prop negb].
  now rewrite orb_true_r.
Qed.

Lemma spread_at l ps hs w :
  heap w !! l = Some (OObj ps hs) ->
  spread (VRef l) w
  = Ok (VRef (length (heap w)))
       (World (heap w ++ [OObj ps []]) (ticks w) (draws w)).
Proof. intros E. unfold spread, spread_props. now rewrite E. Qed.

Lemma entries_at l ps hs w :
  heap w !! l = Some (OObj ps hs) -> entries (VRef l) w = Ok ps w.
Proof. intros E. unfold entries, spread_props. now rewrite E. Qed.

Lemma some_in_at l ps ks w :
  heap w !! l = Some (OObj ps []) ->
  RuleEngine.some_in (VRef l) ks w
  = Ok (existsb (fun k => has_key k ps) ks) w.
Proof.
  intros E. induction ks as [|k ks IH]; cbn [RuleEngine.some_in existsb].
  - reflexivity.
  - erewrite bind_ok by (apply has_field; exact E). cbv beta.
    destruct (has_key k ps); [reflexivity|exact IH].
Qed.

(** Finds a stored object through later allocations. *)
Ltac find_object :=
  cbn [heap];
  solve [repeat first
           [ eassumption
           | apply list_lookup_middle; reflexivity
           | apply lookup_app_l_Some ]].

(** Runs a step whose outcome is known by computation or by [tac]. *)
Ltac run_with tac :=
  apply returns_bind; eapply returns_eq; [tac|]; cbv beta;
  cbn [heap ticks draws].

Ltac run := run_with ltac:(reflexivity).

(** Closes comparisons of store sizes and locations. *)
Ltac sizes :=
  cbn [heap] in *;
  rewrite ?length_insert, ?length_app in *; cbn [length] in *;
  first [lia | congruence].

End Exec.

Module LawSteps.
Import JS Sys Spec Reads Frame Fields Exec ConsentManager RuleEngine.

(** The values of the arguments of [recordConsent]. *)
Definition option_values (options : consentOptions)
    (context : requestContext) : list value :=
  [purpose options; specific options; informed options; unambiguous options;
   marketing options; analytics options; personalization options;
   thirdPartySharing options; internationalTransfer options;
   ConsentManager.ipAddress context; ConsentManager.userAgent context].

Lemma in_range_or_else n a b :
  in_range n a -> in_range n b -> in_range n (or_else a b).
Proof. unfold or_else. now destruct (truthy a). Qed.

(** Closes the side conditions on references. *)
Ltac ranges :=
  repeat first
    [ exact I
    | assumption
    | apply Forall_nil_2
    | apply Forall_cons_2
    | apply in_range_or_else
    | apply Forall_app_2
    | match goal with
      | |- in_range _ (VRef _) => cbn [in_range]; sizes
      | |- in_range _ (not_false _) => exact I
      | |- in_range _ (VStr _) => exact I
      | |- in_range _ (VBool _) => exact I
      | |- in_range _ (VNum _) => exact I
      | |- in_range _ (VDate _) => exact I
      | |- in_range _ VUndef => exact I
      | |- in_range _ VNull => exact I
      | H : in_range ?n ?v |- in_range ?m ?v =>
          apply (in_range_le n m v); [sizes|exact H]
      | H : Forall (in_range ?n) ?l |- Forall (in_range ?m) ?l =>
          apply (Forall_impl _ _ _ H); intros ?; apply in_range_le; sizes
      end ].

Section Steps.
Context `{Platform} (cfg : config).

(** Recording a consent on a record that has none. *)
Lemma recordConsent_unrecorded l ps options context w :
  heap w !! l = Some (OObj ps []) ->
  truthy (field_value "_consent" ps) = false ->
  Forall (in_range (length (heap w))) (option_values options context) ->
  returns (recordConsent cfg (VRef l) options context) w
    (fun r w' =>
       r = VRef l
       /\ exists x,
            heap w' !! l = Some (OObj (assign "_consent" x ps) [])
            /\ fresh_ref w w' x
            /\ touches l w w'
            /\ (closed w -> closed w')).
Proof.
  intros At F R. unfold recordConsent.
  run. run. run.
  run_with ltac:(apply get_field; find_object).
  rewrite F. cbn [negb].
  run. run.
  run_with ltac:(apply set_field; find_object).
  apply returns_ret. split; [reflexivity|].
  pose proof (lookup_lt_Some _ _ _ At) as Ll.
  eexists. cbn [heap].
  split; [|split; [|split]].
  - apply list_lookup_insert_eq. sizes.
  - eexists. split; [reflexivity|]. sizes.
  - split; cbn [heap]; [sizes|].
    intros l' L' N. rewrite list_lookup_insert_ne by congruence.
    rewrite !lookup_app_l by sizes. reflexivity.
  - intros C. pose proof (closed_fields w l _ _ C At) as Fps.
    unfold option_values in R.
    repeat (apply Forall_cons in R as [? R]).
    unfold closed in *; cbn [heap].
    apply closed_store.
    + repeat apply closed_alloc; try exact C;
        cbn [obj_values heap map snd app]; ranges.
      destruct (analytics options); ranges.
    + cbn [obj_values map snd app]. apply Forall_app_2; [|constructor].
      apply values_assign; ranges.
Qed.

(** The arguments [applyLaw] gives to [recordConsent]. *)
Definition gdpr_options (context : RuleEngine.context) : consentOptions :=
  ConsentOptions
    (or_else (of_string (action context)) (VStr "general_processing"))
    VUndef VUndef VUndef
    (or_else (of_bool (marketingConsent context)) (VBool false))
    (not_false (of_bool (analyticsConsent context)))
    (or_else (of_bool (personalizationConsent context)) (VBool false))
    VUndef VUndef.

Definition gdpr_requester (context : RuleEngine.context) : requestContext :=
  RequestContext (of_string (RuleEngine.ipAddress context))
                 (of_string (RuleEngine.userAgent context)).

Lemma gdpr_arguments_in_range n context :
  Forall (in_range n)
    (option_values (gdpr_options context) (gdpr_requester context)).
Proof.
  destruct context as [c a i u m an p].
  unfold option_values, gdpr_options, gdpr_requester; cbn.
  destruct a, i, u, m as [[]|], p as [[]|]; cbn; ranges.
Qed.

Lemma delete_field l ps k w :
  heap w !! l = Some (OObj ps []) ->
  delete (VRef l) k w
  = Ok tt (World (<[l := OObj (remove_key k ps) []]> (heap w))
                 (ticks w) (draws w)).
Proof. intros E. unfold delete. now rewrite E. Qed.

(** The consent block of the GDPR pass. *)
Lemma consent_stage context l ps actions w :
  heap w !! l = Some (OObj ps []) ->
  returns
    (if negb (truthy (field_value "_consent" ps)) then
       let! recorded :=
         recordConsent cfg (VRef l) (gdpr_options context)
           (gdpr_requester context) in
       ret (recorded, actions ++ ["gdpr_consent_recorded"])
     else ret (VRef l, actions))
    w
    (fun r w' =>
       fst r = VRef l
       /\ snd r = actions
                  ++ (if truthy (field_value "_consent" ps) then []
                      else ["gdpr_consent_recorded"])
       /\ exists x,
            truthy x = true
            /\ heap w' !! l = Some (OObj (fill "_consent" x ps) [])
            /\ touches l w w' /\ (closed w -> closed w')).
Proof.
  intros At. unfold fill.
  destruct (truthy (field_value "_consent" ps)) eqn:T; cbn [negb].
  - apply returns_ret. cbn [fst snd]. rewrite app_nil_r.
    split; [reflexivity|]. split; [reflexivity|]. exists (VBool true).
    split; [reflexivity|]. split; [exact At|].
    split; [apply grows_touches, grows_refl|auto].
  - apply returns_bind.
    eapply returns_weaken;
      [apply (recordConsent_unrecorded l ps _ _ w At T);
       apply gdpr_arguments_in_range|].
    intros r w' (-> & x & At' & Fx & Tch & C). cbv beta.
    apply returns_ret. cbn [fst snd].
    split; [reflexivity|]. split; [reflexivity|].
    exists x. split; [exact (fresh_ref_truthy _ _ _ Fx)|].
    split; [exact At'|split; assumption].
Qed.

Lemma minimizeData_spec context l ps w :
  heap w !! l = Some (OObj ps []) ->
  returns (minimizeData (VRef l) context) w
    (fun r w' =>
       r = VRef (length (heap w))
       /\ heap w' !! length (heap w) = Some (OObj (minimized context ps) [])
       /\ grows w w' /\ (closed w -> closed w')).
Proof.
  intros At. unfold minimizeData, minimized.
  pose proof (lookup_lt_Some _ _ _ At) as Ll.
  run_with ltac:(apply (spread_at l ps [] w At)).
  assert (Copy : forall t d,
             grows w (World (heap w ++ [OObj ps []]) t d)
             /\ (closed w -> closed (World (heap w ++ [OObj ps []]) t d))).
  { intros t d. split; [apply grows_alloc|].
    intros C. pose proof (closed_fields w l _ _ C At) as Fps.
    unfold closed in *; cbn [heap].
    apply closed_alloc; [exact C|]. cbn [obj_values map app].
    rewrite app_nil_r. ranges. }
  apply returns_bind.
  destruct (bool_decide (action context = Some "registration"));
    cbn [andb].
  - run_with ltac:(apply get_field; find_object).
    destruct (truthy (field_value "gps" ps)).
    + eapply returns_eq; [apply delete_field; find_object|].
      apply returns_ret. split; [reflexivity|]. cbn [heap].
      split; [|split].
      * apply list_lookup_insert_eq. sizes.
      * split; cbn [heap]; [sizes|]. intros a La.
        rewrite list_lookup_insert_ne by lia. now apply lookup_app_l.
      * intros C. pose proof (closed_fields w l _ _ C At) as Fps.
        unfold closed in *; cbn [heap].
        apply closed_store; [apply closed_alloc; [exact C|]|];
          cbn [obj_values map app]; rewrite app_nil_r.
        -- ranges.
        -- apply values_remove. ranges.
    + apply returns_ret, returns_ret. split; [reflexivity|].
      split; [cbn [heap]; now apply list_lookup_middle|apply Copy].
  - apply returns_ret, returns_ret. split; [reflexivity|].
    split; [cbn [heap]; now apply list_lookup_middle|apply Copy].
Qed.

Lemma hasExcessiveData_at l ps w :
  heap w !! l = Some (OObj ps []) ->
  hasExcessiveData (VRef l) w = Ok (excessive ps) w.
Proof. intros At. now apply some_in_at. Qed.

Lemma canBeDeleted_at l ps w :
  heap w !! l = Some (OObj ps []) ->
  canBeDeleted (VRef l) w = Ok (negb (critical ps)) w.
Proof.
  intros At. unfold canBeDeleted.
  erewrite bind_ok by (apply some_in_at; exact At). reflexivity.
Qed.

Lemma classifyData_at l ps hs w :
  heap w !! l = Some (OObj ps hs) ->
  classifyData (VRef l) w = Ok (classify_props ps) w.
Proof.
  intros At. unfold classifyData.
  erewrite bind_ok by (apply (entries_at l ps hs); exact At). reflexivity.
Qed.

Lemma calculateRetentionPeriod_at l ps w :
  heap w !! l = Some (OObj ps []) ->
  calculateRetentionPeriod (VRef l) w
  = Ok (maximum (map retention_or_default (classify_props ps))) w.
Proof.
  intros At. unfold calculateRetentionPeriod.
  erewrite bind_ok by (apply (classifyData_at l ps []); exact At).
  reflexivity.
Qed.

(** The fields of an object after an assignment, and what stays. *)
Lemma assigned l ps k x w t d :
  heap w !! l = Some (OObj ps []) ->
  let w' := World (<[l := OObj (assign k x ps) []]> (heap w)) t d in
  heap w' !! l = Some (OObj (assign k x ps) [])
  /\ touches l w w'
  /\ (in_range (length (heap w)) x -> closed w -> closed w').
Proof.
  intros At w'. pose proof (lookup_lt_Some _ _ _ At) as Ll.
  split; [|split].
  - cbn [heap w']. now apply list_lookup_insert_eq.
  - apply touches_store.
  - intros Rx C. pose proof (closed_fields w l _ _ C At) as Fps.
    unfold closed in *; cbn [heap w'].
    apply closed_store; [exact C|]. cbn [obj_values map app].
    rewrite app_nil_r. now apply values_assign.
Qed.

(** The deletion block of the GDPR pass. *)
Lemma deletion_stage l ps actions w :
  heap w !! l = Some (OObj ps []) ->
  returns
    (if negb (truthy (field_value "_deletionMetadata" ps)) then
       let! deletable := canBeDeleted (VRef l) in
       let! retention := calculateRetentionPeriod (VRef l) in
       let! metadata :=
         new_object
           [("canBeDeleted", VBool deletable);
            ("retentionPeriod", of_retention retention);
            ("deletionProcedure", VStr "anonymize_sensitive_keep_anonymous");
            ("consentWithdrawalImpact", VStr "stop_processing_immediately")] in
       do! set (VRef l) "_deletionMetadata" metadata in
       ret (actions ++ ["gdpr_deletion_metadata_added"])
     else ret actions)
    w
    (fun r w' =>
       r = actions
           ++ (if truthy (field_value "_deletionMetadata" ps) then []
               else ["gdpr_deletion_metadata_added"])
       /\ exists y,
            truthy y = true
            /\ heap w' !! l = Some (OObj (fill "_deletionMetadata" y ps) [])
            /\ touches l w w' /\ (closed w -> closed w')).
Proof.
  intros At. unfold fill.
  pose proof (lookup_lt_Some _ _ _ At) as Ll.
  destruct (truthy (field_value "_deletionMetadata" ps)) eqn:T; cbn [negb].
  - apply returns_ret. rewrite app_nil_r. split; [reflexivity|].
    exists (VBool true). split; [reflexivity|]. split; [exact At|].
    split; [apply grows_touches, grows_refl|auto].
  - run_with ltac:(apply canBeDeleted_at; exact At).
    run_with ltac:(apply calculateRetentionPeriod_at; exact At).
    run.
    run_with ltac:(apply set_field; find_object).
    apply returns_ret. split; [reflexivity|].
    exists (VRef (length (heap w))). split; [reflexivity|]. cbn [heap].
    split; [|split].
    + apply list_lookup_insert_eq. sizes.
    + split; cbn [heap]; [sizes|]. intros a La N.
      rewrite list_lookup_insert_ne by congruence. now apply lookup_app_l.
    + intros C. pose proof (closed_fields w l _ _ C At) as Fps.
      unfold closed in *; cbn [heap].
      apply closed_store; [apply closed_alloc; [exact C|]|];
        cbn [obj_values map snd app].
      * destruct (maximum _); ranges.
      * rewrite app_nil_r. apply values_assign; ranges.
Qed.

(** The block of the CCPA pass. *)
Lemma rights_stage l ps actions w :
  heap w !! l = Some (OObj ps []) ->
  returns
    (if negb (truthy (field_value "_ccpaRights" ps)) then
       let! lastUpdated := new_Date in
       let! block :=
         new_object
           [("optOutOfSale", VBool true);
            ("verified", VBool false);
            ("lastUpdated", lastUpdated);
            ("method", VStr "user_request")] in
       do! set (VRef l) "_ccpaRights" block in
       ret (actions ++ ["ccpa_rights_metadata_added"])
     else ret actions)
    w
    (fun r w' =>
       r = actions
           ++ (if truthy (field_value "_ccpaRights" ps) then []
               else ["ccpa_rights_metadata_added"])
       /\ exists x,
            truthy x = true
            /\ heap w' !! l = Some (OObj (fill "_ccpaRights" x ps) [])
            /\ touches l w w' /\ (closed w -> closed w')).
Proof.
  intros At. unfold fill.
  pose proof (lookup_lt_Some _ _ _ At) as Ll.
  destruct (truthy (field_value "_ccpaRights" ps)) eqn:T; cbn [negb].
  - apply returns_ret. rewrite app_nil_r. split; [reflexivity|].
    exists (VBool true). split; [reflexivity|]. split; [exact At|].
    split; [apply grows_touches, grows_refl|auto].
  - run. run.
    run_with ltac:(apply set_field; find_object).
    apply returns_ret. split; [reflexivity|].
    exists (VRef (length (heap w))). split; [reflexivity|]. cbn [heap].
    split; [|split].
    + apply list_lookup_insert_eq. sizes.
    + split; cbn [heap]; [sizes|]. intros a La N.
      rewrite list_lookup_insert_ne by congruence. now apply lookup_app_l.
    + intros C. pose proof (closed_fields w l _ _ C At) as Fps.
      unfold closed in *; cbn [heap].
      apply closed_store; [apply closed_alloc; [exact C|]|];
        cbn [obj_values map snd app].
      * ranges.
      * rewrite app_nil_r. apply values_assign; ranges.
Qed.

(** The minimization block of the GDPR pass. *)
Lemma minimize_stage context l ps (excess : bool) actions w :
  heap w !! l = Some (OObj ps []) ->
  returns
    (if excess then
       let! minimized := minimizeData (VRef l) context in
       ret (minimized, actions ++ ["gdpr_data_minimization_applied"])
     else ret (VRef l, actions))
    w
    (fun r w' =>
       exists l',
         fst r = VRef l'
         /\ (l' = l \/ l' = length (heap w))
         /\ heap w' !! l'
            = Some (OObj (if excess then minimized context ps else ps) [])
         /\ snd r = actions
                    ++ (if excess then ["gdpr_data_minimization_applied"]
                        else [])
         /\ grows w w' /\ (closed w -> closed w')).
Proof.
  intros At. destruct excess.
  - apply returns_bind.
    eapply returns_weaken; [apply (minimizeData_spec context l ps w At)|].
    intros r w' (-> & At' & G & C). cbv beta. apply returns_ret.
    exists (length (heap w)). cbn [fst snd].
    split; [reflexivity|]. split; [now right|]. split; [exact At'|].
    split; [reflexivity|]. now split.
  - apply returns_ret. exists l. cbn [fst snd]. rewrite app_nil_r.
    split; [reflexivity|]. split; [now left|]. split; [exact At|].
    split; [reflexivity|]. split; [apply grows_refl|auto].
Qed.

Lemma touches_lookup l a o w w' :
  touches l w w' -> a <> l -> heap w !! a = Some o -> heap w' !! a = Some o.
Proof.
  intros [_ T] N E. rewrite T; [exact E| |exact N].
  now apply lookup_lt_Some in E.
Qed.

Lemma touches_length l w w' :
  touches l w w' -> (length (heap w) <= length (heap w'))%nat.
Proof. now intros [L _]. Qed.

Lemma applyLaw_spec context law l ps w :
  heap w !! l = Some (OObj ps []) ->
  returns (applyLaw cfg (VRef l) law context) w
    (law_outcome context law ps w).
Proof.
  intros At. unfold applyLaw, law_outcome, law_props, law_actions.
  pose proof (lookup_lt_Some _ _ _ At) as Ll.
  run_with ltac:(apply (spread_at l ps [] w At)).
  set (n := length (heap w)).
  set (w1 := World (heap w ++ [OObj ps []]) (ticks w) (draws w)).
  assert (At1 : heap w1 !! n = Some (OObj ps [])).
  { cbn [heap w1]. now apply list_lookup_middle. }
  assert (G1 : grows w w1) by apply grows_alloc.
  assert (C1 : closed w -> closed w1).
  { intros C. pose proof (closed_fields w l _ _ C At) as Fps.
    unfold closed in *; cbn [heap w1].
    apply closed_alloc; [exact C|]. cbn [obj_values map app].
    rewrite app_nil_r. ranges. }
  destruct (String.eqb law "GDPR").
  - run_with ltac:(apply get_field; exact At1).
    apply returns_bind.
    eapply returns_weaken; [apply (consent_stage context n ps [] w1 At1)|].
    intros [r a] wA (Hr & Ha & x & Tx & AtA & TA & CA).
    cbn [fst snd] in Hr, Ha. subst r a. cbv beta iota.
    assert (AtlA : heap wA !! l = Some (OObj ps [])).
    { eapply touches_lookup; [exact TA|unfold n; lia|].
      eapply grows_lookup; [exact G1|exact At]. }
    run_with ltac:(apply (hasExcessiveData_at l ps wA AtlA)).
    apply returns_bind.
    eapply returns_weaken;
      [apply (minimize_stage context n _ (excessive ps) _ wA AtA)|].
    intros [r a] wB (l2 & Hr & Hl2 & AtB & Ha & GB & CB).
    cbn [fst snd] in Hr, Ha. subst r a. cbv beta iota.
    run_with ltac:(apply get_field; exact AtB).
    apply returns_bind.
    eapply returns_weaken; [apply (deletion_stage l2 _ _ wB AtB)|].
    intros a wC (-> & y & Ty & AtC & TC & CC). cbv beta.
    apply returns_ret. exists l2, x, y. cbn [fst snd].
    pose proof (touches_length _ _ _ TA) as LA.
    pose proof (grows_length _ _ GB) as LB.
    assert (Ln : (n <= l2)%nat).
    { destruct Hl2 as [->| ->]; [lia|]. cbn [heap w1] in LA.
      rewrite length_app in LA. cbn in LA. unfold n. lia. }
    split; [reflexivity|]. split; [exact Ln|].
    split; [exact AtC|]. split; [exact Tx|]. split; [exact Ty|].
    split; [now rewrite app_nil_l, <- app_assoc|].
    split; [|auto].
    apply (grows_through l2 w wB wC); [|unfold n in Ln; lia|exact TC].
    eapply grows_trans; [|exact GB].
    apply (grows_through n w w1 wA G1); [unfold n; lia|exact TA].
  - destruct (String.eqb law "CCPA").
    + run_with ltac:(apply get_field; exact At1).
      apply returns_bind.
      eapply returns_weaken; [apply (rights_stage n ps [] w1 At1)|].
      intros a wA (-> & x & Tx & AtA & TA & CA). cbv beta.
      apply returns_ret. exists n, x, (VBool true). cbn [fst snd].
      split; [reflexivity|]. split; [unfold n; lia|].
      split; [exact AtA|]. split; [exact Tx|]. split; [reflexivity|].
      split; [reflexivity|]. split; [|auto].
      apply (grows_through n w w1 wA G1); [unfold n; lia|exact TA].
    + apply returns_ret. exists n, (VBool true), (VBool true).
      cbn [fst snd]. split; [reflexivity|]. split; [unfold n; lia|].
      split; [exact At1|]. repeat (split; [reflexivity|]).
      split; [exact G1|exact C1].
Qed.

End Steps.
End LawSteps.

(** *** [JSON.stringify] reads the objects below a value only *)

Module Serial.
Import JS Sys JSON Spec Reads Frame Fields Exec.

Lemma sequence_agree {A B} (g g' : A -> res B) l :
  sequence (map g l) <> Fuel ->
  (forall x, g x <> Fuel -> g' x = g x) ->
  sequence (map g' l) = sequence (map g l).
Proof.
  intros N E. induction l as [|x l IH]; [reflexivity|].
  cbn [map sequence] in *.
  destruct (g x) as [| |a] eqn:Gx; [congruence| |].
  - rewrite (E x) by congruence. now rewrite Gx.
  - rewrite (E x) by congruence. rewrite Gx.
    rewrite IH; [reflexivity|].
    intros F. apply N. now rewrite F.
Qed.

Lemma sequence_no_fuel {A} (l : list (res A)) :
  Forall (fun r => r <> Fuel) l -> sequence l <> Fuel.
Proof.
  induction 1 as [|r l Hr _ IH]; cbn [sequence]; [discriminate|].
  destruct r; [congruence|discriminate|].
  destruct (sequence l); cbn; congruence.
Qed.

Lemma res_map_fuel {A B} (f : A -> B) r : res_map f r = Fuel -> r = Fuel.
Proof. now destruct r. Qed.

Lemma map_agree {A B} (g g' : A -> B) (P : A -> Prop) l :
  Forall P l -> (forall x, P x -> g' x = g x) -> map g' l = map g l.
Proof.
  intros F E. induction F as [|x l Px _ IH]; [reflexivity|].
  cbn [map]. now rewrite (E x Px), IH.
Qed.

Lemma bounded_length (s : list nat) n :
  NoDup s -> (forall l, l ∈ s -> (l < n)%nat) -> (length s <= n)%nat.
Proof.
  intros D B. replace n with (length (seq 0 n)) by apply length_seq.
  apply submseteq_length, NoDup_submseteq; [exact D|].
  intros l I. apply elem_of_seq. specialize (B l I). lia.
Qed.

Section Stringify.
Context `{Platform}.

Lemma stringify_agree n h h' :
  closed_below n h -> (forall l, (l < n)%nat -> h' !! l = h !! l) ->
  forall fuel stack v,
    in_range n v -> stringify fuel h' stack v = stringify fuel h stack v.
Proof.
  intros C A fuel. induction fuel as [|f IH]; intros stack v R;
    destruct v; cbn [stringify]; try reflexivity.
  cbn [in_range] in R. rewrite (A l R).
  destruct (bool_decide (l ∈ stack)); [reflexivity|].
  destruct (h !! l) as [[fs hs|vs]|] eqn:E; [| |reflexivity].
  - pose proof (C l _ R E) as F. cbn [obj_values] in F.
    apply Forall_app in F as [F _]. f_equal. f_equal.
    apply (map_agree _ _ (fun kv => in_range n (snd kv))).
    + rewrite List.Forall_map in F. exact F.
    + intros kv Rkv. now rewrite IH.
  - pose proof (C l _ R E) as F. cbn [obj_values] in F. f_equal. f_equal.
    apply (map_agree _ _ (in_range n)); [exact F|].
    intros x Rx. now apply IH.
Qed.

Lemma stringify_fuel h :
  forall fuel stack v,
    NoDup stack -> (forall l, l ∈ stack -> (l < length h)%nat) ->
    (length h < fuel + length stack)%nat ->
    stringify fuel h stack v <> Fuel.
Proof.
  induction fuel as [|f IH]; intros stack v D B L;
    destruct v; cbn [stringify]; try discriminate;
    try (destruct b; discriminate).
  - pose proof (bounded_length stack (length h) D B). lia.
  - destruct (bool_decide_reflect (l ∈ stack)) as [I|N]; [discriminate|].
    destruct (h !! l) as [[fs hs|vs]|] eqn:E; [| |discriminate].
    + intros F. apply res_map_fuel in F. revert F.
      apply sequence_no_fuel. rewrite List.Forall_map. apply Forall_forall.
      intros kv _ F. apply res_map_fuel in F. revert F.
      apply IH.
      * apply NoDup_cons. now split.
      * intros a Ia. apply elem_of_cons in Ia as [->|Ia]; [|now apply B].
        now apply lookup_lt_Some in E.
      * cbn [length]. lia.
    + intros F. apply res_map_fuel in F. revert F.
      apply sequence_no_fuel. rewrite List.Forall_map. apply Forall_forall.
      intros x _. apply IH.
      * apply NoDup_cons. now split.
      * intros a Ia. apply elem_of_cons in Ia as [->|Ia]; [|now apply B].
        now apply lookup_lt_Some in E.
      * cbn [length]. lia.
Qed.

Lemma stringify_ref f h stack l :
  stringify (S f) h stack (VRef l) =
  if bool_decide (l ∈ stack) then Cycle
  else match h !! l with
       | Some (OObj fs _) =>
           res_map
             (fun ms => Some ("{" +:+ join "," (omap member_text ms) +:+ "}"))
             (sequence
                (map (fun kv =>
                        res_map (pair (fst kv))
                          (stringify f h (l :: stack) (snd kv)))
                     fs))
       | Some (OArr vs) =>
           res_map
             (fun ts => Some ("[" +:+ join "," (map (default "null") ts)
                              +:+ "]"))
             (sequence (map (stringify f h (l :: stack)) vs))
       | None => Val None
       end.
Proof. reflexivity. Qed.

Lemma stringify_more_fuel h :
  forall fuel stack v,
    stringify fuel h stack v <> Fuel ->
    stringify (S fuel) h stack v = stringify fuel h stack v.
Proof.
  induction fuel as [|f IH]; intros stack v N; destruct v;
    try reflexivity.
  - now cbn [stringify] in N.
  - rewrite (stringify_ref (S f)). rewrite stringify_ref in N |- *.
    destruct (bool_decide (l ∈ stack)); [reflexivity|].
    destruct (h !! l) as [[fs hs|vs]|] eqn:E; [| |reflexivity].
    + f_equal. apply sequence_agree.
      * intros F. apply N. now rewrite F.
      * intros kv Nkv. rewrite IH; [reflexivity|].
        intros F. apply Nkv. now rewrite F.
    + f_equal. apply sequence_agree.
      * intros F. apply N. now rewrite F.
      * intros x Nx. now apply IH.
Qed.

Lemma stringify_enough h v : forall extra,
  stringify (extra + S (length h)) h [] v = stringify (S (length h)) h [] v.
Proof.
  induction extra as [|e IH]; [reflexivity|].
  cbn [Nat.add]. rewrite stringify_more_fuel; [exact IH|].
  apply stringify_fuel; [apply NoDup_nil_2| |cbn [length]; lia].
  intros l I. now apply elem_of_nil in I.
Qed.

(** Whether a value of a closed store can be sealed does not change when
    the store grows. *)
Lemma sealable_grows w w' v :
  closed w -> grows w w' -> in_range (length (heap w)) v ->
  sealable (heap w') v = sealable (heap w) v.
Proof.
  intros C [L A] R. unfold sealable.
  assert (E : stringify (S (length (heap w'))) (heap w') [] v
              = stringify (S (length (heap w))) (heap w) [] v).
  { rewrite (stringify_agree _ (heap w) (heap w') C A _ _ _ R).
    replace (S (length (heap w')))
      with ((length (heap w') - length (heap w)) + S (length (heap w)))%nat
      by lia.
    apply stringify_enough. }
  destruct v; try reflexivity; now rewrite E.
Qed.

End Stringify.
End Serial.

(** *** The encryption pass *)

Module Sealing.
Import JS Sys JSON Spec Reads Frame Fields Exec LawSteps RuleEngine.

(** One round of the loop of [autoEncryptSensitiveFields]. *)
Definition seal_step `{Platform} (cfg : config) (target : value)
    (c : classification) : M unit :=
  if default false (encryptionRequired c) then
    let! current := get target (field c) in
    if truthy current then
      let! already := isEncrypted current in
      if negb already then
        let! sealed := encrypt cfg current (field c) in
        set target (field c) sealed
      else ret tt
    else ret tt
  else ret tt.

(** An object that [isEncrypted] recognises. *)
Definition marked (w : world) (l : nat) : Prop :=
  exists fs,
    heap w !! l = Some (OObj fs [])
    /\ lookup_prop "_encrypted" fs = Some (VBool true).

(** Does the encryption pass replace the field [k] holding [v]? *)
Definition needs_sealing `{Platform} (h : list obj) (k : string) (v : value)
    : bool :=
  requires_encryption k && truthy v && negb (is_encrypted h v)
  && sealable h v.

(** A field after the encryption pass over the record at [l]. *)
Definition sealed_entry `{Platform} (base : world) (l : nat) (w' : world)
    (before after : string * value) : Prop :=
  fst after = fst before
  /\ if needs_sealing (heap base) (fst before) (snd before)
     then exists a, snd after = VRef a /\ a <> l /\ marked w' a
     else snd after = snd before.

Section Pass.
Context `{Platform} (cfg : config).

Lemma autoEncryptSensitiveFields_unfolded data cs :
  autoEncryptSensitiveFields cfg data cs
  = (let! encryptedData := spread data in
     do! forM_ (seal_step cfg encryptedData) cs in
     ret encryptedData).
Proof. reflexivity. Qed.

(** [encrypt] seals what it can and hands back what it cannot. *)
Lemma encrypt_outcome v k w :
  truthy v = true ->
  (sealable (heap w) v = true
   /\ exists fs t d,
        encrypt cfg v k w
        = Ok (VRef (length (heap w))) (World (heap w ++ [OObj fs []]) t d)
        /\ lookup_prop "_encrypted" fs = Some (VBool true)
        /\ Forall plain (map snd fs))
  \/ (sealable (heap w) v = false /\ encrypt cfg v k w = Ok v w).
Proof.
  intros T.
  destruct v; try discriminate T;
    try (unfold encrypt, sealable, try_catch, bind, JSON_stringify;
         destruct (stringify _ _ _ _) as [| |[s|]];
         try (right; split; reflexivity));
    (left; split; [reflexivity|]; eexists _, _, _;
     split; [reflexivity|]; split; [reflexivity|];
     repeat (apply Forall_cons_2; [exact I|]); apply Forall_nil_2).
Qed.

Lemma marked_touches l a w w' :
  touches l w w' -> a <> l -> marked w a -> marked w' a.
Proof.
  intros Tc N (fs & At & F). exists fs. split; [|exact F].
  now apply (touches_lookup l a _ w w').
Qed.

(** One round: the field is replaced when its classification asks for
    encryption, it holds a truthy value that is not encrypted yet, and
    that value can be sealed. *)
Lemma seal_step_spec l ps c w :
  heap w !! l = Some (OObj ps []) ->
  returns (seal_step cfg (VRef l) c) w
    (fun _ w' =>
       touches l w w'
       /\ (closed w -> closed w')
       /\ if default false (encryptionRequired c)
             && truthy (field_value (field c) ps)
             && negb (is_encrypted (heap w) (field_value (field c) ps))
          then
            if sealable (heap w) (field_value (field c) ps) then
              exists a,
                a <> l /\ marked w' a
                /\ heap w' !! l
                   = Some (OObj (assign (field c) (VRef a) ps) [])
            else heap w' !! l = Some (OObj ps [])
          else w' = w).
Proof.
  intros At. unfold seal_step.
  pose proof (lookup_lt_Some _ _ _ At) as Ll.
  destruct (default false (encryptionRequired c)); cbn [andb];
    [|apply returns_ret; split; [apply grows_touches, grows_refl|];
      split; [tauto|reflexivity]].
  run_with ltac:(apply (get_field l ps); exact At).
  set (v := field_value (field c) ps).
  destruct (truthy v) eqn:T; cbn [andb];
    [|apply returns_ret; split; [apply grows_touches, grows_refl|];
      split; [tauto|reflexivity]].
  run_with ltac:(apply AutoDecrypt.isEncrypted_read).
  destruct (is_encrypted (heap w) v) eqn:E; cbn [negb];
    [apply returns_ret; split; [apply grows_touches, grows_refl|];
     split; [tauto|reflexivity]|].
  destruct (encrypt_outcome v (field c) w T)
    as [[S (fs & t & d & En & F & P)]|[S En]]; rewrite S.
  - run_with ltac:(exact En).
    set (w1 := World (heap w ++ [OObj fs []]) t d).
    assert (At1 : heap w1 !! l = Some (OObj ps [])) by find_object.
    eapply returns_eq; [apply (set_field l ps); exact At1|].
    destruct (assigned l ps (field c) (VRef (length (heap w))) w1
                (ticks w1) (draws w1) At1) as (At2 & Tc & C2).
    cbn zeta in At2, Tc, C2.
    split; [|split].
    + apply (touches_trans l w w1); [|exact Tc].
      apply grows_touches, grows_alloc.
    + intros C. apply C2; [cbn [in_range]; unfold w1; sizes|].
      unfold closed in *; cbn [heap w1].
      apply closed_alloc; [exact C|]. cbn [obj_values map app].
      rewrite app_nil_r.
      apply (Forall_impl _ _ _ P). intros x. apply plain_in_range.
    + exists (length (heap w)). split; [lia|]. split; [|exact At2].
      exists fs. split; [|exact F]. cbn [heap].
      rewrite list_lookup_insert_ne by lia.
      unfold w1; cbn [heap]. now apply list_lookup_middle.
  - run_with ltac:(exact En).
    eapply returns_eq; [apply (set_field l ps); exact At|].
    assert (Same : assign (field c) v ps = ps).
    { unfold v, field_value in *.
      destruct (lookup_prop (field c) ps) as [x|] eqn:Lk;
        [now apply assign_same|discriminate T]. }
    rewrite Same.
    replace (World (<[l:=OObj ps []]> (heap w)) (ticks w) (draws w))
      with w.
    + split; [apply grows_touches, grows_refl|]. split; [tauto|exact At].
    + destruct w as [h t d]. cbn [heap ticks draws] in *.
      now rewrite list_insert_id.
Qed.

(** The loop never throws and writes to the record at [l] only. *)
Lemma seal_loop_frame l cs : forall ps w,
  heap w !! l = Some (OObj ps []) ->
  returns (forM_ (seal_step cfg (VRef l)) cs) w
    (fun _ w' =>
       (exists ps', heap w' !! l = Some (OObj ps' [])) /\ touches l w w').
Proof.
  induction cs as [|c cs IH]; intros ps w At.
  - apply returns_ret. split; [now exists ps|].
    apply grows_touches, grows_refl.
  - cbn [forM_]. apply returns_bind.
    eapply returns_weaken; [apply (seal_step_spec l ps c w At)|].
    intros [] w1 (Tc & _ & Sh). cbv beta.
    assert (At1 : exists ps1, heap w1 !! l = Some (OObj ps1 [])).
    { destruct (_ && _); [|subst w1; now exists ps].
      destruct (sealable _ _); [|now exists ps].
      destruct Sh as (a & _ & _ & At1). eexists. exact At1. }
    destruct At1 as (ps1 & At1).
    eapply returns_weaken; [apply (IH ps1 w1 At1)|].
    intros [] w2 (At2 & Tc2). split; [exact At2|].
    now apply (touches_trans l w w1).
Qed.

Lemma needs_sealing_falsy h k v :
  truthy v = false -> needs_sealing h k v = false.
Proof.
  intros T. unfold needs_sealing. rewrite T.
  now rewrite andb_false_r.
Qed.

Lemma truthy_nullish v : is_nullish v = true -> truthy v = false.
Proof. now destruct v. Qed.

(** The loop over the classifications of the fields [rest], the fields
    [done] being dealt with: each field is sealed exactly when
    [needs_sealing] says so of the store [base] the pass started from. *)
Lemma seal_loop_shape base l rest : forall done w,
  closed base -> grows base w -> closed w ->
  (length (heap base) <= l)%nat ->
  heap w !! l = Some (OObj (done ++ rest) []) ->
  NoDup (keys (done ++ rest)) ->
  Forall (in_range (length (heap base))) (map snd rest) ->
  returns (forM_ (seal_step cfg (VRef l)) (classify_props rest)) w
    (fun _ w' =>
       exists rest',
         heap w' !! l = Some (OObj (done ++ rest') [])
         /\ Forall2 (sealed_entry base l w') rest rest'
         /\ touches l w w' /\ closed w').
Proof.
  induction rest as [|[k v] rest IH]; intros done w Cb G C Ll At D R.
  - apply returns_ret. exists []. split; [exact At|].
    split; [constructor|]. split; [apply grows_touches, grows_refl|exact C].
  - assert (N : k ∉ keys done).
    { rewrite keys_app in D. apply NoDup_app in D as (_ & D & _).
      intros I. apply (D k I). cbn. apply elem_of_cons. now left. }
    cbn [map snd] in R. apply Forall_cons in R as [Rv R].
    assert (Step : returns
              (if is_nullish v then ret tt
               else seal_step cfg (VRef l) (classify_entry (k, v))) w
              (fun _ w1 =>
                 exists v',
                   heap w1 !! l = Some (OObj (done ++ (k, v') :: rest) [])
                   /\ (if needs_sealing (heap base) k v
                       then exists a, v' = VRef a /\ a <> l /\ marked w1 a
                       else v' = v)
                   /\ touches l w w1 /\ closed w1)).
    { destruct (is_nullish v) eqn:Nu.
      - apply returns_ret. exists v. split; [exact At|].
        rewrite needs_sealing_falsy by now apply truthy_nullish.
        split; [reflexivity|].
        split; [apply grows_touches, grows_refl|exact C].
      - eapply returns_weaken;
          [apply (seal_step_spec l _ (classify_entry (k, v)) w At)|].
        intros [] w1 (Tc & C1 & Sh). cbv beta.
        cbn [classify_entry field encryptionRequired fst snd] in Sh.
        unfold field_value in Sh.
        rewrite lookup_prop_middle in Sh by exact N.
        cbn [default id] in Sh.
        change (default false (encryptionRequired (classifyField k)))
          with (requires_encryption k) in Sh.
        rewrite (AutoDecrypt.is_encrypted_preserved
                   (length (heap base)) base w v) in Sh
          by (try apply grows_preserved; auto).
        rewrite (Serial.sealable_grows base w v Cb G Rv) in Sh.
        unfold needs_sealing.
        destruct (requires_encryption k && truthy v
                  && negb (is_encrypted (heap base) v)); cbn [andb].
        + destruct (sealable (heap base) v).
          * destruct Sh as (a & Na & Ma & At1).
            rewrite assign_middle in At1 by exact N.
            exists (VRef a). split; [exact At1|].
            split; [now exists a|]. split; [exact Tc|now apply C1].
          * exists v. split; [exact Sh|]. split; [reflexivity|].
            split; [exact Tc|now apply C1].
        + subst w1. exists v. split; [exact At|]. split; [reflexivity|].
          split; [exact Tc|exact C]. }
    assert (Unfold :
              forM_ (seal_step cfg (VRef l)) (classify_props ((k, v) :: rest))
              = (do! (if is_nullish v then ret tt
                      else seal_step cfg (VRef l) (classify_entry (k, v))) in
                 forM_ (seal_step cfg (VRef l)) (classify_props rest))).
    { unfold classify_props. cbn [List.filter snd].
      destruct (is_nullish v); reflexivity. }
    rewrite Unfold. apply returns_bind.
    eapply returns_weaken; [exact Step|].
    intros [] w1 (v' & At1 & Sh & Tc & C1). cbv beta.
    replace (done ++ (k, v') :: rest) with ((done ++ [(k, v')]) ++ rest)
      in At1 by now rewrite <- app_assoc.
    assert (G1 : grows base w1) by now apply (grows_through l base w w1).
    eapply returns_weaken; [apply (IH _ w1 Cb G1 C1 Ll At1)|].
    + rewrite <- app_assoc. cbn [app].
      rewrite keys_app in D |- *. exact D.
    + exact R.
    + intros [] w2 (rest' & At2 & F & Tc2 & C2). cbv beta.
      exists ((k, v') :: rest'). rewrite <- app_assoc in At2.
      split; [exact At2|]. split; [|split; [|exact C2]].
      * constructor; [|exact F]. split; [reflexivity|]. cbn [fst snd].
        destruct (needs_sealing (heap base) k v); [|exact Sh].
        destruct Sh as (a & -> & Na & Ma). exists a.
        split; [reflexivity|]. split; [exact Na|].
        now apply (marked_touches l a w1 w2).
      * now apply (touches_trans l w w1).
Qed.

(** The pass returns for every argument, hands back a fresh record and
    changes no object that was there before. *)
Lemma autoEncryptSensitiveFields_frame data cs w :
  returns (autoEncryptSensitiveFields cfg data cs) w
    (fun r w' =>
       r = VRef (length (heap w))
       /\ (exists ps', heap w' !! length (heap w) = Some (OObj ps' []))
       /\ grows w w').
Proof.
  rewrite autoEncryptSensitiveFields_unfolded. run.
  set (l := length (heap w)).
  set (w1 := World (heap w ++ [OObj (spread_props (heap w) data) []])
               (ticks w) (draws w)).
  assert (At : heap w1 !! l = Some (OObj (spread_props (heap w) data) []))
    by (apply list_lookup_middle; reflexivity).
  apply returns_bind.
  eapply returns_weaken; [apply (seal_loop_frame l cs _ w1 At)|].
  intros [] w2 (At2 & Tc). cbv beta. apply returns_ret.
  split; [reflexivity|]. split; [exact At2|].
  apply (grows_through l w w1 w2); [apply grows_alloc|unfold l; lia|exact Tc].
Qed.

(** On a record of a closed store, the fields of the copy are those of
    the record, sealed where [needs_sealing] says so. *)
Lemma autoEncryptSensitiveFields_shape l ps hs w :
  closed w -> heap w !! l = Some (OObj ps hs) -> NoDup (keys ps) ->
  returns (autoEncryptSensitiveFields cfg (VRef l) (classify_props ps)) w
    (fun r w' =>
       r = VRef (length (heap w))
       /\ exists ps',
            heap w' !! length (heap w) = Some (OObj ps' [])
            /\ Forall2 (sealed_entry w (length (heap w)) w') ps ps'
            /\ grows w w' /\ closed w').
Proof.
  intros C At D. rewrite autoEncryptSensitiveFields_unfolded.
  run_with ltac:(apply (spread_at l ps hs); exact At).
  set (n := length (heap w)).
  set (w1 := World (heap w ++ [OObj ps []]) (ticks w) (draws w)).
  pose proof (closed_fields w l ps hs C At) as R.
  assert (At1 : heap w1 !! n = Some (OObj ([] ++ ps) []))
    by (apply list_lookup_middle; reflexivity).
  assert (G1 : grows w w1) by apply grows_alloc.
  assert (C1 : closed w1).
  { unfold closed in *; cbn [heap w1]. apply closed_alloc; [exact C|].
    cbn [obj_values map app]. rewrite app_nil_r. ranges. }
  apply returns_bind.
  eapply returns_weaken;
    [apply (seal_loop_shape w n ps [] w1 C G1 C1 (Nat.le_refl _) At1 D R)|].
  intros [] w2 (ps' & At2 & F & Tc & C2). cbv beta. apply returns_ret.
  split; [reflexivity|]. exists ps'. split; [exact At2|].
  split; [exact F|]. split; [|exact C2].
  apply (grows_through n w w1 w2); [exact G1|unfold n; lia|exact Tc].
Qed.

End Pass.
End Sealing.

(** *** The compliance block *)

Module Attach.
Import JS Sys JSON Spec Reads Frame Fields Exec LawSteps RuleEngine.

Ltac extend :=
  unfold closed in *; cbn [heap] in *; apply closed_alloc.

Lemma grows_extend w more t d : grows w (World (heap w ++ more) t d).
Proof.
  split; cbn [heap].
  - rewrite length_app. lia.
  - intros l Hl. now apply lookup_app_l.
Qed.

Ltac grown := cbn [heap]; rewrite <- ?app_assoc; apply grows_extend.

Lemma strings_in_range n l : Forall (in_range n) (map VStr l).
Proof. induction l; cbn [map]; ranges. Qed.

Lemma mask_in_range n k v :
  in_range n v -> in_range n (maskSensitiveValue k v).
Proof.
  intros R. destruct v; try exact R. cbn [maskSensitiveValue].
  repeat match goal with |- context [if ?b then _ else _] => destruct b end;
    exact I.
Qed.

Lemma masked_in_range n ps :
  Forall (in_range n) (map snd ps) ->
  Forall (in_range n) (map masked_value (classify_props ps)).
Proof.
  unfold classify_props.
  induction ps as [|[k v] ps IH]; cbn [map List.filter snd]; intros F;
    [constructor|].
  apply Forall_cons in F as [Rv F].
  destruct (is_nullish v); cbn [negb map]; [now apply IH|].
  constructor; [|now apply IH].
  cbn [classify_entry masked_value fst snd]. now apply mask_in_range.
Qed.

Section Block.
Context `{Platform}.

Lemma classification_object_spec c w :
  returns (classification_object c) w
    (fun r w' =>
       fresh_ref w w' r /\ grows w w'
       /\ (closed w -> in_range (length (heap w)) (masked_value c) ->
           closed w')).
Proof.
  unfold classification_object.
  destruct (laws c) as [ls|].
  - run. eapply returns_eq; [reflexivity|]. cbn [heap].
    set (w1 := World (heap w ++ [OArr (map VStr ls)]) (ticks w) (draws w)).
    assert (G1 : grows w w1) by apply grows_alloc.
    split; [|split].
    + eexists. split; [reflexivity|]. sizes.
    + grown.
    + intros C R. extend.
      * extend; [exact C|]. apply strings_in_range.
      * cbn [obj_values map app snd heap]. rewrite ?app_nil_r.
        destruct (type c), (sensitivity c), (recommendation c),
          (encryptionRequired c), (retentionDays c);
          cbn [of_string of_bool of_retention]; ranges.
  - run. eapply returns_eq; [reflexivity|]. cbn [heap].
    split; [|split].
    + eexists. split; [reflexivity|]. sizes.
    + apply grows_alloc.
    + intros C R. extend; [exact C|].
      cbn [obj_values map app snd heap]. rewrite ?app_nil_r.
      destruct (type c), (sensitivity c), (recommendation c),
        (encryptionRequired c), (retentionDays c);
        cbn [of_string of_bool of_retention]; ranges.
Qed.

Lemma classification_objects_spec cs : forall w,
  returns (mapM classification_object cs) w
    (fun rs w' =>
       Forall (in_range (length (heap w'))) rs /\ grows w w'
       /\ (closed w ->
           Forall (in_range (length (heap w))) (map masked_value cs) ->
           closed w')).
Proof.
  induction cs as [|c cs IH]; intros w.
  - apply returns_ret. split; [constructor|].
    split; [apply grows_refl|tauto].
  - cbn [mapM map]. apply returns_bind.
    eapply returns_weaken; [apply classification_object_spec|].
    intros r w1 (Fr & G1 & C1). cbv beta. apply returns_bind.
    eapply returns_weaken; [apply IH|].
    intros rs w2 (Rs & G2 & C2). cbv beta. apply returns_ret.
    pose proof (grows_length _ _ G1). pose proof (grows_length _ _ G2).
    pose proof (fresh_ref_in_range _ _ _ Fr) as Rr.
    split; [|split].
    + constructor; [ranges|exact Rs].
    + now apply (grows_trans w w1).
    + intros C F. apply Forall_cons in F as [Rc F].
      apply C2; [now apply C1|]. ranges.
Qed.

(** Building the [_compliance] block allocates and changes nothing. *)
Lemma compliance_object_spec meta cs elapsed w :
  returns (compliance_object meta cs elapsed) w
    (fun r w' =>
       fresh_ref w w' r /\ grows w w'
       /\ (closed w ->
           Forall (in_range (length (heap w))) (map masked_value cs) ->
           closed w')).
Proof.
  unfold compliance_object. run. run. run.
  set (w3 := World _ _ _).
  assert (G3 : grows w w3).
  { unfold w3. grown. }
  assert (C3 : closed w -> closed w3).
  { intros C. unfold w3.
    repeat (extend; [|apply strings_in_range]). exact C. }
  apply returns_bind.
  eapply returns_weaken; [apply classification_objects_spec|].
  intros rs w4 (Rs & G4 & C4). cbv beta. run.
  eapply returns_eq; [reflexivity|]. cbn [heap].
  pose proof (grows_length _ _ G3) as L3.
  pose proof (grows_length _ _ G4) as L4.
  assert (L : (S (S (S (length (heap w)))) = length (heap w3))%nat)
    by (unfold w3; sizes).
  split; [|split].
  - eexists. split; [reflexivity|]. sizes.
  - apply (grows_trans w w3); [exact G3|].
    apply (grows_trans w3 w4); [exact G4|]. grown.
  - intros C F. specialize (C3 C).
    assert (C5 : closed w4) by (apply C4; [exact C3|ranges]).
    clear C3 C4. extend.
    + extend; [exact C5|cbn [obj_values]; ranges].
    + cbn [obj_values map app snd heap]. rewrite ?app_nil_r.
      ranges.
Qed.

End Block.
End Attach.

(** *** One call of [process] *)

Module Passes.
Import JS Sys JSON Spec Reads Frame Fields Exec LawSteps RuleEngine.
Import Sealing Attach.

Definition truthy_pair (p : value * value) : Prop :=
  truthy (fst p) = true /\ truthy (snd p) = true.

(** The fields after all laws, the blocks attached by each law being
    [xs]. *)
Fixpoint laws_props (context : context) (laws : list string)
    (xs : list (value * value)) (ps : props) : props :=
  match laws, xs with
  | law :: laws', (x, y) :: xs' =>
      laws_props context laws' xs' (law_props context law x y ps)
  | _, _ => ps
  end.

Fixpoint laws_actions (context : context) (laws : list string)
    (xs : list (value * value)) (ps : props) : list string :=
  match laws, xs with
  | law :: laws', (x, y) :: xs' =>
      law_actions context law x ps
      ++ laws_actions context laws' xs' (law_props context law x y ps)
  | _, _ => []
  end.

(** A field before and after the encryption pass, seen from outside. *)
Definition kept_or_sealed (a b : string * value) : Prop :=
  fst b = fst a
  /\ (snd b = snd a \/ (truthy (snd a) = true /\ truthy (snd b) = true)).

Definition unsealed `{Platform} (w : world) (ps : props) : Prop :=
  Forall (fun kv => needs_sealing (heap w) (fst kv) (snd kv) = false) ps.

Section Run.
Context `{Platform} (cfg : config).

Lemma laws_spec context laws : forall l ps acts w,
  heap w !! l = Some (OObj ps []) ->
  returns
    (foldM
       (fun state law =>
          let! (lawData, lawActions) :=
            applyLaw cfg (fst state) law context in
          ret (lawData, snd state ++ lawActions))
       laws (VRef l, acts)) w
    (fun r w' =>
       exists l' xs,
         fst r = VRef l'
         /\ (l' = l \/ (length (heap w) <= l')%nat)
         /\ length xs = length laws /\ Forall truthy_pair xs
         /\ heap w' !! l' = Some (OObj (laws_props context laws xs ps) [])
         /\ snd r = acts ++ laws_actions context laws xs ps
         /\ grows w w' /\ (closed w -> closed w')).
Proof.
  induction laws as [|law laws IH]; intros l ps acts w At.
  - apply returns_ret. exists l, []. cbn [fst snd laws_props laws_actions].
    split; [reflexivity|]. split; [now left|]. split; [reflexivity|].
    split; [constructor|]. split; [exact At|].
    split; [now rewrite app_nil_r|]. split; [apply grows_refl|tauto].
  - cbn [foldM fst snd]. apply returns_bind. apply returns_bind.
    eapply returns_weaken; [apply (applyLaw_spec cfg context law l ps w At)|].
    intros [d a] w1 (l1 & x & y & Hd & L1 & At1 & Tx & Ty & Ha & G1 & C1).
    cbn [fst snd] in Hd, Ha. subst d a. cbv beta iota. apply returns_ret.
    eapply returns_weaken; [apply (IH l1 _ _ w1 At1)|].
    intros [d a] w2 (l2 & xs & Hd & L2 & Lx & Tx2 & At2 & Ha & G2 & C2).
    cbn [fst snd] in Hd, Ha. subst d a.
    pose proof (grows_length _ _ G1).
    exists l2, ((x, y) :: xs). cbn [fst snd laws_props laws_actions length].
    split; [reflexivity|]. split; [right; lia|].
    split; [now rewrite Lx|]. split; [constructor; [now split|exact Tx2]|].
    split; [exact At2|]. split; [now rewrite app_assoc|].
    split; [now apply (grows_trans w w1)|auto].
Qed.

Lemma checkForWarnings_returns l w :
  exists ws, checkForWarnings (VRef l) w = Ok ws w.
Proof.
  unfold checkForWarnings, classifyData, entries, bind, ret.
  rewrite get_ref. cbv beta iota.
  destruct (truthy (read (heap w) (VRef l) "password")) eqn:T.
  - rewrite (get_truthy _ "length" w T). cbv beta iota.
    destruct (less_than _ _); rewrite get_ref; cbv beta iota;
      eexists; reflexivity.
  - rewrite get_ref. cbv beta iota. eexists. reflexivity.
Qed.

Lemma define_hidden_at l ps hs k x w :
  heap w !! l = Some (OObj ps hs) ->
  define_hidden (VRef l) k x w
  = Ok tt (World (<[l := OObj (remove_key k ps) (assign k x hs)]> (heap w))
                 (ticks w) (draws w)).
Proof. intros At. unfold define_hidden. now rewrite At. Qed.

Lemma marked_encrypted w a : marked w a -> is_encrypted (heap w) (VRef a) = true.
Proof.
  intros (fs & At & F). unfold is_encrypted, read. rewrite At.
  cbn [own truthy is_object_type andb]. now rewrite F.
Qed.

Lemma needs_sealing_grows w w' k v :
  closed w -> grows w w' -> in_range (length (heap w)) v ->
  needs_sealing (heap w') k v = needs_sealing (heap w) k v.
Proof.
  intros C G R. unfold needs_sealing.
  rewrite (AutoDecrypt.is_encrypted_preserved (length (heap w)) w w' v)
    by (try apply grows_preserved; auto).
  now rewrite (Serial.sealable_grows w w' v C G R).
Qed.

Lemma needs_sealing_truthy h k v :
  needs_sealing h k v = true -> truthy v = true.
Proof.
  unfold needs_sealing. intros E.
  apply andb_prop in E as [E _]. apply andb_prop in E as [E _].
  now apply andb_prop in E as [_ E].
Qed.

Lemma NoDup_law_props context law x y ps :
  NoDup (keys ps) -> NoDup (keys (law_props context law x y ps)).
Proof.
  intros D. unfold law_props, fill, minimized.
  repeat match goal with
         | |- context [if ?b then _ else _] => destruct b
         end;
    repeat first [exact D | apply NoDup_keys_assign | apply NoDup_keys_remove].
Qed.

Lemma NoDup_laws_props context laws : forall xs ps,
  NoDup (keys ps) -> NoDup (keys (laws_props context laws xs ps)).
Proof.
  induction laws as [|law laws IH]; intros [|[x y] xs] ps D;
    cbn [laws_props]; try exact D.
  now apply IH, NoDup_law_props.
Qed.

(** The encryption stage of [process]. *)
Lemma encryption_stage data l ps acts w :
  heap w !! l = Some (OObj ps []) ->
  returns
    (if autoEncrypt cfg then
       let! encrypted :=
         autoEncryptSensitiveFields cfg (VRef l) (classify_props ps) in
       ret (encrypted,
            if value_eqb encrypted data then acts
            else acts ++ ["sensitive_fields_encrypted"])
     else ret (VRef l, acts)) w
    (fun r w' =>
       exists lE psE,
         fst r = VRef lE
         /\ (if autoEncrypt cfg then lE = length (heap w)
             else lE = l /\ w' = w)
         /\ heap w' !! lE = Some (OObj psE [])
         /\ grows w w'
         /\ (forall tag, In tag (snd r) ->
                         In tag acts \/ tag = "sensitive_fields_encrypted")
         /\ (closed w -> NoDup (keys ps) ->
             closed w'
             /\ if autoEncrypt cfg
                then Forall2 (sealed_entry w lE w') ps psE
                else psE = ps)).
Proof.
  intros At. destruct (autoEncrypt cfg).
  - destruct (autoEncryptSensitiveFields_frame cfg (VRef l)
                (classify_props ps) w)
      as (r & wE & Eq & -> & (psE & AtE) & GE).
    apply returns_bind. eapply returns_eq; [exact Eq|]. apply returns_ret.
    exists (length (heap w)), psE. cbn [fst snd].
    split; [reflexivity|]. split; [reflexivity|]. split; [exact AtE|].
    split; [exact GE|]. split.
    + intros tag I. destruct (value_eqb _ _); [now left|].
      apply in_app_or in I as [I|I]; [now left|]. right.
      cbn in I. now destruct I as [<-|[]].
    + intros C D.
      pose proof (autoEncryptSensitiveFields_shape cfg l ps [] w C At D)
        as Sh.
      apply (returns_inv _ _ _ _ _ Sh) in Eq.
      destruct Eq as (_ & ps' & At' & F & _ & C').
      rewrite AtE in At'. injection At' as <-. now split.
  - apply returns_ret. exists l, ps. cbn [fst snd].
    split; [reflexivity|]. split; [now split|]. split; [exact At|].
    split; [apply grows_refl|]. split; [intros tag I; now left|].
    intros C _. now split.
Qed.

(** What one call of [process] on a record with the fields [ps0] returns:
    a fresh record, no object of the store changed; and, when the store is
    closed and the keys of the record are distinct, the fields of the new
    record are those the laws leave, sealed where the encryption pass
    seals, with nothing left for another pass to seal. *)
Definition process_outcome (context : RuleEngine.context) (ps0 : props)
    (w : world) (r : result) (w' : world) : Prop :=
  exists lf psf x,
    RuleEngine.data r = VRef lf
    /\ (length (heap w) <= lf)%nat
    /\ heap w' !! lf = Some (OObj psf [("_compliance", x)])
    /\ grows w w'
    /\ (closed w -> NoDup (keys ps0) ->
        Forall (in_range (length (heap w))) (map snd ps0) ->
        exists xs psE,
          let laws := determineApplicableLaws context in
          let psL := laws_props context laws xs ps0 in
          length xs = length laws
          /\ Forall truthy_pair xs
          /\ psf = remove_key "_compliance" psE
          /\ Forall2 kept_or_sealed psL psE
          /\ (if autoEncrypt cfg then
                unsealed w' psE
                /\ (Forall (in_range (length (heap w))) (map snd psL) ->
                    unsealed w psL -> psE = psL)
              else psE = psL)
          /\ (forall tag,
                In tag (actions (compliance r)) ->
                In tag (laws_actions context laws xs ps0)
                \/ tag = "sensitive_fields_encrypted")
          /\ closed w').

Lemma sealed_entries_unsealed base l wE w' psL psE :
  closed base -> grows base w' -> touches l wE w' ->
  Forall2 (sealed_entry base l wE) psL psE ->
  Forall (in_range (length (heap base))) (map snd psL) ->
  unsealed w' psE.
Proof.
  intros C G Tc F. induction F as [|[k v] [k' v'] psL psE [Hk Hv] _ IH];
    cbn [map snd fst] in *; intros R; [constructor|].
  apply Forall_cons in R as [Rv R]. constructor; [|now apply IH].
  cbn [fst snd]. subst k'.
  destruct (needs_sealing (heap base) k v) eqn:NS.
  - destruct Hv as (a & -> & Na & Ma).
    unfold needs_sealing.
    rewrite (marked_encrypted w' a)
      by now apply (marked_touches l a wE w').
    cbn [negb]. now rewrite andb_false_r.
  - subst v'. now rewrite (needs_sealing_grows base w' k v C G Rv).
Qed.

Lemma sealed_entries_same w base l wE psL psE :
  closed w -> grows w base ->
  Forall2 (sealed_entry base l wE) psL psE ->
  Forall (in_range (length (heap w))) (map snd psL) ->
  unsealed w psL -> psE = psL.
Proof.
  intros C G F. induction F as [|[k v] [k' v'] psL psE [Hk Hv] _ IH];
    cbn [map snd fst] in *; intros R U; [reflexivity|].
  apply Forall_cons in R as [Rv R]. apply Forall_cons in U as [Uv U].
  cbn [fst snd] in Uv.
  rewrite (needs_sealing_grows w base k v C G Rv), Uv in Hv.
  subst k' v'. f_equal. now apply IH.
Qed.

Lemma sealed_entries_kept base l wE psL psE :
  Forall2 (sealed_entry base l wE) psL psE ->
  Forall2 kept_or_sealed psL psE.
Proof.
  intros F. eapply Forall2_impl; [exact F|].
  intros [k v] [k' v'] [Hk Hv]. cbn [fst snd] in *.
  split; [exact Hk|]. cbn [snd].
  destruct (needs_sealing (heap base) k v) eqn:NS; [|now left].
  destruct Hv as (a & -> & _). right.
  split; [now apply needs_sealing_truthy in NS|reflexivity].
Qed.

Lemma kept_refl ps : Forall2 kept_or_sealed ps ps.
Proof. apply Forall_Forall2_diag, Forall_forall. intros x _. split; auto. Qed.

Lemma process_spec data context w :
  returns (process cfg data context) w
    (process_outcome context (spread_props (heap w) data) w).
Proof.
  unfold process, process_outcome. run. run. run.
  set (ps0 := spread_props (heap w) data).
  set (n0 := length (heap w)).
  set (w1 := World (heap w ++ [OObj ps0 []]) (S (S (ticks w))) (draws w)).
  assert (At1 : heap w1 !! n0 = Some (OObj ps0 []))
    by (apply list_lookup_middle; reflexivity).
  assert (G1 : grows w w1) by apply grows_alloc.
  apply returns_bind.
  eapply returns_weaken; [apply (laws_spec context _ n0 ps0 [] w1 At1)|].
  intros [d a] wL (lL & xs & Hd & LL & Lx & Tx & AtL & Ha & GL & CL).
  cbn [fst snd] in Hd, Ha. subst d a. cbv beta iota.
  run_with ltac:(apply (classifyData_at lL _ [] wL AtL)).
  set (psL := laws_props context (determineApplicableLaws context) xs ps0)
    in *.
  apply returns_bind.
  eapply returns_weaken; [apply (encryption_stage data lL psL _ wL AtL)|].
  intros [d a] wE (lE & psE & Hd & HlE & AtE & GE & Tags & ShE).
  cbn [fst snd] in Hd, Tags. subst d. cbv beta iota. run.
  set (wD := World (heap wE) (S (ticks wE)) (draws wE)).
  apply returns_bind.
  eapply returns_weaken; [apply compliance_object_spec|].
  intros x wC (Fx & GC & CC). cbv beta.
  assert (AtC : heap wC !! lE = Some (OObj psE []))
    by (apply (grows_lookup wD wC); [exact GC|exact AtE]).
  run_with ltac:(apply (define_hidden_at lE psE [] "_compliance" x wC AtC)).
  set (wF := World _ (ticks wC) (draws wC)).
  destruct (checkForWarnings_returns lE wF) as (ws & EW).
  run_with ltac:(exact EW). run. apply returns_ret.
  cbn [RuleEngine.data compliance actions].
  pose proof (grows_length _ _ GL) as LenL.
  pose proof (grows_length _ _ GE) as LenE.
  pose proof (grows_length _ _ GC) as LenC.
  pose proof (lookup_lt_Some _ _ _ AtL) as LtL.
  pose proof (lookup_lt_Some _ _ _ AtC) as LtC.
  assert (Len1 : length (heap w1) = S n0) by (unfold w1, n0; sizes).
  assert (LE0 : (n0 <= lE)%nat).
  { destruct (autoEncrypt cfg); [|destruct HlE as [-> _]]; lia. }
  assert (TcE : touches lE wE (World (heap wF) (S (ticks wF)) (draws wF))).
  { apply (touches_trans lE wE wC); [|apply touches_store].
    apply grows_touches. exact GC. }
  assert (GEw : grows w wE).
  { apply (grows_trans w w1); [exact G1|].
    now apply (grows_trans w1 wL). }
  exists lE, (remove_key "_compliance" psE), x.
  split; [reflexivity|]. split; [exact LE0|].
  split; [cbn [heap wF]; now apply list_lookup_insert_eq|].
  split; [apply (grows_through lE w wE); [exact GEw|exact LE0|exact TcE]|].
  intros C D R0.
  assert (C1 : closed w1).
  { unfold closed in *; cbn [heap w1]. apply closed_alloc; [exact C|].
    cbn [obj_values map app]. rewrite app_nil_r. ranges. }
  assert (CLw : closed wL) by now apply CL.
  assert (DL : NoDup (keys psL)) by now apply NoDup_laws_props.
  destruct (ShE CLw DL) as (CE & ShE').
  pose proof (closed_fields wL lL _ _ CLw AtL) as RL.
  assert (CCw : closed wC).
  { apply CC; [now apply closed_clock|]. apply masked_in_range.
    cbn [heap wD]. ranges. }
  pose proof (closed_fields wC lE _ _ CCw AtC) as RE.
  pose proof (fresh_ref_in_range _ _ _ Fx) as Rx.
  assert (CF : closed (World (heap wF) (S (ticks wF)) (draws wF))).
  { unfold closed in *; cbn [heap wF]. apply closed_store; [exact CCw|].
    cbn [obj_values map app snd]. apply Forall_app_2.
    - now apply values_remove.
    - ranges. }
  exists xs, psE. cbv zeta. fold psL.
  split; [exact Lx|]. split; [exact Tx|]. split; [reflexivity|].
  destruct (autoEncrypt cfg).
  - subst lE.
    assert (GLF : grows wL (World (heap wF) (S (ticks wF)) (draws wF))).
    { apply (grows_through (length (heap wL)) wL wE);
        [exact GE|lia|exact TcE]. }
    split; [now apply (sealed_entries_kept wL (length (heap wL)) wE)|].
    split; [|split; [exact Tags|exact CF]]. split.
    + now apply (sealed_entries_unsealed wL (length (heap wL)) wE _ psL).
    + apply (sealed_entries_same w wL (length (heap wL)) wE);
        [exact C| |exact ShE'].
      now apply (grows_trans w w1).
  - subst psE. split; [apply kept_refl|].
    split; [reflexivity|]. split; [exact Tags|exact CF].
Qed.

End Run.
End Passes.

(** *** Copy on write *)

Module CopyOnWrite.
Import JS Spec Exec RuleEngine ConsentManager.

(** C9. [process] always returns; the record it returns is an object
    allocated during the call, and every object the store held before the
    call, the caller's record and whatever it refers to among them, is
    the same after it. *)
Theorem process_copies `{Platform} (cfg : config) (data : value)
    (context : RuleEngine.context) (w : world) :
  exists r w',
    process cfg data context w = Ok r w'
    /\ fresh_ref w w' (RuleEngine.data r)
    /\ grows w w'
    /\ forall l o, heap w !! l = Some o -> heap w' !! l = Some o.
Proof.
  destruct (Passes.process_spec cfg data context w)
    as (r & w' & E & lf & psf & hs & Hd & Lf & At & G & _).
  exists r, w'. split; [exact E|]. split; [|split; [exact G|]].
  - exists lf. split; [exact Hd|]. split; [exact Lf|].
    now apply lookup_lt_Some in At.
  - intros l o. now apply grows_lookup.
Qed.

(** [recordConsent] and [withdrawConsent] write into the record they are
    given and return it: after [recordConsent] the caller's record has a
    [_consent] property it did not have, and after [withdrawConsent] the
    consent block of the caller's record and its preferences differ from
    what they were. *)
Lemma consent_operations_write_in_place :
  let before := World [OObj [("email", VStr "a@b.com")] []] 0 0 in
  let recorded :=
    recordConsent (H := Toy.platform) Toy.cfg (VRef 0)
      (LawSteps.gdpr_options Cases.in_germany)
      (LawSteps.gdpr_requester Cases.in_germany) before in
  let withdrawn :=
    withdrawConsent (H := Toy.platform) (VRef 0) "marketing"
      Cases.from_address Cases.granted in
  value_of recorded = Some (VRef 0)
  /\ read (heap before) (VRef 0) "_consent" = VUndef
  /\ read (heap (world_of recorded)) (VRef 0) "_consent" = VRef 4
  /\ ~ grows before (world_of recorded)
  /\ value_of withdrawn = Some (VRef 0)
  /\ read_path (heap Cases.granted) (VRef 0)
       ["_consent"; "current"; "preferences"; "marketing"] = VBool true
  /\ read_path (heap (world_of withdrawn)) (VRef 0)
       ["_consent"; "current"; "preferences"; "marketing"] = VBool false
  /\ ~ grows Cases.granted (world_of withdrawn).
Proof.
  cbv zeta.
  split; [vm_compute; reflexivity|]. split; [reflexivity|].
  split; [vm_compute; reflexivity|]. split.
  { intros [_ G]. specialize (G 0%nat). vm_compute in G.
    specialize (G ltac:(lia)). discriminate G. }
  split; [vm_compute; reflexivity|]. split; [reflexivity|].
  split; [vm_compute; reflexivity|].
  intros [_ G]. specialize (G 3%nat). vm_compute in G.
  specialize (G ltac:(lia)). discriminate G.
Qed.

End CopyOnWrite.

(** *** A second application of [process] *)

Module Idempotence.
Import JS Sys JSON Spec Reads Frame Fields Exec LawSteps RuleEngine.
Import Sealing Attach Passes.

Lemma laws_cases context :
  determineApplicableLaws context = ["GDPR"]
  \/ determineApplicableLaws context = ["GDPR"; "CCPA"]
  \/ determineApplicableLaws context = ["GDPR"; "LGPD"]
  \/ determineApplicableLaws context = ["GDPR"; "CCPA"; "PIPEDA"].
Proof.
  unfold determineApplicableLaws.
  destruct (country context) as [[|a c]|]; try (now left).
  cbv beta iota delta [truthy default id].
  generalize (Str.toUpperCase (String a c)); intros u.
  destruct (String.eqb_spec u "US") as [E1|E1],
           (String.eqb_spec u "CA") as [E2|E2],
           (String.eqb_spec u "BR") as [E3|E3];
    try congruence; cbn; auto.
Qed.

Lemma field_value_assign k k' x ps :
  field_value k (assign k' x ps)
  = if String.eqb k k' then x else field_value k ps.
Proof.
  unfold field_value. rewrite lookup_assign. now destruct (String.eqb k k').
Qed.

Lemma field_value_remove k k' ps :
  field_value k (remove_key k' ps)
  = if String.eqb k k' then VUndef else field_value k ps.
Proof.
  unfold field_value. rewrite lookup_remove. now destruct (String.eqb k k').
Qed.

Lemma has_key_assign k k' x ps :
  has_key k (assign k' x ps) = if String.eqb k k' then true else has_key k ps.
Proof.
  unfold has_key. rewrite lookup_assign. now destruct (String.eqb k k').
Qed.

Lemma has_key_remove k k' ps :
  has_key k (remove_key k' ps)
  = if String.eqb k k' then false else has_key k ps.
Proof.
  unfold has_key. rewrite lookup_remove. now destruct (String.eqb k k').
Qed.

Lemma fill_id k x ps : truthy (field_value k ps) = true -> fill k x ps = ps.
Proof. unfold fill. now intros ->. Qed.

Lemma fill_truthy k x ps :
  truthy x = true -> truthy (field_value k (fill k x ps)) = true.
Proof.
  intros T. unfold fill. destruct (truthy (field_value k ps)) eqn:E;
    [exact E|].
  now rewrite field_value_assign, String.eqb_refl.
Qed.

Lemma field_value_fill k k' x ps :
  String.eqb k k' = false -> field_value k (fill k' x ps) = field_value k ps.
Proof.
  intros N. unfold fill. destruct (truthy _); [reflexivity|].
  now rewrite field_value_assign, N.
Qed.

Lemma has_key_fill k k' x ps :
  String.eqb k k' = false -> has_key k (fill k' x ps) = has_key k ps.
Proof.
  intros N. unfold fill. destruct (truthy _); [reflexivity|].
  now rewrite has_key_assign, N.
Qed.

Lemma field_value_minimized k context ps :
  String.eqb k "gps" = false ->
  field_value k (minimized context ps) = field_value k ps.
Proof.
  intros N. unfold minimized. destruct (_ && _); [|reflexivity].
  now rewrite field_value_remove, N.
Qed.

Lemma has_key_minimized k context ps :
  String.eqb k "gps" = false ->
  has_key k (minimized context ps) = has_key k ps.
Proof.
  intros N. unfold minimized. destruct (_ && _); [|reflexivity].
  now rewrite has_key_remove, N.
Qed.

Lemma gps_minimized context ps :
  action context = Some "registration" ->
  truthy (field_value "gps" (minimized context ps)) = false.
Proof.
  intros A. unfold minimized. rewrite bool_decide_true by exact A.
  cbn [andb]. destruct (truthy (field_value "gps" ps)) eqn:T; [|exact T].
  now rewrite field_value_remove.
Qed.

Lemma minimized_id context ps :
  (action context = Some "registration" ->
   truthy (field_value "gps" ps) = false) ->
  minimized context ps = ps.
Proof.
  intros G. unfold minimized.
  destruct (bool_decide_reflect (action context = Some "registration"))
    as [A|A]; cbn [andb]; [|reflexivity].
  now rewrite (G A).
Qed.

Lemma excessive_eq ps ps' :
  (forall k, String.eqb k "gps" = false ->
             String.eqb k "_consent" = false ->
             String.eqb k "_deletionMetadata" = false ->
             String.eqb k "_ccpaRights" = false ->
             String.eqb k "_compliance" = false ->
             has_key k ps' = has_key k ps) ->
  excessive ps' = excessive ps.
Proof.
  intros E. unfold excessive. cbn [existsb].
  now rewrite !E by reflexivity.
Qed.

Lemma count_key k ps :
  NoDup (keys ps) ->
  length (List.filter (fun kv => String.eqb (fst kv) k) ps)
  = if has_key k ps then 1%nat else 0%nat.
Proof.
  induction ps as [|[k' v] ps IH]; [reflexivity|].
  cbn [keys map fst]. intros D. apply NoDup_cons in D as [N D].
  cbn [List.filter fst]. unfold has_key. cbn [lookup_prop].
  rewrite (String.eqb_sym k k').
  destruct (String.eqb_spec k' k) as [->|Ne].
  - cbn [length]. rewrite (IH D).
    destruct (has_key k ps) eqn:Hk; [|reflexivity].
    apply has_key_elem in Hk. contradiction.
  - now apply IH.
Qed.

Lemma values_of_removed (P : string * value -> Prop) k ps :
  Forall P ps -> Forall P (remove_key k ps).
Proof.
  induction 1 as [|[k' v] ps Px _ IH]; cbn [remove_key]; [constructor|].
  destruct (String.eqb k k'); [exact IH|now constructor].
Qed.

(** The fields of a record on which the laws have nothing left to do. *)
Definition settled (context : context) (ps : props) : Prop :=
  truthy (field_value "_consent" ps) = true
  /\ truthy (field_value "_deletionMetadata" ps) = true
  /\ (In "CCPA" (determineApplicableLaws context) ->
      truthy (field_value "_ccpaRights" ps) = true)
  /\ (excessive ps = true -> action context = Some "registration" ->
      truthy (field_value "gps" ps) = false).

Lemma law_props_gdpr context x y ps :
  law_props context "GDPR" x y ps
  = fill "_deletionMetadata" y
      (if excessive ps then minimized context (fill "_consent" x ps)
       else fill "_consent" x ps).
Proof. reflexivity. Qed.

Lemma law_actions_gdpr context x ps :
  law_actions context "GDPR" x ps
  = (if truthy (field_value "_consent" ps) then []
     else ["gdpr_consent_recorded"])
    ++ (if excessive ps then ["gdpr_data_minimization_applied"] else [])
    ++ (if truthy
             (field_value "_deletionMetadata"
                (if excessive ps then minimized context (fill "_consent" x ps)
                 else fill "_consent" x ps))
        then [] else ["gdpr_deletion_metadata_added"]).
Proof. reflexivity. Qed.

(** After the GDPR pass the consent and deletion blocks are there, and
    the location is gone where minimisation applies. *)
Lemma settled_gdpr context x y ps :
  truthy x = true -> truthy y = true ->
  truthy (field_value "_consent" (law_props context "GDPR" x y ps)) = true
  /\ truthy (field_value "_deletionMetadata"
               (law_props context "GDPR" x y ps)) = true
  /\ (excessive (law_props context "GDPR" x y ps) = true ->
      action context = Some "registration" ->
      truthy (field_value "gps" (law_props context "GDPR" x y ps)) = false).
Proof.
  intros Tx Ty. rewrite law_props_gdpr.
  split; [|split; [now apply fill_truthy|]].
  - rewrite field_value_fill by reflexivity.
    destruct (excessive ps);
      [rewrite field_value_minimized by reflexivity|];
      now apply fill_truthy.
  - intros E A. rewrite field_value_fill by reflexivity.
    assert (Ex : excessive ps = true).
    { rewrite <- E. symmetry. apply excessive_eq. intros k G C D R _.
      rewrite has_key_fill by exact D.
      destruct (excessive ps);
        [rewrite has_key_minimized by exact G|];
        now rewrite has_key_fill by exact C. }
    rewrite Ex. now apply gps_minimized.
Qed.

Lemma settled_rights context x ps :
  truthy x = true ->
  truthy (field_value "_consent" ps) = true
  /\ truthy (field_value "_deletionMetadata" ps) = true
  /\ (excessive ps = true -> action context = Some "registration" ->
      truthy (field_value "gps" ps) = false) ->
  truthy (field_value "_consent" (fill "_ccpaRights" x ps)) = true
  /\ truthy (field_value "_deletionMetadata" (fill "_ccpaRights" x ps)) = true
  /\ truthy (field_value "_ccpaRights" (fill "_ccpaRights" x ps)) = true
  /\ (excessive (fill "_ccpaRights" x ps) = true ->
      action context = Some "registration" ->
      truthy (field_value "gps" (fill "_ccpaRights" x ps)) = false).
Proof.
  intros Tx (Sc & Sd & Sg).
  rewrite (field_value_fill "_consent"), (field_value_fill "gps"),
    (field_value_fill "_deletionMetadata") by reflexivity.
  split; [exact Sc|]. split; [exact Sd|]. split; [now apply fill_truthy|].
  intros E. apply Sg. rewrite <- E. symmetry. apply excessive_eq.
  intros k _ _ _ R _. now rewrite has_key_fill by exact R.
Qed.

(** The laws leave a settled record. *)
Lemma settled_laws context xs ps :
  length xs = length (determineApplicableLaws context) ->
  Forall truthy_pair xs ->
  settled context (laws_props context (determineApplicableLaws context) xs ps).
Proof.
  unfold settled.
  destruct (laws_cases context) as [E|[E|[E|E]]]; rewrite E;
    intros L T.
  - destruct xs as [|[x y] [|? ?]]; try discriminate L.
    apply Forall_cons in T as [[Tx Ty] _]. cbn [fst snd] in *.
    cbn [laws_props].
    destruct (settled_gdpr context x y ps Tx Ty) as (Sc & Sd & Sg).
    split; [exact Sc|]. split; [exact Sd|]. split; [|exact Sg].
    intros [I|[]]. discriminate I.
  - destruct xs as [|[x y] [|[x' y'] [|? ?]]]; try discriminate L.
    apply Forall_cons in T as [[Tx Ty] T].
    apply Forall_cons in T as [[Tx' _] _]. cbn [fst snd] in *.
    cbn [laws_props].
    pose proof (settled_gdpr context x y ps Tx Ty) as S.
    destruct (settled_rights context x' _ Tx' S) as (Sc & Sd & Sr & Sg).
    split; [exact Sc|]. split; [exact Sd|]. split; [|exact Sg].
    intros _. exact Sr.
  - destruct xs as [|[x y] [|[x' y'] [|? ?]]]; try discriminate L.
    apply Forall_cons in T as [[Tx Ty] _]. cbn [fst snd] in *.
    cbn [laws_props].
    destruct (settled_gdpr context x y ps Tx Ty) as (Sc & Sd & Sg).
    split; [exact Sc|]. split; [exact Sd|]. split; [|exact Sg].
    intros [I|[I|[]]]; discriminate I.
  - destruct xs as [|[x y] [|[x' y'] [|[x'' y''] [|? ?]]]];
      try discriminate L.
    apply Forall_cons in T as [[Tx Ty] T].
    apply Forall_cons in T as [[Tx' _] _]. cbn [fst snd] in *.
    cbn [laws_props].
    pose proof (settled_gdpr context x y ps Tx Ty) as S.
    destruct (settled_rights context x' _ Tx' S) as (Sc & Sd & Sr & Sg).
    split; [exact Sc|]. split; [exact Sd|]. split; [|exact Sg].
    intros _. exact Sr.
Qed.

Lemma kept_lookup k a b :
  Forall2 kept_or_sealed a b ->
  match lookup_prop k a, lookup_prop k b with
  | Some v, Some v' => v' = v \/ (truthy v = true /\ truthy v' = true)
  | None, None => True
  | _, _ => False
  end.
Proof.
  induction 1 as [|[k1 v] [k2 v'] a b [Hk Hv] _ IH]; [exact I|].
  cbn [fst snd] in Hk, Hv. subst k2. cbn [lookup_prop].
  destruct (String.eqb k k1); [exact Hv|exact IH].
Qed.

Lemma kept_truthy k a b :
  Forall2 kept_or_sealed a b ->
  truthy (field_value k b) = truthy (field_value k a).
Proof.
  intros F. pose proof (kept_lookup k a b F) as L. unfold field_value.
  destruct (lookup_prop k a), (lookup_prop k b); try contradiction;
    [|reflexivity].
  cbn [default id]. destruct L as [->|[Tv Tv']]; [reflexivity|congruence].
Qed.

Lemma kept_has_key k a b :
  Forall2 kept_or_sealed a b -> has_key k b = has_key k a.
Proof.
  intros F. pose proof (kept_lookup k a b F) as L. unfold has_key.
  now destruct (lookup_prop k a), (lookup_prop k b).
Qed.

Lemma kept_keys a b : Forall2 kept_or_sealed a b -> keys b = keys a.
Proof.
  induction 1 as [|[k1 v] [k2 v'] a b [Hk _] _ IH]; [reflexivity|].
  unfold keys in *. cbn [map fst] in *. now rewrite Hk, IH.
Qed.

(** Sealing fields and hiding [_compliance] keeps a record settled. *)
Lemma settled_kept context a b :
  settled context a -> Forall2 kept_or_sealed a b ->
  settled context (remove_key "_compliance" b).
Proof.
  intros (Sc & Sd & Sr & Sg) F. unfold settled.
  rewrite !field_value_remove.
  cbn [String.eqb Ascii.eqb Bool.eqb].
  rewrite !(kept_truthy _ a b F).
  split; [exact Sc|]. split; [exact Sd|]. split; [exact Sr|].
  intros E. apply Sg. rewrite <- E. symmetry. apply excessive_eq.
  intros k _ _ _ _ C. rewrite has_key_remove, C.
  now apply kept_has_key.
Qed.

(** On a settled record every law returns the fields it was given, and
    reports at most the minimisation. *)
Lemma law_props_settled context law x y ps :
  settled context ps -> In law (determineApplicableLaws context) ->
  law_props context law x y ps = ps
  /\ forall tag, In tag (law_actions context law x ps) ->
                 tag = "gdpr_data_minimization_applied".
Proof.
  intros (Sc & Sd & Sr & Sg) I. unfold law_props, law_actions.
  destruct (String.eqb law "GDPR").
  - rewrite (fill_id "_consent") by exact Sc. rewrite Sc.
    assert (M : (if excessive ps then minimized context ps else ps) = ps).
    { destruct (excessive ps); [|reflexivity].
      apply minimized_id. now apply Sg. }
    rewrite M, Sd. split; [now apply fill_id|].
    cbn [app]. rewrite app_nil_r. intros tag.
    destruct (excessive ps); [|intros []].
    intros [<-|[]]. reflexivity.
  - destruct (String.eqb_spec law "CCPA") as [->|_].
    + specialize (Sr I). rewrite Sr. split; [now apply fill_id|].
      intros tag [].
    + split; [reflexivity|]. intros tag [].
Qed.

Lemma laws_props_settled context laws : forall xs ps,
  settled context ps ->
  (forall law, In law laws -> In law (determineApplicableLaws context)) ->
  laws_props context laws xs ps = ps
  /\ forall tag, In tag (laws_actions context laws xs ps) ->
                 tag = "gdpr_data_minimization_applied".
Proof.
  induction laws as [|law laws IH]; intros [|[x y] xs] ps S Sub;
    cbn [laws_props laws_actions]; try (split; [reflexivity|intros tag []]).
  destruct (law_props_settled context law x y ps S) as [E A];
    [apply Sub; now left|].
  rewrite E. destruct (IH xs ps S) as [E' A'];
    [intros l Il; apply Sub; now right|].
  split; [exact E'|]. intros tag It.
  apply in_app_or in It as [It|It]; auto.
Qed.

(** C3. On a record of a closed store, [process] returns, and [process]
    applied to the record it returned returns a record with the same
    fields holding the same values: the consent history has the length it
    had, the same fields are encrypted (none is encrypted again), there
    is one deletion block and at most one CCPA block, those of the first
    pass, and the second pass reports no consent, deletion or CCPA
    action. *)
Theorem process_twice `{Platform} (cfg : config) (R : value)
    (C : RuleEngine.context) (w : world) :
  closed w -> is_record w R ->
  exists r1 w1 r2 w2,
    process cfg R C w = Ok r1 w1
    /\ process cfg (RuleEngine.data r1) C w1 = Ok r2 w2
    /\ spread_props (heap w2) (RuleEngine.data r2)
       = spread_props (heap w1) (RuleEngine.data r1)
    /\ consent_history_length w2 (RuleEngine.data r2)
       = consent_history_length w1 (RuleEngine.data r1)
    /\ encrypted_count w2 (RuleEngine.data r2)
       = encrypted_count w1 (RuleEngine.data r1)
    /\ blocks "_deletionMetadata" w2 (RuleEngine.data r2)
       = blocks "_deletionMetadata" w1 (RuleEngine.data r1)
    /\ length (blocks "_deletionMetadata" w2 (RuleEngine.data r2)) = 1%nat
    /\ blocks "_ccpaRights" w2 (RuleEngine.data r2)
       = blocks "_ccpaRights" w1 (RuleEngine.data r1)
    /\ (length (blocks "_ccpaRights" w2 (RuleEngine.data r2)) <= 1)%nat
    /\ forall tag,
         In tag (actions (compliance r2)) ->
         tag = "gdpr_data_minimization_applied"
         \/ tag = "sensitive_fields_encrypted".
Proof.
  intros Cw [D R0].
  destruct (process_spec cfg R C w)
    as (r1 & w1 & E1 & l1 & ps1 & hs1 & Hd1 & L1 & At1 & G1 & Sh1).
  rewrite <- List.Forall_map in R0.
  destruct (Sh1 Cw D R0) as (xs & psE & Lx & Tx & -> & K & Enc & _ & C1).
  clear Sh1. cbv zeta in *.
  set (psL := laws_props C (determineApplicableLaws C) xs
                (spread_props (heap w) R)) in *.
  pose proof (settled_kept C psL psE (settled_laws C xs _ Lx Tx) K) as S1.
  set (ps1 := remove_key "_compliance" psE) in *.
  assert (D1 : NoDup (keys ps1)).
  { apply NoDup_keys_remove. rewrite (kept_keys psL psE K).
    now apply NoDup_laws_props. }
  pose proof (closed_fields w1 l1 _ _ C1 At1) as R1.
  assert (Sp1 : spread_props (heap w1) (RuleEngine.data r1) = ps1).
  { rewrite Hd1. cbn [spread_props]. now rewrite At1. }
  destruct (process_spec cfg (RuleEngine.data r1) C w1)
    as (r2 & w2 & E2 & l2 & ps2 & hs2 & Hd2 & L2 & At2 & G2 & Sh2).
  rewrite Sp1 in Sh2.
  destruct (Sh2 C1 D1 R1)
    as (xs2 & psE2 & Lx2 & Tx2 & -> & K2 & Enc2 & Tags2 & C2).
  clear Sh2. cbv zeta in *.
  destruct (laws_props_settled C (determineApplicableLaws C) xs2 ps1 S1
              (fun l I => I)) as [EL AL].
  rewrite EL in *.
  assert (EE : psE2 = ps1).
  { destruct (autoEncrypt cfg); [|exact Enc2].
    destruct Enc2 as [_ Same]. apply Same; [exact R1|].
    destruct Enc as [U _]. now apply values_of_removed. }
  subst psE2.
  assert (Rm : remove_key "_compliance" ps1 = ps1).
  { apply remove_absent. unfold ps1. now rewrite has_key_remove. }
  rewrite Rm in At2.
  assert (Sp2 : spread_props (heap w2) (RuleEngine.data r2) = ps1).
  { rewrite Hd2. cbn [spread_props]. now rewrite At2. }
  destruct S1 as (Sc & Sd & _).
  exists r1, w1, r2, w2.
  split; [exact E1|]. split; [exact E2|]. split; [congruence|].
  split; [|split; [|split; [|split; [|split; [|split]]]]].
  - unfold consent_history_length, read_path. cbn [fold_left].
    rewrite Hd1, Hd2. unfold read at 3 6. rewrite At1, At2.
    cbn [own]. unfold field_value in Sc.
    destruct (lookup_prop "_consent" ps1) as [x|] eqn:Lk;
      [|discriminate Sc].
    cbn [default id].
    apply (read_path_grows w1 w2 ["history"; "length"] x C1 G2).
    now apply (values_lookup _ "_consent" x ps1 R1).
  - unfold encrypted_count. rewrite Sp1, Sp2. f_equal.
    apply List.filter_ext_in. intros [k v] I.
    apply (AutoDecrypt.is_encrypted_preserved (length (heap w1)) w1 w2);
      [now apply grows_preserved|].
    cbn [snd]. rewrite List.Forall_forall in R1. apply R1.
    apply in_map_iff. now exists (k, v).
  - unfold blocks. now rewrite Sp1, Sp2.
  - unfold blocks. rewrite Sp2, length_map, (count_key _ ps1 D1).
    unfold has_key, field_value in *.
    now destruct (lookup_prop "_deletionMetadata" ps1).
  - unfold blocks. now rewrite Sp1, Sp2.
  - unfold blocks. rewrite Sp2, length_map, (count_key _ ps1 D1).
    destruct (has_key "_ccpaRights" ps1); lia.
  - intros tag I. destruct (Tags2 tag I) as [It| ->]; [|now right].
    left. now apply AL.
Qed.

(** A registration from the United States with more identifiers than it
    needs. *)
Definition registration : RuleEngine.context :=
  Context (Some "us") (Some "registration") None None None None None.

Definition applicant : world :=
  World
    [OObj [("email", VStr "a@b.com"); ("password", VStr "weakpass");
           ("socialSecurity", VStr "123-45-6789"); ("gps", VStr "52.5,13.4");
           ("profile", VRef 1)] [];
     OObj [("nickname", VStr "al")] []]
    0 0.

Lemma applicant_closed : closed applicant.
Proof.
  intros l o Hl E. destruct l as [|[|l]]; cbn in Hl, E; try lia;
    injection E as <-; cbn; repeat constructor; cbn; lia.
Qed.

Lemma applicant_is_record : is_record applicant (VRef 0).
Proof.
  split; cbn.
  - distinct.
  - repeat constructor; cbn; lia.
Qed.

(** [process_twice] on that registration. *)
Lemma process_twice_witness :
  exists r1 w1 r2 w2,
    process (H := Toy.platform) Toy.cfg (VRef 0) registration applicant
    = Ok r1 w1
    /\ process (H := Toy.platform) Toy.cfg (RuleEngine.data r1)
         registration w1 = Ok r2 w2
    /\ spread_props (heap w2) (RuleEngine.data r2)
       = spread_props (heap w1) (RuleEngine.data r1)
    /\ consent_history_length w2 (RuleEngine.data r2)
       = consent_history_length w1 (RuleEngine.data r1)
    /\ encrypted_count w2 (RuleEngine.data r2)
       = encrypted_count w1 (RuleEngine.data r1)
    /\ blocks "_deletionMetadata" w2 (RuleEngine.data r2)
       = blocks "_deletionMetadata" w1 (RuleEngine.data r1)
    /\ length (blocks "_deletionMetadata" w2 (RuleEngine.data r2)) = 1%nat
    /\ blocks "_ccpaRights" w2 (RuleEngine.data r2)
       = blocks "_ccpaRights" w1 (RuleEngine.data r1)
    /\ (length (blocks "_ccpaRights" w2 (RuleEngine.data r2)) <= 1)%nat
    /\ forall tag,
         In tag (actions (compliance r2)) ->
         tag = "gdpr_data_minimization_applied"
         \/ tag = "sensitive_fields_encrypted".
Proof.
  apply (process_twice (H := Toy.platform) Toy.cfg (VRef 0) registration
           applicant).
  - exact applicant_closed.
  - exact applicant_is_record.
Defined.

(** The two passes over that registration, evaluated. *)
Lemma process_twice_applicant :
  let first :=
    process (H := Toy.platform) Toy.cfg (VRef 0) registration applicant in
  let second :=
    match first with
    | Ok r1 w1 =>
        process (H := Toy.platform) Toy.cfg (RuleEngine.data r1)
          registration w1
    | Throw e w1 => Throw e w1
    end in
  option_map (fun r => actions (compliance r)) (value_of first)
  = Some ["gdpr_consent_recorded"; "gdpr_data_minimization_applied";
          "gdpr_deletion_metadata_added"; "ccpa_rights_metadata_added";
          "sensitive_fields_encrypted"]
  /\ option_map (fun r => actions (compliance r)) (value_of second)
     = Some ["gdpr_data_minimization_applied"; "sensitive_fields_encrypted"]
  /\ option_map (fun r => consent_history_length (world_of first)
                            (RuleEngine.data r)) (value_of first)
     = Some (VNum 0)
  /\ option_map (fun r => consent_history_length (world_of second)
                            (RuleEngine.data r)) (value_of second)
     = Some (VNum 0)
  /\ option_map (fun r => encrypted_count (world_of first)
                            (RuleEngine.data r)) (value_of first)
     = option_map (fun r => encrypted_count (world_of second)
                              (RuleEngine.data r)) (value_of second)
  /\ option_map (fun r => keys (spread_props (heap (world_of second))
                                  (RuleEngine.data r))) (value_of second)
     = Some ["email"; "password"; "socialSecurity"; "profile"; "_consent";
             "_deletionMetadata"; "_ccpaRights"].
Proof. vm_compute. repeat split; reflexivity. Qed.

End Idempotence.

(** *** What a processed record holds *)

Module Outcome.
Import JS Sys JSON Spec Reads Frame Fields Exec LawSteps RuleEngine.
Import Sealing Attach Passes Idempotence.

(** X2. [autoEncryptSensitiveFields] returns for every argument and
    every list of classifications: it hands back a fresh object and
    changes none that the store held. *)
Theorem autoEncryptSensitiveFields_returns `{Platform} (cfg : config)
    (data : value) (classifications : list classification) (w : world) :
  exists w' fields,
    autoEncryptSensitiveFields cfg data classifications w
    = Ok (VRef (length (heap w))) w'
    /\ heap w' !! length (heap w) = Some (OObj fields [])
    /\ grows w w'.
Proof.
  destruct (autoEncryptSensitiveFields_frame cfg data classifications w)
    as (r & w' & E & -> & (fields & At) & G).
  now exists w', fields.
Qed.

(** X3. On a record of a closed store, the record [process] returns
    carries a consent block, a deletion block and, where the CCPA applies,
    a CCPA block; its [_compliance] property is not enumerable. *)
Theorem process_attaches `{Platform} (cfg : config) (R : value)
    (C : RuleEngine.context) (w : world) :
  closed w -> is_record w R ->
  exists r w' l fields block,
    process cfg R C w = Ok r w'
    /\ RuleEngine.data r = VRef l
    /\ heap w' !! l = Some (OObj fields [("_compliance", block)])
    /\ has_key "_compliance" fields = false
    /\ NoDup (keys fields)
    /\ truthy (field_value "_consent" fields) = true
    /\ truthy (field_value "_deletionMetadata" fields) = true
    /\ (In "CCPA" (determineApplicableLaws C) ->
        truthy (field_value "_ccpaRights" fields) = true).
Proof.
  intros Cw [D R0].
  destruct (process_spec cfg R C w)
    as (r & w' & E & l & ps & x & Hd & L & At & G & Sh).
  rewrite <- List.Forall_map in R0.
  destruct (Sh Cw D R0) as (xs & psE & Lx & Tx & -> & K & _ & _ & C').
  cbv zeta in *.
  destruct (settled_kept C _ psE (settled_laws C xs _ Lx Tx) K)
    as (Sc & Sd & Sr & _).
  exists r, w', l, (remove_key "_compliance" psE), x.
  split; [exact E|]. split; [exact Hd|]. split; [exact At|].
  split; [now rewrite has_key_remove|]. split; [|now split].
  apply NoDup_keys_remove. rewrite (kept_keys _ psE K).
  now apply NoDup_laws_props.
Qed.

(** [process_attaches] on the registration of [Idempotence]. *)
Lemma process_attaches_witness :
  exists r w' l fields block,
    process (H := Toy.platform) Toy.cfg (VRef 0) registration applicant
    = Ok r w'
    /\ RuleEngine.data r = VRef l
    /\ heap w' !! l = Some (OObj fields [("_compliance", block)])
    /\ has_key "_compliance" fields = false
    /\ NoDup (keys fields)
    /\ truthy (field_value "_consent" fields) = true
    /\ truthy (field_value "_deletionMetadata" fields) = true
    /\ (In "CCPA" (determineApplicableLaws registration) ->
        truthy (field_value "_ccpaRights" fields) = true).
Proof.
  apply (process_attaches (H := Toy.platform) Toy.cfg (VRef 0) registration
           applicant).
  - exact applicant_closed.
  - exact applicant_is_record.
Defined.

(** X4. With [autoEncrypt] on, [process] leaves nothing to encrypt: in
    the record it returns, every field whose classification asks for
    encryption and whose value is truthy either holds an encrypted value
    or holds a value that [JSON.stringify] cannot turn into a text. *)
Theorem process_seals `{Platform} (cfg : config) (R : value)
    (C : RuleEngine.context) (w : world) :
  closed w -> is_record w R -> autoEncrypt cfg = true ->
  exists r w',
    process cfg R C w = Ok r w'
    /\ Forall
         (fun kv =>
            requires_encryption (fst kv) = true -> truthy (snd kv) = true ->
            is_encrypted (heap w') (snd kv) = true
            \/ sealable (heap w') (snd kv) = false)
         (spread_props (heap w') (RuleEngine.data r)).
Proof.
  intros Cw [D R0] AE.
  destruct (process_spec cfg R C w)
    as (r & w' & E & l & ps & x & Hd & L & At & G & Sh).
  rewrite <- List.Forall_map in R0.
  destruct (Sh Cw D R0) as (xs & psE & _ & _ & -> & _ & Enc & _ & _).
  rewrite AE in Enc. destruct Enc as [U _].
  exists r, w'. split; [exact E|].
  rewrite Hd. cbn [spread_props]. rewrite At.
  apply values_of_removed. apply (Forall_impl _ _ _ U).
  intros [k v] N Rq T. cbn [fst snd] in *. unfold needs_sealing in N.
  rewrite Rq, T in N. cbn [andb] in N.
  destruct (is_encrypted (heap w') v); [now left|]. now right.
Qed.

(** [process_seals] on the same registration. *)
Lemma process_seals_witness :
  exists r w',
    process (H := Toy.platform) Toy.cfg (VRef 0) registration applicant
    = Ok r w'
    /\ Forall
         (fun kv =>
            requires_encryption (fst kv) = true -> truthy (snd kv) = true ->
            is_encrypted (heap w') (snd kv) = true
            \/ sealable (H := Toy.platform) (heap w') (snd kv) = false)
         (spread_props (heap w') (RuleEngine.data r)).
Proof.
  apply (process_seals (H := Toy.platform) Toy.cfg (VRef 0) registration
           applicant).
  - exact applicant_closed.
  - exact applicant_is_record.
  - reflexivity.
Defined.

End Outcome.

(** ** Further properties of the engine *)

(** *** The rights of the applicable laws *)

Module Rights.
Import JS Spec RuleEngine.

Lemma unique_spec l : forall seen,
  NoDup (unique seen l)
  /\ forall x, x ∈ unique seen l <-> x ∈ l /\ x ∉ seen.
Proof.
  induction l as [|a l IH]; intros seen; cbn [unique].
  - split; [constructor|]. intros x. split; [intros I|intros [I _]];
      now apply elem_of_nil in I.
  - destruct (bool_decide_reflect (a ∈ seen)) as [I|N].
    + destruct (IH seen) as [D E]. split; [exact D|].
      intros x. rewrite E, elem_of_cons. split; [tauto|].
      intros [[->|Il] Nx]; [contradiction|tauto].
    + destruct (IH (a :: seen)) as [D E]. split.
      * apply NoDup_cons. split; [|exact D].
        rewrite E. intros [_ Na]. apply Na. now left.
      * intros x. rewrite !elem_of_cons, E, elem_of_cons.
        split.
        -- intros [->|[Il Nx]]; [tauto|]. split; [tauto|]. tauto.
        -- intros [[->|Il] Nx]; [now left|].
           destruct (decide (x = a)) as [->|Ne]; [now left|].
           right. split; [exact Il|]. tauto.
Qed.

(** X5. [getDataRights] lists every right of every law it is given, once:
    the result has no duplicates and holds exactly the rights of the laws
    of the list. For the laws of a context this is the six GDPR rights,
    followed by the four CCPA rights when the CCPA applies; the LGPD and
    PIPEDA bring no right of their own. *)
Theorem getDataRights_applicable (context : RuleEngine.context)
    (laws : list string) :
  NoDup (getDataRights laws)
  /\ (forall right,
        right ∈ getDataRights laws
        <-> exists law, law ∈ laws /\ right ∈ rights_of law)
  /\ getDataRights (determineApplicableLaws context)
     = rights_of "GDPR"
       ++ (if bool_decide ("CCPA" ∈ determineApplicableLaws context)
           then rights_of "CCPA" else [])
  /\ rights_of "LGPD" = [] /\ rights_of "PIPEDA" = [].
Proof.
  unfold getDataRights.
  destruct (unique_spec (concat (map rights_of laws)) []) as [D E].
  split; [exact D|]. split.
  - intros right. rewrite E. split.
    + intros [I _]. apply list_elem_of_In, in_concat in I as (rs & Irs & Ir).
      apply in_map_iff in Irs as (law & <- & Il). exists law.
      now rewrite !list_elem_of_In.
    + intros (law & Il & Ir). split; [|apply not_elem_of_nil].
      apply list_elem_of_In, in_concat. exists (rights_of law).
      split; [apply in_map|]; now apply list_elem_of_In.
  - split; [|now split].
    destruct (Idempotence.laws_cases context) as [L|[L|[L|L]]]; rewrite L;
      reflexivity.
Qed.

End Rights.

(** *** Classification by field name *)

Module Classes.
Import JS Spec RuleEngine Bytes.

(** The names whose table entry asks for encryption. *)
Definition encrypted_names : list string :=
  ["email"; "phone"; "phoneNumber"; "location"; "gps"; "creditCard";
   "password"].

Ltac by_name k :=
  unfold classifyField, loadFieldClassifications; cbn [table_lookup];
  repeat match goal with
         | |- context [String.eqb k ?s] =>
             destruct (String.eqb_spec k s) as [->|?];
             [try (vm_compute; tauto)|]
         end.

Lemma inferred_never_required k :
  default false (encryptionRequired (inferClassification k)) = false.
Proof.
  unfold inferClassification.
  repeat match goal with
         | |- context [if ?b then _ else _] => destruct b
         end; reflexivity.
Qed.

Lemma requires_encryption_names k :
  requires_encryption k = true <-> In k encrypted_names.
Proof.
  unfold requires_encryption, encrypted_names. by_name k;
    try (cbn; split; [intros _; tauto|reflexivity]);
    try (cbn; split; [discriminate|];
         intros I; repeat (destruct I as [I|I]; [discriminate I|]);
         destruct I).
  destruct (bool_decide _); [cbn|rewrite inferred_never_required];
    (split; [discriminate|]);
    intros I; cbn in I; repeat (destruct I as [<-|I]; [congruence|]);
    destruct I.
Qed.

(** X6. Which fields [process] may encrypt is decided by the exact field
    name: the classification asks for encryption for [email], [phone],
    [phoneNumber], [location], [gps], [creditCard] and [password] and for
    no other name, since the inference for names outside the table never
    does. So a name that holds "email" in some other spelling, such as
    [Email] or [userEmail], is classified as highly sensitive and yet is
    not encrypted. *)
Theorem classifyField_encryption (fieldName : string) :
  (default false (encryptionRequired (classifyField fieldName)) = true
   <-> In fieldName encrypted_names)
  /\ (table_lookup fieldName loadFieldClassifications = None ->
      default false (encryptionRequired (classifyField fieldName)) = false)
  /\ (Str.includes (Str.toLowerCase fieldName) "email" = true ->
      fieldName <> "email" ->
      sensitivity (classifyField fieldName) = Some "high"
      /\ default false (encryptionRequired (classifyField fieldName))
         = false).
Proof.
  split; [apply requires_encryption_names|]. split.
  - intros N. unfold classifyField. rewrite N.
    destruct (bool_decide _); [reflexivity|apply inferred_never_required].
  - intros E N. by_name fieldName; try discriminate E; try congruence.
    destruct (bool_decide_reflect (fieldName ∈ inherited_names)) as [I|_].
    + unfold inherited_names in I.
      repeat (apply elem_of_cons in I as [->|I]; [discriminate E|]).
      now apply elem_of_nil in I.
    + unfold inferClassification. rewrite E. now split.
Qed.

(** A run of [n] asterisks. *)
Fixpoint stars (n : nat) : string :=
  match n with
  | O => EmptyString
  | S m => String "*" (stars m)
  end.

Fixpoint all_digits (s : string) : bool :=
  match s with
  | EmptyString => true
  | String c r => Str.is_digit c && all_digits r
  end.

Fixpoint no_at (s : string) : bool :=
  match s with
  | EmptyString => true
  | String c r => negb (Ascii.eqb c "@") && no_at r
  end.

Lemma mask_digits_length s : Str.length (mask_digits s) = Str.length s.
Proof.
  induction s as [|c s IH]; [reflexivity|].
  cbn [mask_digits Str.length]. rewrite IH.
  destruct (Str.is_digit c && four_digits s) eqn:D; [|reflexivity].
  apply andb_prop in D as [D _].
  assert (Dc : Str.is_continuation c = false /\ Str.is_astral c = false).
  { unfold Str.is_digit, Str.is_continuation, Str.is_astral in *.
    cbv zeta in D. apply andb_prop in D as [_ D]. apply Nat.leb_le in D.
    split; [|apply Nat.leb_gt; lia].
    apply andb_false_iff. left. apply Nat.leb_gt. lia. }
  destruct Dc as [-> ->]. reflexivity.
Qed.

(** Of ASCII text the code units are the bytes. *)
Lemma substring0_ascii s : forall n,
  Str.is_ascii s = true -> Str.substring0 n s = Str.take n s.
Proof.
  induction s as [|c s IH]; intros n A; [now destruct n|].
  cbn [Str.is_ascii] in A. apply andb_prop in A as [Ac A].
  apply Nat.ltb_lt in Ac.
  assert (Dc : Str.is_continuation c = false /\ Str.is_astral c = false).
  { unfold Str.is_continuation, Str.is_astral. cbv zeta.
    split; [|apply Nat.leb_gt; lia].
    apply andb_false_iff. left. apply Nat.leb_gt. lia. }
  destruct Dc as [Cc Tc]. cbn [Str.substring0]. rewrite Cc.
  destruct n as [|[|n]]; [reflexivity| |]; rewrite Tc; cbn [Str.take].
  - rewrite (IH 0%nat A). now destruct s.
  - now rewrite (IH (S n) A).
Qed.

Lemma four_digits_all s :
  all_digits s = true -> (4 <= String.length s)%nat -> four_digits s = true.
Proof.
  destruct s as [|a [|b [|c [|d s]]]];
    cbn [all_digits four_digits String.length]; try lia.
  intros D _. apply andb_prop in D as [Ha D].
  apply andb_prop in D as [Hb D]. apply andb_prop in D as [Hc D].
  apply andb_prop in D as [Hd _]. now rewrite Ha, Hb, Hc, Hd.
Qed.

Lemma all_digits_app a b :
  all_digits a = true -> all_digits b = true -> all_digits (a +:+ b) = true.
Proof.
  induction a as [|c a IH]; rewrite ?append_cons, ?append_nil;
    cbn [all_digits]; [auto|].
  intros D Db. apply andb_prop in D as [Dc D]. rewrite Dc. now apply IH.
Qed.

(** Of a run of digits all but the last four are masked. *)
Lemma mask_digits_run a b :
  all_digits a = true -> all_digits b = true -> String.length b = 4%nat ->
  mask_digits (a +:+ b) = stars (String.length a) +:+ b.
Proof.
  intros Da Db Lb.
  induction a as [|c a IH]; rewrite ?append_cons, ?append_nil.
  - destruct b as [|b1 [|b2 [|b3 [|b4 [|? ?]]]]]; try discriminate Lb.
    cbn [mask_digits four_digits String.length stars].
    now rewrite !andb_false_r.
  - cbn [all_digits] in Da. apply andb_prop in Da as [Dc Da].
    cbn [mask_digits String.length stars]. rewrite append_cons.
    rewrite Dc, four_digits_all, (IH Da); [reflexivity| |].
    + now apply all_digits_app.
    + rewrite length_append. lia.
Qed.

Lemma until_at_local user rest :
  no_at user = true ->
  until_at (user +:+ String "@" rest) = (user, Some rest).
Proof.
  induction user as [|c user IH]; rewrite ?append_cons, ?append_nil;
    cbn [until_at no_at]; [reflexivity|].
  intros N. apply andb_prop in N as [Nc N].
  destruct (Ascii.eqb c "@"); [discriminate Nc|]. now rewrite (IH N).
Qed.

Lemma until_at_whole s : no_at s = true -> until_at s = (s, None).
Proof.
  induction s as [|c s IH]; cbn; [reflexivity|].
  intros N. apply andb_prop in N as [Nc N].
  destruct (Ascii.eqb c "@"); [discriminate Nc|]. now rewrite (IH N).
Qed.

(** X7. What [maskSensitiveValue] hides. A value that is not a string,
    and a string under any name but [email], [phone], [phoneNumber] and
    [password], comes back as it is: a [creditCard] number is not masked.
    A password becomes eight asterisks. Under [phone] and [phoneNumber] the
    text keeps its length, and of a run of digits all but the last four
    become asterisks. Of an address [user@domain] the first two code
    units of the user and the whole domain stay, that is the first two
    characters of a user in ASCII (the whole of a shorter one); without
    an [@] the domain reads [undefined]. *)
Theorem maskSensitiveValue_masks (fieldName : string) (v : value)
    (s user domain a b : string) (x y : ascii) :
  ((forall t, v <> VStr t) -> maskSensitiveValue fieldName v = v)
  /\ (~ In fieldName ["email"; "phone"; "phoneNumber"; "password"] ->
      maskSensitiveValue fieldName (VStr s) = VStr s)
  /\ maskSensitiveValue "creditCard" (VStr s) = VStr s
  /\ maskSensitiveValue "password" (VStr s) = VStr "********"
  /\ (In fieldName ["phone"; "phoneNumber"] ->
      (exists t, maskSensitiveValue fieldName (VStr s) = VStr t
                 /\ Str.length t = Str.length s)
      /\ (all_digits a = true -> all_digits b = true ->
          String.length b = 4%nat ->
          maskSensitiveValue fieldName (VStr (a +:+ b))
          = VStr (stars (String.length a) +:+ b)))
  /\ (no_at user = true -> no_at domain = true ->
      maskSensitiveValue "email" (VStr (user +:+ String "@" domain))
      = VStr (Str.substring0 2 user +:+ "***@" +:+ domain))
  /\ (no_at s = true ->
      maskSensitiveValue "email" (VStr s)
      = VStr (Str.substring0 2 s +:+ "***@undefined"))
  /\ (Str.is_ascii user = true ->
      Str.substring0 2 user = Str.take 2 user)
  /\ (Str.is_ascii (String x (String y user)) = true ->
      no_at (String x (String y user)) = true -> no_at domain = true ->
      maskSensitiveValue "email"
        (VStr (String x (String y (user +:+ String "@" domain))))
      = VStr (String x (String y ("***@" +:+ domain)))).
Proof.
  split; [|split; [|split; [|split; [|split; [|split; [|split; [|split]]]]]]].
  - intros N. destruct v; try reflexivity. now destruct (N s0).
  - intros N. cbn [maskSensitiveValue].
    destruct (String.eqb_spec fieldName "email") as [->|_];
      [destruct N; cbn; tauto|].
    destruct (String.eqb_spec fieldName "phone") as [->|_];
      [destruct N; cbn; tauto|].
    destruct (String.eqb_spec fieldName "phoneNumber") as [->|_];
      [destruct N; cbn; tauto|].
    destruct (String.eqb_spec fieldName "password") as [->|_];
      [destruct N; cbn; tauto|].
    reflexivity.
  - reflexivity.
  - reflexivity.
  - intros I. assert (E : forall t, maskSensitiveValue fieldName (VStr t)
                                      = VStr (mask_digits t)).
    { destruct I as [<-|[<-|[]]]; reflexivity. }
    split.
    + exists (mask_digits s). split; [apply E|apply mask_digits_length].
    + intros Da Db Lb. rewrite E. f_equal. now apply mask_digits_run.
  - intros Nu Nd. cbn [maskSensitiveValue String.eqb Ascii.eqb Bool.eqb].
    rewrite (until_at_local user domain Nu). cbn [fst snd].
    now rewrite (until_at_whole domain Nd).
  - intros N. cbn [maskSensitiveValue String.eqb Ascii.eqb Bool.eqb].
    now rewrite (until_at_whole s N).
  - apply substring0_ascii.
  - intros A Nu Nd.
    change (String x (String y (user +:+ String "@" domain)))
      with (String x (String y user) +:+ String "@" domain).
    cbn [maskSensitiveValue String.eqb Ascii.eqb Bool.eqb].
    rewrite (until_at_local _ domain Nu). cbn [fst snd].
    rewrite (until_at_whole domain Nd), (substring0_ascii _ 2 A).
    reflexivity.
Qed.

(** [c.retentionDays || 365] for the classification of a name. *)
Definition period (fieldName : string) : Z :=
  retention_or_default (classifyField fieldName).

Lemma period_values k :
  period k
  = if bool_decide (k = "interests" \/ k = "preferences") then 730
    else if String.eqb k "location" then 90
    else if String.eqb k "gps" then 7
    else 365.
Proof.
  unfold period, retention_or_default. by_name k.
  destruct (bool_decide_reflect (k = "interests" \/ k = "preferences"))
    as [[->| ->]|_]; try congruence.
  destruct (bool_decide _); [reflexivity|].
  unfold inferClassification.
  repeat match goal with
         | |- context [if ?b then _ else _] => destruct b
         end; reflexivity.
Qed.

Lemma fold_max_spec l : forall x,
  (x <= fold_left Z.max l x)
  /\ Forall (fun y => y <= fold_left Z.max l x) l
  /\ (fold_left Z.max l x = x \/ In (fold_left Z.max l x) l).
Proof.
  induction l as [|a l IH]; intros x; cbn [fold_left].
  - split; [lia|]. split; [constructor|now left].
  - destruct (IH (Z.max x a)) as (Lx & F & M).
    split; [lia|]. split; [constructor; [lia|exact F]|].
    destruct M as [M|M]; [|right; now right].
    rewrite M. destruct (Z.max_spec x a) as [[_ ->]|[_ ->]];
      [right; now left|now left].
Qed.

Lemma maximum_spec x l :
  exists n, maximum (x :: l) = Some n
            /\ In n (x :: l) /\ Forall (fun y => y <= n) (x :: l).
Proof.
  cbn [maximum]. destruct (fold_max_spec l x) as (Lx & F & M).
  eexists. split; [reflexivity|]. split.
  - destruct M as [->|M]; [now left|now right].
  - now constructor.
Qed.

(** X8. [calculateRetentionPeriod] takes the longest period among the
    fields that hold a value, not that of the most sensitive one: the
    result is 7, 90, 365 or 730 days, at least the period of every such
    field and the period of one of them. Since a period of 0 counts as
    365, [password] and [creditCard] weigh 365 days, and only [gps] and
    [location] weigh less. Without a field that holds a value there is no
    maximum. *)
Theorem calculateRetentionPeriod_longest (l : nat) (ps hs : props)
    (w : world) :
  heap w !! l = Some (OObj ps hs) ->
  exists r,
    calculateRetentionPeriod (VRef l) w = Ok r w
    /\ match r with
       | Some n =>
           In n [7; 90; 365; 730]
           /\ (forall k v, In (k, v) ps -> is_nullish v = false ->
                           period k <= n)
           /\ exists k v, In (k, v) ps /\ is_nullish v = false /\ n = period k
       | None => Forall (fun kv => is_nullish (snd kv) = true) ps
       end
    /\ period "password" = 365 /\ period "creditCard" = 365
    /\ forall k, k <> "gps" -> k <> "location" -> 365 <= period k.
Proof.
  intros At. unfold calculateRetentionPeriod.
  rewrite (Reads.bind_ok _ _ _ _ _ (LawSteps.classifyData_at l ps hs w At)).
  eexists. split; [reflexivity|]. split; [|split; [reflexivity|]].
  2: { split; [reflexivity|]. intros k G L. rewrite period_values.
       destruct (bool_decide _); [lia|].
       destruct (String.eqb_spec k "location"); [contradiction|].
       destruct (String.eqb_spec k "gps"); [contradiction|]. lia. }
  assert (P : forall kv, retention_or_default (classify_entry kv)
                         = period (fst kv)) by reflexivity.
  unfold classify_props. rewrite map_map.
  rewrite (map_ext _ _ P).
  set (live := List.filter (fun kv => negb (is_nullish (snd kv))) ps).
  assert (Live : forall k v, In (k, v) live
                             <-> In (k, v) ps /\ is_nullish v = false).
  { intros k v. unfold live. rewrite filter_In. cbn [snd].
    now rewrite negb_true_iff. }
  destruct live as [|[k0 v0] rest] eqn:E.
  - cbn [map maximum]. apply Forall_forall. intros [k v] I.
    apply list_elem_of_In in I. cbn [snd].
    destruct (is_nullish v) eqn:Nu; [reflexivity|].
    destruct (proj2 (Live k v) (conj I Nu)).
  - cbn [map fst].
    destruct (maximum_spec (period k0) (map (fun kv => period (fst kv)) rest))
      as (n & -> & I & F).
    change (period k0 :: map (fun kv => period (fst kv)) rest)
      with (map (fun kv : string * value => period (fst kv))
              ((k0, v0) :: rest)) in I, F.
    apply in_map_iff in I as ([k v] & <- & I). cbn [fst].
    split; [|split].
    + rewrite period_values.
      destruct (bool_decide _); [cbn; tauto|].
      destruct (String.eqb k "location"); [cbn; tauto|].
      destruct (String.eqb k "gps"); cbn; tauto.
    + intros k' v' I' Nu'. rewrite List.Forall_map in F.
      rewrite List.Forall_forall in F.
      apply (F (k', v')). apply Live. now split.
    + exists k, v. apply Live in I as [I Nu]. now split.
Qed.

Lemma calculateRetentionPeriod_longest_witness :
  exists r,
    calculateRetentionPeriod (VRef 0) Idempotence.applicant
    = Ok r Idempotence.applicant
    /\ match r with
       | Some n =>
           In n [7; 90; 365; 730]
           /\ (forall k v,
                 In (k, v) (spread_props (heap Idempotence.applicant) (VRef 0)) ->
                 is_nullish v = false -> period k <= n)
           /\ exists k v,
                In (k, v) (spread_props (heap Idempotence.applicant) (VRef 0))
                /\ is_nullish v = false /\ n = period k
       | None =>
           Forall (fun kv => is_nullish (snd kv) = true)
             (spread_props (heap Idempotence.applicant) (VRef 0))
       end
    /\ period "password" = 365 /\ period "creditCard" = 365
    /\ forall k, k <> "gps" -> k <> "location" -> 365 <= period k.
Proof.
  apply (calculateRetentionPeriod_longest 0 _ [] Idempotence.applicant).
  reflexivity.
Defined.

End Classes.

(** *** [encrypt] at its edges *)

Module Edges.
Import JS Sys JSON Spec Reads Frame Fields Exec DataEncryptor.


(** X9. [encrypt] never raises. [null] and [undefined] come back as they
    are, and so does a value for which [JSON.stringify] has no text (a
    circular structure); the store is then untouched. Every other value,
    the empty string, [0] and [false] included, is sealed into one new
    object, which [isEncrypted] recognises and which names the field and
    the algorithm; no object that was there is changed. *)
Theorem encrypt_never_raises `{Platform} (cfg : config) (v : value)
    (fieldName : string) (w : world) :
  exists r w',
    encrypt cfg v fieldName w = Ok r w'
    /\ grows w w'
    /\ (if sealable (heap w) v
        then r = VRef (length (heap w))
             /\ length (heap w') = S (length (heap w))
             /\ is_encrypted (heap w') r = true
             /\ read (heap w') r "field" = VStr fieldName
             /\ read (heap w') r "algorithm" = VStr "aes-256-gcm"
        else r = v /\ w' = w)
    /\ sealable (heap w) VNull = false
    /\ sealable (heap w) VUndef = false
    /\ sealable (heap w) (VStr EmptyString) = true.
Proof.
  destruct v;
    try (unfold encrypt, sealable, try_catch, bind, JSON_stringify;
         destruct (stringify _ _ _ _) as [| |[s|]]);
    try (eexists _, _; split; [reflexivity|]; split; [apply grows_refl|];
         split; [now split|now repeat split]);
    (eexists _, _; split; [reflexivity|]; cbn [heap ticks draws];
     split; [apply grows_alloc|]; split; [|now repeat split];
     split; [reflexivity|]; split; [rewrite length_app; cbn; lia|];
     unfold is_encrypted; rewrite !Store.read_fresh;
     now repeat split).
Qed.

End Edges.

(** ** [DataGuard]: the entry points

    [lib/core/DataGuard.js] and the deletion plan of [RuleEngine.js]. The
    lazy [initialize] builds the engine from the configuration and has no
    other effect; the console is left out. *)

Module DataGuard.
Import JS Sys Spec RuleEngine.

(** What [RuleEngine.handleDeletion] returns. *)
Record deletionPlan := DeletionPlan {
  plan_actions : list string;
  estimatedCompletion : string;
  userNotificationRequired : bool;
  legalReviewRequired : bool
}.

Definition handleDeletion (userId : value) (regulation : string)
    : deletionPlan :=
  let actions :=
    ["verify_user_identity"; "identify_all_data_locations";
     "assess_legal_retention_requirements"] in
  let actions :=
    if String.eqb regulation "GDPR" then
      actions ++ ["anonymize_personal_data";
                  "retain_anonymous_transactions_7_years";
                  "notify_third_parties_of_deletion";
                  "provide_deletion_confirmation"]
    else if String.eqb regulation "CCPA" then
      actions ++ ["delete_personal_information";
                  "maintain_service_after_deletion";
                  "verify_deletion_completion";
                  "provide_verification_method"]
    else actions in
  DeletionPlan actions "30 days" true (String.eqb regulation "GDPR").

(** What [DataGuard.handleDeletionRequest] returns. *)
Record deletionReceipt := DeletionReceipt {
  receipt_success : bool;
  receipt_message : string;
  receipt_actions : list string;
  receipt_completion : string
}.

Definition handleDeletionRequest (userId : value) (regulation : string)
    : deletionReceipt :=
  let result := handleDeletion userId regulation in
  DeletionReceipt true
    ("Data deletion request processed under " +:+ regulation)
    (plan_actions result) (estimatedCompletion result).

(** What [DataGuard.makeCompliant] returns. *)
Record compliantResult := CompliantResult {
  success : bool;
  compliant_data : value;
  compliant_meta : complianceMeta;
  compliant_time : Z;
  compliant_warnings : list warning
}.

(** [handleError]: the message of the error that is thrown on. *)
Definition handleError (env : string) (message method : string) : string :=
  if String.eqb env "production"
  then "Compliance processing failed in " +:+ method
  else message.

Section Guard.
Context `{Platform} (cfg : config) (env : string).

Definition makeCompliant (data : value) (context : context) : M compliantResult :=
  if negb (truthy data) || negb (is_object_type data)
  then throw "Data must be a non-null object"
  else
    let! startTime := Date_now in
    try_catch
      (let! result := process cfg data context in
       let! finish := Date_now in
       ret (CompliantResult true (RuleEngine.data result) (compliance result)
              (finish - startTime) (warnings result)))
      (fun message => throw (handleError env message "makeCompliant")).

(** [DataGuard.classifyData]. *)
Definition classifyData (data : value) : M (list classification) :=
  RuleEngine.classifyData data.

End Guard.
End DataGuard.

(** *** Entry points *)

Module Guarded.
Import JS Sys Spec Reads Frame Exec RuleEngine DataGuard.

Definition generic_steps : list string :=
  ["verify_user_identity"; "identify_all_data_locations";
   "assess_legal_retention_requirements"].

(** X10. The deletion plan depends on the regulation alone, never on the
    user. It starts with the same three preparatory steps; an erasure step
    is planned for exactly the names [GDPR] and [CCPA], in that spelling.
    For the other laws the engine itself declares applicable, the LGPD
    and PIPEDA, the plan stops after the preparation, and the request is
    still reported as a success. *)
Theorem handleDeletion_plan (userId other : value) (regulation : string)
    (context : RuleEngine.context) :
  handleDeletion userId regulation = handleDeletion other regulation
  /\ firstn 3 (plan_actions (handleDeletion userId regulation))
     = generic_steps
  /\ (In "anonymize_personal_data"
        (plan_actions (handleDeletion userId regulation))
      <-> regulation = "GDPR")
  /\ (In "delete_personal_information"
        (plan_actions (handleDeletion userId regulation))
      <-> regulation = "CCPA")
  /\ (legalReviewRequired (handleDeletion userId regulation) = true
      <-> regulation = "GDPR")
  /\ (regulation <> "GDPR" -> regulation <> "CCPA" ->
      plan_actions (handleDeletion userId regulation) = generic_steps)
  /\ (In regulation (determineApplicableLaws context) ->
      regulation <> "GDPR" -> regulation <> "CCPA" ->
      (regulation = "LGPD" \/ regulation = "PIPEDA")
      /\ receipt_success (handleDeletionRequest userId regulation) = true
      /\ receipt_actions (handleDeletionRequest userId regulation)
         = generic_steps).
Proof.
  unfold handleDeletionRequest, handleDeletion, generic_steps.
  cbn [plan_actions legalReviewRequired receipt_success receipt_actions].
  destruct (String.eqb_spec regulation "GDPR") as [->|NG].
  { repeat split; try reflexivity; try congruence; try discriminate;
      cbn; intros; try tauto; try congruence.
    intuition discriminate. }
  destruct (String.eqb_spec regulation "CCPA") as [->|NC].
  { repeat split; try reflexivity; try congruence; try discriminate;
      cbn; intros; try tauto; try congruence.
    intuition discriminate. }
  split; [reflexivity|]. split; [reflexivity|].
  split; [split; [cbn; intuition discriminate|contradiction]|].
  split; [split; [cbn; intuition discriminate|contradiction]|].
  split; [split; [discriminate|contradiction]|].
  split; [reflexivity|]. intros I _ _. split; [|now split].
  destruct (Idempotence.laws_cases context) as [L|[L|[L|L]]];
    rewrite L in I; cbn in I; intuition congruence.
Qed.

(** X11. [makeCompliant] raises ['Data must be a non-null object'], and
    touches nothing, exactly when its argument is falsy or not of object
    type. For every other argument, with a context whose country is a
    text or absent, it succeeds, in every environment: the record it
    returns is a new object and no object that was there is changed, so
    the branch that reports a failure of the processing is never taken. *)
Theorem makeCompliant_outcome `{Platform} (cfg : config) (env : string)
    (data : value) (context : RuleEngine.context) (w : world) :
  match makeCompliant cfg env data context w with
  | Ok r w' =>
      truthy data && is_object_type data = true
      /\ success r = true
      /\ fresh_ref w w' (compliant_data r)
      /\ grows w w'
  | Throw message w' =>
      truthy data && is_object_type data = false
      /\ message = "Data must be a non-null object"
      /\ w' = w
  end.
Proof.
  unfold makeCompliant.
  destruct (truthy data); cbn [negb orb andb]; [|now repeat split].
  destruct (is_object_type data); cbn [negb]; [|now repeat split].
  set (w0 := World (heap w) (S (ticks w)) (draws w)).
  destruct (Passes.process_spec cfg data context w0)
    as (r & w1 & E & lf & psf & x & Hd & Lf & At & G & _).
  unfold bind at 1. cbn [Date_now]. fold w0.
  unfold try_catch. erewrite bind_ok by exact E. cbv beta.
  unfold bind, Date_now, ret. cbn [success compliant_data].
  split; [reflexivity|]. split; [reflexivity|]. split.
  - exists lf. split; [exact Hd|]. cbn [heap].
    split; [exact Lf|]. now apply lookup_lt_Some in At.
  - destruct G as [L P]. split; cbn [heap] in *; [exact L|exact P].
Qed.

End Guarded.

(** ** The adapters' decisions

    The parts of [lib/web/express.js] and [lib/integrations/mongodb.js]
    (the same function is in [mysql.js]) that decide something from what
    the engine returns; requests, responses and database drivers are left
    out. *)

Module Express.
Import JS RuleEngine.

(** [a || b] of two header values, where [undefined] is [None]. *)
Definition or_header (a b : option string) : option string :=
  match a with
  | Some (String _ _) => a
  | _ => b
  end.

(** [s.match(/-([A-Z]{2})/)]: the two capitals after the first hyphen
    that is followed by two capitals. *)
Fixpoint country_match (s : string) : option string :=
  match s with
  | EmptyString => None
  | String c r =>
      if Ascii.eqb c "-" then
        match r with
        | String a (String b _) =>
            if Str.is_upper a && Str.is_upper b
            then Some (String a (String b EmptyString))
            else country_match r
        | _ => country_match r
        end
      else country_match r
  end.

(** [req] is seen through [req.get]. *)
Definition detectCountryFromRequest (get : string -> option string)
    : string :=
  match or_header (get "CF-IPCountry") (get "X-Country-Code") with
  | Some (String c r) => String c r
  | _ =>
      match get "Accept-Language" with
      | Some (String c r) =>
          match country_match (String c r) with
          | Some country => country
          | None => "US"
          end
      | _ => "US"
      end
  end.

End Express.

Module Mongo.
Import JS RuleEngine.

(** [!c.encryptionRequired || c.recommendation.includes('encrypt')];
    [None] is the [TypeError] of reading [includes] of [undefined]. *)
Definition unencrypted (c : classification) : option bool :=
  if negb (default false (encryptionRequired c)) then Some true
  else match recommendation c with
       | Some r => Some (Str.includes r "encrypt")
       | None => None
       end.

(** [l.filter(f).length === 0], [f] possibly throwing. *)
Fixpoint none_of (f : classification -> option bool)
    (l : list classification) : option bool :=
  match l with
  | [] => Some true
  | c :: r =>
      match f c with
      | Some b =>
          match none_of f r with
          | Some rest => Some (negb b && rest)
          | None => None
          end
      | None => None
      end
  end.

Definition isDocumentCompliant (classifications : list classification)
    : option bool :=
  none_of unencrypted (List.filter is_high classifications).

End Mongo.

(** *** Where a request comes from, and what a stored document is taken
    for *)

Module Adapters.
Import JS Spec RuleEngine Express Mongo.

(** A hyphen and two capitals in [s], after the text [p]. *)
Definition marked_at (s p : string) : Prop :=
  exists c d q,
    s = p +:+ String "-" (String c (String d q))
    /\ Str.is_upper c = true /\ Str.is_upper d = true.

Lemma country_match_first pre a b rest :
  Str.is_upper a = true -> Str.is_upper b = true ->
  (forall p, marked_at (pre +:+ String "-" (String a (String b rest))) p ->
             (String.length pre <= String.length p)%nat) ->
  country_match (pre +:+ String "-" (String a (String b rest)))
  = Some (String a (String b EmptyString)).
Proof.
  intros Ua Ub. induction pre as [|c pre IH]; intros First;
    rewrite ?Bytes.append_cons, ?Bytes.append_nil.
  - cbn [country_match Ascii.eqb Bool.eqb]. now rewrite Ua, Ub.
  - assert (Next : country_match
                     (pre +:+ String "-" (String a (String b rest)))
                   = Some (String a (String b EmptyString))).
    { apply IH. intros p (x & y & q & E & Ux & Uy).
      assert (M : marked_at
                    (String c pre
                     +:+ String "-" (String a (String b rest)))
                    (String c p)).
      { exists x, y, q. rewrite !Bytes.append_cons. now rewrite E. }
      apply First in M. cbn [String.length] in M. lia. }
    cbn [country_match]. destruct (Ascii.eqb_spec c "-") as [->|_];
      [|exact Next].
    destruct (pre +:+ String "-" (String a (String b rest)))
      as [|x [|y q]] eqn:E; try exact Next.
    destruct (Str.is_upper x && Str.is_upper y) eqn:U; [|exact Next].
    apply andb_prop in U as [Ux Uy].
    assert (M : marked_at
                  (String "-" pre
                   +:+ String "-" (String a (String b rest)))
                  EmptyString).
    { exists x, y, q. rewrite Bytes.append_cons, E. now split. }
    apply First in M. cbn [String.length] in M. lia.
Qed.

Lemma country_match_none s :
  (forall p, ~ marked_at s p) -> country_match s = None.
Proof.
  induction s as [|c s IH]; intros No; [reflexivity|].
  assert (Next : country_match s = None).
  { apply IH. intros p (x & y & q & E & Ux & Uy).
    apply (No (String c p)). exists x, y, q.
    rewrite Bytes.append_cons. now rewrite E. }
  cbn [country_match]. destruct (Ascii.eqb_spec c "-") as [->|_];
    [|exact Next].
  destruct s as [|x [|y q]]; try exact Next.
  destruct (Str.is_upper x && Str.is_upper y) eqn:U; [|exact Next].
  apply andb_prop in U as [Ux Uy].
  destruct (No EmptyString). now exists x, y, q.
Qed.

Lemma country_match_filled s country :
  country_match s = Some country -> country <> EmptyString.
Proof.
  induction s as [|c s IH]; cbn [country_match]; [discriminate|].
  destruct (Ascii.eqb c "-"); [|exact IH].
  destruct s as [|a [|b s]]; try exact IH.
  destruct (Str.is_upper a && Str.is_upper b); [|exact IH].
  now intros [= <-].
Qed.

Definition from (country : string) : context :=
  Context (Some country) None None None None None None.

(** A header that is absent or empty. *)
Definition unset (header : option string) : Prop :=
  header = None \/ header = Some EmptyString.

(** X12. The country an Express request is processed under is never
    empty. A [CF-IPCountry] header that is not empty is taken as it is;
    failing it, an [X-Country-Code] header that is not empty; failing
    both, the two capitals after the first hyphen of [Accept-Language]
    that two capitals follow, wherever it stands; and when there is no
    such hyphen, or no [Accept-Language], the country is [US], so that a
    request that says nothing of its origin is processed under the GDPR
    and the CCPA. *)
Theorem detectCountryFromRequest_default (get : string -> option string)
    (header language pre rest : string) (a b : ascii) :
  detectCountryFromRequest get <> EmptyString
  /\ (get "CF-IPCountry" = Some header -> header <> EmptyString ->
      detectCountryFromRequest get = header)
  /\ (unset (get "CF-IPCountry") ->
      get "X-Country-Code" = Some header -> header <> EmptyString ->
      detectCountryFromRequest get = header)
  /\ (unset (get "CF-IPCountry") -> unset (get "X-Country-Code") ->
      get "Accept-Language"
      = Some (pre +:+ String "-" (String a (String b rest))) ->
      Str.is_upper a = true -> Str.is_upper b = true ->
      (forall p,
         marked_at (pre +:+ String "-" (String a (String b rest))) p ->
         (String.length pre <= String.length p)%nat) ->
      detectCountryFromRequest get = String a (String b EmptyString))
  /\ (unset (get "CF-IPCountry") -> unset (get "X-Country-Code") ->
      (get "Accept-Language" = None
       \/ (get "Accept-Language" = Some language
           /\ forall p, ~ marked_at language p)) ->
      detectCountryFromRequest get = "US"
      /\ determineApplicableLaws (from (detectCountryFromRequest get))
         = ["GDPR"; "CCPA"]).
Proof.
  unfold detectCountryFromRequest, unset.
  split; [|split; [|split; [|split]]].
  - destruct (or_header _ _) as [[|c r]|]; try discriminate;
      destruct (get "Accept-Language") as [[|c' r']|]; try discriminate;
      destruct (country_match _) eqn:M; try discriminate;
      now apply country_match_filled in M.
  - intros -> N. destruct header; [contradiction|reflexivity].
  - intros [-> | ->] -> N; (destruct header; [contradiction|reflexivity]).
  - intros C X -> Ua Ub First.
    pose proof (country_match_first pre a b rest Ua Ub First) as M.
    assert (O : or_header (get "CF-IPCountry") (get "X-Country-Code")
                = None
                \/ or_header (get "CF-IPCountry") (get "X-Country-Code")
                   = Some EmptyString)
      by (destruct C as [-> | ->], X as [-> | ->]; cbn; tauto).
    destruct O as [-> | ->];
      (destruct pre as [|c pre];
       rewrite ?Bytes.append_cons, ?Bytes.append_nil in *;
       now rewrite M).
  - intros C X L.
    assert (O : or_header (get "CF-IPCountry") (get "X-Country-Code")
                = None
                \/ or_header (get "CF-IPCountry") (get "X-Country-Code")
                   = Some EmptyString)
      by (destruct C as [-> | ->], X as [-> | ->]; cbn; tauto).
    assert (E : match get "Accept-Language" with
                | Some (String c r) =>
                    match country_match (String c r) with
                    | Some country => country
                    | None => "US"
                    end
                | _ => "US"
                end = "US").
    { destruct L as [-> |(-> & No)]; [reflexivity|].
      destruct language as [|c r]; [reflexivity|].
      now rewrite (country_match_none _ No). }
    destruct O as [-> | ->]; rewrite E; now split.
Qed.

(** The names under which a field that holds a value makes
    [isDocumentCompliant] answer no. *)
Definition exposed (fieldName : string) : bool :=
  is_high (classifyField fieldName)
  && (negb (default false (encryptionRequired (classifyField fieldName)))
      || match recommendation (classifyField fieldName) with
         | Some r => Str.includes r "encrypt"
         | None => false
         end).

Lemma unencrypted_classified kv :
  unencrypted (classify_entry kv)
  = Some (negb (default false (encryptionRequired (classifyField (fst kv))))
          || match recommendation (classifyField (fst kv)) with
             | Some r => Str.includes r "encrypt"
             | None => false
             end).
Proof.
  unfold unencrypted, classify_entry. cbn [encryptionRequired recommendation].
  destruct kv as [k v]. cbn [fst].
  destruct (default false (encryptionRequired (classifyField k))) eqn:E;
    [|reflexivity].
  cbn [negb orb].
  apply Classes.requires_encryption_names in E.
  unfold Classes.encrypted_names in E.
  repeat (destruct E as [<-|E]; [reflexivity|]). destruct E.
Qed.

Lemma isDocumentCompliant_classified ps :
  isDocumentCompliant (classify_props ps)
  = Some (negb (existsb
                  (fun kv => negb (is_nullish (snd kv)) && exposed (fst kv))
                  ps)).
Proof.
  unfold isDocumentCompliant, classify_props.
  induction ps as [|[k v] ps IH]; [reflexivity|].
  cbn [List.filter map existsb fst snd].
  destruct (is_nullish v); cbn [negb andb orb map List.filter]; [exact IH|].
  unfold exposed at 1.
  change (is_high (classify_entry (k, v)))
    with (is_high (classifyField k)).
  destruct (is_high (classifyField k)); cbn [andb]; [|exact IH].
  cbn [none_of]. rewrite (unencrypted_classified (k, v)), IH. cbn [fst].
  f_equal. symmetry. apply negb_orb.
Qed.

(** X13. On the classifications of a document, [isDocumentCompliant]
    never raises, and its answer is decided by the names of the fields
    that hold a value, never by the values: encrypting a field changes
    nothing. A document with a value under [email], [phone] or
    [phoneNumber] is never compliant; [password], [creditCard], [gps] and
    [location] never count against it, whatever they hold. *)
Theorem isDocumentCompliant_by_name (ps ps' : props) :
  (exists answer, isDocumentCompliant (classify_props ps) = Some answer)
  /\ (map fst (List.filter (fun kv => negb (is_nullish (snd kv))) ps)
      = map fst (List.filter (fun kv => negb (is_nullish (snd kv))) ps') ->
      isDocumentCompliant (classify_props ps')
      = isDocumentCompliant (classify_props ps))
  /\ (forall k v,
        In k ["email"; "phone"; "phoneNumber"] -> In (k, v) ps ->
        is_nullish v = false ->
        isDocumentCompliant (classify_props ps) = Some false)
  /\ (forall k,
        In k ["password"; "creditCard"; "gps"; "location"] ->
        exposed k = false)
  /\ (Forall (fun kv => In (fst kv)
                          ["password"; "creditCard"; "gps"; "location"]) ps ->
      isDocumentCompliant (classify_props ps) = Some true).
Proof.
  split; [rewrite isDocumentCompliant_classified; now eexists|].
  split; [|split; [|split]].
  - intros E. rewrite !isDocumentCompliant_classified. do 2 f_equal.
    assert (X : forall l,
              existsb (fun kv : string * value =>
                         negb (is_nullish (snd kv)) && exposed (fst kv)) l
              = existsb exposed
                  (map fst (List.filter
                              (fun kv => negb (is_nullish (snd kv))) l))).
    { induction l as [|[k v] l IH]; [reflexivity|].
      cbn [existsb List.filter map fst snd].
      destruct (is_nullish v); cbn [negb andb orb map existsb fst];
        now rewrite IH. }
    now rewrite !X, E.
  - intros k v Ik I Nu. rewrite isDocumentCompliant_classified. f_equal.
    apply negb_false_iff, existsb_exists. exists (k, v). split; [exact I|].
    cbn [fst snd]. rewrite Nu. cbn [negb andb].
    destruct Ik as [<-|[<-|[<-|[]]]]; reflexivity.
  - intros k Ik. destruct Ik as [<-|[<-|[<-|[<-|[]]]]]; reflexivity.
  - intros F. rewrite isDocumentCompliant_classified. f_equal.
    apply negb_true_iff.
    induction F as [|[k v] l Ik _ IH]; [reflexivity|].
    cbn [existsb fst snd] in *. rewrite IH, orb_false_r.
    destruct Ik as [<-|[<-|[<-|[<-|[]]]]];
      now rewrite andb_false_r.
Qed.

End Adapters.

(** ** The consent ledger in use *)

Module Consents.
Import JS Sys Spec Reads Frame Fields Exec ConsentManager.

(** The preferences [recordConsent] writes. *)
Definition consent_preferences (options : consentOptions) : props :=
  [("necessary", VBool true);
   ("marketing", or_else (marketing options) (VBool false));
   ("analytics",
    match analytics options with
    | VUndef => VBool true
    | v => v
    end);
   ("personalization", or_else (personalization options) (VBool false));
   ("thirdPartySharing", or_else (thirdPartySharing options) (VBool false));
   ("internationalTransfer",
    or_else (internationalTransfer options) (VBool false))].

(** The preferences [withdrawConsent] writes for ['all']. *)
Definition withdrawn_preferences : props :=
  [("necessary", VBool true); ("marketing", VBool false);
   ("analytics", VBool false); ("personalization", VBool false);
   ("thirdPartySharing", VBool false); ("internationalTransfer", VBool false)].

(** Options that leave everything out. *)
Definition no_options : consentOptions :=
  ConsentOptions VUndef VUndef VUndef VUndef VUndef VUndef VUndef VUndef
    VUndef.

(** [v !== false]. *)
Definition asked (v : value) : bool := negb (value_eqb v (VBool false)).

(** Does a consent recorded with [options], whose preferences have become
    [preferences], allow a kind of processing? *)
Definition allows (options : consentOptions) (preferences : props)
    (processingType : string) : bool :=
  asked (specific options) && asked (informed options)
  && asked (unambiguous options)
  && (String.eqb processingType "necessary"
      || is_true (field_value (preference_key processingType) preferences)).

Lemma read_at w l o k :
  heap w !! l = Some o -> read (heap w) (VRef l) k = default VUndef (own o k).
Proof. intros At. unfold read. now rewrite At. Qed.

Lemma read_field w l ps hs k v :
  heap w !! l = Some (OObj ps hs) -> lookup_prop k ps = Some v ->
  read (heap w) (VRef l) k = v.
Proof. intros At L. rewrite (read_at w l _ k At). cbn [own]. now rewrite L. Qed.

(** [hasValidConsent] returns what the ledger says, unless the consent
    passes the check, the processing is not ['necessary'] and the consent
    has no preferences. *)
Lemma hasValidConsent_reads u t w :
  RuleEngine.is_nullish u = false ->
  (RuleEngine.is_nullish
     (read_path (heap w) u ["_consent"; "current"; "preferences"]) = false
   \/ compliant (heap w) (read_path (heap w) u ["_consent"; "current"])
      = false) ->
  hasValidConsent u t w = Ok (valid_consent (heap w) u t) w.
Proof.
  intros N P. unfold hasValidConsent, valid_consent, read_path in *.
  cbn [fold_left] in *. read_step N.
  set (ledger := read (heap w) u "_consent") in *.
  destruct (truthy ledger) eqn:TL; cbn [negb andb]; [|reflexivity].
  read_step TL.
  set (consent := read (heap w) ledger "current") in *.
  destruct (truthy consent) eqn:TC; cbn [negb].
  2: { unfold compliant. now rewrite TC. }
  destruct (Ledger.isGdprCompliantConsent_compliant consent w)
    as (r & E & Er).
  rewrite <- Er in *. erewrite bind_ok by exact E. cbv beta.
  destruct (truthy r) eqn:Tr; cbn [negb andb]; [|reflexivity].
  destruct (String.eqb t "necessary"); cbn [orb]; [reflexivity|].
  destruct P as [P|P]; [|congruence].
  read_step TC. now read_step P.
Qed.

End Consents.

(** ** [ConsentManager]: implicit consent *)

Module ImplicitConsent.
Import JS Sys ConsentManager.

Section Detect.
Context `{Platform} (cfg : config).

(** [context.source] is the argument. *)
Definition detectImplicitConsent (source : value) : M value :=
  let! recordedAt := now_iso in
  new_object
    [("version", VStr (defaultConsentVersion cfg));
     ("recordedAt", VStr recordedAt);
     ("lawfulBasis", VStr "legitimate_interest");
     ("purpose", VStr "essential_operations");
     ("specific", VBool false);
     ("informed", VBool false);
     ("unambiguous", VBool false);
     ("detectedFrom", or_else source (VStr "implicit"));
     ("requiresExplicitConfirmation", VBool true)].

End Detect.
End ImplicitConsent.

Module Ledgers.
Import JS Sys Spec Reads Frame Fields Exec ConsentManager Consents ImplicitConsent.

(** The consent object [recordConsent] builds, its preferences being at
    [p]. *)
Definition consent_record (cfg : config) (options : consentOptions)
    (context : requestContext) (recordedAt : string) (p : nat) : props :=
  [("version", VStr (defaultConsentVersion cfg));
   ("recordedAt", VStr recordedAt);
   ("ipAddress", ipAddress context);
   ("userAgent", userAgent context);
   ("lawfulBasis", VStr "consent");
   ("purpose", or_else (purpose options) (VStr "general_processing"));
   ("specific", not_false (specific options));
   ("informed", not_false (informed options));
   ("unambiguous", not_false (unambiguous options));
   ("preferences", VRef p);
   ("regulation", VStr "GDPR");
   ("article", VStr "Article_7");
   ("requiresExplicitAction", VBool true);
   ("canWithdraw", VBool true);
   ("withdrawalMethod", VStr "same_as_consent_method");
   ("withdrawalRecorded", VBool false)].

Ltac lens :=
  cbn [heap];
  repeat first [rewrite length_insert | rewrite length_app];
  cbn [length]; lia.

Ltac lookup_in :=
  cbn [heap];
  repeat first
    [ rewrite list_lookup_insert_eq by lens
    | rewrite list_lookup_insert_ne by lens
    | rewrite lookup_app_l by lens ];
  first [ eassumption | apply list_lookup_middle; reflexivity | reflexivity ].

Ltac exec tac := erewrite bind_ok by tac; cbv beta; cbn [heap ticks draws].

Section Use.
Context `{Platform} (cfg : config).

(** The store after a first [recordConsent] on the record at [l]. *)
Definition recorded (l : nat) (ps : props) (options : consentOptions)
    (context : requestContext) (w : world) : world :=
  let n := length (heap w) in
  World
    (<[l := OObj (assign "_consent" (VRef (n + 1 + 1 + 1)) ps) []]>
       ((((heap w ++ [OObj (consent_preferences options) []])
          ++ [OObj (consent_record cfg options context
                      (toISOString (clock (ticks w))) n) []])
         ++ [OArr []])
        ++ [OObj [("current", VRef (n + 1)); ("history", VRef (n + 1 + 1))]
              []]))
    (S (ticks w)) (draws w).

Lemma recordConsent_first l ps options context w :
  heap w !! l = Some (OObj ps []) ->
  truthy (field_value "_consent" ps) = false ->
  recordConsent cfg (VRef l) options context w
  = Ok (VRef l) (recorded l ps options context w).
Proof.
  intros At F. unfold recordConsent.
  exec ltac:(reflexivity). exec ltac:(reflexivity). exec ltac:(reflexivity).
  exec ltac:(apply get_field; find_object).
  rewrite F. cbn [negb].
  exec ltac:(reflexivity). exec ltac:(reflexivity).
  exec ltac:(apply set_field; find_object).
  unfold ret, recorded. rewrite !length_app. cbn [length]. reflexivity.
Qed.

Lemma recorded_shape l ps options context w :
  heap w !! l = Some (OObj ps []) ->
  let n := length (heap w) in
  let w1 := recorded l ps options context w in
  (l < n)%nat
  /\ length (heap w1) = (n + 4)%nat
  /\ heap w1 !! l = Some (OObj (assign "_consent" (VRef (n + 3)) ps) [])
  /\ heap w1 !! n = Some (OObj (consent_preferences options) [])
  /\ heap w1 !! (n + 1)%nat
     = Some (OObj (consent_record cfg options context
                     (toISOString (clock (ticks w))) n) [])
  /\ heap w1 !! (n + 2)%nat = Some (OArr [])
  /\ heap w1 !! (n + 3)%nat
     = Some (OObj [("current", VRef (n + 1)); ("history", VRef (n + 2))] []).
Proof.
  intros At n w1. pose proof (lookup_lt_Some _ _ _ At) as Ll. fold n in Ll.
  unfold w1, recorded. fold n. cbn [heap].
  replace (n + 1 + 1 + 1)%nat with (n + 3)%nat by lia.
  replace (n + 1 + 1)%nat with (n + 2)%nat by lia.
  rewrite <- !app_assoc. cbn [app].
  split; [exact Ll|]. split; [rewrite length_insert, length_app; cbn; lia|].
  split; [apply list_lookup_insert_eq; rewrite length_app; lia|].
  rewrite !list_lookup_insert_ne by lia.
  split; [now apply list_lookup_middle|].
  repeat split; rewrite lookup_app_r by (fold n; lia); fold n.
  - now replace (n + 1 - n)%nat with 1%nat by lia.
  - now replace (n + 2 - n)%nat with 2%nat by lia.
  - now replace (n + 3 - n)%nat with 3%nat by lia.
Qed.

Lemma read_fields w l ps k :
  heap w !! l = Some (OObj ps []) ->
  read (heap w) (VRef l) k = field_value k ps.
Proof.
  intros At. rewrite (read_at w l _ k At). cbn [own]. unfold field_value.
  now destruct (lookup_prop k ps).
Qed.

Lemma truthy_text s : s <> EmptyString -> truthy (VStr s) = true.
Proof. destruct s; [contradiction|reflexivity]. Qed.

Lemma truthy_or_else a b : truthy b = true -> truthy (or_else a b) = true.
Proof. intros T. unfold or_else. now destruct (truthy a) eqn:E. Qed.

(** X14. A consent detected from the context alone never passes: the
    object [detectImplicitConsent] builds fails [isGdprCompliantConsent],
    and a record whose current consent it is has no valid consent for any
    kind of processing, ['necessary'] included. *)
Theorem detectImplicitConsent_never_valid (source : value) (w : world) :
  exists w',
    detectImplicitConsent cfg source w = Ok (VRef (length (heap w))) w'
    /\ grows w w'
    /\ isGdprCompliantConsent (VRef (length (heap w))) w'
       = Ok (VBool false) w'
    /\ forall userData processingType,
         read_path (heap w') userData ["_consent"; "current"]
         = VRef (length (heap w)) ->
         hasValidConsent userData processingType w' = Ok false w'.
Proof.
  eexists. split; [reflexivity|].
  match goal with |- grows w ?x /\ _ => set (w' := x) end.
  assert (At : forall k,
            read (heap w') (VRef (length (heap w))) k
            = default VUndef
                (own (OObj
                        [("version", VStr (defaultConsentVersion cfg));
                         ("recordedAt", VStr (toISOString (clock (ticks w))));
                         ("lawfulBasis", VStr "legitimate_interest");
                         ("purpose", VStr "essential_operations");
                         ("specific", VBool false);
                         ("informed", VBool false);
                         ("unambiguous", VBool false);
                         ("detectedFrom", or_else source (VStr "implicit"));
                         ("requiresExplicitConfirmation", VBool true)] [])
                   k)).
  { intros k. apply Store.read_fresh. }
  split; [unfold w'; cbn [heap ticks draws]; apply grows_alloc|]. split.
  - unfold isGdprCompliantConsent. cbn [truthy negb].
    erewrite bind_ok by apply get_ref. cbv beta. now rewrite At.
  - intros u t P.
    assert (C : compliant (heap w') (VRef (length (heap w))) = false).
    { unfold compliant. now rewrite !At. }
    assert (N : RuleEngine.is_nullish u = false).
    { destruct u; try reflexivity; cbn in P; discriminate P. }
    rewrite hasValidConsent_reads; [|exact N|right; now rewrite P].
    unfold valid_consent. rewrite P, C. now rewrite andb_false_r.
Qed.

(** What the ledger says of a record whose current consent was recorded
    with [options] at [c], its preferences [prefs] lying at [p]. *)
Lemma valid_consent_recorded w l a c p ps ls cs prefs options context at_ t :
  heap w !! l = Some (OObj ps []) ->
  field_value "_consent" ps = VRef a ->
  heap w !! a = Some (OObj ls []) ->
  field_value "current" ls = VRef c ->
  heap w !! c = Some (OObj cs []) ->
  (forall k, In k ["specific"; "informed"; "unambiguous"; "recordedAt";
                   "purpose"; "canWithdraw"; "preferences"] ->
             field_value k cs
             = field_value k (consent_record cfg options context at_ p)) ->
  at_ <> EmptyString ->
  heap w !! p = Some (OObj prefs []) ->
  hasValidConsent (VRef l) t w = Ok (allows options prefs t) w.
Proof.
  intros Al Ea Aa Ec Ac Same Ne Ap.
  assert (R1 : read (heap w) (VRef l) "_consent" = VRef a)
    by now rewrite (read_fields w l ps).
  assert (R2 : read (heap w) (VRef a) "current" = VRef c)
    by now rewrite (read_fields w a ls).
  assert (R3 : forall k,
            In k ["specific"; "informed"; "unambiguous"; "recordedAt";
                  "purpose"; "canWithdraw"; "preferences"] ->
            read (heap w) (VRef c) k
            = field_value k (consent_record cfg options context at_ p)).
  { intros k I. rewrite (read_fields w c cs) by exact Ac. now apply Same. }
  rewrite hasValidConsent_reads; [|reflexivity|].
  2: { left. unfold read_path. cbn [fold_left].
       rewrite R1, R2, R3 by (cbn; tauto). reflexivity. }
  f_equal. unfold valid_consent, compliant, read_path, allows.
  cbn [fold_left]. rewrite R1, R2.
  rewrite !R3 by (cbn; tauto).
  cbn [field_value consent_record lookup_prop String.eqb Ascii.eqb Bool.eqb
       default id truthy is_true not_false].
  rewrite (read_fields w p prefs) by exact Ap.
  destruct at_; [contradiction|].
  rewrite truthy_or_else by reflexivity. unfold asked.
  destruct (negb (value_eqb (specific options) (VBool false))),
    (negb (value_eqb (informed options) (VBool false))),
    (negb (value_eqb (unambiguous options) (VBool false))); reflexivity.
Qed.

Lemma allows_by_default t :
  allows no_options (consent_preferences no_options) t = true
  <-> t = "necessary" \/ t = "analytics".
Proof.
  unfold allows, no_options, preference_key, consent_preferences,
    field_value, asked, or_else.
  cbn [specific informed unambiguous value_eqb negb andb marketing analytics
       personalization thirdPartySharing internationalTransfer truthy
       lookup_prop].
  destruct (String.eqb_spec t "necessary") as [->|N]; [cbn; tauto|].
  destruct (String.eqb_spec t "third_party_sharing") as [->|N1];
    [cbn; split; [discriminate|intros [E|E]; discriminate E]|].
  destruct (String.eqb_spec t "international_transfer") as [->|N2];
    [cbn; split; [discriminate|intros [E|E]; discriminate E]|].
  cbn [orb].
  destruct (String.eqb_spec t "marketing") as [->|_];
    [cbn; split; [discriminate|intros [E|E]; discriminate E]|].
  destruct (String.eqb_spec t "analytics") as [->|N3]; [cbn; tauto|].
  rewrite (proj2 (String.eqb_neq _ _) N).
  destruct (String.eqb t "personalization"),
    (String.eqb t "thirdPartySharing"),
    (String.eqb t "internationalTransfer");
    cbn; (split; [discriminate|intros [E|E]; congruence]).
Qed.

(** X15. After a first [recordConsent] on a record, the ledger allows a
    kind of processing exactly when the options did not set [specific],
    [informed] or [unambiguous] to [false] and either the processing is
    ['necessary'] or the recorded preference of that kind is [true]. With
    no options at all this is so for ['necessary'] and ['analytics'] and
    for nothing else. *)
Theorem recordConsent_grants (l : nat) (ps : props)
    (options : consentOptions) (context : requestContext)
    (processingType : string) (w : world) :
  heap w !! l = Some (OObj ps []) ->
  truthy (field_value "_consent" ps) = false ->
  toISOString (clock (ticks w)) <> EmptyString ->
  exists w',
    recordConsent cfg (VRef l) options context w = Ok (VRef l) w'
    /\ hasValidConsent (VRef l) processingType w'
       = Ok (allows options (consent_preferences options) processingType) w'
    /\ (allows no_options (consent_preferences no_options) processingType
        = true
        <-> processingType = "necessary" \/ processingType = "analytics").
Proof.
  intros At F Ne. exists (recorded l ps options context w).
  split; [now apply recordConsent_first|]. split; [|apply allows_by_default].
  destruct (recorded_shape l ps options context w At)
    as (Ll & Len & Al & Ap & Ac & Ah & Aa).
  cbv zeta in *.
  eapply (valid_consent_recorded _ l _ _ _ _ _ _ _ options context);
    [exact Al| |exact Aa|reflexivity|exact Ac|reflexivity|exact Ne|exact Ap].
  unfold field_value. now rewrite lookup_assign, String.eqb_refl.
Qed.

Lemma push_at l vs x w :
  heap w !! l = Some (OArr vs) ->
  push (VRef l) x w
  = Ok tt (World (<[l := OArr (vs ++ [x])]> (heap w)) (ticks w) (draws w)).
Proof. intros At. unfold push. now rewrite At. Qed.

Lemma field_value_assigned k x ps : field_value k (assign k x ps) = x.
Proof. unfold field_value. now rewrite lookup_assign, String.eqb_refl. Qed.

(** The preferences after [withdrawConsent]. *)
Definition after_withdrawal (consentType : string) (preferences : props)
    : props :=
  if String.eqb consentType "all" then withdrawn_preferences
  else assign consentType (VBool false) preferences.

Lemma withdrawConsent_recorded l ps options context consentType requester
    processingType w :
  heap w !! l = Some (OObj ps []) ->
  truthy (field_value "_consent" ps) = false ->
  toISOString (clock (ticks w)) <> EmptyString ->
  exists w2,
    withdrawConsent (VRef l) consentType requester
      (recorded l ps options context w) = Ok (VRef l) w2
    /\ hasValidConsent (VRef l) processingType w2
       = Ok (allows options
               (after_withdrawal consentType (consent_preferences options))
               processingType) w2.
Proof.
  intros At F Ne.
  destruct (recorded_shape l ps options context w At)
    as (Ll & Len & Al & Ap & Ac & Ah & Aa).
  cbv zeta in *.
  set (n := length (heap w)) in *.
  set (w1 := recorded l ps options context w) in *.
  assert (T1 : ticks w1 = S (ticks w)) by reflexivity.
  clearbody w1.
  unfold withdrawConsent, after_withdrawal.
  exec ltac:(apply get_field; lookup_in).
  rewrite field_value_assigned. cbn [truthy negb].
  exec ltac:(reflexivity).
  exec ltac:(apply get_field; lookup_in).
  cbn [field_value lookup_prop String.eqb Ascii.eqb Bool.eqb default id].
  exec ltac:(eapply (spread_at (n + 1)); lookup_in).
  exec ltac:(reflexivity).
  destruct (String.eqb consentType "all").
  - exec ltac:(erewrite bind_ok by reflexivity; cbv beta;
               cbn [heap ticks draws];
               erewrite bind_ok by (apply set_field; lookup_in); cbv beta;
               cbn [heap ticks draws];
               apply set_field; lookup_in).
    exec ltac:(apply set_field; lookup_in).
    exec ltac:(apply set_field; lookup_in).
    exec ltac:(apply get_field; lookup_in).
    cbn [field_value lookup_prop String.eqb Ascii.eqb Bool.eqb default id
         truthy negb].
    exec ltac:(erewrite bind_ok by reflexivity; cbv beta;
               cbn [heap ticks draws]; apply set_field; lookup_in).
    exec ltac:(apply get_field; lookup_in).
    rewrite field_value_assigned.
    exec ltac:(apply push_at; lookup_in).
    eexists. split; [reflexivity|].
    eapply (valid_consent_recorded _ l (n + 3) (n + 1) _ _ _ _ _
              options context (toISOString (clock (ticks w))));
      [lookup_in|apply field_value_assigned|lookup_in|reflexivity|lookup_in
      |intros k I; cbn in I;
       repeat (destruct I as [<-|I]; [reflexivity|]); destruct I
      |exact Ne|lookup_in].
  - exec ltac:(erewrite bind_ok by (apply get_field; lookup_in); cbv beta;
               cbn [field_value consent_record lookup_prop String.eqb
                    Ascii.eqb Bool.eqb default id];
               apply set_field; lookup_in).
    exec ltac:(apply set_field; lookup_in).
    exec ltac:(apply set_field; lookup_in).
    exec ltac:(apply get_field; lookup_in).
    cbn [field_value lookup_prop String.eqb Ascii.eqb Bool.eqb default id
         truthy negb].
    exec ltac:(erewrite bind_ok by reflexivity; cbv beta;
               cbn [heap ticks draws]; apply set_field; lookup_in).
    exec ltac:(apply get_field; lookup_in).
    rewrite field_value_assigned.
    exec ltac:(apply push_at; lookup_in).
    eexists. split; [reflexivity|].
    eapply (valid_consent_recorded _ l (n + 3) (n + 1) n _ _ _ _
              options context (toISOString (clock (ticks w))));
      [lookup_in|apply field_value_assigned|lookup_in|reflexivity|lookup_in
      |intros k I; cbn in I;
       repeat (destruct I as [<-|I]; [reflexivity|]); destruct I
      |exact Ne|lookup_in].
Qed.

Lemma allows_after_all options preferences t :
  allows options (after_withdrawal "all" preferences) t
  = asked (specific options) && asked (informed options)
    && asked (unambiguous options) && String.eqb t "necessary".
Proof.
  unfold allows, after_withdrawal, withdrawn_preferences, preference_key,
    field_value.
  cbn [String.eqb Ascii.eqb Bool.eqb lookup_prop]. f_equal.
  destruct (String.eqb_spec t "necessary") as [->|N]; [reflexivity|].
  destruct (String.eqb t "third_party_sharing"); [reflexivity|].
  destruct (String.eqb t "international_transfer"); [reflexivity|].
  rewrite (proj2 (String.eqb_neq _ _) N).
  now destruct (String.eqb t "marketing"), (String.eqb t "analytics"),
    (String.eqb t "personalization"), (String.eqb t "thirdPartySharing"),
    (String.eqb t "internationalTransfer").
Qed.

(** X16. Withdrawing before and after a first [recordConsent]. On a
    record without consent [withdrawConsent] throws and changes nothing.
    Once consent is recorded it returns the record, and what the ledger
    then allows is what the
    consent allowed with the withdrawn preference set to [false], or, for
    ['all'], with every preference but [necessary] set to [false]. So
    ['marketing'], ['analytics'] and ['personalization'] are no longer
    allowed once withdrawn, and after ['all'] only ['necessary'] is. A
    withdrawal of ['third_party_sharing'] or ['international_transfer']
    changes nothing of what [hasValidConsent] answers for that kind: it
    is written under that name, and read under [thirdPartySharing] and
    [internationalTransfer]. *)
Theorem withdrawConsent_revokes (l : nat) (ps : props)
    (options : consentOptions) (context requester : requestContext)
    (consentType processingType : string) (w : world) :
  heap w !! l = Some (OObj ps []) ->
  truthy (field_value "_consent" ps) = false ->
  toISOString (clock (ticks w)) <> EmptyString ->
  withdrawConsent (VRef l) consentType requester w
  = Throw "No consent records found for user" w
  /\ exists w1 w2,
    recordConsent cfg (VRef l) options context w = Ok (VRef l) w1
    /\ withdrawConsent (VRef l) consentType requester w1 = Ok (VRef l) w2
    /\ hasValidConsent (VRef l) processingType w2
       = Ok (allows options
               (after_withdrawal consentType (consent_preferences options))
               processingType) w2
    /\ (In consentType ["marketing"; "analytics"; "personalization"] ->
        allows options
          (after_withdrawal consentType (consent_preferences options))
          consentType = false)
    /\ allows options
         (after_withdrawal "all" (consent_preferences options))
         processingType
       = asked (specific options) && asked (informed options)
         && asked (unambiguous options)
         && String.eqb processingType "necessary"
    /\ (In consentType ["third_party_sharing"; "international_transfer"] ->
        allows options
          (after_withdrawal consentType (consent_preferences options))
          consentType
        = allows options (consent_preferences options) consentType).
Proof.
  intros At F Ne.
  destruct (withdrawConsent_recorded l ps options context consentType
              requester processingType w At F Ne) as (w2 & E2 & V2).
  split.
  { unfold withdrawConsent. exec ltac:(apply get_field; exact At).
    now rewrite F. }
  exists (recorded l ps options context w), w2.
  split; [now apply recordConsent_first|]. split; [exact E2|].
  split; [exact V2|]. split; [|split; [apply allows_after_all|]].
  - intros [<-|[<-|[<-|[]]]]; unfold allows; cbn; now rewrite andb_false_r.
  - intros [<-|[<-|[]]]; reflexivity.
Qed.

(** X17. A second [recordConsent] supersedes the first: the record is
    returned, the consent that was current becomes the one entry of the
    history, untouched, and the ledger then allows what the new options
    say (the second time stamp not being empty). *)
Theorem recordConsent_supersedes (l : nat) (ps : props)
    (first second : consentOptions) (context again : requestContext)
    (processingType : string) (w : world) :
  heap w !! l = Some (OObj ps []) ->
  truthy (field_value "_consent" ps) = false ->
  toISOString (clock (S (ticks w))) <> EmptyString ->
  exists w1 w2 superseded,
    recordConsent cfg (VRef l) first context w = Ok (VRef l) w1
    /\ recordConsent cfg (VRef l) second again w1 = Ok (VRef l) w2
    /\ read_path (heap w1) (VRef l) ["_consent"; "current"]
       = VRef superseded
    /\ read_path (heap w2) (VRef l) ["_consent"; "history"; "length"]
       = VNum 1
    /\ read_path (heap w2) (VRef l) ["_consent"; "history"; "0"]
       = VRef superseded
    /\ heap w2 !! superseded = heap w1 !! superseded
    /\ read_path (heap w2) (VRef l) ["_consent"; "current"]
       <> VRef superseded
    /\ hasValidConsent (VRef l) processingType w2
       = Ok (allows second (consent_preferences second) processingType) w2.
Proof.
  intros At F Ne.
  destruct (recorded_shape l ps first context w At)
    as (Ll & Len & Al & Ap & Ac & Ah & Aa).
  cbv zeta in *.
  set (n := length (heap w)) in *.
  exists (recorded l ps first context w).
  set (w1 := recorded l ps first context w) in *.
  assert (T1 : ticks w1 = S (ticks w)) by reflexivity.
  assert (R1 : read_path (heap w1) (VRef l) ["_consent"; "current"]
               = VRef (n + 1)).
  { unfold read_path. cbn [fold_left].
    rewrite (read_fields w1 l _ _ Al), field_value_assigned.
    now rewrite (read_fields w1 (n + 3) _ _ Aa). }
  assert (E1 : recordConsent cfg (VRef l) first context w = Ok (VRef l) w1)
    by now apply recordConsent_first.
  clearbody w1.
  assert (E2 : exists w2,
            recordConsent cfg (VRef l) second again w1 = Ok (VRef l) w2
            /\ heap w2 !! l
               = Some (OObj (assign "_consent" (VRef (n + 3)) ps) [])
            /\ heap w2 !! (n + 3)%nat
               = Some (OObj [("current", VRef (length (heap w1) + 1));
                             ("history", VRef (n + 2))] [])
            /\ heap w2 !! (n + 2)%nat = Some (OArr [VRef (n + 1)])
            /\ heap w2 !! (n + 1)%nat = heap w1 !! (n + 1)%nat
            /\ heap w2 !! (length (heap w1) + 1)%nat
               = Some (OObj (consent_record cfg second again
                               (toISOString (clock (ticks w1)))
                               (length (heap w1))) [])
            /\ heap w2 !! length (heap w1)
               = Some (OObj (consent_preferences second) [])).
  { unfold recordConsent.
    exec ltac:(reflexivity). exec ltac:(reflexivity).
    exec ltac:(reflexivity).
    exec ltac:(apply get_field; lookup_in).
    rewrite field_value_assigned. cbn [truthy negb].
    exec ltac:(apply get_field; lookup_in).
    exec ltac:(apply get_field; lookup_in).
    cbn [field_value lookup_prop String.eqb Ascii.eqb Bool.eqb default id].
    exec ltac:(apply push_at; lookup_in).
    exec ltac:(apply set_field; lookup_in).
    eexists. split; [reflexivity|]. cbn [heap assign String.eqb Ascii.eqb
                                           Bool.eqb app].
    rewrite !length_app. cbn [length].
    split; [lookup_in|]. split; [lookup_in|]. split; [lookup_in|].
    split; [now lookup_in|]. split.
    - rewrite !list_lookup_insert_ne by lens.
      replace (length (heap w1) + 1)%nat
        with (length (heap w1 ++ [OObj (consent_preferences second) []]))
        by (rewrite length_app; reflexivity).
      now apply list_lookup_middle.
    - rewrite !list_lookup_insert_ne by lens.
      rewrite lookup_app_l by lens. now apply list_lookup_middle. }
  destruct E2 as (w2 & E2 & Bl & Ba & Bh & Bc & Bc2 & Bp).
  exists w2, (n + 1)%nat.
  split; [exact E1|]. split; [exact E2|]. split; [exact R1|].
  assert (Q : read (heap w2) (VRef l) "_consent" = VRef (n + 3))
    by now rewrite (read_fields w2 l _ _ Bl), field_value_assigned.
  unfold read_path. cbn [fold_left]. rewrite !Q.
  rewrite !(read_fields w2 (n + 3) _ _ Ba).
  cbn [field_value lookup_prop String.eqb Ascii.eqb Bool.eqb default id].
  rewrite !(read_at w2 (n + 2) _ _ Bh).
  split; [reflexivity|]. split; [reflexivity|]. split; [exact Bc|].
  split; [intros [= E]; lia|].
  eapply (valid_consent_recorded _ l (n + 3) _ _ _ _ _ _ second again);
    [exact Bl|apply field_value_assigned|exact Ba|reflexivity|exact Bc2
    |reflexivity|rewrite T1; exact Ne|exact Bp].
Qed.

End Use.

(** A visitor's record, and the store that holds only it. *)
Definition visitor : world :=
  World [OObj [("email", VStr "a@b.com")] []] 0 0.

Definition browser : requestContext :=
  RequestContext (VStr "10.0.0.1") (VStr "Mozilla").

(** [recordConsent_grants] on the visitor, with no options, for
    analytics. *)
Lemma recordConsent_grants_witness :
  exists w',
    recordConsent (H := Toy.platform) Toy.cfg (VRef 0) no_options browser
      visitor = Ok (VRef 0) w'
    /\ hasValidConsent (VRef 0) "analytics" w'
       = Ok (allows no_options (consent_preferences no_options) "analytics")
            w'
    /\ (allows no_options (consent_preferences no_options) "analytics" = true
        <-> "analytics" = "necessary" \/ "analytics" = "analytics").
Proof.
  apply (recordConsent_grants (H := Toy.platform) Toy.cfg 0
           [("email", VStr "a@b.com")] no_options browser "analytics"
           visitor).
  - reflexivity.
  - reflexivity.
  - vm_compute. discriminate.
Defined.

(** Options that grant marketing. *)
Definition with_marketing : consentOptions :=
  ConsentOptions VUndef VUndef VUndef VUndef (VBool true) VUndef VUndef VUndef
    VUndef.

(** [withdrawConsent_revokes] on the visitor: marketing granted, then
    withdrawn. *)
Lemma withdrawConsent_revokes_witness :
  withdrawConsent (H := Toy.platform) (VRef 0) "marketing" browser visitor
  = Throw "No consent records found for user" visitor
  /\ exists w1 w2,
    recordConsent (H := Toy.platform) Toy.cfg (VRef 0) with_marketing browser
      visitor = Ok (VRef 0) w1
    /\ withdrawConsent (H := Toy.platform) (VRef 0) "marketing" browser w1
       = Ok (VRef 0) w2
    /\ hasValidConsent (VRef 0) "marketing" w2
       = Ok (allows with_marketing
               (after_withdrawal "marketing"
                  (consent_preferences with_marketing)) "marketing") w2
    /\ (In "marketing" ["marketing"; "analytics"; "personalization"] ->
        allows with_marketing
          (after_withdrawal "marketing" (consent_preferences with_marketing))
          "marketing" = false)
    /\ allows with_marketing
         (after_withdrawal "all" (consent_preferences with_marketing))
         "marketing"
       = asked (specific with_marketing) && asked (informed with_marketing)
         && asked (unambiguous with_marketing)
         && String.eqb "marketing" "necessary"
    /\ (In "marketing" ["third_party_sharing"; "international_transfer"] ->
        allows with_marketing
          (after_withdrawal "marketing" (consent_preferences with_marketing))
          "marketing"
        = allows with_marketing (consent_preferences with_marketing)
            "marketing").
Proof.
  apply (withdrawConsent_revokes (H := Toy.platform) Toy.cfg 0
           [("email", VStr "a@b.com")] with_marketing browser browser
           "marketing" "marketing" visitor).
  - reflexivity.
  - reflexivity.
  - vm_compute. discriminate.
Defined.

(** [recordConsent_supersedes] on the visitor: no options, then
    marketing. *)
Lemma recordConsent_supersedes_witness :
  exists w1 w2 superseded,
    recordConsent (H := Toy.platform) Toy.cfg (VRef 0) no_options browser
      visitor = Ok (VRef 0) w1
    /\ recordConsent (H := Toy.platform) Toy.cfg (VRef 0) with_marketing
         browser w1 = Ok (VRef 0) w2
    /\ read_path (heap w1) (VRef 0) ["_consent"; "current"]
       = VRef superseded
    /\ read_path (heap w2) (VRef 0) ["_consent"; "history"; "length"]
       = VNum 1
    /\ read_path (heap w2) (VRef 0) ["_consent"; "history"; "0"]
       = VRef superseded
    /\ heap w2 !! superseded = heap w1 !! superseded
    /\ read_path (heap w2) (VRef 0) ["_consent"; "current"]
       <> VRef superseded
    /\ hasValidConsent (VRef 0) "marketing" w2
       = Ok (allows with_marketing (consent_preferences with_marketing)
               "marketing") w2.
Proof.
  apply (recordConsent_supersedes (H := Toy.platform) Toy.cfg 0
           [("email", VStr "a@b.com")] no_options with_marketing browser
           browser "marketing" visitor).
  - reflexivity.
  - reflexivity.
  - vm_compute. discriminate.
Defined.

End Ledgers.

(** *** What the adapters make of a processed record *)

Module Verdict.
Import JS Sys Spec Reads Frame Fields Exec LawSteps RuleEngine Passes.
Import Mongo Adapters.

(** Does a field that holds a value bear an exposed name? *)
Definition flagged (ps : props) : bool :=
  existsb (fun kv => negb (is_nullish (snd kv)) && exposed (fst kv)) ps.

Lemma flagged_assign k x ps :
  exposed k = false -> flagged (assign k x ps) = flagged ps.
Proof.
  intros E. unfold flagged.
  induction ps as [|[k' v'] ps IH]; cbn [assign existsb fst snd].
  - now rewrite E, andb_false_r.
  - destruct (String.eqb_spec k k') as [<-|N]; cbn [existsb fst snd].
    + now rewrite !E, !andb_false_r.
    + now rewrite IH.
Qed.

Lemma flagged_remove k ps :
  exposed k = false -> flagged (remove_key k ps) = flagged ps.
Proof.
  intros E. unfold flagged.
  induction ps as [|[k' v'] ps IH]; cbn [remove_key existsb fst snd];
    [reflexivity|].
  destruct (String.eqb_spec k k') as [<-|N]; cbn [existsb fst snd].
  - now rewrite E, andb_false_r.
  - now rewrite IH.
Qed.

Lemma flagged_fill k x ps :
  exposed k = false -> flagged (fill k x ps) = flagged ps.
Proof.
  intros E. unfold fill. destruct (truthy _); [reflexivity|].
  now apply flagged_assign.
Qed.

Lemma flagged_law context law x y ps :
  flagged (law_props context law x y ps) = flagged ps.
Proof.
  unfold law_props, minimized.
  repeat match goal with
         | |- context [if ?b then _ else _] => destruct b
         end;
    rewrite ?flagged_fill, ?flagged_remove, ?flagged_fill by reflexivity;
    reflexivity.
Qed.

Lemma flagged_laws context laws : forall xs ps,
  flagged (laws_props context laws xs ps) = flagged ps.
Proof.
  induction laws as [|law laws IH]; intros [|[x y] xs] ps;
    cbn [laws_props]; try reflexivity.
  now rewrite IH, flagged_law.
Qed.

Lemma flagged_kept a b : Forall2 kept_or_sealed a b -> flagged b = flagged a.
Proof.
  unfold flagged. induction 1 as [|[k v] [k' v'] a b [Hk Hv] _ IH];
    [reflexivity|].
  cbn [existsb fst snd] in *. subst k'. rewrite IH. f_equal. f_equal.
  destruct Hv as [->|[Tv Tv']]; [reflexivity|].
  now destruct v, v'.
Qed.

(** X18. Processing a record changes nothing of what
    [isDocumentCompliant] answers for it: the answer for the
    classifications of the record [process] returns is the answer for
    those of the record it was given. A record with a value under [email],
    [phone] or [phoneNumber] is therefore not compliant after processing
    either, although the value is then encrypted. *)
Theorem process_keeps_verdict `{Platform} (cfg : config) (l : nat)
    (ps hs : props) (C : RuleEngine.context) (w : world) :
  closed w -> is_record w (VRef l) -> heap w !! l = Some (OObj ps hs) ->
  exists r w' fields,
    process cfg (VRef l) C w = Ok r w'
    /\ classifyData (VRef l) w = Ok (classify_props ps) w
    /\ classifyData (RuleEngine.data r) w' = Ok (classify_props fields) w'
    /\ isDocumentCompliant (classify_props fields)
       = isDocumentCompliant (classify_props ps)
    /\ ((exists k v, In k ["email"; "phone"; "phoneNumber"]
                     /\ In (k, v) ps /\ is_nullish v = false) ->
        isDocumentCompliant (classify_props fields) = Some false).
Proof.
  intros Cw [D R0] At.
  destruct (process_spec cfg (VRef l) C w)
    as (r & w' & E & lf & psf & x & Hd & L & Atf & G & Sh).
  rewrite <- List.Forall_map in R0.
  destruct (Sh Cw D R0) as (xs & psE & Lx & Tx & -> & K & _ & _ & C').
  cbv zeta in *.
  assert (P : spread_props (heap w) (VRef l) = ps)
    by (unfold spread_props; now rewrite At).
  rewrite P in *.
  assert (V : isDocumentCompliant
                (classify_props (remove_key "_compliance" psE))
              = isDocumentCompliant (classify_props ps)).
  { rewrite !isDocumentCompliant_classified. do 2 f_equal.
    change (flagged (remove_key "_compliance" psE) = flagged ps).
    rewrite flagged_remove by reflexivity.
    now rewrite (flagged_kept _ _ K), flagged_laws. }
  exists r, w', (remove_key "_compliance" psE).
  split; [exact E|]. split; [now apply (classifyData_at l ps hs)|].
  split; [rewrite Hd; now apply (classifyData_at lf _ _ w' Atf)|].
  split; [exact V|].
  intros (k & v & Ik & I & Nu). rewrite V, isDocumentCompliant_classified.
  f_equal. apply negb_false_iff, existsb_exists. exists (k, v).
  split; [exact I|]. cbn [fst snd]. rewrite Nu. cbn [negb andb].
  destruct Ik as [<-|[<-|[<-|[]]]]; reflexivity.
Qed.

(** [process_keeps_verdict] on the applicant of [Idempotence]. *)
Lemma process_keeps_verdict_witness :
  exists r w' fields,
    process (H := Toy.platform) Toy.cfg (VRef 0) Idempotence.registration
      Idempotence.applicant = Ok r w'
    /\ classifyData (VRef 0) Idempotence.applicant
       = Ok (classify_props
               (spread_props (heap Idempotence.applicant) (VRef 0)))
            Idempotence.applicant
    /\ classifyData (RuleEngine.data r) w' = Ok (classify_props fields) w'
    /\ isDocumentCompliant (classify_props fields)
       = isDocumentCompliant
           (classify_props
              (spread_props (heap Idempotence.applicant) (VRef 0)))
    /\ ((exists k v, In k ["email"; "phone"; "phoneNumber"]
                     /\ In (k, v)
                          (spread_props (heap Idempotence.applicant) (VRef 0))
                     /\ is_nullish v = false) ->
        isDocumentCompliant (classify_props fields) = Some false).
Proof.
  apply (process_keeps_verdict (H := Toy.platform) Toy.cfg 0 _ []
           Idempotence.registration Idempotence.applicant).
  - exact Idempotence.applicant_closed.
  - exact Idempotence.applicant_is_record.
  - reflexivity.
Defined.

End Verdict.

(** *** The fields of a processed record, one by one *)

Module Trail.
Import JS Sys JSON Spec Reads Frame Fields Exec LawSteps RuleEngine.
Import Sealing Attach Passes Idempotence DataEncryptor.

(** The laws write to four fields only. *)
Lemma laws_keep k context xs ps :
  length xs = length (determineApplicableLaws context) ->
  String.eqb k "gps" = false -> String.eqb k "_consent" = false ->
  String.eqb k "_deletionMetadata" = false ->
  String.eqb k "_ccpaRights" = false ->
  field_value k (laws_props context (determineApplicableLaws context) xs ps)
  = field_value k ps.
Proof.
  intros Lx N1 N2 N3 N4.
  destruct (laws_cases context) as [L'|[L'|[L'|L']]]; rewrite L' in *;
    repeat (destruct xs as [|[? ?] xs]; try discriminate Lx);
    cbn [laws_props]; unfold law_props;
    cbn [String.eqb Ascii.eqb Bool.eqb];
    repeat match goal with
           | |- context [if excessive ?p then _ else _] =>
               destruct (excessive p)
           end;
    now rewrite ?field_value_fill, ?field_value_minimized,
      ?field_value_fill by assumption.
Qed.

Section Trailing.
Context `{Platform} (cfg : config).

(** An object without a [length] of its own. *)
Definition unread (w : world) (a : nat) : Prop :=
  exists fs, heap w !! a = Some (OObj fs []) /\ lookup_prop "length" fs = None.

(** An encrypted value from which [s] is recovered. *)
Definition sealed_text (w : world) (a : nat) (s : string) : Prop :=
  is_encrypted (heap w) (VRef a) = true
  /\ plaintext cfg (heap w) (VRef a) = Some s.

Lemma sealed_text_kept w w' a s :
  heap w' !! a = heap w !! a -> sealed_text w a s -> sealed_text w' a s.
Proof.
  unfold sealed_text, is_encrypted, plaintext, read. intros E.
  now rewrite E.
Qed.

(** The record at [l] holds the fields [ps0], but for those whose
    classification asks for encryption and which now refer to an object
    without a [length], the encrypted value of what the field held. *)
Definition resealed (ps0 : props) (l : nat) (w : world) : Prop :=
  exists ps,
    heap w !! l = Some (OObj ps [])
    /\ forall k,
         lookup_prop k ps = lookup_prop k ps0
         \/ (requires_encryption k = true
             /\ truthy (field_value k ps0) = true
             /\ exists a,
                  lookup_prop k ps = Some (VRef a) /\ a <> l /\ unread w a
                  /\ forall s, field_value k ps0 = VStr s ->
                                sealed_text w a s).

Lemma sealed_text_fresh s k w :
  sealed_text (RoundTrip.after_encrypt cfg s k w) (length (heap w)) s.
Proof.
  unfold sealed_text, is_encrypted, plaintext, RoundTrip.after_encrypt.
  cbn [heap truthy is_object_type andb]. rewrite !Store.read_fresh.
  cbn [RoundTrip.sealed_field own lookup_prop String.eqb Ascii.eqb Bool.eqb
       default id is_true].
  split; [reflexivity|]. unfold opened.
  now rewrite Hex.even_to_hex, !Hex.of_hex_to_hex, gcm_open_seal.
Qed.

Lemma encrypt_unread v k w :
  truthy v = true ->
  (exists fs t d,
     encrypt cfg v k w
     = Ok (VRef (length (heap w))) (World (heap w ++ [OObj fs []]) t d)
     /\ lookup_prop "length" fs = None
     /\ forall s, v = VStr s ->
                  sealed_text (World (heap w ++ [OObj fs []]) t d)
                    (length (heap w)) s)
  \/ encrypt cfg v k w = Ok v w.
Proof.
  intros T.
  destruct v; try discriminate T;
    try (unfold encrypt, try_catch, bind, JSON_stringify;
         destruct (stringify _ _ _ _) as [| |[s|]];
         try (right; reflexivity));
    try (left; eexists _, _, _; split; [reflexivity|];
         split; [reflexivity|]; intros s' E'; discriminate E').
  left. eexists _, _, _. split; [apply RoundTrip.encrypt_string|].
  split; [reflexivity|]. intros s' [= <-]. apply sealed_text_fresh.
Qed.

(** One round either leaves the store as it is or puts a new object
    without [length] under the field. *)
Lemma seal_step_effect l ps c w :
  heap w !! l = Some (OObj ps []) ->
  exists w',
    seal_step cfg (VRef l) c w = Ok tt w'
    /\ (w' = w
        \/ exists fs t d,
             w' = World (<[l := OObj (assign (field c)
                                        (VRef (length (heap w))) ps) []]>
                           (heap w ++ [OObj fs []])) t d
             /\ lookup_prop "length" fs = None
             /\ default false (encryptionRequired c) = true
             /\ truthy (field_value (field c) ps) = true
             /\ is_encrypted (heap w) (field_value (field c) ps) = false
             /\ forall s, field_value (field c) ps = VStr s ->
                          sealed_text w' (length (heap w)) s).
Proof.
  intros At. unfold seal_step.
  destruct (default false (encryptionRequired c)) eqn:Rq;
    [|eexists; split; [reflexivity|now left]].
  erewrite bind_ok by (apply (get_field l ps); exact At). cbv beta.
  set (v := field_value (field c) ps).
  destruct (truthy v) eqn:T; [|eexists; split; [reflexivity|now left]].
  erewrite bind_ok by apply AutoDecrypt.isEncrypted_read. cbv beta.
  destruct (is_encrypted (heap w) v) eqn:Ev; cbn [negb];
    [eexists; split; [reflexivity|now left]|].
  pose proof (lookup_lt_Some _ _ _ At) as Ll.
  destruct (encrypt_unread v (field c) w T)
    as [(fs & t & d & En & F & St)|En];
    erewrite bind_ok by exact En; cbv beta.
  - rewrite (set_field l ps) by find_object.
    eexists. split; [reflexivity|]. right. exists fs, t, d.
    split; [reflexivity|]. split; [exact F|]. split; [reflexivity|].
    split; [reflexivity|]. split; [reflexivity|].
    intros s Es. apply (sealed_text_kept (World (heap w ++ [OObj fs []]) t d)).
    + cbn [heap]. apply list_lookup_insert_ne. lia.
    + now apply St.
  - rewrite (set_field l ps) by exact At.
    assert (Same : assign (field c) v ps = ps).
    { unfold v, field_value in *.
      destruct (lookup_prop (field c) ps) as [x|] eqn:Lk;
        [now apply assign_same|discriminate T]. }
    rewrite Same. eexists. split; [reflexivity|]. left.
    destruct w as [h t d]. cbn [heap ticks draws] in *.
    now rewrite list_insert_id.
Qed.

Lemma seal_loop_unread ps0 l cs : forall w,
  Forall (fun c => default false (encryptionRequired c) = true ->
                   requires_encryption (field c) = true) cs ->
  resealed ps0 l w ->
  exists w',
    forM_ (seal_step cfg (VRef l)) cs w = Ok tt w' /\ resealed ps0 l w'.
Proof.
  induction cs as [|c cs IH]; intros w Fc R; [now exists w|].
  apply Forall_cons in Fc as [Pc Fc].
  destruct R as (ps & At & Sh).
  destruct (seal_step_effect l ps c w At) as (w1 & E1 & Eff).
  assert (R1 : resealed ps0 l w1).
  { destruct Eff as [->|(fs & t & d & -> & F & Rq & Tv & Ev & St)];
      [now exists ps|].
    pose proof (lookup_lt_Some _ _ _ At) as Ll.
    eexists. split.
    { cbn [heap]. apply list_lookup_insert_eq. rewrite length_app. lia. }
    intros k. rewrite lookup_assign.
    destruct (String.eqb_spec k (field c)) as [->|Nk].
    - right. split; [now apply Pc|]. split.
      { destruct (Sh (field c)) as [E|(_ & T0 & _)]; [|exact T0].
        unfold field_value in *. now rewrite <- E. }
      exists (length (heap w)). split; [reflexivity|].
      split; [lia|]. split.
      { exists fs. split; [|exact F]. cbn [heap].
        rewrite list_lookup_insert_ne by lia.
        now apply list_lookup_middle. }
      intros s E0.
      destruct (Sh (field c)) as [E|(_ & _ & a & E & _ & _ & S0)].
      + apply St. unfold field_value in *. now rewrite E.
      + destruct (S0 s E0) as [Enc _]. unfold field_value in Ev.
        rewrite E in Ev. cbn [default id] in Ev. congruence.
    - destruct (Sh k) as [E|(Rk & T0 & a & E & Na & (gs & Ag & G) & S0)];
        [now left|].
      assert (Keep : (<[l := OObj (assign (field c)
                                     (VRef (length (heap w))) ps) []]>
                        (heap w ++ [OObj fs []])) !! a
                     = heap w !! a).
      { rewrite list_lookup_insert_ne by congruence.
        apply lookup_app_l. now apply lookup_lt_Some in Ag. }
      right. split; [exact Rk|]. split; [exact T0|].
      exists a. split; [exact E|]. split; [exact Na|]. split.
      { exists gs. split; [|exact G]. cbn [heap]. now rewrite Keep. }
      intros s E0. apply (sealed_text_kept w); [exact Keep|now apply S0]. }
  destruct (IH w1 Fc R1) as (w2 & E2 & R2).
  exists w2. split; [|exact R2].
  cbn [forM_]. now erewrite bind_ok by exact E1.
Qed.

Lemma autoEncryptSensitiveFields_unread l ps {hs} qs w :
  heap w !! l = Some (OObj ps hs) ->
  exists w',
    autoEncryptSensitiveFields cfg (VRef l) (classify_props qs) w
    = Ok (VRef (length (heap w))) w'
    /\ resealed ps (length (heap w)) w'.
Proof.
  intros At. rewrite autoEncryptSensitiveFields_unfolded.
  set (cs := classify_props qs).
  assert (Fc : Forall (fun c => default false (encryptionRequired c) = true ->
                                requires_encryption (field c) = true) cs).
  { unfold cs, classify_props. apply List.Forall_map, Forall_forall.
    intros kv _ Rq. exact Rq. }
  erewrite bind_ok by (apply (spread_at l ps hs); exact At). cbv beta.
  set (w1 := World (heap w ++ [OObj ps []]) (ticks w) (draws w)).
  assert (R1 : resealed ps (length (heap w)) w1).
  { exists ps. split; [now apply list_lookup_middle|]. intros k. now left. }
  destruct (seal_loop_unread ps (length (heap w)) cs w1 Fc R1)
    as (w2 & E2 & R2).
  exists w2. split; [|exact R2].
  now erewrite bind_ok by exact E2.
Qed.

(** A field of the record [process] returns is as the laws left it,
    or, where its classification asks for encryption, refers to an
    object without [length] that the encryption pass put there. *)
Lemma process_fields data context w :
  returns (process cfg data context) w
    (fun r w' =>
       exists lf xs psf hs,
         RuleEngine.data r = VRef lf
         /\ length xs = length (determineApplicableLaws context)
         /\ heap w' !! lf = Some (OObj psf hs)
         /\ forall k,
              String.eqb k "_compliance" = false ->
              lookup_prop k psf
              = lookup_prop k
                  (laws_props context (determineApplicableLaws context) xs
                     (spread_props (heap w) data))
              \/ (autoEncrypt cfg = true /\ requires_encryption k = true
                  /\ truthy
                       (field_value k
                          (laws_props context
                             (determineApplicableLaws context) xs
                             (spread_props (heap w) data))) = true
                  /\ exists a,
                       lookup_prop k psf = Some (VRef a) /\ unread w' a)).
Proof.
  unfold process. run. run. run.
  set (ps0 := spread_props (heap w) data).
  set (n0 := length (heap w)).
  set (w1 := World (heap w ++ [OObj ps0 []]) (S (S (ticks w))) (draws w)).
  assert (At1 : heap w1 !! n0 = Some (OObj ps0 []))
    by (apply list_lookup_middle; reflexivity).
  apply returns_bind.
  eapply returns_weaken; [apply (laws_spec cfg context _ n0 ps0 [] w1 At1)|].
  intros [d a] wL (lL & xs & Hd & LL & Lx & Tx & AtL & Ha & GL & CL).
  cbn [fst snd] in Hd, Ha. subst d a. cbv beta iota.
  run_with ltac:(apply (classifyData_at lL _ [] wL AtL)).
  set (psL := laws_props context (determineApplicableLaws context) xs ps0)
    in *.
  apply returns_bind.
  match goal with
  | |- returns ?m _ _ =>
      assert (Stage : returns m wL
                (fun r wE =>
                   exists lE psE,
                     fst r = VRef lE
                     /\ heap wE !! lE = Some (OObj psE [])
                     /\ forall k,
                          lookup_prop k psE = lookup_prop k psL
                          \/ (autoEncrypt cfg = true
                              /\ requires_encryption k = true
                              /\ truthy (field_value k psL) = true
                              /\ exists a,
                                   lookup_prop k psE = Some (VRef a)
                                   /\ a <> lE /\ unread wE a)))
  end.
  { destruct (autoEncrypt cfg).
    - destruct (autoEncryptSensitiveFields_unread lL psL psL wL AtL)
        as (wE & EE & psE & AtE & ShE).
      apply returns_bind. eapply returns_eq; [exact EE|]. apply returns_ret.
      exists (length (heap wL)), psE. cbn [fst].
      split; [reflexivity|]. split; [exact AtE|].
      intros k.
      destruct (ShE k) as [E|(Rq & T0 & a & E & Na & U & _)]; [now left|].
      right. split; [reflexivity|]. split; [exact Rq|]. split; [exact T0|].
      now exists a.
    - apply returns_ret. exists lL, psL. cbn [fst].
      split; [reflexivity|]. split; [exact AtL|]. intros k. now left. }
  eapply returns_weaken; [exact Stage|].
  intros [d a2] wE (lE & psE & Hd & AtE & ShE).
  cbn [fst] in Hd. subst d. cbv beta iota. run.
  set (wD := World (heap wE) (S (ticks wE)) (draws wE)).
  apply returns_bind.
  eapply returns_weaken; [apply compliance_object_spec|].
  intros x wC (Fx & GC & CC). cbv beta.
  assert (AtC : heap wC !! lE = Some (OObj psE []))
    by (apply (grows_lookup wD wC); [exact GC|exact AtE]).
  run_with ltac:(apply (define_hidden_at lE psE [] "_compliance" x wC AtC)).
  set (wF := World _ (ticks wC) (draws wC)).
  destruct (checkForWarnings_returns lE wF) as (ws & EW).
  run_with ltac:(exact EW). run. apply returns_ret.
  cbn [RuleEngine.data heap].
  pose proof (lookup_lt_Some _ _ _ AtC) as LtC.
  exists lE, xs, (remove_key "_compliance" psE), (assign "_compliance" x []).
  split; [reflexivity|]. split; [exact Lx|].
  split; [now apply list_lookup_insert_eq|].
  intros k N. rewrite lookup_remove, N.
  destruct (ShE k) as [E|(AE & Rq & T0 & a & E & Na & (fs & Af & F))];
    [now left|].
  right. split; [exact AE|]. split; [exact Rq|]. split; [exact T0|].
  exists a. split; [exact E|]. exists fs. split; [|exact F].
  unfold wF. cbn [heap]. rewrite list_lookup_insert_ne by congruence.
  apply (grows_lookup wD wC); [exact GC|exact Af].
Qed.

Lemma lookup_prop_In k v ps : lookup_prop k ps = Some v -> In (k, v) ps.
Proof.
  induction ps as [|[k0 v0] ps IH]; cbn [lookup_prop]; [discriminate|].
  destruct (String.eqb_spec k k0) as [->|N].
  - intros [= ->]. now left.
  - intros E. right. now apply IH.
Qed.

End Trailing.
End Trail.

(** *** The warnings of [process] *)

Module Warnings.
Import JS Sys JSON Spec Reads Frame Fields Exec LawSteps RuleEngine.
Import Sealing Attach Passes Idempotence Trail.

(** The warnings of [checkForWarnings] for a record with the fields
    [ps], in the store [h]. *)
Definition warnings_of (h : list obj) (ps : props) : list warning :=
  let password := field_value "password" ps in
  let piiCount := length (List.filter is_high (classify_props ps)) in
  (if truthy password && less_than (read h password "length") 12
   then [weak_password] else [])
  ++ (if truthy (field_value "_complianceConsent" ps) then []
      else [missing_consent])
  ++ (if (3 <? piiCount)%nat then [excessive_pii piiCount] else []).

Lemma checkForWarnings_at l ps x w :
  heap w !! l = Some (OObj ps [("_compliance", x)]) ->
  checkForWarnings (VRef l) w = Ok (warnings_of (heap w) ps) w.
Proof.
  intros At.
  assert (R : forall k, String.eqb k "_compliance" = false ->
                        read (heap w) (VRef l) k = field_value k ps).
  { intros k N. unfold read, field_value. rewrite At. cbn [own lookup_prop].
    rewrite N. now destruct (lookup_prop k ps). }
  assert (P : spread_props (heap w) (VRef l) = ps)
    by (unfold spread_props; now rewrite At).
  unfold checkForWarnings, warnings_of, classifyData, entries, bind, ret.
  rewrite get_ref. cbv beta iota. rewrite R by reflexivity.
  destruct (truthy (field_value "password" ps)) eqn:T; cbn [andb].
  - rewrite (get_truthy _ "length" w T). cbv beta iota.
    destruct (less_than _ _); rewrite get_ref; cbv beta iota;
      rewrite R, P by reflexivity;
      destruct (truthy (field_value "_complianceConsent" ps));
      destruct (_ <? _)%nat; reflexivity.
  - rewrite get_ref. cbv beta iota. rewrite R, P by reflexivity.
    destruct (truthy (field_value "_complianceConsent" ps));
      destruct (_ <? _)%nat; reflexivity.
Qed.

(** The three warnings are told apart by their advice. *)
Lemma warning_among (x : warning) (a b c : bool) (n : nat) :
  In x ((if a then [weak_password] else [])
        ++ (if b then [] else [missing_consent])
        ++ (if c then [excessive_pii n] else []))
  <-> (a = true /\ x = weak_password)
      \/ (b = false /\ x = missing_consent)
      \/ (c = true /\ x = excessive_pii n).
Proof.
  rewrite !in_app_iff. destruct a, b, c; cbn [In]; intuition congruence.
Qed.

Lemma missing_consent_among (a b c : bool) (n : nat) :
  In missing_consent
    ((if a then [weak_password] else [])
     ++ (if b then [] else [missing_consent])
     ++ (if c then [excessive_pii n] else []))
  <-> b = false.
Proof.
  rewrite warning_among. split; [|tauto].
  intros [[_ E]|[[E _]|[_ E]]]; [|exact E|];
    apply (f_equal advice) in E; discriminate E.
Qed.

Lemma weak_password_among (a b c : bool) (n : nat) :
  In weak_password
    ((if a then [weak_password] else [])
     ++ (if b then [] else [missing_consent])
     ++ (if c then [excessive_pii n] else []))
  <-> a = true.
Proof.
  rewrite warning_among. split; [|tauto].
  intros [[E _]|[[_ E]|[_ E]]]; [exact E| |];
    apply (f_equal advice) in E; discriminate E.
Qed.

Section Warned.
Context `{Platform} (cfg : config).

(** The warnings [process] returns are those of the record it returns. *)
Lemma process_warned data context w :
  returns (process cfg data context) w
    (fun r w' =>
       exists t,
         checkForWarnings (RuleEngine.data r)
           (World (heap w') t (draws w'))
         = Ok (warnings r) (World (heap w') t (draws w'))).
Proof.
  unfold process. run. run. run.
  set (ps0 := spread_props (heap w) data).
  set (n0 := length (heap w)).
  set (w1 := World (heap w ++ [OObj ps0 []]) (S (S (ticks w))) (draws w)).
  assert (At1 : heap w1 !! n0 = Some (OObj ps0 []))
    by (apply list_lookup_middle; reflexivity).
  apply returns_bind.
  eapply returns_weaken; [apply (laws_spec cfg context _ n0 ps0 [] w1 At1)|].
  intros [d a] wL (lL & xs & Hd & LL & Lx & Tx & AtL & Ha & GL & CL).
  cbn [fst snd] in Hd, Ha. subst d a. cbv beta iota.
  run_with ltac:(apply (classifyData_at lL _ [] wL AtL)).
  apply returns_bind.
  eapply returns_weaken; [apply (encryption_stage cfg data lL _ _ wL AtL)|].
  intros [d a] wE (lE & psE & Hd & HlE & AtE & GE & Tags & ShE).
  cbn [fst snd] in Hd, Tags. subst d. cbv beta iota. run.
  set (wD := World (heap wE) (S (ticks wE)) (draws wE)).
  apply returns_bind.
  eapply returns_weaken; [apply compliance_object_spec|].
  intros x wC (Fx & GC & CC). cbv beta.
  assert (AtC : heap wC !! lE = Some (OObj psE []))
    by (apply (grows_lookup wD wC); [exact GC|exact AtE]).
  run_with ltac:(apply (define_hidden_at lE psE [] "_compliance" x wC AtC)).
  set (wF := World _ (ticks wC) (draws wC)).
  destruct (checkForWarnings_returns lE wF) as (ws & EW).
  run_with ltac:(exact EW). run. apply returns_ret.
  cbn [RuleEngine.data warnings heap draws]. exists (ticks wC). exact EW.
Qed.

End Warned.

(** X19. Which warnings [process] gives for a record. The warning that
    no explicit consent is recorded is given exactly when the record that
    came in has no truthy [_complianceConsent]: the consent that
    [process] itself records, and which the returned record always
    carries under [_consent], plays no part. A password that is a string
    is never warned of with [autoEncrypt], however short it is, since the
    check then reads the length of the sealed value; without
    [autoEncrypt] it is warned of exactly when it is not empty and its
    [length], in UTF-16 code units, is below 12. *)
Theorem process_warns `{Platform} (cfg : config) (l : nat) (ps hs : props)
    (C : RuleEngine.context) (w : world) :
  closed w -> is_record w (VRef l) -> heap w !! l = Some (OObj ps hs) ->
  exists r w',
    process cfg (VRef l) C w = Ok r w'
    /\ (In missing_consent (warnings r)
        <-> truthy (field_value "_complianceConsent" ps) = false)
    /\ truthy (read (heap w') (RuleEngine.data r) "_consent") = true
    /\ (forall s, field_value "password" ps = VStr s ->
        In weak_password (warnings r)
        <-> autoEncrypt cfg = false /\ s <> EmptyString
            /\ (Str.length s < 12)%nat).
Proof.
  intros Cw [D R0] At.
  destruct (process_spec cfg (VRef l) C w)
    as (r & w' & E & lf & psf & x & Hd & L & Atf & G & Sh).
  destruct (process_warned cfg (VRef l) C w) as (r' & w'' & E' & t & W).
  rewrite E in E'. injection E' as <- <-.
  rewrite <- List.Forall_map in R0.
  destruct (Sh Cw D R0) as (xs & psE & Lx & Tx & -> & K & Enc & _ & C').
  cbv zeta in *.
  assert (P : spread_props (heap w) (VRef l) = ps)
    by (unfold spread_props; now rewrite At).
  rewrite P in *.
  set (psL := laws_props C (determineApplicableLaws C) xs ps) in *.
  rewrite Hd in W.
  rewrite (checkForWarnings_at lf _ x) in W by exact Atf.
  injection W as W. cbn [heap] in W.
  exists r, w'. split; [exact E|]. split; [|split].
  - rewrite <- W. unfold warnings_of. rewrite missing_consent_among.
    rewrite field_value_remove. cbn [String.eqb Ascii.eqb Bool.eqb].
    now rewrite (kept_truthy _ psL psE K), (laws_keep _ C xs ps Lx)
      by reflexivity.
  - destruct (settled_kept C _ psE (settled_laws C xs _ Lx Tx) K)
      as (Sc & _).
    rewrite Hd. unfold read. rewrite Atf. cbn [own].
    unfold field_value in Sc.
    destruct (lookup_prop "_consent" (remove_key "_compliance" psE));
      [exact Sc|discriminate Sc].
  - intros s Pw. rewrite <- W. unfold warnings_of.
    rewrite weak_password_among.
    rewrite field_value_remove. cbn [String.eqb Ascii.eqb Bool.eqb].
    destruct (autoEncrypt cfg) eqn:AE.
    + split; [|intros [AF _]; discriminate AF]. intros Wk. exfalso.
      apply andb_prop in Wk as [Tp Lt].
      destruct (process_fields cfg (VRef l) C w)
        as (r2 & w2 & E2 & lf2 & xs2 & psf2 & hs2 & Hd2 & Lx2 & At2 & Sh2).
      rewrite E in E2. injection E2 as <- <-.
      rewrite Hd in Hd2. injection Hd2 as <-.
      rewrite Atf in At2. injection At2 as <- <-. rewrite P in Sh2.
      destruct (Sh2 "password" eq_refl)
        as [Same|(_ & _ & _ & a & Ea & fs & Af & F)].
      * pose proof (laws_keep "password" C xs2 ps Lx2 eq_refl eq_refl
                      eq_refl eq_refl) as Kp.
        rewrite Pw in Kp. unfold field_value in Kp.
        destruct (lookup_prop "password" (laws_props _ _ xs2 ps)) as [v|]
          eqn:Lk; [|discriminate Kp].
        cbn [default id] in Kp. subst v.
        rewrite lookup_remove in Same.
        cbn [String.eqb Ascii.eqb Bool.eqb] in Same.
        unfold field_value in Tp. rewrite Same in Tp. cbn [default id] in Tp.
        destruct s as [|c s]; [discriminate Tp|].
        destruct Enc as [U _].
        apply lookup_prop_In in Same.
        unfold unsealed in U. rewrite List.Forall_forall in U.
        specialize (U _ Same). cbn [fst snd] in U.
        unfold needs_sealing in U.
        assert (Rq : requires_encryption "password" = true) by reflexivity.
        rewrite Rq in U. discriminate U.
      * rewrite lookup_remove in Ea.
        cbn [String.eqb Ascii.eqb Bool.eqb] in Ea.
        unfold field_value in Lt. rewrite Ea in Lt. cbn [default id] in Lt.
        unfold read in Lt. rewrite Af in Lt. cbn [own] in Lt.
        rewrite F in Lt. discriminate Lt.
    + rewrite Enc. fold psL.
      rewrite (laws_keep _ C xs ps Lx), Pw by reflexivity.
      cbn [read String.eqb Ascii.eqb Bool.eqb less_than truthy].
      destruct s as [|c s]; cbn [andb];
        [split; [discriminate|intros (_ & N & _); now destruct N]|].
      destruct (Z.ltb_spec (Z.of_nat (Str.length (String c s))) 12)
        as [Lt|Ge].
      * split; [intros _|reflexivity].
        split; [reflexivity|]. split; [discriminate|lia].
      * split; [discriminate|intros (_ & _ & E0); lia].
Qed.

(** [process_warns] on the applicant of [Idempotence]. *)
Lemma process_warns_witness :
  exists r w',
    process (H := Toy.platform) Toy.cfg (VRef 0) registration applicant
    = Ok r w'
    /\ (In missing_consent (warnings r)
        <-> truthy (field_value "_complianceConsent"
                      (spread_props (heap applicant) (VRef 0))) = false)
    /\ truthy (read (heap w') (RuleEngine.data r) "_consent") = true
    /\ (forall s,
          field_value "password" (spread_props (heap applicant) (VRef 0))
          = VStr s ->
          In weak_password (warnings r)
          <-> autoEncrypt Toy.cfg = false /\ s <> EmptyString
              /\ (Str.length s < 12)%nat).
Proof.
  apply (process_warns (H := Toy.platform) Toy.cfg 0 _ [] registration
           applicant).
  - exact applicant_closed.
  - exact applicant_is_record.
  - reflexivity.
Defined.

End Warnings.

(** *** The consent that [process] records *)

Module Granted.
Import JS Sys JSON Spec Reads Frame Fields Exec LawSteps RuleEngine.
Import ConsentManager Sealing Attach Passes Idempotence Consents Ledgers.
Import Trail Warnings.

Section Granting.
Context `{Platform} (cfg : config).

(** A ledger at [a] whose current consent, at [c], was recorded with
    [options], the preferences being at [p]. *)
Definition ledger_at (a c p : nat) (options : consentOptions)
    (requester : requestContext) (w : world) : Prop :=
  exists ls cs at_,
    heap w !! a = Some (OObj ls [])
    /\ field_value "current" ls = VRef c
    /\ heap w !! c = Some (OObj cs [])
    /\ (forall k, In k ["specific"; "informed"; "unambiguous"; "recordedAt";
                        "purpose"; "canWithdraw"; "preferences"] ->
                  field_value k cs
                  = field_value k (consent_record cfg options requester at_ p))
    /\ at_ <> EmptyString
    /\ heap w !! p = Some (OObj (consent_preferences options) []).

Lemma ledger_at_kept a c p options requester w w' :
  (forall l o, l = a \/ l = c \/ l = p ->
               heap w !! l = Some o -> heap w' !! l = Some o) ->
  ledger_at a c p options requester w ->
  ledger_at a c p options requester w'.
Proof.
  intros K (ls & cs & at_ & Aa & Ec & Ac & Same & Ne & Ap).
  exists ls, cs, at_. split; [apply K; [tauto|exact Aa]|].
  split; [exact Ec|]. split; [apply K; [tauto|exact Ac]|].
  split; [exact Same|]. split; [exact Ne|]. apply K; [tauto|exact Ap].
Qed.

Lemma ledger_at_grows a c p options requester w w' :
  grows w w' ->
  ledger_at a c p options requester w ->
  ledger_at a c p options requester w'.
Proof.
  intros G. apply ledger_at_kept. intros l o _. now apply grows_lookup.
Qed.

Lemma ledger_at_touches l a c p options requester w w' :
  touches l w w' -> l <> a -> l <> c -> l <> p ->
  ledger_at a c p options requester w ->
  ledger_at a c p options requester w'.
Proof.
  intros T Na Nc Np. apply ledger_at_kept. intros l' o I.
  apply (touches_lookup l l' o w w' T). intuition congruence.
Qed.

(** What the ledger says of a record whose [_consent] is such a
    ledger. *)
Lemma valid_consent_ledger u a c p options requester t w :
  read (heap w) u "_consent" = VRef a ->
  ledger_at a c p options requester w ->
  hasValidConsent u t w
  = Ok (allows options (consent_preferences options) t) w.
Proof.
  intros R1 (ls & cs & at_ & Aa & Ec & Ac & Same & Ne & Ap).
  assert (N : is_nullish u = false)
    by (destruct u; try reflexivity; cbn in R1; discriminate R1).
  assert (R2 : read (heap w) (VRef a) "current" = VRef c)
    by now rewrite (read_fields w a ls).
  assert (R3 : forall k,
            In k ["specific"; "informed"; "unambiguous"; "recordedAt";
                  "purpose"; "canWithdraw"; "preferences"] ->
            read (heap w) (VRef c) k
            = field_value k (consent_record cfg options requester at_ p)).
  { intros k I. rewrite (read_fields w c cs) by exact Ac. now apply Same. }
  rewrite hasValidConsent_reads; [|exact N|].
  2: { left. unfold read_path. cbn [fold_left].
       rewrite R1, R2, R3 by (cbn; tauto). reflexivity. }
  f_equal. unfold valid_consent, compliant, read_path, allows.
  cbn [fold_left]. rewrite R1, R2.
  rewrite !R3 by (cbn; tauto).
  cbn [field_value consent_record lookup_prop String.eqb Ascii.eqb Bool.eqb
       default id truthy is_true not_false].
  rewrite (read_fields w p _) by exact Ap.
  destruct at_; [contradiction|].
  rewrite truthy_or_else by reflexivity. unfold asked.
  destruct (negb (value_eqb (specific options) (VBool false))),
    (negb (value_eqb (informed options) (VBool false))),
    (negb (value_eqb (unambiguous options) (VBool false))); reflexivity.
Qed.

(** The GDPR pass on a record without consent leaves a ledger behind. *)
Lemma applyLaw_gdpr_ledger context l ps w :
  heap w !! l = Some (OObj ps []) ->
  truthy (field_value "_consent" ps) = false ->
  toISOString (clock (ticks w)) <> EmptyString ->
  returns (applyLaw cfg (VRef l) "GDPR" context) w
    (fun r w' =>
       exists l' ps' a c p,
         fst r = VRef l'
         /\ heap w' !! l' = Some (OObj ps' [])
         /\ field_value "_consent" ps' = VRef a
         /\ ledger_at a c p (gdpr_options context) (gdpr_requester context) w'
         /\ l' <> a /\ l' <> c /\ l' <> p
         /\ (a < length (heap w'))%nat /\ (c < length (heap w'))%nat
         /\ (p < length (heap w'))%nat).
Proof.
  intros At F Ne. unfold applyLaw.
  change (String.eqb "GDPR" "GDPR") with true. cbv iota.
  pose proof (lookup_lt_Some _ _ _ At) as Ll.
  run_with ltac:(apply (spread_at l ps [] w At)).
  set (n := length (heap w)).
  set (w1 := World (heap w ++ [OObj ps []]) (ticks w) (draws w)).
  assert (At1 : heap w1 !! n = Some (OObj ps [])).
  { cbn [heap w1]. now apply list_lookup_middle. }
  run_with ltac:(apply get_field; exact At1).
  rewrite F. cbn [negb].
  apply returns_bind. apply returns_bind.
  eapply returns_eq;
    [apply (recordConsent_first cfg n ps (gdpr_options context)
              (gdpr_requester context) w1 At1 F)|].
  apply returns_ret. cbv beta iota.
  destruct (recorded_shape cfg n ps (gdpr_options context)
              (gdpr_requester context) w1 At1)
    as (_ & Len & Al & Ap & Ac & Ah & Aa).
  cbv zeta in *.
  set (wA := recorded cfg n ps (gdpr_options context)
               (gdpr_requester context) w1) in *.
  assert (Len1 : length (heap w1) = S n)
    by (unfold w1; cbn [heap]; rewrite length_app; cbn; lia).
  rewrite Len1 in *.
  assert (AtlA : heap wA !! l = Some (OObj ps [])).
  { unfold wA, recorded, w1. cbn [heap].
    rewrite list_lookup_insert_ne by (unfold n; lia).
    rewrite !lookup_app_l
      by (rewrite ?length_app; cbn [length]; unfold n; lia).
    exact At. }
  clearbody wA.
  run_with ltac:(apply (hasExcessiveData_at l ps wA AtlA)).
  apply returns_bind.
  eapply returns_weaken;
    [apply (minimize_stage context n _ (excessive ps) _ wA Al)|].
  intros [r a] wB (l2 & Hr & Hl2 & AtB & Ha & GB & CB).
  cbn [fst snd] in Hr, Ha. subst r a. cbv beta iota.
  run_with ltac:(apply get_field; exact AtB).
  apply returns_bind.
  eapply returns_weaken; [apply (deletion_stage l2 _ _ wB AtB)|].
  intros a wC (-> & y & Ty & AtC & TC & CC). cbv beta.
  apply returns_ret.
  pose proof (grows_length _ _ GB) as LB.
  pose proof (touches_length _ _ _ TC) as LC.
  assert (N2 : l2 <> (S n + 3)%nat /\ l2 <> (S n + 1)%nat /\ l2 <> S n)
    by (destruct Hl2 as [->| ->]; lia).
  destruct N2 as (N2a & N2c & N2p).
  eexists l2, _, (S n + 3)%nat, (S n + 1)%nat, (S n).
  cbn [fst]. split; [reflexivity|]. split; [exact AtC|].
  split; [|split; [|repeat split; lia]].
  - rewrite field_value_fill by reflexivity.
    destruct (excessive ps);
      rewrite ?field_value_minimized by reflexivity;
      apply field_value_assigned.
  - apply (ledger_at_touches l2 _ _ _ _ _ wB wC TC N2a N2c N2p).
    apply (ledger_at_grows _ _ _ _ _ wA wB GB).
    exists [("current", VRef (S n + 1)); ("history", VRef (S n + 2))],
      (consent_record cfg (gdpr_options context) (gdpr_requester context)
         (toISOString (clock (ticks w1))) (S n)),
      (toISOString (clock (ticks w1))).
    split; [exact Aa|]. split; [reflexivity|]. split; [exact Ac|].
    split; [reflexivity|]. split; [exact Ne|exact Ap].
Qed.

(** The laws after the GDPR leave the consent block alone. *)
Lemma laws_after_gdpr context :
  exists rest,
    determineApplicableLaws context = "GDPR" :: rest
    /\ forall xs ps,
         field_value "_consent" (laws_props context rest xs ps)
         = field_value "_consent" ps.
Proof.
  destruct (laws_cases context) as [E|[E|[E|E]]]; rewrite E;
    eexists; (split; [reflexivity|]); intros xs ps;
    destruct xs as [|[x y] [|[x' y'] xs]]; cbn [laws_props];
    unfold law_props; cbn [String.eqb Ascii.eqb Bool.eqb];
    rewrite ?field_value_fill by reflexivity; reflexivity.
Qed.

(** The record [process] returns for a record without consent carries
    the ledger of the GDPR pass. *)
Lemma process_ledger l ps hs context w :
  heap w !! l = Some (OObj ps hs) ->
  truthy (field_value "_consent" ps) = false ->
  toISOString (clock (S (S (ticks w)))) <> EmptyString ->
  returns (process cfg (VRef l) context) w
    (fun r w' =>
       exists a c p,
         read (heap w') (RuleEngine.data r) "_consent" = VRef a
         /\ ledger_at a c p (gdpr_options context) (gdpr_requester context)
              w').
Proof.
  intros At F Ne. unfold process.
  destruct (laws_after_gdpr context) as (rest & EL & Keep). rewrite EL.
  run. run. run.
  assert (P : spread_props (heap w) (VRef l) = ps)
    by (unfold spread_props; now rewrite At).
  rewrite P.
  set (n0 := length (heap w)).
  set (w1 := World (heap w ++ [OObj ps []]) (S (S (ticks w))) (draws w)).
  assert (At1 : heap w1 !! n0 = Some (OObj ps []))
    by (apply list_lookup_middle; reflexivity).
  apply returns_bind. cbn [foldM fst snd].
  apply returns_bind. apply returns_bind.
  eapply returns_weaken;
    [apply (applyLaw_gdpr_ledger context n0 ps w1 At1 F Ne)|].
  intros [d acts] wG
    (l' & ps' & a & c & p & Hd & AtG & Ec & Lg & Na & Nc & Np & La & Lc & Lp).
  cbn [fst] in Hd. subst d. cbv beta iota. apply returns_ret.
  eapply returns_weaken; [apply (laws_spec cfg context rest l' ps' _ wG AtG)|].
  intros [d a'] wL (lL & xs & Hd & LL & Lx & Tx & AtL & Ha & GL & CL).
  cbn [fst snd] in Hd, Ha. subst d a'. cbv beta iota.
  run_with ltac:(apply (classifyData_at lL _ [] wL AtL)).
  set (psL := laws_props context rest xs ps') in *.
  pose proof (grows_length _ _ GL) as LenL.
  assert (EcL : field_value "_consent" psL = VRef a)
    by (unfold psL; now rewrite Keep).
  apply returns_bind.
  match goal with
  | |- returns ?m _ _ =>
      assert (Stage : returns m wL
                (fun r wE =>
                   exists lE psE,
                     fst r = VRef lE
                     /\ heap wE !! lE = Some (OObj psE [])
                     /\ grows wL wE
                     /\ field_value "_consent" psE = VRef a
                     /\ lE <> a /\ lE <> c /\ lE <> p))
  end.
  { destruct (autoEncrypt cfg).
    - destruct (autoEncryptSensitiveFields_unread cfg lL psL psL wL AtL)
        as (wE & EE & psE & AtE & ShE).
      destruct (autoEncryptSensitiveFields_frame cfg (VRef lL)
                  (classify_props psL) wL)
        as (r0 & wE0 & Eq & _ & _ & GE).
      rewrite EE in Eq. injection Eq as <- <-.
      apply returns_bind. eapply returns_eq; [exact EE|]. apply returns_ret.
      exists (length (heap wL)), psE. cbn [fst].
      split; [reflexivity|]. split; [exact AtE|]. split; [exact GE|].
      split; [|lia].
      destruct (ShE "_consent") as [E|(Rq & _)]; [|discriminate Rq].
      unfold field_value in *. now rewrite E.
    - apply returns_ret. exists lL, psL. cbn [fst].
      split; [reflexivity|]. split; [exact AtL|].
      split; [apply grows_refl|]. split; [exact EcL|].
      destruct LL as [->|LL]; [tauto|lia]. }
  eapply returns_weaken; [exact Stage|].
  intros [d a2] wE (lE & psE & Hd & AtE & GE & EcE & NaE & NcE & NpE).
  cbn [fst] in Hd. subst d. cbv beta iota. run.
  set (wD := World (heap wE) (S (ticks wE)) (draws wE)).
  apply returns_bind.
  eapply returns_weaken; [apply compliance_object_spec|].
  intros x wC (Fx & GC & CC). cbv beta.
  assert (AtC : heap wC !! lE = Some (OObj psE []))
    by (apply (grows_lookup wD wC); [exact GC|exact AtE]).
  run_with ltac:(apply (define_hidden_at lE psE [] "_compliance" x wC AtC)).
  set (wF := World _ (ticks wC) (draws wC)).
  destruct (checkForWarnings_returns lE wF) as (ws & EW).
  run_with ltac:(exact EW). run. apply returns_ret.
  cbn [RuleEngine.data heap].
  pose proof (lookup_lt_Some _ _ _ AtC) as LtC.
  exists a, c, p. split.
  - unfold read, wF. cbn [heap].
    rewrite list_lookup_insert_eq by exact LtC. cbn [own].
    rewrite lookup_remove. cbn [String.eqb Ascii.eqb Bool.eqb].
    unfold field_value in EcE.
    destruct (lookup_prop "_consent" psE); [exact EcE|discriminate EcE].
  - apply (ledger_at_kept a c p _ _ wC).
    + intros k o I E. unfold wF. cbn [heap].
      rewrite list_lookup_insert_ne by intuition congruence. exact E.
    + apply (ledger_at_grows _ _ _ _ _ wD wC GC).
      apply (ledger_at_kept a c p _ _ wE); [intros k o _ E; exact E|].
      apply (ledger_at_grows _ _ _ _ _ wL wE GE).
      now apply (ledger_at_grows _ _ _ _ _ wG wL GL).
Qed.

(** What [hasValidConsent] answers, read off the store; [None] is the
    [TypeError] of a record that is [null] or [undefined], or of a
    compliant consent without preferences. *)
Definition verdict (h : list obj) (userData : value)
    (processingType : string) : option bool :=
  if is_nullish userData then None
  else
    let ledger := read h userData "_consent" in
    if negb (truthy ledger) then Some false
    else
      let consent := read h ledger "current" in
      if negb (compliant h consent) then Some false
      else if String.eqb processingType "necessary" then Some true
      else
        let preferences := read h consent "preferences" in
        if is_nullish preferences then None
        else Some (is_true (read h preferences
                              (preference_key processingType))).

Lemma hasValidConsent_verdict u t w :
  hasValidConsent u t w
  = match verdict (heap w) u t with
    | Some b => Ok b w
    | None => Throw "TypeError: cannot read properties" w
    end.
Proof.
  unfold hasValidConsent, verdict.
  destruct (is_nullish u) eqn:N.
  { now erewrite bind_throw by (apply get_nullish; exact N). }
  read_step N.
  set (ledger := read (heap w) u "_consent").
  destruct (truthy ledger) eqn:TL; cbn [negb]; [|reflexivity].
  read_step TL.
  set (consent := read (heap w) ledger "current").
  destruct (truthy consent) eqn:TC; cbn [negb].
  2: { unfold compliant. now rewrite TC. }
  destruct (Ledger.isGdprCompliantConsent_compliant consent w)
    as (r & E & Er).
  rewrite <- Er. erewrite bind_ok by exact E. cbv beta.
  destruct (truthy r); cbn [negb]; [|reflexivity].
  destruct (String.eqb t "necessary"); [reflexivity|].
  read_step TC.
  set (preferences := read (heap w) consent "preferences").
  destruct (is_nullish preferences) eqn:NP.
  - now erewrite bind_throw by (apply get_nullish; exact NP).
  - now read_step NP.
Qed.

(** The answer depends on the ledger alone, which a store that grows
    keeps. *)
Lemma verdict_grows w w' u u' t :
  closed w -> grows w w' ->
  is_nullish u' = is_nullish u ->
  in_range (length (heap w)) (read (heap w) u "_consent") ->
  read (heap w') u' "_consent" = read (heap w) u "_consent" ->
  verdict (heap w') u' t = verdict (heap w) u t.
Proof.
  intros C G N R E. unfold verdict. rewrite N, E.
  set (ledger := read (heap w) u "_consent") in *.
  assert (Rc : read (heap w') ledger "current"
               = read (heap w) ledger "current")
    by now apply (read_preserved (length (heap w))).
  rewrite Rc.
  set (consent := read (heap w) ledger "current").
  assert (Ic : in_range (length (heap w)) consent)
    by now apply read_in_range.
  assert (Same : forall k, read (heap w') consent k = read (heap w) consent k)
    by (intros k; now apply (read_preserved (length (heap w)))).
  unfold compliant. rewrite !Same.
  set (preferences := read (heap w) consent "preferences").
  assert (Ip : in_range (length (heap w)) preferences)
    by now apply read_in_range.
  now rewrite (read_preserved (length (heap w)) w w' preferences).
Qed.

(** The laws leave a consent that is there as it is, and report no
    recording. *)
Lemma laws_keep_consent context xs ps :
  length xs = length (determineApplicableLaws context) ->
  truthy (field_value "_consent" ps) = true ->
  field_value "_consent"
    (laws_props context (determineApplicableLaws context) xs ps)
  = field_value "_consent" ps
  /\ ~ In "gdpr_consent_recorded"
         (laws_actions context (determineApplicableLaws context) xs ps).
Proof.
  intros Lx T.
  destruct (laws_cases context) as [L'|[L'|[L'|L']]]; rewrite L' in *;
    repeat (destruct xs as [|[? ?] xs]; try discriminate Lx);
    cbn [laws_props laws_actions]; unfold law_props, law_actions;
    cbn [String.eqb Ascii.eqb Bool.eqb];
    rewrite T, ?(fill_id "_consent") by exact T;
    (split;
     [ repeat match goal with
              | |- context [if excessive ?p then _ else _] =>
                  destruct (excessive p)
              end;
       now rewrite ?field_value_fill, ?field_value_minimized,
         ?field_value_fill by reflexivity
     | rewrite !in_app_iff;
       repeat match goal with
              | |- context [if ?b then _ else _] => destruct b
              end;
       cbn [In]; intuition discriminate ]).
Qed.

End Granting.

(** What the consent of the GDPR pass allows: the answers of the
    context. *)
Definition context_grants (context : RuleEngine.context) (processingType : string)
    : bool :=
  String.eqb processingType "necessary"
  || String.eqb processingType "marketing"
     && bool_decide (marketingConsent context = Some true)
  || String.eqb processingType "analytics"
     && negb (bool_decide (analyticsConsent context = Some false))
  || String.eqb processingType "personalization"
     && bool_decide (personalizationConsent context = Some true).

Lemma allows_granted context t :
  allows (gdpr_options context) (consent_preferences (gdpr_options context)) t
  = context_grants context t.
Proof.
  unfold allows, context_grants, gdpr_options, preference_key, consent_preferences,
    field_value, asked.
  cbn [specific informed unambiguous value_eqb negb andb marketing analytics
       personalization thirdPartySharing internationalTransfer].
  destruct (String.eqb_spec t "necessary") as [->|N]; [reflexivity|].
  destruct (String.eqb_spec t "third_party_sharing") as [->|N1];
    [reflexivity|].
  destruct (String.eqb_spec t "international_transfer") as [->|N2];
    [reflexivity|].
  cbn [orb lookup_prop].
  rewrite (proj2 (String.eqb_neq _ _) N).
  destruct (String.eqb_spec t "marketing") as [->|N3].
  { destruct (marketingConsent context) as [[]|]; reflexivity. }
  destruct (String.eqb_spec t "analytics") as [->|N4].
  { destruct (analyticsConsent context) as [[]|]; reflexivity. }
  destruct (String.eqb_spec t "personalization") as [->|N5].
  { destruct (personalizationConsent context) as [[]|]; reflexivity. }
  cbn [andb orb].
  destruct (String.eqb t "thirdPartySharing"); [reflexivity|].
  destruct (String.eqb t "internationalTransfer"); reflexivity.
Qed.

(** X21. The consent [process] records on its own. For a record without
    consent, [hasValidConsent] answers on the record [process] returns
    as the context said: ['necessary'] is allowed, ['marketing'] and
    ['personalization'] when the context granted them, and ['analytics']
    unless the context refused it, so that a context that says nothing
    yields a consent to analytics. Nothing else is allowed. *)
Theorem process_grants `{Platform} (cfg : config) (l : nat) (ps hs : props)
    (C : RuleEngine.context) (processingType : string) (w : world) :
  heap w !! l = Some (OObj ps hs) ->
  truthy (field_value "_consent" ps) = false ->
  toISOString (clock (S (S (ticks w)))) <> EmptyString ->
  exists r w',
    process cfg (VRef l) C w = Ok r w'
    /\ hasValidConsent (RuleEngine.data r) processingType w'
       = Ok (context_grants C processingType) w'
    /\ (analyticsConsent C = None -> context_grants C "analytics" = true).
Proof.
  intros At F Ne.
  destruct (process_ledger cfg l ps hs C w At F Ne)
    as (r & w' & E & a & c & p & R & L).
  exists r, w'. split; [exact E|]. split.
  - rewrite (valid_consent_ledger cfg _ a c p _ _ processingType w' R L).
    now rewrite allows_granted.
  - intros A. unfold context_grants. rewrite A. reflexivity.
Qed.

(** [process_grants] on the applicant of [Idempotence]. *)
Lemma process_grants_witness :
  exists r w',
    process (H := Toy.platform) Toy.cfg (VRef 0) registration applicant
    = Ok r w'
    /\ hasValidConsent (RuleEngine.data r) "analytics" w'
       = Ok (context_grants registration "analytics") w'
    /\ (analyticsConsent registration = None ->
        context_grants registration "analytics" = true).
Proof.
  apply (process_grants (H := Toy.platform) Toy.cfg 0
           (spread_props (heap applicant) (VRef 0)) [] registration
           "analytics" applicant).
  - reflexivity.
  - reflexivity.
  - vm_compute. discriminate.
Defined.

(** X22. A consent that is there is left alone. For a record that has a
    [_consent], the record [process] returns holds the same ledger and
    [hasValidConsent] answers for it what it answered for the record
    that came in, or fails as it failed; no recording of consent is
    reported. A consent that was withdrawn is therefore not granted
    again by processing the record once more. *)
Theorem process_keeps_consent `{Platform} (cfg : config) (l : nat)
    (ps hs : props) (C : RuleEngine.context) (processingType : string)
    (w : world) :
  closed w -> is_record w (VRef l) -> heap w !! l = Some (OObj ps hs) ->
  truthy (field_value "_consent" ps) = true ->
  exists r w',
    process cfg (VRef l) C w = Ok r w'
    /\ read (heap w') (RuleEngine.data r) "_consent"
       = field_value "_consent" ps
    /\ match hasValidConsent (VRef l) processingType w with
       | Ok b _ =>
           hasValidConsent (RuleEngine.data r) processingType w' = Ok b w'
       | Throw e _ =>
           hasValidConsent (RuleEngine.data r) processingType w'
           = Throw e w'
       end
    /\ ~ In "gdpr_consent_recorded" (actions (compliance r)).
Proof.
  intros Cw [D R0] At T.
  destruct (process_spec cfg (VRef l) C w)
    as (r & w' & E & lf & psf & x & Hd & L & Atf & G & Sh).
  destruct (process_fields cfg (VRef l) C w)
    as (r2 & w2 & E2 & lf2 & xs2 & psf2 & hs2 & Hd2 & Lx2 & At2 & Sh2).
  rewrite E in E2. injection E2 as <- <-.
  rewrite Hd in Hd2. injection Hd2 as <-.
  rewrite Atf in At2. injection At2 as <- <-.
  rewrite <- List.Forall_map in R0.
  destruct (Sh Cw D R0) as (xs & psE & Lx & Tx & EpsF & K & Enc & Tags & C').
  cbv zeta in *.
  assert (P : spread_props (heap w) (VRef l) = ps)
    by (unfold spread_props; now rewrite At).
  rewrite P in *.
  destruct (laws_keep_consent C xs2 ps Lx2 T) as (Kc & _).
  destruct (laws_keep_consent C xs ps Lx T) as (_ & Na).
  assert (Lk : exists v, lookup_prop "_consent" ps = Some v
                         /\ field_value "_consent" ps = v).
  { unfold field_value in *.
    destruct (lookup_prop "_consent" ps) as [v|]; [now exists v|].
    discriminate T. }
  destruct Lk as (v & Lv & Ev). rewrite Ev in *.
  assert (Lf : lookup_prop "_consent" psf = Some v).
  { destruct (Sh2 "_consent" eq_refl) as [Same|(_ & Rq & _)];
      [|discriminate Rq].
    rewrite Same. unfold field_value in Kc.
    destruct (lookup_prop "_consent" (laws_props _ _ xs2 ps)) as [v'|];
      cbn [default id] in Kc; [now subst v'|].
    subst v. discriminate T. }
  assert (Rf : read (heap w') (VRef lf) "_consent" = v).
  { unfold read. rewrite Atf. cbn [own]. now rewrite Lf. }
  assert (R1 : read (heap w) (VRef l) "_consent" = v).
  { unfold read. rewrite At. cbn [own]. now rewrite Lv. }
  exists r, w'. split; [exact E|]. rewrite Hd.
  split; [exact Rf|]. split.
  - rewrite !hasValidConsent_verdict.
    rewrite (verdict_grows w w' (VRef l) (VRef lf) processingType Cw G
               eq_refl).
    + now destruct (verdict (heap w) (VRef l) processingType).
    + rewrite R1. pose proof (closed_fields w l ps hs Cw At) as F.
      exact (values_lookup _ "_consent" v ps F Lv).
    + now rewrite Rf, R1.
  - intros I. apply Tags in I as [I|I]; [now apply Na|discriminate I].
Qed.

(** A record whose consent was withdrawn altogether. *)
Definition withdrawn : world :=
  World
    [OObj [("email", VStr "a@b.com"); ("_consent", VRef 1)] [];
     OObj [("current", VRef 2); ("history", VRef 3)] [];
     OObj [("specific", VBool true); ("informed", VBool true);
           ("unambiguous", VBool true); ("recordedAt", VStr "T0");
           ("purpose", VStr "general_processing");
           ("canWithdraw", VBool true); ("preferences", VRef 4);
           ("withdrawn", VBool true)] [];
     OArr [];
     OObj withdrawn_preferences []]
    0 0.

Lemma withdrawn_closed : closed withdrawn.
Proof.
  intros l o Hl E. destruct l as [|[|[|[|[|l]]]]]; cbn in Hl, E; try lia;
    injection E as <-; cbn; repeat constructor; cbn; lia.
Qed.

Lemma withdrawn_is_record : is_record withdrawn (VRef 0).
Proof.
  split; cbn.
  - distinct.
  - repeat constructor; cbn; lia.
Qed.

(** [process_keeps_consent] on the withdrawn record, for marketing. *)
Lemma process_keeps_consent_witness :
  exists r w',
    process (H := Toy.platform) Toy.cfg (VRef 0) registration withdrawn
    = Ok r w'
    /\ read (heap w') (RuleEngine.data r) "_consent"
       = field_value "_consent"
           (spread_props (heap withdrawn) (VRef 0))
    /\ match hasValidConsent (VRef 0) "marketing" withdrawn with
       | Ok b _ =>
           hasValidConsent (RuleEngine.data r) "marketing" w' = Ok b w'
       | Throw e _ =>
           hasValidConsent (RuleEngine.data r) "marketing" w' = Throw e w'
       end
    /\ ~ In "gdpr_consent_recorded" (actions (compliance r)).
Proof.
  apply (process_keeps_consent (H := Toy.platform) Toy.cfg 0
           (spread_props (heap withdrawn) (VRef 0)) [] registration
           "marketing" withdrawn).
  - exact withdrawn_closed.
  - exact withdrawn_is_record.
  - reflexivity.
  - reflexivity.
Defined.

End Granted.

(** *** What [process] leaves of a record *)

Module Kept.
Import JS Sys JSON Spec Reads Frame Fields Exec LawSteps RuleEngine.
Import Sealing Attach Passes Idempotence Trail Warnings.

Lemma lookup_fill k k' x ps :
  String.eqb k k' = false ->
  lookup_prop k (fill k' x ps) = lookup_prop k ps.
Proof.
  intros N. unfold fill. destruct (truthy _); [reflexivity|].
  now rewrite lookup_assign, N.
Qed.

Lemma lookup_minimized k context ps :
  String.eqb k "gps" = false ->
  lookup_prop k (minimized context ps) = lookup_prop k ps.
Proof.
  intros N. unfold minimized. destruct (_ && _); [|reflexivity].
  now rewrite lookup_remove, N.
Qed.

(** The laws write to four fields only. *)
Lemma laws_keep_lookup k context xs ps :
  length xs = length (determineApplicableLaws context) ->
  String.eqb k "gps" = false -> String.eqb k "_consent" = false ->
  String.eqb k "_deletionMetadata" = false ->
  String.eqb k "_ccpaRights" = false ->
  lookup_prop k (laws_props context (determineApplicableLaws context) xs ps)
  = lookup_prop k ps.
Proof.
  intros Lx N1 N2 N3 N4.
  destruct (laws_cases context) as [L'|[L'|[L'|L']]]; rewrite L' in *;
    repeat (destruct xs as [|[? ?] xs]; try discriminate Lx);
    cbn [laws_props]; unfold law_props;
    cbn [String.eqb Ascii.eqb Bool.eqb];
    repeat match goal with
           | |- context [if excessive ?p then _ else _] =>
               destruct (excessive p)
           end;
    now rewrite ?lookup_fill, ?lookup_minimized, ?lookup_fill by assumption.
Qed.

(** When the laws drop [gps]. *)
Definition drops_gps (context : RuleEngine.context) (ps : props) : bool :=
  excessive ps
  && bool_decide (action context = Some "registration")
  && truthy (field_value "gps" ps).

Lemma laws_gps context xs ps :
  length xs = length (determineApplicableLaws context) ->
  has_key "gps"
    (laws_props context (determineApplicableLaws context) xs ps)
  = has_key "gps" ps && negb (drops_gps context ps).
Proof.
  intros Lx. unfold drops_gps.
  assert (G : forall x y,
            has_key "gps" (law_props context "GDPR" x y ps)
            = has_key "gps" ps
              && negb (excessive ps
                       && bool_decide (action context = Some "registration")
                       && truthy (field_value "gps" ps))).
  { intros x y. unfold law_props. cbn [String.eqb Ascii.eqb Bool.eqb].
    rewrite has_key_fill by reflexivity.
    destruct (excessive ps); cbn [andb negb];
      [|rewrite has_key_fill by reflexivity; now rewrite andb_true_r].
    unfold minimized. rewrite field_value_fill by reflexivity.
    destruct (bool_decide _ && truthy _); cbn [negb].
    - rewrite has_key_remove. cbn [String.eqb Ascii.eqb Bool.eqb].
      now rewrite andb_false_r.
    - rewrite has_key_fill by reflexivity. now rewrite andb_true_r. }
  destruct (laws_cases context) as [L'|[L'|[L'|L']]]; rewrite L' in *;
    repeat (destruct xs as [|[? ?] xs]; try discriminate Lx);
    cbn [laws_props];
    repeat first
      [ apply G
      | unfold law_props at 1; cbn [String.eqb Ascii.eqb Bool.eqb];
        rewrite ?has_key_fill by reflexivity ].
Qed.

(** X23. What [process] leaves of a record. Apart from [gps], the three
    blocks the laws attach and [_compliance], every field of the record
    that came in is a field of the record that comes out, with the same
    value, unless its classification asks for encryption, it holds a
    truthy value and [autoEncrypt] is on, in which case it refers to an
    object; and no other field is added. [gps] is dropped exactly when
    the record holds one of [socialSecurity], [driversLicense] and
    [passportNumber], the action is ['registration'] and [gps] is truthy:
    the fields that make the record excessive are themselves kept. *)
Theorem process_frame `{Platform} (cfg : config) (l : nat) (ps hs : props)
    (C : RuleEngine.context) (w : world) :
  heap w !! l = Some (OObj ps hs) ->
  exists r w' lf fields hidden,
    process cfg (VRef l) C w = Ok r w'
    /\ RuleEngine.data r = VRef lf
    /\ heap w' !! lf = Some (OObj fields hidden)
    /\ (forall k,
          ~ In k ["gps"; "_consent"; "_deletionMetadata"; "_ccpaRights";
                  "_compliance"] ->
          has_key k fields = has_key k ps
          /\ (lookup_prop k fields = lookup_prop k ps
              \/ (autoEncrypt cfg = true /\ requires_encryption k = true
                  /\ truthy (field_value k ps) = true
                  /\ exists a, lookup_prop k fields = Some (VRef a))))
    /\ has_key "gps" fields = has_key "gps" ps && negb (drops_gps C ps)
    /\ excessive fields = excessive ps.
Proof.
  intros At.
  destruct (process_fields cfg (VRef l) C w)
    as (r & w' & E & lf & xs & psf & hs' & Hd & Lx & Atf & Sh).
  assert (P : spread_props (heap w) (VRef l) = ps)
    by (unfold spread_props; now rewrite At).
  rewrite P in Sh.
  set (psL := laws_props C (determineApplicableLaws C) xs ps) in *.
  assert (Truthy_key : forall k qs,
            truthy (field_value k qs) = true -> has_key k qs = true).
  { intros k qs T. unfold field_value, has_key in *.
    now destruct (lookup_prop k qs). }
  assert (Others : forall k,
            ~ In k ["gps"; "_consent"; "_deletionMetadata"; "_ccpaRights";
                    "_compliance"] ->
            has_key k psf = has_key k ps
            /\ (lookup_prop k psf = lookup_prop k ps
                \/ (autoEncrypt cfg = true /\ requires_encryption k = true
                    /\ truthy (field_value k ps) = true
                    /\ exists a, lookup_prop k psf = Some (VRef a)))).
  { intros k N. cbn [In] in N.
    assert (N1 : String.eqb k "gps" = false)
      by (apply String.eqb_neq; intros ->; tauto).
    assert (N2 : String.eqb k "_consent" = false)
      by (apply String.eqb_neq; intros ->; tauto).
    assert (N3 : String.eqb k "_deletionMetadata" = false)
      by (apply String.eqb_neq; intros ->; tauto).
    assert (N4 : String.eqb k "_ccpaRights" = false)
      by (apply String.eqb_neq; intros ->; tauto).
    assert (N5 : String.eqb k "_compliance" = false)
      by (apply String.eqb_neq; intros ->; tauto).
    pose proof (laws_keep_lookup k C xs ps Lx N1 N2 N3 N4) as Kl.
    fold psL in Kl.
    destruct (Sh k N5) as [Same|(AE & Rq & T0 & a & Ea & _)].
    - rewrite Kl in Same. split; [|now left].
      unfold has_key. now rewrite Same.
    - assert (Tp : truthy (field_value k ps) = true)
        by (unfold field_value in *; now rewrite <- Kl).
      split.
      + rewrite (Truthy_key k ps Tp). unfold has_key. now rewrite Ea.
      + right. split; [exact AE|]. split; [exact Rq|]. split; [exact Tp|].
        now exists a. }
  exists r, w', lf, psf, hs'. split; [exact E|]. split; [exact Hd|].
  split; [exact Atf|]. split; [exact Others|]. split.
  - rewrite <- (laws_gps C xs ps Lx). fold psL.
    destruct (Sh "gps" eq_refl) as [Same|(_ & _ & T0 & a & Ea & _)].
    + unfold has_key. now rewrite Same.
    + rewrite (Truthy_key "gps" psL T0). unfold has_key. now rewrite Ea.
  - assert (Kk : forall k,
              In k ["socialSecurity"; "driversLicense"; "passportNumber"] ->
              has_key k psf = has_key k ps).
    { intros k I. apply Others. cbn [In] in *. intuition congruence. }
    unfold excessive. cbn [existsb].
    now rewrite !Kk by (cbn [In]; tauto).
Qed.

(** [process_frame] on the applicant of [Idempotence]. *)
Lemma process_frame_witness :
  exists r w' lf fields hidden,
    process (H := Toy.platform) Toy.cfg (VRef 0) registration applicant
    = Ok r w'
    /\ RuleEngine.data r = VRef lf
    /\ heap w' !! lf = Some (OObj fields hidden)
    /\ (forall k,
          ~ In k ["gps"; "_consent"; "_deletionMetadata"; "_ccpaRights";
                  "_compliance"] ->
          has_key k fields
          = has_key k (spread_props (heap applicant) (VRef 0))
          /\ (lookup_prop k fields
              = lookup_prop k (spread_props (heap applicant) (VRef 0))
              \/ (autoEncrypt Toy.cfg = true /\ requires_encryption k = true
                  /\ truthy
                       (field_value k
                          (spread_props (heap applicant) (VRef 0))) = true
                  /\ exists a, lookup_prop k fields = Some (VRef a))))
    /\ has_key "gps" fields
       = has_key "gps" (spread_props (heap applicant) (VRef 0))
         && negb (drops_gps registration
                    (spread_props (heap applicant) (VRef 0)))
    /\ excessive fields
       = excessive (spread_props (heap applicant) (VRef 0)).
Proof.
  apply (process_frame (H := Toy.platform) Toy.cfg 0
           (spread_props (heap applicant) (VRef 0)) [] registration
           applicant).
  reflexivity.
Defined.

End Kept.

(** ** Sealing a record and opening it again *)

Module Records.
Import JS Sys JSON Spec Reads Frame Parsing Fields Exec Decryption.
Import RuleEngine DataEncryptor Sealing Trail.



Section Sealed.
Context `{Platform} (cfg : config).


End Sealed.


End Records.

(** *** The round trip of numbers and booleans *)

Module Numbers.
Import JS Sys JSON Spec Reads Store DataEncryptor RoundTrip.

(** The number a run of decimal digits spells after [acc]. *)
Fixpoint uint_value (acc : Z) (d : Decimal.uint) : Z :=
  match d with
  | Decimal.Nil => acc
  | Decimal.D0 r => uint_value (10 * acc + 0) r
  | Decimal.D1 r => uint_value (10 * acc + 1) r
  | Decimal.D2 r => uint_value (10 * acc + 2) r
  | Decimal.D3 r => uint_value (10 * acc + 3) r
  | Decimal.D4 r => uint_value (10 * acc + 4) r
  | Decimal.D5 r => uint_value (10 * acc + 5) r
  | Decimal.D6 r => uint_value (10 * acc + 6) r
  | Decimal.D7 r => uint_value (10 * acc + 7) r
  | Decimal.D8 r => uint_value (10 * acc + 8) r
  | Decimal.D9 r => uint_value (10 * acc + 9) r
  end.

Lemma digits_of_uint d : forall acc,
  digits acc (NilEmpty.string_of_uint d) = (uint_value acc d, EmptyString).
Proof.
  induction d; intros acc; cbn [NilEmpty.string_of_uint uint_value];
    [reflexivity|..];
    (cbn [digits]; rewrite <- IHd; reflexivity).
Qed.

Lemma uint_value_acc d : forall acc,
  uint_value (Z.pos acc) d = Z.pos (Pos.of_uint_acc d acc).
Proof.
  induction d; intros acc; cbn [uint_value Pos.of_uint_acc];
    [reflexivity|..]; rewrite <- IHd; f_equal; lia.
Qed.

Lemma uint_value_of_uint d : uint_value 0 d = Z.of_N (Pos.of_uint d).
Proof.
  induction d; cbn [uint_value Pos.of_uint]; [reflexivity|exact IHd|..];
    cbn [Z.of_N]; rewrite <- uint_value_acc; reflexivity.
Qed.

Lemma to_uint_value p : uint_value 0 (Pos.to_uint p) = Z.pos p.
Proof.
  now rewrite uint_value_of_uint, DecimalPos.Unsigned.of_to.
Qed.

(** The decimal text of a positive number does not start with a zero. *)
Lemma to_uint_head p r : Pos.to_uint p <> Decimal.D0 r.
Proof.
  intros E.
  pose proof (DecimalPos.Unsigned.to_of (Pos.to_uint p)) as N.
  rewrite DecimalPos.Unsigned.of_to in N. cbn [N.to_uint] in N.
  rewrite E, unorm_D0 in N.
  destruct r as [| | | | | | | | | |] eqn:Er;
    try (assert (Nn : r <> Decimal.Nil) by (subst r; discriminate);
         pose proof (nb_digits_unorm r Nn) as Le; subst r;
         rewrite <- N in Le; cbn [Decimal.nb_digits] in Le; lia).
  apply (Unsigned.to_uint_nonzero p). exact E.
Qed.

(** The digits of a positive integer are read as a number without
    fraction or exponent. *)
Lemma number_of_uint p :
  number (NilZero.string_of_uint (Pos.to_uint p))
  = Some (Num.of_decimal false (Z.pos p) 0, EmptyString)
  /\ unsigned (NilZero.string_of_uint (Pos.to_uint p))
     = Some (Z.pos p, 0, EmptyString).
Proof.
  pose proof (to_uint_value p) as V.
  pose proof (Unsigned.to_uint_nonnil p) as Nn.
  pose proof (to_uint_head p) as Nz.
  destruct (Pos.to_uint p) as [|r|r|r|r|r|r|r|r|r|r];
    [contradiction|now destruct (Nz r)|..];
    cbn [uint_value] in V;
    unfold number, unsigned, natural;
    cbn [NilZero.string_of_uint NilEmpty.string_of_uint];
    (split;
     [ change (is_char _ "-") with false; cbv iota
     | ]);
    change (is_char _ "0") with false; cbv iota;
    change (Str.is_digit _) with true; cbv iota;
    cbn [digits];
    change (Str.is_digit _) with true; cbv iota;
    rewrite digits_of_uint; cbn [snd fst fraction exponent];
    rewrite <- V; reflexivity.
Qed.

Lemma lowest_shifted j : forall p,
  Num.lowest (Pos.shiftl_nat p j) j = (p, O).
Proof.
  induction j as [|j IH]; intros p; [now destruct p|].
  cbn [Pos.shiftl_nat nat_rect Num.lowest]. apply IH.
Qed.

Lemma shifted_value j p :
  Z.pos p * 2 ^ Z.of_nat j = Z.pos (Pos.shiftl_nat p j).
Proof.
  induction j as [|j IH]; [cbn; lia|].
  change (Pos.shiftl_nat p (S j)) with (xO (Pos.shiftl_nat p j)).
  rewrite Nat2Z.inj_succ, Z.pow_succ_r by lia.
  rewrite (Pos2Z.inj_xO (Pos.shiftl_nat p j)), <- IH. lia.
Qed.

(** An integer below [2 ^ 53] is a double. *)
Lemma nearest_integer p :
  Z.pos p < 2 ^ 53 -> Num.nearest (Z.pos p) 1 = inl (Z.pos p).
Proof.
  intros B. unfold Num.nearest.
  assert (Lk : 0 <= Z.log2 (Z.pos p) < 53).
  { split; [apply Z.log2_nonneg|]. apply Z.log2_lt_pow2; lia. }
  assert (Pk : 2 ^ Z.log2 (Z.pos p) <= Z.pos p)
    by (apply Z.log2_spec; lia).
  assert (Bn : Num.binade (Z.pos p) 1 = Z.log2 (Z.pos p)).
  { unfold Num.binade, Num.scaled. change (Z.log2 1) with 0.
    rewrite Z.sub_0_r.
    destruct (Z.leb_spec 0 (Z.log2 (Z.pos p))) as [_|]; [|lia].
    cbn [fst snd].
    destruct (Z.ltb_spec (Z.pos p) (1 * 2 ^ Z.log2 (Z.pos p))); lia. }
  rewrite Bn. set (k := Z.log2 (Z.pos p)) in *.
  rewrite Z.max_l by lia.
  assert (Ne : forall x, Num.nearest_even x 1 = x).
  { intros x. unfold Num.nearest_even.
    now rewrite Z.mod_1_r, Z.div_1_r. }
  destruct (Z.ltb_spec 971 (k - 52)) as [|_]; [lia|].
  destruct (Z.eqb_spec (k - 52) 971) as [|_]; [lia|]. cbn [orb andb].
  unfold Num.scaled.
  destruct (Z.leb_spec 0 (k - 52)) as [Ge|Lt]; cbn [fst snd].
  - replace (k - 52) with 0 by lia.
    change (1 * 2 ^ 0) with 1. rewrite Ne. f_equal. lia.
  - rewrite Ne.
    replace (- (k - 52)) with (Z.of_nat (Z.to_nat (52 - k))) by lia.
    rewrite shifted_value, Nat2Z.id, lowest_shifted. reflexivity.
Qed.

Lemma number_of_Z n :
  - 2 ^ 53 < n < 2 ^ 53 -> number (Str.of_Z n) = Some (inl n, EmptyString).
Proof.
  intros B. destruct n as [|p|p]; [reflexivity| |].
  - unfold Str.of_Z. cbn [Z.to_int NilZero.string_of_int].
    rewrite (proj1 (number_of_uint p)). unfold Num.of_decimal.
    cbn [Z.eqb Num.decimal Z.leb Z.compare fst snd].
    change (10 ^ 0) with 1. rewrite Z.mul_1_r.
    now rewrite nearest_integer by lia.
  - unfold Str.of_Z. cbn [Z.to_int NilZero.string_of_int].
    unfold number. change (is_char "-" "-") with true. cbv iota.
    rewrite (proj2 (number_of_uint p)). unfold Num.of_decimal.
    cbn [Z.eqb Num.decimal Z.leb Z.compare fst snd].
    change (10 ^ 0) with 1. rewrite Z.mul_1_r.
    now rewrite nearest_integer by lia.
Qed.

Lemma value_numeral f c r :
  Str.is_digit c || is_char c "-" = true ->
  value_ (S f) (String c r)
  = match number (String c r) with
    | Some (n, r') => Some (of_number n, r')
    | None => None
    end.
Proof.
  destruct c as [[] [] [] [] [] [] [] []]; try discriminate; reflexivity.
Qed.

Lemma of_Z_head n :
  exists c r,
    Str.of_Z n = String c r /\ Str.is_digit c || is_char c "-" = true.
Proof.
  destruct n as [|p|p]; [now exists "0"%char, EmptyString| |].
  - unfold Str.of_Z. cbn [Z.to_int NilZero.string_of_int].
    pose proof (Unsigned.to_uint_nonnil p) as Nn.
    destruct (Pos.to_uint p); [contradiction|..]; eexists _, _;
      split; reflexivity.
  - unfold Str.of_Z. cbn [Z.to_int NilZero.string_of_int].
    eexists _, _. split; reflexivity.
Qed.

(** The text [JSON.stringify] gives for an integer reads back as that
    integer. *)
Lemma parse_of_Z n :
  - 2 ^ 53 < n < 2 ^ 53 -> parse_text (Str.of_Z n) = Some (JNum n).
Proof.
  intros B. unfold parse_text.
  replace (2 * String.length (Str.of_Z n) + 2)%nat
    with (S (2 * String.length (Str.of_Z n) + 1))%nat by lia.
  pose proof (number_of_Z n B) as Nb.
  destruct (of_Z_head n) as (c & r & E & Hd). rewrite E in *.
  rewrite (value_numeral _ c r Hd), Nb. reflexivity.
Qed.

(** X20. An integer and a boolean survive the round trip: [decrypt
    (encrypt v)] is [v] again, of the same type. The integers are those
    a JavaScript number holds exactly. *)
Theorem decrypt_encrypt_number `{Platform} (cfg : config) (n : Z)
    (b : bool) (fieldName : string) (w : world) :
  - 2 ^ 53 < n < 2 ^ 53 ->
  (exists sealed w1,
     encrypt cfg (VNum n) fieldName w = Ok sealed w1
     /\ decrypt cfg sealed w1 = Ok (VNum n) w1)
  /\ (exists sealed w1,
        encrypt cfg (VBool b) fieldName w = Ok sealed w1
        /\ decrypt cfg sealed w1 = Ok (VBool b) w1).
Proof.
  intros B. split.
  - exists (VRef (length (heap w))),
      (after_encrypt cfg (Str.of_Z n) fieldName w).
    assert (T : Num.integer_text n = Str.of_Z n).
    { unfold Num.integer_text.
      destruct (Z.ltb_spec (Z.abs n) (2 ^ 53)); [reflexivity|lia]. }
    split.
    { unfold encrypt, try_catch, bind, JSON_stringify, stringify.
      rewrite T. reflexivity. }
    rewrite decrypt_encrypt_string. unfold try_catch, JSON_parse.
    now rewrite parse_of_Z.
  - exists (VRef (length (heap w))),
      (after_encrypt cfg (if b then "true" else "false") fieldName w).
    split; [now destruct b|].
    rewrite decrypt_encrypt_string. now destruct b.
Qed.

(** [decrypt_encrypt_number] at an age. *)
Lemma decrypt_encrypt_number_witness :
  (exists sealed w1,
     encrypt (H := Toy.platform) Toy.cfg (VNum 42) "age" Toy.empty
     = Ok sealed w1
     /\ decrypt (H := Toy.platform) Toy.cfg sealed w1 = Ok (VNum 42) w1)
  /\ (exists sealed w1,
        encrypt (H := Toy.platform) Toy.cfg (VBool true) "age" Toy.empty
        = Ok sealed w1
        /\ decrypt (H := Toy.platform) Toy.cfg sealed w1
           = Ok (VBool true) w1).
Proof.
  apply (decrypt_encrypt_number (H := Toy.platform) Toy.cfg 42 true "age"
           Toy.empty).
  lia.
Defined.

End Numbers.
